(* ===== verification/_CoqProject ===== *)
-Q . S2P
Prelude.v
GoStrings.v
StringFacts.v
GoFloats.v
Heap.v
Exchange.v
NetIP.v
Config.v
Torrc.v
GeoIP.v
Control.v
Session.v
Sha256.v
Network.v
Retry.v
Lifecycle.v
LifecycleFacts.v
LifecycleTheorems.v
HostRun.v
EngineLife.v
QemuArgs.v
Vm.v
Logging.v
Index.v
EncryptedIndex.v
Keys.v
Stopping.v
Update.v
CheckerRun.v
Secwatch.v
MonitorRun.v
Browser.v
Hnsw.v
HnswFacts.v
Coastlines.v
Globe.v
Relays.v
Reload.v
Circuits.v
AutoRefresh.v
LogView.v
LogTab.v
Panels.v
Observers.v
Rows.v
CircuitsPanel.v
BrowserPanel.v
Service.v
ServiceTab.v
Window.v
Watcher.v
Main.v
Metrics.v
Entry.v
Program.v
HnswTheorems.v
Tfidf.v
VectorIndex.v
Composite.v
EncryptedVector.v
