(* ===== verification/Prelude.v ===== *)
(** * TorVM controller: a verification development

    The program under [src/controller] (Go) runs Tor inside a QEMU virtual
    machine, routes the host's traffic through a TAP device into it, and gives
    the host's network back at the end.  This library models it package by
    package and proves what makes each part correct.  This file is its root:
    the overview, and the prelude all files share (Go errors and results,
    panics, tactics, hint databases, generic list lemmas).

    ** The program

    [cmd/torvm/main.go] detects the platform, loads a configuration (package
    [config]), applies the flags to it, checks it and starts the lifecycle
    engine (package [lifecycle]).  The engine walks a state machine: save the
    host's network (package [network]), create the TAP device, start QEMU
    (package [vm], with the arguments and the torrc overlay made from the
    configuration), wait for the TAP link, install the routes, wait for Tor to
    bootstrap over its control port (package [tor]), run until the machine
    exits or the context is done, shut down, restore the network.  Failures go
    through a retry policy.  Observers of the engine's states feed the metrics,
    the service manager's watchdog and the browser machine, which a security
    monitor watches ([lifecycle/browser.go], [secwatch]).  A watcher of the
    configuration file reloads the engine; the graphical interface ([gui])
    edits the same configuration in memory, shows circuits, logs and events,
    and starts and stops runs.  Beside these run a route verifier, loggers, an
    update checker, the service integration of three platforms, and a document
    index with keyword, vector and homomorphic search ([index],
    [vectorindex], [fhe]).

    ** Files

    - [GoStrings], [StringFacts], [GoFloats], [NetIP], [Sha256], [Heap]: the
      parts of Go's standard library the code computes with (strings, UTF-8,
      decimal numbers, binary64 and binary32 arithmetic, IP addresses, SHA-256
      and HMAC, [container/heap]), executable, and their lemma library.
      [Exchange]: the double-loop sort two packages write out.
    - [Config] ([config/config.go], [migrate.go], [diff.go]): the records, the
      defaults, [Validate] check by check, [Load] with the migration loop, [Diff].
    - [Torrc] ([config/torrc.go], [parseTorrcOverlay] of
      [lifecycle/lifecycle.go]): the overlay text and its reading back.
    - [GeoIP], [Control] ([tor/]): the country table; the control client as a
      state monad over the bytes written and the lines its [select] takes, the
      reader goroutine as a step function over its two bounded channels, every
      command and every parser.  [Session] ([tor/control.go]): the life of a
      connection, that is dialling, the reader with the channel that [Close]
      closes, and any number of calls of [Close], as moves of one interleaving.
    - [Network] ([network/]): the three platform managers and the verifier, as
      programs over a trace of host effects.
    - [Retry] ([lifecycle/retry.go]): states, error classes, the back-off in
      binary64 arithmetic.
    - [Lifecycle], [LifecycleFacts], [LifecycleTheorems]
      ([lifecycle/lifecycle.go], [failsafe.go]): the engine as a state monad
      over its fields and the history of its external calls; one definition
      per [do...] method, [handle] and [on_error] for the two halves of [Run].
      [HostRun]: the engine composed with the managers of [Network] on Linux
      and macOS (its network calls are answered by them, over one trace of the
      host).  [Reload]: the engine composed with the client of [Control] (its
      calls of Tor are answered by it, over the bytes of the connection).
      [EngineLife]: one engine with any number of runs, one after the other,
      and reloads and requests between their iterations.  [Observers]: who is
      told of its transitions, and when, and the status tab that is.
    - [QemuArgs], [Vm] ([vm/], [security/entropy.go]): both command lines, the
      state disk writer, finding, starting and stopping QEMU, the process
      goroutine interleaved with the callers, the QMP client.
    - [Logging] ([logging/]): level filter, ring writer, JSON writer.
      [LogTab]: a logger with its writers, the ring and the log tab composed,
      and the export of the log.
    - [Index] ([index/], [HashTerm] of [fhe]): tokenizer, inverted index,
      filters, directory walk.  [EncryptedIndex] ([index/encrypted.go],
      [query.go], [fhe/encrypt.go], [compare.go]): paged homomorphic search.
    - [Hnsw], [HnswFacts], [HnswTheorems] ([vectorindex/hnsw.go]): the layered
      nearest-neighbour graph, over two heaps; [Tfidf]
      ([embedder_tfidf.go]), [VectorIndex] ([vectorindex.go]): documents over
      the graph, for any embedder; [Composite] ([index/composite.go]): keyword
      and vector search fused.
    - [Keys] ([fhe/params.go], [keys.go]): generating, saving and loading
      homomorphic keys; [EncryptedVector] ([fhe/vector_encrypt.go],
      [vector_compare.go], [index/encrypted_vector.go]): quantised vectors,
      their encrypted products, the replica search.
    - [Update] ([update/checker.go]); [Secwatch] ([secwatch/]); [Browser]
      ([lifecycle/browser.go] with [vm/browser.go]): version order, event
      history, and the goroutines of the browser engine as one step function.
      [Stopping]: interleavings of moves and the [Stop] of goroutines with a
      [done] channel, shared by [CheckerRun] ([update/checker.go]) and
      [MonitorRun] ([secwatch/monitor.go]), which have the checker and the
      monitor whole: loops, registrations and stops in any order.
    - [Coastlines], [Globe] ([gui/coastlines.go], [globe.go]): the globe pixel
      by pixel.  [Relays], [Circuits] ([relays_tab.go], [circuits_tab.go]): the
      buttons that exclude relays, over the engine of [Lifecycle], and the
      resolution of circuits over the client of [Control].  [AutoRefresh]: the
      polling goroutines of the circuits tab and the box that starts and stops
      them.  [LogView]
      ([widgets.go]): the log view over a store of arrays its slices share.
      [Panels] (the other tabs, [systray.go], [app.go]): what their handlers
      write, and the runs the start button makes.  [Rows] (the list widgets,
      the relays tab whole), [CircuitsPanel], [BrowserPanel] (those tabs whole,
      the latter over the steps of [Browser]): operations in any order, with
      rows that keep what the last update put into them.  [Window] ([Run] of
      [app.go], [settings_tab.go]): the window's size in the preferences, the
      title of the settings tab.
    - [Service] ([launchd], [systemd], [winsvc]): programs over a trace of
      calls, one Module per platform; [ServiceTab] ([app.go],
      [service_tab*.go]): the application's state, its service mode and status
      polling, the service tab of each platform; [Watcher]
      ([config/watcher.go]): the debounced loop over timed inputs and its
      callback; [Main] ([cmd/torvm/main.go], [platform], [metrics]): flags,
      overrides, observers, the health report, the counters; [Entry]
      ([cmd/torvm/]): what [main] does after its flags, mode by mode, as a
      process that acquires resources and releases them by [defer]; [Program]:
      that process with the engine it runs, over the host of [HostRun]; [Metrics]
      ([metrics/]): the collectors and the registry, the uptime goroutine.

    ** How code is modelled

    A function that returns an error returns [result]; where the code can
    panic, or block for ever, the model returns an [option], an [outcome] or a
    constructor of its own, and theorems say when that happens.  A Go string
    is a byte string, an [int64] or a duration a [Z] with its bounds, a
    [float64] or [float32] a [SpecFloat] of that precision.  A slice that
    [reflect.DeepEqual] compares keeps nil apart from empty; where slices share
    an array and are written through, the arrays are a store ([LogView]).
    Effects are histories: a call is answered by an environment that sees what
    was done before, so a theorem over all environments is one over all
    behaviours of the outside.  Goroutines are executable step functions run
    over explicit interleavings.  Pointers to the configuration held by two
    owners are one value while they are equal ([Relays], [Panels]).  Locks do
    not appear: each step of a model is what the code does inside one critical
    section or between two blocking points.

    ** Interfaces

    Code outside the repository is an argument, a type class without an
    axiom: [ConfigIO] (files and JSON), [FileSys], [Random], [Lookup] (PATH
    and symbolic links), [Host] (commands), [Conn] and [QMPConn] (sockets),
    [Env] (everything the engine calls), [Out] (a writer), [EventCodec],
    [UnicodeTables], [FoldTables], [LetterTables], [Normalizer] (Unicode),
    [Machine] (the service managers), [Probes] (of the platform), [Faults]
    (of the disk), [BGV], [KeyLib], [VectorLib] (homomorphic library),
    [Cipher], [Ranking] (map order and [sort.Slice]).  Laws are classes of
    their own and state documented behaviour: [BGVLaws], [KeyLibLaws],
    [VectorLaws], [CipherLaws], [RankingLaws]; the witnesses of the theorems
    that use them instantiate them.  Every other theorem holds for any
    instance.  [Embedder] with [EmbedderLaws] is the program's own interface:
    [VectorIndex], [Composite] and [EncryptedVector] are proved against it,
    [Tfidf] gives the embedder that implements it.

    ** What is proved

    - Engine: a run that returns nil made the calls that stop the machine, tear
      routing down, restore the saved network and destroy the TAP, in this
      order (what they answered is not looked at, as in the code), and one that
      returns an error made no call that sets anything up ([Run_restores]); it
      terminates ([Run_terminates]) along the state diagram ([Run_follows]), as
      any sequence of runs and requests does ([life_follows]), of which nothing
      sets anything up once a run returned nil ([restart_does_nothing]);
      observers hear every transition once ([observer_hears]); a
      cancelled one never restores ([cancelled_run_never_restores]) and panics
      in its watchdog observer ([cancelled_observer_panics]); a crash tears
      routing down before anything else ([crash_activates_failsafe]); a reload
      is atomic ([ReloadConfig_atomic]) but moves the TAP ([reload_moves_tap])
      and forgets what was detected ([reload_forgets_capabilities]).
    - Composition: whatever a run meets, on Linux and macOS it leaves no route
      of its own if deletions work, and hands to the manager only a
      configuration that the manager accepts as its own
      ([run_leaves_no_route]); a reload writes the SETCONF line of the changed
      overlay and the reload signal, and nothing else ([reload_sends]), where
      a value of several words is read as options of its own
      ([values_become_options]); a line that is logged reaches every writer,
      the ring and the open tab ([view_follows_log]).
    - Process: a program that ends with status 0 released everything it had
      acquired in reverse order, one whose run failed released nothing
      ([process_releases]), and on Linux and macOS, if the run returned and
      deleting routes works, the status of the headless program says which
      calls were made, and no route is left ([headless_exit_status]); metrics are those of the run's transitions
      ([metrics_of_run]) and never count the failsafe
      ([failsafe_never_recorded]); registering twice panics ([register_once]).
    - Injection safety: one control line per command
      ([command_no_injection]), one directive per overlay line
      ([TorrcOverlay_no_injection]), the intended kernel parameters
      ([kernel_cmdline_words]), quoted debugfs requests
      ([state_disk_no_injection]), a script literal that ends where it should
      ([escape_stays_inside]), only known-safe netsh dumps
      ([windows_restore_safe]), QEMU only from allowed directories with
      exactly the built arguments ([resolved_binary_allowed],
      [start_runs_built_args]); and where it fails
      ([drive_option_injection], [journal_lines]).
    - Configuration: [Validate] against a declarative specification
      ([Validate_iff]), [Load] ([Load_valid], [Load_null_panics]), [Diff]
      ([Diff_no_changes]), acceptance of the overlay ([TorrcOverlay_accepts]),
      the configuration a flag set gives ([main_config]), the debounce of the
      watcher ([watcher_debounces]).
    - Tor client: the demultiplexer under any interleaving
      ([readLoop_demux]), the end of its reader once [Close] has closed the
      connection under it ([closing_ends_reader]), replies one command late after a timeout
      ([late_replies_shift]), round trips of GETINFO, circuits and bootstrap
      status, and the loss of multi-line data ([GetCircuits_data_lost]).
    - Processes: at most one QEMU and one browser machine in every
      interleaving ([one_process], [one_browser]); exits that reach the wrong
      waiter ([stale_exit_reaches_wait], [remediation_blocks_run]); the
      monitor that never watches a second run ([second_run_unwatched]).
    - Network: integrity round trip ([saved_config_accepted]), the verifiers
      against the routes ([linux_verify_after_setup], [darwin_verifyRoutes_spec]).
    - Search: the invariant of the graph, with termination and no panic, under
      any insertions ([insert_keeps_graph]); what a search returns
      ([search_sound]), all of it in a small index ([small_index_exact]);
      documents ([document_search]); exact keyword search ([query_exact]);
      fused search ([composite_search], [hybrid_fusion]); encrypted keyword
      search equal to the plain one ([encrypted_search]); encrypted dot
      products without overflow ([dot_product_exact]), the replica against its
      plain scores ([search_replica]); keys through the disk
      ([keys_roundtrip]).
    - Interface: outside service mode a status tab in step with the engine,
      one call of its observer behind at most ([status_follows_engine]); rows whose buttons act on what they show
      ([rows_act_on_what_they_show]); a circuits tab that shows one state of
      the circuits and acts on the selected row ([circuits_tab_in_step]),
      where a poll may have put another circuit than was selected
      ([close_takes_other]); a browser tab whose monitors report the events
      since it was told of the start of the machine ([browser_tab_truth]), not
      those before ([early_event_wiped]), and that can be told of two
      transitions in the wrong order ([calls_cross]); the title
      that marks unsaved settings ([settings_title_marks],
      [early_change_unmarked]); a window that opens as it was closed
      ([window_reopens]); straight lines and filled discs ([drawLine_straight],
      [drawDot_disc]), a frame whenever the projected points are near the
      screen ([renderFrame_total]), the globe's paths against the circuits
      ([globe_shows_circuits]), lists and forms that keep the configuration
      valid ([tab_keeps_relays_valid], [settings_keep_valid]) or do not
      ([blocked_unchecked], [proxy_choice_invalid]), blocked relays that are not pushed
      ([block_not_pushed]) or come back ([stale_block_reverts]), the log view
      ([refresh_shows_filtered], [level_filter_overwrites]), polling that ends
      when its box is unticked ([auto_refresh_stops]), one run at a time
      without a stop ([one_run_without_stop]) and two with one
      ([stop_then_start_loses_run]).
    - Services, logging, update: the protocol of the Windows service
      ([execute_protocol]), checked installation ([install_checked]), an
      application that leaves the machine to an installed unit
      ([installed_unit_locks], [poll_writes_back]), the ring
      that keeps the last lines ([ring_keeps_last]), one JSON object per
      line of an entry, so that a message of several lines can forge entries
      ([json_log_faithful]), the version order
      ([compareVersions_order]), the event history ([history_recent]), what
      checker and monitor tell their observers ([checker_refines_loop],
      [monitor_delivers]), how they end ([checker_can_stop],
      [stop_ends_monitor]), when they do not ([stop_misses_dial]) and when they
      panic ([checker_panics_by_race], [monitor_panics_by_race]).

    ** Fuel

    [Run] takes the number of loop iterations: [Run_terminates] shows 24 are
    enough with a well-behaved clock (thirteen phases and the eleven retries of
    the default policy); a cancelled run exhausts any number.  The polling loops
    take 11 and 34 iterations ([tap_fuel], [bootstrap_fuel]: the back-off
    reaches the deadline before that, which the same theorem uses); [Spins]
    is the outcome of a clock that does not advance.  The migration loop takes
    one iteration per version up to [ConfigVersion]; line loops the length of
    their data; the pages of an encrypted index the number of hashes; decimal
    printing, IPv6 parsing and SHA-256 their input's length.  The sift loops of
    a heap take its length; the beam and the greedy descent of the graph the
    number of nodes and one (a turn of the beam takes a candidate out that never
    comes back, a turn of the descent comes strictly closer); Bresenham's loop
    the sum of the distances and one, which is enough as long as no coordinate
    wraps around; a loop over decimal digits one turn per
    bit.  [outcome] keeps running out of fuel apart ([NoFuel]) from a panic
    ([Panic]), and [returns] excludes both.

    ** Not modelled

    The graphics toolkit, the layout and drawing of widgets, and the tray icon;
    lattice arithmetic; sockets and files below the interfaces above; the log
    output of the engine; two runs of one engine at once (Start after Stop,
    while the cancelled run still loops), and a reload inside an iteration; a
    second run of the browser engine beside one that has not returned; two
    calls at once of one callback of the browser tab; timers that fire late
    ([Watcher]); what the metrics library does beyond refusing a
    second registration, and HTTP itself; the guest images, the mobile programs
    and the legacy implementation, which are not Go. *)

From stdpp Require Export base option list gmap strings.
From Stdlib Require Export ZArith Lia Ascii.
#[export] Set Default Goal Selector "!".
#[export] Set Warnings "-clear-no-such-hyp".

(** ** Errors and results

    A Go [error] value.  The two sentinel values of package [context] are
    compared by identity in the code ([err == context.DeadlineExceeded]), so
    they are constructors of their own; every [fmt.Errorf] value is its text
    (the text of a [%w]-wrapped error contains the wrapped one's). *)
Inductive error :=
  | DeadlineExceeded
  | Canceled
  | Errorf (msg : string).

(** [err.Error()]. *)
Definition Error (e : error) : string :=
  match e with
  | DeadlineExceeded => "context deadline exceeded"
  | Canceled => "context canceled"
  | Errorf m => m
  end.

#[export] Instance error_eq_dec : EqDecision error.
Proof. solve_decision. Defined.

(** [(value, error)] pairs of Go functions that return a value exactly when
    the error is nil; [result unit] is a function that returns an [error]. *)
Inductive result (A : Type) :=
  | Ok (a : A)
  | Err (e : error).
Arguments Ok {A} a.
Arguments Err {A} e.

Declare Scope torvm_scope.
Delimit Scope torvm_scope with torvm.
Open Scope torvm_scope.

#[export] Instance result_ret : MRet result := fun A a => Ok a.
#[export] Instance result_bind : MBind result := fun A B f m =>
  match m with Ok a => f a | Err e => Err e end.

(** [if err := m; err != nil { return fmt.Errorf("<prefix>: %w", err) }]. *)
Definition wrap {A} (prefix : string) (m : result A) : result A :=
  match m with
  | Ok a => Ok a
  | Err e => Err (Errorf (prefix +:+ ": " +:+ Error e))
  end.

(** [if cond { return fmt.Errorf(msg) }]. *)
Definition fail_if (cond : bool) (msg : string) : result unit :=
  if cond then Err (Errorf msg) else Ok tt.

(** A [for ... range] loop whose body returns at the first error. *)
Fixpoint each {A} (f : A -> result unit) (l : list A) : result unit :=
  match l with
  | [] => Ok tt
  | x :: l' => match f x with Ok _ => each f l' | Err e => Err e end
  end.

Definition is_ok {A} (m : result A) : bool :=
  match m with Ok _ => true | Err _ => false end.

(** ** Panics and loops

    The outcome of code that can panic (an index out of range, a slice of
    negative length) and that runs loops on fuel. *)
Inductive outcome (A : Type) :=
  | Ret (a : A)
  | Panic
  | NoFuel.
Arguments Ret {A} a.
Arguments Panic {A}.
Arguments NoFuel {A}.
#[export] Instance outcome_ret : MRet outcome := fun A a => Ret a.
#[export] Instance outcome_bind : MBind outcome := fun A B f m =>
  match m with Ret a => f a | Panic => Panic | NoFuel => NoFuel end.

(** [l[i]]. *)
Definition at_ {A} (l : list A) (i : nat) : outcome A :=
  match l !! i with Some a => Ret a | None => Panic end.
(** [l[i] = x]. *)
Definition set_at {A} (l : list A) (i : nat) (x : A) : outcome (list A) :=
  if decide (i < length l) then Ret (<[i := x]> l) else Panic.

(** Total correctness: [m] returns, and its value satisfies [P]. *)
Definition returns {A} (m : outcome A) (P : A -> Prop) : Prop := match m with Ret a => P a | _ => False end.

(** ** Tactics *)

(** Case on the first [if]/[match] scrutinee of the goal or of a hypothesis. *)
Ltac case_goal :=
  match goal with
  | |- context [match ?x with _ => _ end] => destruct x eqn:?
  end.
Ltac case_hyp H :=
  match type of H with
  | context [match ?x with _ => _ end] => destruct x eqn:?
  end.
(** Split conjunctions of booleans and decide the integer comparisons. *)
Ltac bool_simpl :=
  repeat match goal with
  | H : andb _ _ = true |- _ => apply andb_true_iff in H as [? ?]
  | H : orb _ _ = false |- _ => apply orb_false_iff in H as [? ?]
  | H : negb _ = true |- _ => apply negb_true_iff in H
  | H : negb _ = false |- _ => apply negb_false_iff in H
  end.
Ltac bool_lia :=
  repeat match goal with
  | |- andb _ _ = true => apply andb_true_iff; split
  | |- orb _ _ = false => apply orb_false_iff; split
  end; bool_simpl; lia.

Create HintDb torvm.
Create Rewrite HintDb torvm.

(** ** Generic facts on results and lists *)

Section Results.
Context {A : Type}.

Lemma each_ok (f : A -> result unit) (l : list A) :
  each f l = Ok tt <-> Forall (fun x => f x = Ok tt) l.
Proof.
  induction l as [|x l IH]; simpl; [split; auto|].
  rewrite Forall_cons, <- IH.
  destruct (f x) as [[]|e]; split; [tauto|tauto|done|by intros [? ?]].
Qed.

Lemma each_err (f : A -> result unit) (l : list A) (e : error) :
  each f l = Err e ->
  exists l1 x l2, l = l1 ++ x :: l2 /\ Forall (fun y => f y = Ok tt) l1 /\ f x = Err e.
Proof.
  induction l as [|x l IH]; simpl; [done|].
  destruct (f x) as [[]|e'] eqn:Hf.
  - intros (l1 & y & l2 & -> & Hall & Hy)%IH.
    exists (x :: l1), y, l2. split; [done|]. split; [by constructor|done].
  - intros [= ->]. exists [], x, l. by split; [|split; [constructor|]].
Qed.

Lemma seq_ok (m1 m2 : result unit) :
  (m1 ;; m2) = Ok tt <-> m1 = Ok tt /\ m2 = Ok tt.
Proof. destruct m1 as [[]|]; split; [tauto|tauto|done|by intros [? ?]]. Qed.

Lemma is_ok_seq (m1 : result unit) (m2 : result A) :
  is_ok (m1 ;; m2) = true <-> m1 = Ok tt /\ is_ok m2 = true.
Proof. destruct m1 as [[]|]; split; [tauto|tauto|done|by intros [? ?]]. Qed.

Lemma fail_if_ok (b : bool) (m : string) : fail_if b m = Ok tt <-> b = false.
Proof. by destruct b. Qed.

Lemma wrap_ok (p : string) (m : result A) (a : A) : wrap p m = Ok a <-> m = Ok a.
Proof. by destruct m. Qed.
End Results.

#[export] Hint Rewrite @each_ok @seq_ok @fail_if_ok @wrap_ok : torvm.

(** ** Lists *)

(** The last [n] elements. *)
Definition last_n {A} (n : nat) (l : list A) : list A := drop (length l - n) l.

Lemma last_n_short {A} (n : nat) (l : list A) : length l <= n -> last_n n l = l.
Proof. intros H. unfold last_n. by replace (length l - n) with 0 by lia. Qed.
Lemma last_n_length {A} (n : nat) (l : list A) : length (last_n n l) = Nat.min n (length l).
Proof. unfold last_n. rewrite length_drop. lia. Qed.
Lemma last_n_last_n {A} (n : nat) (l l' : list A) : last_n n (last_n n l ++ l') = last_n n (l ++ l').
Proof.
  unfold last_n. rewrite !length_app, length_drop. destruct (decide (length l <= n)) as [H|H].
  - replace (length l - n) with 0 by lia. by rewrite drop_0, Nat.sub_0_r.
  - rewrite <- (drop_app_le l l' (length l - n)) by lia. rewrite drop_drop. f_equal. lia.
Qed.

(** ** Outcomes *)

Section Outcomes.
Context {A B : Type}.

Lemma returns_ret (a : A) (P : A -> Prop) : P a -> returns (mret a) P.
Proof. done. Qed.
Lemma returns_bind (m : outcome A) (f : A -> outcome B) (P : B -> Prop) :
  returns m (fun a => returns (f a) P) -> returns (m ≫= f) P.
Proof. by destruct m. Qed.
Lemma returns_mono (m : outcome A) (P Q : A -> Prop) : returns m P -> (forall a, P a -> Q a) -> returns m Q.
Proof. destruct m; cbn; auto. Qed.
Lemma returns_and (m : outcome A) (P Q : A -> Prop) : returns m P -> returns m Q -> returns m (fun a => P a /\ Q a).
Proof. destruct m; cbn; auto. Qed.
Lemma returns_and_if (m : outcome A) (H : Prop) (P Q : A -> Prop) :
  returns m P -> (H -> returns m Q) -> returns m (fun a => P a /\ (H -> Q a)).
Proof. destruct m; cbn; auto. Qed.
Lemma returns_inv (m : outcome A) (P : A -> Prop) : returns m P -> exists a, m = Ret a /\ P a.
Proof. destruct m; [by eexists|done|done]. Qed.

Lemma at_ok (l : list A) (i : nat) (a : A) (P : A -> Prop) : l !! i = Some a -> P a -> returns (at_ l i) P.
Proof. unfold at_. by intros ->. Qed.
Lemma at_lt (l : list A) (i : nat) (P : A -> Prop) :
  i < length l -> (forall a, l !! i = Some a -> P a) -> returns (at_ l i) P.
Proof. intros [a Ha]%lookup_lt_is_Some_2 H. unfold at_. rewrite Ha. by apply H. Qed.
Lemma set_at_lt (l : list A) (i : nat) (x : A) (P : list A -> Prop) :
  i < length l -> P (<[i := x]> l) -> returns (set_at l i x) P.
Proof. intros Hi H. unfold set_at. by destruct (decide _). Qed.
End Outcomes.

(** Weaken what a call returns to what the continuation needs. *)
Ltac step_call H := eapply returns_bind, returns_mono; [eapply H|cbv beta].

(** Sums over a list in which one element is replaced, or added at the end. *)
Lemma sum_insert {A} (f : A -> nat) (l : list A) (i : nat) (p q : A) : l !! i = Some p ->
  sum_list (map f (<[i := q]> l)) + f p = sum_list (map f l) + f q.
Proof.
  revert i. induction l as [|x l IH]; intros [|i]; [done..| |].
  - intros [= ->]. cbn. lia.
  - intros H. specialize (IH i H). change (f x + sum_list (map f (<[i:=q]> l)) + f p = f x + sum_list (map f l) + f q). lia.
Qed.
Lemma sum_snoc {A} (f : A -> nat) (l : list A) (x : A) : sum_list (map f (l ++ [x])) = sum_list (map f l) + f x.
Proof. induction l as [|y l IH]; cbn in *; lia. Qed.
