(* ===== verification/GoStrings.v ===== *)
(** * Go strings

    The part of packages [strings], [unicode/utf8], [strconv] and [fmt] that
    the controller uses, on byte strings: a Go [string] is a Rocq [string],
    whose characters are the bytes.  Functions that look at runes decode
    UTF-8 as [utf8.DecodeRuneInString] does (an invalid byte is a RuneError
    of width one).  The Unicode case and print tables are an interface,
    [UnicodeTables]; every theorem holds for any table. *)

From S2P Require Import Prelude.
Local Open Scope Z_scope.

(** ** Bytes and characters *)

Definition byte (c : ascii) : Z := Z.of_N (N_of_ascii c).
Definition chr (z : Z) : ascii := ascii_of_N (Z.to_N z).
Definition str1 (c : ascii) : string := String c EmptyString.

Definition CR : ascii := "013"%char.
Definition LF : ascii := "010"%char.
Definition NUL : ascii := "000"%char.
Definition DQ : ascii := "034"%char.
Definition CRLF : string := String CR (str1 LF).
Definition nl : string := str1 LF.
Definition dq : string := str1 DQ.

Definition in_range (lo hi : Z) (c : ascii) : bool := (lo <=? byte c) && (byte c <=? hi).
Definition is_digit : ascii -> bool := in_range 48 57.
Definition is_upper : ascii -> bool := in_range 65 90.
Definition is_lower : ascii -> bool := in_range 97 122.
Definition is_alpha (c : ascii) : bool := is_upper c || is_lower c.
Definition is_alnum (c : ascii) : bool := is_alpha c || is_digit c.
Definition is_hex (c : ascii) : bool := is_digit c || in_range 97 102 c || in_range 65 70 c.
(** Bytes below 32 and DEL. *)
Definition is_ctl (c : ascii) : bool := (byte c <? 32) || (byte c =? 127).
Definition is_ascii (c : ascii) : bool := byte c <? 128.

(** ** Byte-level functions of package [strings] *)

Definition len (s : string) : Z := Z.of_nat (String.length s).

Fixpoint str_forallb (p : ascii -> bool) (s : string) : bool :=
  match s with EmptyString => true | String a s' => p a && str_forallb p s' end.
Fixpoint str_existsb (p : ascii -> bool) (s : string) : bool :=
  match s with EmptyString => false | String a s' => p a || str_existsb p s' end.

(** [s[:n]] and [s[n:]] for [n] within bounds. *)
Fixpoint str_take (n : nat) (s : string) : string :=
  match n, s with
  | S n', String a s' => String a (str_take n' s')
  | _, _ => EmptyString
  end.
Fixpoint str_drop (n : nat) (s : string) : string :=
  match n, s with
  | S n', String _ s' => str_drop n' s'
  | _, _ => s
  end.

(** [s[i]] *)
Fixpoint str_get (i : nat) (s : string) : option ascii :=
  match i, s with
  | _, EmptyString => None
  | O, String a _ => Some a
  | S i', String _ s' => str_get i' s'
  end.

Fixpoint HasPrefix (s p : string) {struct p} : bool :=
  match p, s with
  | EmptyString, _ => true
  | String a p', String b s' => Ascii.eqb a b && HasPrefix s' p'
  | String _ _, EmptyString => false
  end.

Definition TrimPrefix (s p : string) : string :=
  if HasPrefix s p then str_drop (String.length p) s else s.

(** [strings.Index]: [None] is Go's [-1]. *)
Fixpoint Index (s sub : string) : option nat :=
  if HasPrefix s sub then Some 0%nat
  else match s with
       | EmptyString => None
       | String _ s' => S <$> Index s' sub
       end.

Definition Contains (s sub : string) : bool :=
  match Index s sub with Some _ => true | None => false end.

Fixpoint IndexByte (s : string) (c : ascii) : option nat :=
  match s with
  | EmptyString => None
  | String a s' => if Ascii.eqb a c then Some 0%nat else S <$> IndexByte s' c
  end.

Fixpoint LastIndexByte (s : string) (c : ascii) : option nat :=
  match s with
  | EmptyString => None
  | String a s' =>
      match LastIndexByte s' c with
      | Some i => Some (S i)
      | None => if Ascii.eqb a c then Some 0%nat else None
      end
  end.

(** [strings.Split] for a one-byte separator. *)
Fixpoint Split (s : string) (c : ascii) : list string :=
  match s with
  | EmptyString => [EmptyString]
  | String a s' =>
      if Ascii.eqb a c then EmptyString :: Split s' c
      else match Split s' c with
           | [] => [str1 a]
           | h :: t => String a h :: t
           end
  end.

Fixpoint Join (l : list string) (sep : string) : string :=
  match l with
  | [] => EmptyString
  | [x] => x
  | x :: l' => x +:+ sep +:+ Join l' sep
  end.

(** [strings.ContainsAny(s, chars)] for ASCII [chars]. *)
Definition ContainsAny (s chars : string) : bool :=
  str_existsb (fun a => str_existsb (Ascii.eqb a) chars) s.

(** [strings.TrimRight(s, cutset)] for an ASCII [cutset]. *)
Fixpoint TrimRight (s cutset : string) : string :=
  match s with
  | EmptyString => EmptyString
  | String a s' =>
      match TrimRight s' cutset with
      | EmptyString =>
          if str_existsb (Ascii.eqb a) cutset then EmptyString else str1 a
      | t => String a t
      end
  end.

(** [strings.ReplaceAll] of a one-byte pattern. *)
Fixpoint ReplaceByte (s : string) (c : ascii) (new : string) : string :=
  match s with
  | EmptyString => EmptyString
  | String a s' =>
      if Ascii.eqb a c then new +:+ ReplaceByte s' c new else String a (ReplaceByte s' c new)
  end.

(** ** UTF-8 *)

Definition RuneError : Z := 65533.

Definition cont (lo hi : Z) (o : option ascii) : option Z :=
  match o with
  | Some c => if in_range lo hi c then Some (byte c mod 64) else None
  | None => None
  end.

(** [utf8.DecodeRuneInString] on [String a s]: the rune and its width. *)
Definition decode_rune (a : ascii) (s : string) : Z * nat :=
  let b := byte a in
  let c0 := str_get 0 s in let c1 := str_get 1 s in let c2 := str_get 2 s in
  let two := match cont 128 191 c0 with
             | Some x => ((b mod 32) * 64 + x, 2%nat)
             | None => (RuneError, 1%nat) end in
  let three lo hi := match cont lo hi c0, cont 128 191 c1 with
             | Some x, Some y => ((b mod 16) * 4096 + x * 64 + y, 3%nat)
             | _, _ => (RuneError, 1%nat) end in
  let four lo hi := match cont lo hi c0, cont 128 191 c1, cont 128 191 c2 with
             | Some x, Some y, Some z => ((b mod 8) * 262144 + x * 4096 + y * 64 + z, 4%nat)
             | _, _, _ => (RuneError, 1%nat) end in
  if b <? 128 then (b, 1%nat)
  else if b <? 194 then (RuneError, 1%nat)
  else if b <? 224 then two
  else if b =? 224 then three 160 191
  else if b =? 237 then three 128 159
  else if b <? 240 then three 128 191
  else if b =? 240 then four 144 191
  else if b <? 244 then four 128 191
  else if b =? 244 then four 128 143
  else (RuneError, 1%nat).

(** [utf8.EncodeRune]. *)
Definition encode_rune (r : Z) : string :=
  let s l := String.string_of_list_ascii (map chr l) in
  if (r <? 0) || (1114111 <? r) || ((55296 <=? r) && (r <=? 57343)) then s [239; 191; 189]
  else if r <? 128 then s [r]
  else if r <? 2048 then s [192 + r / 64; 128 + r mod 64]
  else if r <? 65536 then s [224 + r / 4096; 128 + r / 64 mod 64; 128 + r mod 64]
  else s [240 + r / 262144; 128 + r / 4096 mod 64; 128 + r / 64 mod 64; 128 + r mod 64].

(** [for _, r := range s]: the runes with the bytes they were decoded from. *)
Fixpoint runes_from (skip : nat) (s : string) : list (Z * string) :=
  match s with
  | EmptyString => []
  | String a s' =>
      match skip with
      | S k => runes_from k s'
      | O => let '(r, w) := decode_rune a s' in
             (r, str_take w s) :: runes_from (pred w) s'
      end
  end.
Definition runes (s : string) : list (Z * string) := runes_from 0 s.
Fixpoint concat_str (l : list string) : string :=
  match l with [] => EmptyString | x :: l' => x +:+ concat_str l' end.
Definition unrunes (l : list (Z * string)) : string := concat_str (map snd l).

(** [unicode.IsSpace]. *)
Definition is_space_rune (r : Z) : bool :=
  ((9 <=? r) && (r <=? 13)) || (r =? 32) || (r =? 133) || (r =? 160) ||
  (r =? 5760) || ((8192 <=? r) && (r <=? 8202)) || (r =? 8232) || (r =? 8233) ||
  (r =? 8239) || (r =? 8287) || (r =? 12288).

Fixpoint drop_while {A} (p : A -> bool) (l : list A) : list A :=
  match l with
  | [] => []
  | x :: l' => if p x then drop_while p l' else l
  end.
Definition rune_space (c : Z * string) : bool := is_space_rune c.1.

Definition TrimSpace (s : string) : string :=
  unrunes (reverse (drop_while rune_space (reverse (drop_while rune_space (runes s))))).

(** [strings.Fields] / [FieldsFunc(s, sep)]: the maximal runs of runes that
    are not separators. *)
Fixpoint fields_go (sep : Z -> bool) (cur : string) (l : list (Z * string)) : list string :=
  match l with
  | [] => if decide (cur = EmptyString) then [] else [cur]
  | (r, b) :: l' =>
      if sep r then
        if decide (cur = EmptyString) then fields_go sep EmptyString l'
        else cur :: fields_go sep EmptyString l'
      else fields_go sep (cur +:+ b) l'
  end.
Definition FieldsFunc (s : string) (sep : Z -> bool) : list string :=
  fields_go sep EmptyString (runes s).
Definition Fields (s : string) : list string := FieldsFunc s is_space_rune.

(** ** Unicode tables *)

(** Package [unicode]'s simple case mappings and [IsPrint] for runes from 128 up. *)
Class UnicodeTables := {
  u_lower : Z -> Z;
  u_upper : Z -> Z;
  u_print : Z -> bool
}.

(** A concrete instance: no cased and no printable rune outside ASCII. *)
Definition ascii_tables : UnicodeTables :=
  {| u_lower := fun r => r; u_upper := fun r => r; u_print := fun _ => false |}.

Section Case.
Context `{U : UnicodeTables}.

Definition lower_rune (r : Z) : Z :=
  if r <? 128 then if (65 <=? r) && (r <=? 90) then r + 32 else r else u_lower r.
Definition upper_rune (r : Z) : Z :=
  if r <? 128 then if (97 <=? r) && (r <=? 122) then r - 32 else r else u_upper r.

Definition map_runes (f : Z -> Z) (s : string) : string :=
  concat_str (map (fun c => encode_rune (f c.1)) (runes s)).
Definition ToLower (s : string) : string := map_runes lower_rune s.
Definition ToUpper (s : string) : string := map_runes upper_rune s.
End Case.

(** The simple case folding of [strings.EqualFold] outside ASCII, and the
    classes [unicode.IsLetter] and [unicode.IsDigit] for runes from 128 up. *)
Class FoldTables := fold_rune : Z -> Z -> bool.
Definition ascii_folding : FoldTables := fun _ _ => false.
Class LetterTables := { u_letter : Z -> bool; u_digit : Z -> bool }.
Definition ascii_letters : LetterTables := {| u_letter := fun _ => false; u_digit := fun _ => false |}.

Section Classes.
Context `{U : UnicodeTables} `{D : FoldTables} `{L : LetterTables}.

Definition equal_rune (a b : Z) : bool :=
  (a =? b) || ((a <? 128) && (b <? 128) && (lower_rune a =? lower_rune b)) || fold_rune a b.
Fixpoint equal_runes (a b : list (Z * string)) : bool :=
  match a, b with
  | [], [] => true
  | x :: a', y :: b' => equal_rune x.1 y.1 && equal_runes a' b'
  | _, _ => false
  end.
Definition EqualFold (s t : string) : bool := equal_runes (runes s) (runes t).

Definition IsLetter (r : Z) : bool :=
  if r <? 128 then ((65 <=? r) && (r <=? 90)) || ((97 <=? r) && (r <=? 122)) else u_letter r.
Definition IsDigit (r : Z) : bool := if r <? 128 then (48 <=? r) && (r <=? 57) else u_digit r.
End Classes.

(** [strings.TrimFunc]. *)
Definition TrimFunc (s : string) (p : Z -> bool) : string :=
  unrunes (reverse (drop_while (fun c => p c.1) (reverse (drop_while (fun c => p c.1) (runes s))))).

(** ** Decimal and hexadecimal numbers *)

Definition digit_char (d : Z) : ascii := chr (48 + d).
Definition digit_val (c : ascii) : Z := byte c - 48.

Fixpoint utoa_go (fuel : nat) (n : Z) (acc : string) : string :=
  match fuel with
  | O => acc
  | S f => if n <? 10 then String (digit_char n) acc
           else utoa_go f (n / 10) (String (digit_char (n mod 10)) acc)
  end.
(** [%d] of a non-negative number; one step of fuel per bit is enough. *)
Definition utoa (n : Z) : string := utoa_go (S (Z.to_nat (Z.log2 n))) n EmptyString.
(** [%d], [strconv.Itoa]. *)
Definition itoa (n : Z) : string :=
  if n <? 0 then String "-"%char (utoa (- n)) else utoa n.

Inductive num_error := ErrSyntax | ErrRange.

Definition MaxUint64 : Z := 18446744073709551615.
Definition MinInt64 : Z := -9223372036854775808.
Definition MaxInt64 : Z := 9223372036854775807.

(** The digit loop of [strconv.ParseUint(s, 10, 64)]. *)
Fixpoint parse_uint_go (n : Z) (s : string) : num_error + Z :=
  match s with
  | EmptyString => inr n
  | String c s' =>
      if is_digit c then
        let n' := n * 10 + digit_val c in
        if MaxUint64 <? n' then inl ErrRange else parse_uint_go n' s'
      else inl ErrSyntax
  end.
Definition parse_uint (s : string) : num_error + Z :=
  match s with EmptyString => inl ErrSyntax | _ => parse_uint_go 0 s end.

(** [strconv.ParseInt(s, 10, 64)], and [strconv.Atoi] on a 64-bit platform. *)
Definition parse_int (s : string) : num_error + Z :=
  let neg := match s with String c _ => Ascii.eqb c "-"%char | _ => false end in
  let pos := match s with String c _ => Ascii.eqb c "+"%char | _ => false end in
  let digits := if neg || pos then str_drop 1 s else s in
  match parse_uint digits with
  | inl e => inl e
  | inr un =>
      if neg then if - MinInt64 <? un then inl ErrRange else inr (- un)
      else if MaxInt64 <? un then inl ErrRange else inr un
  end.

(** Lower-case hexadecimal, [width] digits at least. *)
Definition hex_digit (d : Z) : ascii := if d <? 10 then chr (48 + d) else chr (87 + d).
Fixpoint hex_fixed (width : nat) (n : Z) : string :=
  match width with
  | O => EmptyString
  | S w => String (hex_digit (Z.shiftr n (4 * Z.of_nat w) mod 16)) (hex_fixed w n)
  end.
(** [hex.EncodeToString]. *)
Fixpoint hex_encode (bs : list Z) : string :=
  match bs with [] => EmptyString | b :: bs' => hex_fixed 2 b +:+ hex_encode bs' end.

Section Quote.
Context `{U : UnicodeTables}.

Definition quote_rune (c : Z * string) : string :=
  let '(r, b) := c in
  let esc (x : ascii) := String "\"%char (str1 x) in
  if (r =? 34) || (r =? 92) then String "\"%char b
  else if (32 <=? r) && (r <? 127) then b
  else if (r =? RuneError) && (len b =? 1) then
    match b with String x _ => "\x" +:+ hex_fixed 2 (byte x) | _ => EmptyString end
  else if (128 <=? r) && u_print r then b
  else if r =? 7 then esc "a"%char else if r =? 8 then esc "b"%char else if r =? 12 then esc "f"%char
  else if r =? 10 then esc "n"%char else if r =? 13 then esc "r"%char else if r =? 9 then esc "t"%char
  else if r =? 11 then esc "v"%char
  else if (r <? 32) || (r =? 127) then "\x" +:+ hex_fixed 2 r
  else if r <? 65536 then "\u" +:+ hex_fixed 4 r
  else "\U" +:+ hex_fixed 8 r.
(** [%q], [strconv.Quote]. *)
Definition Quote (s : string) : string :=
  dq +:+ concat_str (map quote_rune (runes s)) +:+ dq.

Definition num_error_text (e : num_error) : string :=
  match e with ErrSyntax => "invalid syntax" | ErrRange => "value out of range" end.
(** The [*strconv.NumError] of function [fn]. *)
Definition num_error_msg (fn s : string) (e : num_error) : string :=
  "strconv." +:+ fn +:+ ": parsing " +:+ Quote s +:+ ": " +:+ num_error_text e.
Definition ParseInt (s : string) : result Z :=
  match parse_int s with
  | inr z => Ok z | inl e => Err (Errorf (num_error_msg "ParseInt" s e)) end.
Definition Atoi (s : string) : result Z :=
  match parse_int s with
  | inr z => Ok z | inl e => Err (Errorf (num_error_msg "Atoi" s e)) end.
End Quote.

(** ** [bufio.Scanner] over lines *)

(** [bufio.MaxScanTokenSize]: a line that fills the buffer ends the scan with
    [ErrTooLong]. *)
Definition MaxScanTokenSize : Z := 65536.

(** [dropCR]: one trailing CR is not part of the line. *)
Fixpoint dropCR (s : string) : string :=
  match s with
  | EmptyString => EmptyString
  | String a EmptyString => if Ascii.eqb a CR then EmptyString else s
  | String a s' => String a (dropCR s')
  end.

Fixpoint scan_pieces (pieces : list string) : list string * option error :=
  match pieces with
  | [] => ([], None)
  | x :: rest =>
      if bool_decide (rest = []) && bool_decide (x = EmptyString) then ([], None)
      else if MaxScanTokenSize <=? len x then ([], Some (Errorf "bufio.Scanner: token too long"))
      else let '(ls, e) := scan_pieces rest in (dropCR x :: ls, e)
  end.
(** The lines [Scan] yields and the final [Err()]. *)
Definition ScanLines (s : string) : list string * option error := scan_pieces (Split s LF).
