(* ===== verification/StringFacts.v ===== *)
(** * Facts on Go strings

    The lemma library on [GoStrings]: appending, prefixes, splitting and
    joining, UTF-8 decoding of ASCII text, trimming, fields, and the
    decimal round trip. *)

From S2P Require Import Prelude GoStrings.
Local Open Scope Z_scope.

(** ** Bytes *)

Lemma byte_bounds (c : ascii) : 0 <= byte c < 256.
Proof. unfold byte. pose proof (N_ascii_bounded c). lia. Qed.

Lemma byte_chr (z : Z) : 0 <= z < 256 -> byte (chr z) = z.
Proof. intros H. unfold byte, chr. rewrite N_ascii_embedding; lia. Qed.

Lemma byte_inj (a b : ascii) : byte a = byte b -> a = b.
Proof.
  unfold byte. intros H. rewrite <- (ascii_N_embedding a), <- (ascii_N_embedding b).
  f_equal. lia.
Qed.

(** A property of all 256 characters is decided by computation. *)
Definition all_ascii : list ascii := map (fun n => ascii_of_nat n) (seq 0 256).
Lemma all_ascii_in (c : ascii) : c ∈ all_ascii.
Proof.
  unfold all_ascii. rewrite <- (ascii_nat_embedding c). apply list_elem_of_In, in_map, in_seq.
  pose proof (nat_ascii_bounded c). lia.
Qed.
Lemma ascii_case (p : ascii -> bool) : forallb p all_ascii = true -> forall c, p c = true.
Proof. intros H c. rewrite forallb_forall in H. apply H, list_elem_of_In, all_ascii_in. Qed.
Lemma ascii_impl (p q : ascii -> bool) :
  forallb (fun c => implb (p c) (q c)) all_ascii = true -> forall c, p c = true -> q c = true.
Proof. intros H c Hp. pose proof (ascii_case _ H c) as Hc. simpl in Hc. by rewrite Hp in Hc. Qed.

(** ** Appending and characters *)

Lemma app_cons (a : ascii) (s t : string) : String a s +:+ t = String a (s +:+ t).
Proof. done. Qed.
Lemma app_empty_l (t : string) : EmptyString +:+ t = t.
Proof. done. Qed.
Lemma app_empty_r (s : string) : s +:+ EmptyString = s.
Proof. induction s as [|a s IH]; [done|]. rewrite app_cons. by rewrite IH. Qed.
Lemma str_app_assoc (a b c : string) : (a +:+ b) +:+ c = a +:+ (b +:+ c).
Proof. induction a as [|x a IH]; [done|]. rewrite !app_cons. by rewrite IH. Qed.
Lemma str1_app (c : ascii) (s : string) : str1 c +:+ s = String c s.
Proof. done. Qed.
Lemma length_app_str (a b : string) :
  String.length (a +:+ b) = (String.length a + String.length b)%nat.
Proof. induction a as [|x a IH]; [done|]. rewrite app_cons. simpl. by rewrite IH. Qed.

#[export] Hint Rewrite app_cons app_empty_l app_empty_r str_app_assoc str1_app : torvm.
#[export] Hint Rewrite length_app_str : torvm.

Section Forall.
Context (p : ascii -> bool).

Lemma forallb_app_str (a b : string) :
  str_forallb p (a +:+ b) = str_forallb p a && str_forallb p b.
Proof. induction a as [|x a IH]; [done|]. rewrite app_cons; simpl. by rewrite IH, andb_assoc. Qed.

Lemma forallb_take (n : nat) (s : string) :
  str_forallb p s = true -> str_forallb p (str_take n s) = true.
Proof.
  revert n. induction s as [|a s IH]; intros [|n]; simpl; try done.
  intros [-> H]%andb_true_iff. by rewrite IH.
Qed.

Lemma forallb_drop (n : nat) (s : string) :
  str_forallb p s = true -> str_forallb p (str_drop n s) = true.
Proof.
  revert n. induction s as [|a s IH]; intros [|n]; simpl; try done.
  intros [_ H]%andb_true_iff. by apply IH.
Qed.

Lemma existsb_forallb (s : string) :
  str_existsb p s = negb (str_forallb (fun c => negb (p c)) s).
Proof. induction s as [|a s IH]; [done|]. simpl. rewrite IH. by destruct (p a). Qed.

Lemma forallb_impl (q : ascii -> bool) (s : string) :
  (forall c, p c = true -> q c = true) -> str_forallb p s = true -> str_forallb q s = true.
Proof.
  intros Hpq. induction s as [|a s IH]; [done|]. simpl.
  intros [Ha Hs]%andb_true_iff. by rewrite (Hpq _ Ha), (IH Hs).
Qed.

Lemma forallb_concat (l : list string) :
  Forall (fun s => str_forallb p s = true) l -> str_forallb p (concat_str l) = true.
Proof. induction 1 as [|s l Hs _ IH]; simpl; [done|]. by rewrite forallb_app_str, Hs, IH. Qed.

Lemma forallb_join (l : list string) (sep : string) :
  Forall (fun s => str_forallb p s = true) l -> str_forallb p sep = true ->
  str_forallb p (Join l sep) = true.
Proof.
  intros H Hsep. induction H as [|s l Hs Hl IH]; [done|].
  destruct l as [|t l]; [done|]. change (Join (s :: t :: l) sep) with (s +:+ sep +:+ Join (t :: l) sep).
  by rewrite !forallb_app_str, Hs, Hsep, IH.
Qed.
End Forall.

#[export] Hint Rewrite forallb_app_str : torvm.

(** [c] does not occur in [s]. *)
Definition no_byte (c : ascii) (s : string) : bool := str_forallb (fun a => negb (Ascii.eqb a c)) s.

(** ** Taking, dropping, prefixes *)

Lemma take_length_app (a b : string) : str_take (String.length a) (a +:+ b) = a.
Proof. induction a as [|x a IH]; [by destruct b|]. rewrite app_cons; simpl. by rewrite IH. Qed.
Lemma drop_length_app (a b : string) : str_drop (String.length a) (a +:+ b) = b.
Proof. induction a as [|x a IH]; [by destruct b|]. rewrite app_cons; simpl. exact IH. Qed.
Lemma take_drop (n : nat) (s : string) : str_take n s +:+ str_drop n s = s.
Proof.
  revert n. induction s as [|a s IH]; intros [|n]; try done.
  simpl. rewrite app_cons. by rewrite IH.
Qed.
Lemma length_drop_str (n : nat) (s : string) :
  String.length (str_drop n s) = (String.length s - n)%nat.
Proof. revert n. induction s as [|a s IH]; intros [|n]; simpl; try done. Qed.

Lemma HasPrefix_spec (s p : string) : HasPrefix s p = true <-> exists t, s = p +:+ t.
Proof.
  revert s. induction p as [|a p IH]; intros s; simpl.
  - split; [|done]. intros _. by exists s.
  - destruct s as [|b s].
    + split; [done|]. intros [t Ht]. by rewrite app_cons in Ht.
    + rewrite andb_true_iff, IH, Ascii.eqb_eq. split.
      * intros [-> [t ->]]. by exists t.
      * intros [t Ht]. rewrite app_cons in Ht. injection Ht as -> ->. split; [done|by exists t].
Qed.
Lemma HasPrefix_app (p t : string) : HasPrefix (p +:+ t) p = true.
Proof. apply HasPrefix_spec. by exists t. Qed.
Lemma TrimPrefix_app (p t : string) : TrimPrefix (p +:+ t) p = t.
Proof. unfold TrimPrefix. by rewrite HasPrefix_app, drop_length_app. Qed.

Lemma Contains_spec (s sub : string) :
  Contains s sub = true <-> exists a b, s = a +:+ sub +:+ b.
Proof.
  unfold Contains. induction s as [|c s IH]; simpl.
  - destruct (HasPrefix EmptyString sub) eqn:Hp; simpl.
    + split; [|done]. intros _. apply HasPrefix_spec in Hp as [t Ht]. by exists EmptyString, t.
    + split; [done|]. intros (a & b & Hab). exfalso.
      destruct a; [|done]. rewrite app_empty_l in Hab.
      assert (HasPrefix EmptyString sub = true); [|congruence]. apply HasPrefix_spec. by exists b.
  - destruct (HasPrefix (String c s) sub) eqn:Hp.
    + split; [|done]. intros _. apply HasPrefix_spec in Hp as [t Ht]. by exists EmptyString, t.
    + assert (forall o : option nat, match S <$> o with Some _ => true | None => false end
        = match o with Some _ => true | None => false end) as -> by by intros [].
      rewrite IH. split.
      * intros (a & b & ->). exists (String c a), b. done.
      * intros (a & b & Hab). destruct a as [|x a].
        -- exfalso. rewrite app_empty_l in Hab.
           assert (HasPrefix (String c s) sub = true); [|congruence].
           apply HasPrefix_spec. by exists b.
        -- rewrite app_cons in Hab. injection Hab as -> ->. by exists a, b.
Qed.

Lemma IndexByte_none (c : ascii) (s : string) :
  IndexByte s c = None <-> no_byte c s = true.
Proof.
  induction s as [|a s IH]; [done|]. unfold no_byte in *; simpl.
  destruct (Ascii.eqb a c); simpl; [done|]. rewrite <- IH. destruct (IndexByte s c); by split.
Qed.
Lemma IndexByte_app (c : ascii) (a b : string) :
  no_byte c a = true -> IndexByte (a +:+ String c b) c = Some (String.length a).
Proof.
  unfold no_byte. induction a as [|x a IH]; intros H.
  - rewrite app_empty_l. simpl. by rewrite Ascii.eqb_refl.
  - rewrite app_cons. simpl in *. apply andb_true_iff in H as [Hx Ha].
    destruct (Ascii.eqb x c); [done|]. by rewrite IH.
Qed.
Lemma IndexByte_some (c : ascii) (s : string) (i : nat) :
  IndexByte s c = Some i ->
  s = str_take i s +:+ String c (str_drop (S i) s) /\ no_byte c (str_take i s) = true.
Proof.
  revert i. induction s as [|a s IH]; intros i; simpl; [done|].
  destruct (Ascii.eqb a c) eqn:Hac.
  - intros [= <-]. apply Ascii.eqb_eq in Hac as ->. simpl. split; [done|done].
  - destruct (IndexByte s c) as [j|] eqn:Hj; [|done]. intros [= <-].
    destruct (IH j eq_refl) as [Hs Hn]. simpl. rewrite app_cons. split.
    + f_equal. exact Hs.
    + unfold no_byte in *; simpl. by rewrite Hac.
Qed.

(** ** Split and Join *)

Lemma Split_nonempty (s : string) (c : ascii) : Split s c <> [].
Proof.
  destruct s as [|a s]; [done|]. simpl. destruct (Ascii.eqb a c); [done|].
  by destruct (Split s c).
Qed.

Lemma Join_Split (s : string) (c : ascii) : Join (Split s c) (str1 c) = s.
Proof.
  induction s as [|a s IH]; [done|]. simpl.
  pose proof (Split_nonempty s c) as Hne.
  destruct (Ascii.eqb a c) eqn:Hac.
  - apply Ascii.eqb_eq in Hac as ->. destruct (Split s c) as [|h t]; [done|].
    change (Join ([EmptyString] ++ h :: t) (str1 c)) with (str1 c +:+ Join (h :: t) (str1 c)).
    change (EmptyString +:+ str1 c +:+ Join (h :: t) (str1 c)
            = str1 c +:+ s). by rewrite IH.
  - destruct (Split s c) as [|h t]; [done|]. destruct t as [|h2 t].
    + simpl in *. by rewrite IH.
    + change (String a h +:+ str1 c +:+ Join (h2 :: t) (str1 c) = String a s).
      rewrite app_cons. f_equal. exact IH.
Qed.

Lemma Split_no_byte (s : string) (c : ascii) :
  Forall (fun x => no_byte c x = true) (Split s c).
Proof.
  induction s as [|a s IH]; simpl; [repeat constructor|].
  destruct (Ascii.eqb a c) eqn:Hac; [by constructor|].
  destruct (Split s c) as [|h t].
  - repeat constructor. unfold no_byte. simpl. by rewrite Hac.
  - apply Forall_cons in IH as [Hh Ht]. constructor; [|done].
    unfold no_byte in *. simpl. by rewrite Hac.
Qed.

Lemma Split_app (a b : string) (c : ascii) :
  no_byte c a = true -> Split (a +:+ String c b) c = a :: Split b c.
Proof.
  unfold no_byte. induction a as [|x a IH]; intros H.
  - rewrite app_empty_l. simpl. by rewrite Ascii.eqb_refl.
  - rewrite app_cons. simpl in *. apply andb_true_iff in H as [Hx Ha].
    destruct (Ascii.eqb x c); [done|]. by rewrite IH.
Qed.
Lemma Split_single (a : string) (c : ascii) : no_byte c a = true -> Split a c = [a].
Proof.
  unfold no_byte. induction a as [|x a IH]; [done|]. simpl.
  intros [Hx Ha]%andb_true_iff. destruct (Ascii.eqb x c); [done|]. by rewrite IH.
Qed.

Lemma Split_Join (l : list string) (c : ascii) :
  l <> [] -> Forall (fun x => no_byte c x = true) l -> Split (Join l (str1 c)) c = l.
Proof.
  intros Hne H. induction H as [|x l Hx Hl IH]; [done|].
  destruct l as [|y l]; [by apply Split_single|].
  change (Split (x +:+ String c (Join (y :: l) (str1 c))) c = x :: y :: l).
  rewrite Split_app by done. f_equal. by apply IH.
Qed.

(** A joined list ending in the separator: one empty piece at the end. *)
Lemma Split_Join_end (l : list string) (c : ascii) :
  l <> [] -> Forall (fun x => no_byte c x = true) l ->
  Split (Join l (str1 c) +:+ str1 c) c = l ++ [EmptyString].
Proof.
  intros Hne H. induction H as [|x l Hx Hl IH]; [done|].
  destruct l as [|y l]; [by apply (Split_app x EmptyString c)|].
  change (Split ((x +:+ str1 c +:+ Join (y :: l) (str1 c)) +:+ str1 c) c = x :: (y :: l) ++ [EmptyString]).
  rewrite !str_app_assoc, str1_app, Split_app by done. f_equal. by apply IH.
Qed.

(** The pieces of a text are those of its parts, the two at the seam being one. *)
Lemma Split_seam (a b : string) (c : ascii) : Split (a +:+ String c b) c = Split a c ++ Split b c.
Proof.
  induction a as [|x a IH]; [rewrite app_empty_l; simpl; by rewrite Ascii.eqb_refl|]. rewrite app_cons. simpl.
  destruct (Ascii.eqb x c); [by rewrite IH|]. rewrite IH.
  pose proof (Split_nonempty a c) as Hn. by destruct (Split a c).
Qed.
Lemma Split_Join_flat (l : list string) (c : ascii) :
  l <> [] -> Split (Join l (str1 c)) c = flat_map (fun x => Split x c) l.
Proof.
  induction l as [|x l IH]; [done|]. intros _. destruct l as [|y l]; [cbn [Join flat_map]; by rewrite app_nil_r|].
  change (Split (x +:+ String c (Join (y :: l) (str1 c))) c = Split x c ++ flat_map (fun x => Split x c) (y :: l)).
  by rewrite Split_seam, IH.
Qed.
(** Text without the separator stays with the first piece. *)
Lemma Split_prefix (a b : string) (c : ascii) : no_byte c a = true ->
  Split (a +:+ b) c = match Split b c with h :: t => (a +:+ h) :: t | [] => [] end.
Proof.
  unfold no_byte. induction a as [|x a IH]; intros H.
  - rewrite app_empty_l. pose proof (Split_nonempty b c). by destruct (Split b c).
  - simpl in H. apply andb_true_iff in H as [Hx Ha]. rewrite app_cons. simpl. destruct (Ascii.eqb x c); [done|].
    rewrite IH by done. pose proof (Split_nonempty b c). by destruct (Split b c).
Qed.

(** ** UTF-8 decoding *)

Lemma decode_width (a : ascii) (s : string) : (1 <= (decode_rune a s).2)%nat.
Proof. unfold decode_rune. repeat (case_goal; simpl; try lia). Qed.

Lemma decode_ascii (a : ascii) (s : string) : is_ascii a = true -> decode_rune a s = (byte a, 1%nat).
Proof. unfold is_ascii, decode_rune. by intros ->. Qed.

Lemma cont_some (lo hi x : Z) (s : string) (i : nat) :
  cont lo hi (str_get i s) = Some x ->
  exists c, str_get i s = Some c /\ lo <= byte c <= hi /\ x = byte c mod 64.
Proof.
  unfold cont, in_range. destruct (str_get i s) as [c|]; [|done].
  destruct (_ && _) eqn:H; [|done]. intros [= <-]. exists c. split; [done|].
  apply andb_true_iff in H. split; [lia|done].
Qed.

(** A multi-byte rune is no ASCII character and has no ASCII byte. *)
Definition multi (a : ascii) (s : string) (d : Z * nat) : Prop :=
  128 <= d.1 /\ str_forallb (fun c => negb (is_ascii c)) (str_take d.2 (String a s)) = true.

Lemma multi_bad (a : ascii) (s : string) : is_ascii a = false -> multi a s (RuneError, 1%nat).
Proof. intros H. split; [done|]. simpl. by rewrite H. Qed.

Lemma decode_multi (a : ascii) (s : string) : is_ascii a = false -> multi a s (decode_rune a s).
Proof.
  intros Ha. pose proof (multi_bad a s Ha) as Hbad. pose proof (byte_bounds a).
  pose proof Ha as Hb. unfold is_ascii in Hb. apply Z.ltb_ge in Hb.
  unfold decode_rune.
  repeat match goal with
  | |- multi _ _ (RuneError, 1%nat) => exact Hbad
  | |- context [if ?x then _ else _] => destruct x eqn:?
  | |- context [match cont ?lo ?hi ?o with _ => _ end] => 
      let E := fresh "E" in destruct (cont lo hi o) eqn:E; 
      [apply cont_some in E as (? & ? & ? & ->)|]
  end.
  all: split; [cbn [fst]; Z.to_euclidean_division_equations; lia|cbn [snd]].
  all: destruct s as [|? [|? [|? ?]]]; simpl in *; simplify_eq; rewrite ?Ha; unfold is_ascii; simpl.
  all: rewrite ?andb_true_r, ?andb_true_iff, ?negb_true_iff, ?Z.ltb_ge; lia.
Qed.

Lemma runes_from_drop (k : nat) (s : string) : runes_from k s = runes (str_drop k s).
Proof. revert k. induction s as [|a s IH]; intros [|k]; try done. simpl. apply IH. Qed.

Lemma runes_cons (a : ascii) (s : string) :
  runes (String a s) =
  ((decode_rune a s).1, str_take (decode_rune a s).2 (String a s))
    :: runes (str_drop (decode_rune a s).2 (String a s)).
Proof.
  unfold runes at 1. simpl. pose proof (decode_width a s).
  destruct (decode_rune a s) as [r w]; simpl in *. destruct w as [|w]; [lia|].
  simpl. by rewrite runes_from_drop.
Qed.

(** Induction on a string by the runes it decodes to. *)
Lemma rune_ind (P : string -> Prop) :
  P EmptyString ->
  (forall a s, P (str_drop (decode_rune a s).2 (String a s)) -> P (String a s)) ->
  forall s, P s.
Proof.
  intros H0 HS s. remember (String.length s) as n eqn:Hn. revert s Hn.
  induction n as [n IH] using lt_wf_ind. intros [|a s] ->; [done|].
  apply HS. eapply IH; [|reflexivity]. rewrite length_drop_str.
  pose proof (decode_width a s). simpl. lia.
Qed.

Lemma unrunes_runes (s : string) : unrunes (runes s) = s.
Proof.
  induction s as [|a s IH] using rune_ind; [done|].
  rewrite runes_cons. unfold unrunes in *; simpl concat_str. cbn [map concat_str snd].
  rewrite IH. apply take_drop.
Qed.

Lemma runes_cons_ascii (x : ascii) (s : string) :
  is_ascii x = true -> runes (String x s) = (byte x, str1 x) :: runes s.
Proof. intros Hx. rewrite runes_cons, (decode_ascii _ _ Hx). done. Qed.

Lemma runes_app_ascii (a b : string) :
  str_forallb is_ascii a = true -> runes (a +:+ b) = runes a ++ runes b.
Proof.
  induction a as [|x a IH]; [done|]. simpl. intros [Hx Ha]%andb_true_iff.
  rewrite app_cons, !runes_cons_ascii by done. simpl. by rewrite IH.
Qed.

Section Chunks.
Context (p : ascii -> bool).
Definition chunk_all (c : Z * string) : Prop := str_forallb p c.2 = true.

Lemma runes_chunks (s : string) : str_forallb p s = true -> Forall chunk_all (runes s).
Proof.
  induction s as [|a s IH] using rune_ind; intros H; [constructor|].
  rewrite runes_cons. constructor.
  - apply forallb_take, H.
  - apply IH, forallb_drop, H.
Qed.

Lemma drop_while_forall {A} (P : A -> Prop) (q : A -> bool) (l : list A) :
  Forall P l -> Forall P (drop_while q l).
Proof. induction 1; simpl; [constructor|]. case_match; [done|by constructor]. Qed.

(** Trimming keeps every property of all the bytes. *)
Lemma forallb_TrimSpace (s : string) :
  str_forallb p s = true -> str_forallb p (TrimSpace s) = true.
Proof.
  intros H. unfold TrimSpace, unrunes. apply forallb_concat, Forall_map.
  apply Forall_reverse, drop_while_forall, Forall_reverse, drop_while_forall.
  by apply runes_chunks.
Qed.
End Chunks.

(** A string whose first and last runes are no spaces is its own trimming. *)
Definition ends_ok (s : string) : bool :=
  match head (runes s), last (runes s) with
  | Some a, Some b => negb (rune_space a) && negb (rune_space b)
  | _, _ => true
  end.

Lemma TrimSpace_id (s : string) : ends_ok s = true -> TrimSpace s = s.
Proof.
  unfold ends_ok, TrimSpace. intros H.
  assert (forall l : list (Z * string),
    match head l with Some a => negb (rune_space a) | None => true end = true ->
    drop_while rune_space l = l) as Hd.
  { intros [|a l]; simpl; [done|]. by intros ->%negb_true_iff. }
  destruct (runes s) as [|a l] eqn:Hr.
  - rewrite <- (unrunes_runes s), Hr. done.
  - destruct (last (a :: l)) as [b|] eqn:Hl; [|by apply last_None in Hl].
    simpl in H. apply andb_true_iff in H as [Ha Hb].
    rewrite (Hd (a :: l)) by done. rewrite (Hd (reverse (a :: l))).
    + rewrite reverse_involutive, <- Hr. apply unrunes_runes.
    + by rewrite head_reverse, Hl.
Qed.

(** ** Fields *)

(** A non-empty run of ASCII bytes with no white space. *)
Definition word_byte (c : ascii) : bool := is_ascii c && negb (is_space_rune (byte c)).
Definition is_word (w : string) : Prop := w <> EmptyString /\ str_forallb word_byte w = true.

Lemma word_ascii (w : string) : str_forallb word_byte w = true -> str_forallb is_ascii w = true.
Proof. apply forallb_impl. unfold word_byte. by intros c [? _]%andb_true_iff. Qed.

Lemma fields_go_word (cur w : string) (l : list (Z * string)) :
  str_forallb word_byte w = true ->
  fields_go is_space_rune cur (runes w ++ l) = fields_go is_space_rune (cur +:+ w) l.
Proof.
  revert cur. induction w as [|c w IH]; intros cur Hw.
  - by rewrite app_empty_r.
  - simpl in Hw. apply andb_true_iff in Hw as [Hc Hw]. pose proof Hc as Hc'.
    unfold word_byte in Hc'. apply andb_true_iff in Hc' as [Ha Hs].
    rewrite runes_cons_ascii by done. simpl. apply negb_true_iff in Hs as ->.
    rewrite IH by done. f_equal. by rewrite str_app_assoc.
Qed.

Lemma Fields_cons (w s : string) : is_word w -> Fields (w +:+ " " +:+ s) = w :: Fields s.
Proof.
  intros [Hne Hw]. unfold Fields, FieldsFunc.
  rewrite runes_app_ascii by by apply word_ascii.
  rewrite fields_go_word by done. rewrite app_empty_l.
  change (" " +:+ s) with (String " " s). rewrite runes_cons_ascii by done.
  simpl. by rewrite decide_False.
Qed.
Lemma Fields_one (w : string) : is_word w -> Fields w = [w].
Proof.
  intros [Hne Hw]. unfold Fields, FieldsFunc. rewrite <- (app_nil_r (runes w)).
  rewrite fields_go_word by done. simpl. rewrite app_empty_l. by rewrite decide_False.
Qed.

Lemma Fields_words (ws : list string) (w : string) :
  Forall is_word (ws ++ [w]) -> Fields (Join (ws ++ [w]) " ") = ws ++ [w].
Proof.
  induction ws as [|x ws IH]; simpl.
  - intros [H _]%Forall_cons. by apply Fields_one.
  - intros [Hx Hws]%Forall_cons. destruct (ws ++ [w]) as [|y l] eqn:Hl; [by destruct ws|].
    change (Fields (x +:+ " " +:+ Join (y :: l) " ") = x :: y :: l). by rewrite Fields_cons, IH.
Qed.

Lemma FieldsFunc_forall (p : ascii -> bool) (sep : Z -> bool) (s : string) :
  str_forallb p s = true -> Forall (fun w => str_forallb p w = true) (FieldsFunc s sep).
Proof.
  intros H. apply (runes_chunks p) in H. unfold FieldsFunc.
  assert (forall cur, str_forallb p cur = true ->
    Forall (fun w => str_forallb p w = true) (fields_go sep cur (runes s))) as Hg; [|by apply Hg].
  induction H as [|[r b] l Hb Hl IH]; intros cur Hc; simpl.
  - case_decide; repeat constructor; done.
  - destruct (sep r).
    + case_decide; [by apply IH|]. constructor; [done|by apply IH].
    + apply IH. rewrite forallb_app_str, Hc. exact Hb.
Qed.

(** ** Trimming *)

(** [strings.TrimRightFunc(s, unicode.IsSpace)]. *)
Definition trim_right (s : string) : string :=
  unrunes (reverse (drop_while rune_space (reverse (runes s)))).

Lemma drop_while_app {A} (p : A -> bool) (l : list A) (x : A) (l' : list A) :
  p x = false -> drop_while p (l ++ x :: l') = drop_while p l ++ x :: l'.
Proof. intros Hx. induction l as [|y l IH]; simpl; [by rewrite Hx|]. by destruct (p y). Qed.
Lemma drop_while_twice {A} (p : A -> bool) (l : list A) : drop_while p (drop_while p l) = drop_while p l.
Proof. induction l as [|y l IH]; simpl; [done|]. destruct (p y) eqn:Hy; [done|]. simpl. by rewrite Hy. Qed.
Lemma concat_str_app (l1 l2 : list string) : concat_str (l1 ++ l2) = concat_str l1 +:+ concat_str l2.
Proof. induction l1 as [|x l1 IH]; [done|]. simpl. by rewrite IH, str_app_assoc. Qed.
Lemma unrunes_app (l1 l2 : list (Z * string)) : unrunes (l1 ++ l2) = unrunes l1 +:+ unrunes l2.
Proof. unfold unrunes. by rewrite map_app, concat_str_app. Qed.

Lemma trim_right_word (w : string) (l : list (Z * string)) : is_word w ->
  drop_while rune_space (reverse (runes w ++ l)) = drop_while rune_space (reverse l) ++ reverse (runes w).
Proof.
  intros [Hne Hw]. rewrite reverse_app.
  destruct (reverse (runes w)) as [|x l'] eqn:Hr.
  - destruct w as [|a w]; [done|]. by rewrite runes_cons, reverse_cons in Hr; destruct (reverse _).
  - rewrite drop_while_app; [done|]. assert (x ∈ runes w) as Hx.
    { apply elem_of_reverse. rewrite Hr. by left. }
    clear Hr Hne. induction w as [|a w IH]; [by apply not_elem_of_nil in Hx|].
    simpl in Hw. apply andb_true_iff in Hw as [[Ha Hs]%andb_true_iff Hw].
    rewrite runes_cons_ascii in Hx by done.
    apply elem_of_cons in Hx as [->|Hx]; [by apply negb_true_iff in Hs|by apply IH].
Qed.

Lemma TrimSpace_word (w t : string) : is_word w -> TrimSpace (w +:+ t) = w +:+ trim_right t.
Proof.
  intros Hw. pose proof Hw as [Hne Hb]. unfold TrimSpace, trim_right.
  rewrite runes_app_ascii by by apply word_ascii.
  assert (drop_while rune_space (runes w ++ runes t) = runes w ++ runes t) as ->.
  { destruct w as [|a w]; [done|]. simpl in Hb. apply andb_true_iff in Hb as [[Ha Hs]%andb_true_iff _].
    rewrite runes_cons_ascii by done. simpl. unfold rune_space at 1. simpl. by apply negb_true_iff in Hs as ->. }
  rewrite trim_right_word by done. by rewrite reverse_app, reverse_involutive, unrunes_app, unrunes_runes.
Qed.

Lemma runes_nonempty (s : string) : Forall (fun c => c.2 <> EmptyString) (runes s).
Proof.
  induction s as [|a s IH] using rune_ind; [constructor|].
  rewrite runes_cons. constructor; [|done]. pose proof (decode_width a s).
  by destruct (decode_rune a s).2 as [|w]; [lia|].
Qed.

Lemma trim_right_space (v : string) :
  trim_right (" " +:+ v) = if decide (trim_right v = EmptyString) then EmptyString else " " +:+ trim_right v.
Proof.
  unfold trim_right. change (" " +:+ v) with (String " " v).
  rewrite runes_cons_ascii, reverse_cons by done.
  destruct (drop_while rune_space (reverse (runes v))) as [|x l] eqn:Hd.
  - assert (drop_while rune_space (reverse (runes v) ++ [(byte " ", str1 " ")]) = []) as ->; [|done].
    revert Hd. generalize (reverse (runes v)). intros l. induction l as [|y l IH]; [done|]. simpl.
    by destruct (rune_space y).
  - assert (drop_while rune_space (reverse (runes v) ++ [(byte " ", str1 " ")]) = (x :: l) ++ [(byte " ", str1 " ")]) as ->.
    { rewrite <- Hd. revert Hd. generalize (reverse (runes v)). intros l'. induction l' as [|y l' IH]; [done|].
      simpl. destruct (rune_space y); [done|]. done. }
    rewrite reverse_app, unrunes_app. rewrite decide_False; [done|].
    rewrite reverse_cons, unrunes_app. intros He.
    pose proof (runes_nonempty v) as Hx.
    apply Forall_reverse, (drop_while_forall _ rune_space) in Hx. rewrite Hd in Hx.
    apply Forall_cons in Hx as [Hx _]. destruct (unrunes (reverse l)); [|done]. simpl in He.
    unfold unrunes in He. simpl in He. rewrite app_empty_r in He. done.
Qed.

(** A chunk of ASCII bytes is one byte. *)
Definition ascii_chunk (c : Z * string) : Prop := exists a, is_ascii a = true /\ c = (byte a, str1 a).

Lemma runes_chunk (s : string) :
  Forall (fun c => str_forallb is_ascii c.2 = true -> ascii_chunk c) (runes s).
Proof.
  induction s as [|a s IH] using rune_ind; [constructor|].
  rewrite runes_cons. constructor; [|done]. destruct (is_ascii a) eqn:Ha.
  - rewrite (decode_ascii _ _ Ha). intros _. by exists a.
  - destruct (decode_multi a s Ha) as [_ Hb]. pose proof (decode_width a s).
    destruct (decode_rune a s).2 as [|w]; [lia|]. simpl. by rewrite Ha.
Qed.

Lemma runes_unrunes (l : list (Z * string)) : Forall ascii_chunk l -> runes (unrunes l) = l.
Proof.
  induction 1 as [|c l (a & Ha & ->) _ IH]; [done|].
  change (runes (String a (unrunes l)) = (byte a, str1 a) :: l). by rewrite runes_cons_ascii, IH.
Qed.

Lemma forallb_join_inv (p : ascii -> bool) (l : list string) (sep x : string) :
  str_forallb p (Join l sep) = true -> x ∈ l -> str_forallb p x = true.
Proof.
  induction l as [|y l IH]; [by intros _ ?%not_elem_of_nil|]. intros H Hx.
  destruct l as [|z l]; [by apply list_elem_of_singleton in Hx as ->|].
  change (str_forallb p (y +:+ sep +:+ Join (z :: l) sep) = true) in H.
  rewrite !forallb_app_str, !andb_true_iff in H. destruct H as (Hy & _ & Hl).
  apply elem_of_cons in Hx as [->|Hx]; [done|by apply IH].
Qed.
Lemma trim_right_split (v : string) : exists t, v = trim_right v +:+ t.
Proof.
  unfold trim_right. set (l := reverse (runes v)).
  assert (exists a, l = a ++ drop_while rune_space l) as [a Ha].
  { clear. induction l as [|x l [a IH]]; [by exists []|]. cbn [drop_while]. destruct (rune_space x); [|by exists []].
    exists (x :: a). cbn. by rewrite <-IH. }
  exists (unrunes (reverse a)). rewrite <-unrunes_app, <-reverse_app, <-Ha. unfold l. by rewrite reverse_involutive, unrunes_runes.
Qed.

Lemma forallb_concat_inv (p : ascii -> bool) (l : list string) :
  str_forallb p (concat_str l) = true -> Forall (fun s => str_forallb p s = true) l.
Proof.
  induction l as [|s l IH]; [constructor|]. simpl. rewrite forallb_app_str.
  intros [? ?]%andb_true_iff. constructor; auto.
Qed.

Lemma trim_right_TrimSpace (s : string) :
  str_forallb is_ascii (TrimSpace s) = true -> trim_right (TrimSpace s) = TrimSpace s.
Proof.
  unfold TrimSpace, trim_right, unrunes at 1. intros H%forallb_concat_inv.
  rewrite runes_unrunes.
  - rewrite reverse_involutive. by rewrite drop_while_twice.
  - apply Forall_map in H.
    pose proof (runes_chunk s) as Hc.
    apply (drop_while_forall _ rune_space), Forall_reverse, (drop_while_forall _ rune_space), Forall_reverse in Hc.
    pose proof (proj2 (Forall_and _ _) (conj H Hc)) as Hb.
    eapply Forall_impl; [exact Hb|]. intros x [H1 H2]. by apply H2.
Qed.

(** ** Decimal numbers *)

Lemma is_digit_char (d : Z) :
  0 <= d < 10 -> is_digit (digit_char d) = true /\ digit_val (digit_char d) = d.
Proof.
  intros H. unfold is_digit, in_range, digit_val, digit_char. rewrite byte_chr by lia.
  split; [bool_lia|lia].
Qed.

Lemma utoa_go_ind (Q : ascii -> Prop) :
    (forall d, 0 <= d < 10 -> Q (digit_char d)) ->
    forall fuel n acc, 0 <= n -> (exists w, utoa_go fuel n acc = w +:+ acc /\
      Forall Q (String.list_ascii_of_string w) /\ (fuel <> 0%nat -> w <> EmptyString)).
  Proof.
    intros HQ. induction fuel as [|f IH]; intros n acc Hn; simpl.
    - exists EmptyString. repeat split; [constructor|done].
    - destruct (n <? 10) eqn:H10.
      + exists (str1 (digit_char n)). repeat split; [|done]. repeat constructor. apply HQ. lia.
      + destruct (IH (n / 10) (String (digit_char (n mod 10)) acc)) as (w & -> & Hw & _); [by apply Z.div_pos|].
        exists (w +:+ str1 (digit_char (n mod 10))). rewrite str_app_assoc. repeat split.
        * induction w as [|c w IHw].
          -- repeat constructor. apply HQ. by apply Z.mod_pos_bound.
          -- simpl in Hw. apply Forall_cons in Hw as [? ?]. rewrite app_cons; simpl.
             constructor; [done|by apply IHw].
        * intros _. by destruct w.
  Qed.

Lemma forallb_Forall_str (p : ascii -> bool) (s : string) :
  Forall (fun c => p c = true) (String.list_ascii_of_string s) <-> str_forallb p s = true.
Proof. induction s as [|a s IH]; simpl; [by split|]. by rewrite Forall_cons, IH, andb_true_iff. Qed.

(** [%d] of a natural number is a non-empty run of digits. *)
Lemma utoa_digits (n : Z) : 0 <= n -> utoa n <> EmptyString /\ str_forallb is_digit (utoa n) = true.
Proof.
  intros Hn. unfold utoa.
  destruct (utoa_go_ind (fun c => is_digit c = true)) with (fuel := S (Z.to_nat (Z.log2 n)))
    (n := n) (acc := EmptyString) as (w & -> & Hw & Hne); [by intros d [? _]%is_digit_char|done|].
  rewrite app_empty_r. split; [by apply Hne|]. by apply forallb_Forall_str.
Qed.

Lemma parse_utoa_go (fuel : nat) (n : Z) (rest : string) :
  0 <= n <= MaxUint64 -> n < 2 ^ Z.of_nat fuel -> fuel <> 0%nat ->
  parse_uint_go 0 (utoa_go fuel n rest) = parse_uint_go n rest.
Proof.
  revert n rest. induction fuel as [|f IH]; intros n rest Hn Hf H0; [done|].
  cbn [utoa_go]. destruct (n <? 10) eqn:H10.
  - cbn [parse_uint_go]. destruct (is_digit_char n) as [-> ->]; [lia|].
    destruct (MaxUint64 <? 0 * 10 + n) eqn:?; [lia|]. f_equal.
  - assert (0 <= n mod 10 < 10) by (apply Z.mod_pos_bound; lia).
    pose proof (Z.div_mod n 10). rewrite Nat2Z.inj_succ, Z.pow_succ_r in Hf by lia.
    rewrite IH; [|lia|lia|].
    + cbn [parse_uint_go]. destruct (is_digit_char (n mod 10)) as [-> ->]; [lia|].
      destruct (MaxUint64 <? n / 10 * 10 + n mod 10) eqn:?; [lia|]. f_equal. lia.
    + intros ->. simpl in Hf. lia.
Qed.

Lemma parse_uint_utoa (n : Z) : 0 <= n <= MaxUint64 -> parse_uint (utoa n) = inr n.
Proof.
  intros Hn. destruct (utoa_digits n) as [Hne _]; [lia|].
  unfold parse_uint. destruct (utoa n) eqn:Hu; [done|]. rewrite <- Hu. unfold utoa.
  rewrite parse_utoa_go; [done|done| |done].
  destruct (decide (n = 0)) as [->|]; [done|].
  rewrite Nat2Z.inj_succ, Z2Nat.id by apply Z.log2_nonneg. apply Z.log2_spec. lia.
Qed.

(** Decimal printing and parsing of int64 values are inverse. *)
Lemma parse_int_itoa (z : Z) : MinInt64 <= z <= MaxInt64 -> parse_int (itoa z) = inr z.
Proof.
  intros Hz. unfold MinInt64, MaxInt64 in *. unfold itoa. destruct (z <? 0) eqn:Hneg.
  - change (parse_int (String "-" (utoa (- z)))) with
      (match parse_uint (utoa (- z)) with
       | inl e => inl e
       | inr un => if - MinInt64 <? un then inl ErrRange else inr (- un)
       end).
    rewrite parse_uint_utoa by (unfold MaxUint64; lia). unfold MinInt64.
    destruct (_ <? - z) eqn:?; [lia|]. f_equal. lia.
  - destruct (utoa_digits z) as [Hne Hd]; [lia|]. unfold parse_int.
    pose proof (parse_uint_utoa z) as Hp. unfold MaxUint64 in Hp.
    destruct (utoa z) as [|c s]; [done|]. simpl in Hd. apply andb_true_iff in Hd as [Hc _].
    assert (Ascii.eqb c "-" = false /\ Ascii.eqb c "+" = false) as [-> ->].
    { split; apply Ascii.eqb_neq; intros ->; done. }
    simpl orb. cbv iota. rewrite Hp by lia. unfold MaxInt64.
    destruct (_ <? z) eqn:?; [lia|done].
Qed.

Lemma itoa_word (z : Z) : is_word (itoa z).
Proof.
  assert (forall n, 0 <= n -> is_word (utoa n)) as Hu.
  { intros n [? ?]%utoa_digits. split; [done|]. revert H0. apply forallb_impl.
    apply ascii_impl. vm_compute. reflexivity. }
  unfold itoa. destruct (z <? 0) eqn:?; [|apply Hu; lia].
  destruct (Hu (- z)) as [_ ?]; [lia|]. split; [done|]. simpl. done.
Qed.
Lemma word_app_ne (w r : string) : is_word w -> w +:+ r <> EmptyString.
Proof. intros [Hne _]. by destruct w. Qed.
Lemma word_ne (w : string) : is_word w -> w <> EmptyString.
Proof. by intros [Hne _]. Qed.
#[export] Hint Resolve itoa_word word_app_ne word_ne : torvm.
Lemma itoa_no_byte (c : ascii) (z : Z) :
  negb (is_digit c) && negb (Ascii.eqb "-" c) = true -> no_byte c (itoa z) = true.
Proof.
  intros [Hd Hm]%andb_true_iff.
  assert (forall n, 0 <= n -> no_byte c (utoa n) = true) as Hu.
  { intros n [_ Hn]%utoa_digits. revert Hn. apply forallb_impl. intros x Hx.
    destruct (Ascii.eqb_spec x c) as [->|]; [by rewrite Hx in Hd|done]. }
  unfold itoa. destruct (z <? 0) eqn:Hz.
  - change (no_byte c (String "-" (utoa (- z)))) with (negb (Ascii.eqb "-" c) && no_byte c (utoa (- z))).
    rewrite Hm. apply Hu. apply Z.ltb_lt in Hz. lia.
  - apply Hu. apply Z.ltb_ge in Hz. lia.
Qed.
