(* ===== verification/GoFloats.v ===== *)
(** * Go floating point

    [float64] and [float32] are the binary64 and binary32 of the Standard
    Library's [SpecFloat], so every result is computed bit for bit (a product
    is rounded before it is added, as on amd64).  The order [<] is a strict
    weak order on the numbers that are not NaN. *)

From Stdlib Require Import SpecFloat.
From S2P Require Import Prelude GoStrings.
Local Open Scope Z_scope.

Definition f64_of_Z (z : Z) : spec_float := binary_normalize 53 1024 z 0 false.
Definition f64_mul : spec_float -> spec_float -> spec_float := SFmul 53 1024.
Definition f64_add : spec_float -> spec_float -> spec_float := SFadd 53 1024.
Definition f64_div : spec_float -> spec_float -> spec_float := SFdiv 53 1024.
Definition f64_sqrt : spec_float -> spec_float := SFsqrt 53 1024.
(** Conversion to int64 truncates; outside int64 the result is the amd64 one. *)
Definition f64_trunc (x : spec_float) : Z :=
  match x with
  | S754_finite sgn m e =>
      let v := if 0 <=? e then Z.pos m * 2 ^ e else Z.pos m / 2 ^ (- e) in
      let v := if sgn then - v else v in
      if (v <? MinInt64) || (MaxInt64 <? v) then MinInt64 else v
  | S754_zero _ => 0
  | _ => MinInt64
  end.
(** A decimal literal with one digit after the point. *)
Definition tenths (n : Z) : spec_float := f64_div (f64_of_Z n) (f64_of_Z 10).

Definition f32_of_Z (z : Z) : spec_float := binary_normalize 24 128 z 0 false.
Definition f32_mul : spec_float -> spec_float -> spec_float := SFmul 24 128.
Definition f32_add : spec_float -> spec_float -> spec_float := SFadd 24 128.
Definition f32_sub : spec_float -> spec_float -> spec_float := SFsub 24 128.
Definition f32_div : spec_float -> spec_float -> spec_float := SFdiv 24 128.

(** Conversions between the two formats: rounding, and exact. *)
Definition convert (prec emax : Z) (x : spec_float) : spec_float :=
  match x with
  | S754_finite s m e => binary_normalize prec emax (cond_Zopp s (Z.pos m)) e s
  | _ => x
  end.
Definition float32 : spec_float -> spec_float := convert 24 128.
Definition float64 : spec_float -> spec_float := convert 53 1024.

Definition zero32 : spec_float := S754_zero false.
Definition one32 : spec_float := f32_of_Z 1.

(** [x < y] and [x == y]. *)
Definition flt : spec_float -> spec_float -> bool := SFltb.
Definition feq : spec_float -> spec_float -> bool := SFeqb.
Definition is_nan (x : spec_float) : bool := match x with S754_nan => true | _ => false end.

Example sqrt_two : float32 (f64_sqrt (float64 (f32_of_Z 2))) = S754_finite false 11863283 (-23).
Proof. vm_compute. reflexivity. Qed.
Example third : float64 (f32_div one32 (f32_of_Z 3)) = S754_finite false 6004799682117632 (-54).
Proof. vm_compute. reflexivity. Qed.

(** ** The order

    A number that is not NaN is compared by a triple: class, exponent,
    mantissa, with the signs put in. *)
Definition key (x : spec_float) : Z * Z * Z :=
  match x with
  | S754_infinity true => (-2, 0, 0)
  | S754_finite true m e => (-1, - e, Z.neg m)
  | S754_zero _ | S754_nan => (0, 0, 0)
  | S754_finite false m e => (1, e, Z.pos m)
  | S754_infinity false => (2, 0, 0)
  end.
Definition key_lt (a b : Z * Z * Z) : Prop :=
  a.1.1 < b.1.1 \/ a.1.1 = b.1.1 /\ (a.1.2 < b.1.2 \/ a.1.2 = b.1.2 /\ a.2 < b.2).

Lemma flt_key (x y : spec_float) :
  flt x y = true <-> is_nan x = false /\ is_nan y = false /\ key_lt (key x) (key y).
Proof.
  unfold flt, SFltb, key_lt.
  destruct x as [s1|s1| |s1 m1 e1], y as [s2|s2| |s2 m2 e2]; try destruct s1; try destruct s2; cbn;
    try (split; [done|lia]); try (split; [lia|done]).
  all: destruct (Z.compare_spec e1 e2); try (split; [done|lia]); try (split; [lia|done]); subst.
  all: change (Pos.compare_cont Eq m1 m2) with (m1 ?= m2)%positive; destruct (Pos.compare_spec m1 m2); cbn;
    (split; [done || lia|try done; try lia]).
Qed.

Lemma flt_irrefl (x : spec_float) : flt x x = false.
Proof. apply not_true_iff_false. rewrite flt_key. unfold key_lt. lia. Qed.
Lemma flt_trans (x y z : spec_float) : flt x y = true -> flt y z = true -> flt x z = true.
Proof. rewrite !flt_key. unfold key_lt. intros (? & ? & ?) (? & ? & ?). split_and!; [done|done|lia]. Qed.
Lemma flt_asym (x y : spec_float) : flt x y = true -> flt y x = false.
Proof. intros H. apply not_true_iff_false. intros H'. pose proof (flt_trans _ _ _ H H') as Hx. by rewrite flt_irrefl in Hx. Qed.
(** Without NaN, being not greater is transitive and total. *)
Lemma flt_not_trans (x y z : spec_float) : is_nan y = false ->
  flt y x = false -> flt z y = false -> flt z x = false.
Proof.
  intros Hy H1 H2. apply not_true_iff_false. intros (Hz & Hx & H3)%flt_key.
  assert (key_lt (key y) (key x) \/ key_lt (key z) (key y)) as [H|H] by (unfold key_lt in *; lia);
    [assert (flt y x = true) by (by apply flt_key)|assert (flt z y = true) by (by apply flt_key)]; congruence.
Qed.
Lemma flt_total (x y : spec_float) : flt x y = false \/ flt y x = false.
Proof. destruct (flt x y) eqn:H; [right; by apply flt_asym|by left]. Qed.

(** ** Numbers from zero up

    Sums and quotients of numbers with a positive sign are never NaN. *)
Definition nonneg (x : spec_float) : bool :=
  match x with
  | S754_nan => false
  | S754_zero s | S754_infinity s | S754_finite s _ _ => negb s
  end.
Lemma nonneg_not_nan (x : spec_float) : nonneg x = true -> is_nan x = false.
Proof. by destruct x. Qed.

Section Rounding.
Variables prec emax : Z.

Lemma shr_1_nonneg (m : shr_record) : 0 <= shr_m m -> 0 <= shr_m (shr_1 m).
Proof. destruct m as [[|[p|p|]|p] r s]; cbn; lia. Qed.
Lemma iter_shr_nonneg (n : positive) (m : shr_record) : 0 <= shr_m m -> 0 <= shr_m (SpecFloat.iter_pos shr_1 n m).
Proof. revert m. induction n as [n IH|n IH|]; intros m Hm; cbn; auto using shr_1_nonneg. Qed.
Lemma shr_fexp_nonneg (m e : Z) (l : location) : 0 <= m -> 0 <= shr_m (shr_fexp prec emax m e l).1.
Proof.
  intros Hm. unfold shr_fexp, shr. assert (0 <= shr_m (shr_record_of_loc m l)) by by destruct l as [|[]].
  case_match; cbn; auto using iter_shr_nonneg.
Qed.
Lemma round_aux_nonneg (m e : Z) (l : location) : 0 <= m -> nonneg (binary_round_aux prec emax false m e l) = true.
Proof.
  intros Hm. unfold binary_round_aux. pose proof (shr_fexp_nonneg m e l Hm) as H1.
  destruct (shr_fexp prec emax m e l) as [m1 e1]. cbn in H1.
  assert (H2 : 0 <= round_nearest_even (shr_m m1) (loc_of_shr_record m1)).
  { unfold round_nearest_even. repeat case_match; lia. }
  pose proof (shr_fexp_nonneg _ e1 loc_Exact H2) as H3.
  destruct (shr_fexp prec emax (round_nearest_even _ _) e1 loc_Exact) as [m2 e2]. cbn in H3.
  destruct (shr_m m2); [done|by case_match|lia].
Qed.
Lemma normalize_nonneg (m e : Z) : 0 <= m -> nonneg (binary_normalize prec emax m e false) = true.
Proof.
  intros Hm. unfold binary_normalize, binary_round. destruct m; [done| |lia].
  case_match. by apply round_aux_nonneg.
Qed.
Lemma add_nonneg (x y : spec_float) : nonneg x = true -> nonneg y = true -> nonneg (SFadd prec emax x y) = true.
Proof.
  destruct x as [[]|[]| |[] ? ?], y as [[]|[]| |[] ? ?]; cbn; try done. intros _ _. by apply normalize_nonneg.
Qed.
Lemma div_nonneg (m1 : positive) (e1 : Z) (y : spec_float) : nonneg y = true ->
  nonneg (SFdiv prec emax (S754_finite false m1 e1) y) = true.
Proof.
  destruct y as [[]|[]| |[] m2 e2]; cbn; try done. intros _. unfold SFdiv_core_binary.
  set (m' := match (_ : Z) with Z0 => _ | Zpos _ => _ | Zneg _ => _ end).
  assert (Hm : 0 <= m') by (unfold m'; case_match; [done|by apply Z.shiftl_nonneg|done]).
  pose proof (Z.div_pos m' (Z.pos m2) Hm eq_refl) as Hq. unfold Z.div in Hq.
  destruct (Z.div_eucl m' (Z.pos m2)) as [q r]. by apply round_aux_nonneg.
Qed.
End Rounding.
