(* ===== verification/Heap.v ===== *)
(** * Package [container/heap]

    The sift operations of Go's binary heap on a slice, for a comparison that
    may panic, and what they guarantee when it does not. *)

From S2P Require Import Prelude.
Local Open Scope nat_scope.

Section Heap.
Context {A : Type} (less : A -> A -> outcome bool).

(** [h.Swap(i, j)] and [h.Less(i, j)]. *)
Definition swap (i j : nat) (l : list A) : outcome (list A) :=
  a ← at_ l i; b ← at_ l j; Ret (<[i := b]> (<[j := a]> l)).
Definition Less (l : list A) (i j : nat) : outcome bool := a ← at_ l i; b ← at_ l j; less a b.

Fixpoint up (fuel j : nat) (l : list A) : outcome (list A) :=
  match fuel with
  | O => NoFuel
  | S fuel' =>
      let i := (j - 1) / 2 in
      if i =? j then Ret l
      else b ← Less l j i; if (b : bool) then l' ← swap i j l; up fuel' i l' else Ret l
  end.
Fixpoint down (fuel i n : nat) (l : list A) : outcome (list A) :=
  match fuel with
  | O => NoFuel
  | S fuel' =>
      let j1 := 2 * i + 1 in
      if n <=? j1 then Ret l
      else
        let j2 := j1 + 1 in
        b2 ← (if j2 <? n then Less l j2 j1 else Ret false);
        let j := if (b2 : bool) then j2 else j1 in
        b ← Less l j i;
        if (b : bool) then l' ← swap i j l; down fuel' j n l' else Ret l
  end.

Definition Push (x : A) (l : list A) : outcome (list A) := up (S (length l)) (length l) (l ++ [x]).
Definition Pop (l : list A) : outcome (A * list A) :=
  match length l with
  | O => Panic
  | S n =>
      l' ← swap 0 n l;
      l'' ← down (S n) 0 n l';
      x ← at_ l'' n;
      Ret (x, take n l'')
  end.

(** ** Swapping *)

Lemma swap_ok (i j : nat) (l : list A) : i < length l -> j < length l ->
  returns (swap i j l) (fun l' => l' ≡ₚ l /\
    forall k, l' !! k = if decide (k = i) then l !! j else if decide (k = j) then l !! i else l !! k).
Proof.
  intros Hi Hj. unfold swap. apply returns_bind, at_lt; [done|]. intros a Ha.
  apply returns_bind, at_lt; [done|]. intros b Hb. cbn. split.
  - by apply Permutation_insert_swap.
  - intros k. destruct (decide (k = i)) as [->|Hk].
    + rewrite list_lookup_insert_eq by (rewrite length_insert; lia). by rewrite Hb.
    + rewrite list_lookup_insert_ne by done. destruct (decide (k = j)) as [->|Hk'].
      * by rewrite list_lookup_insert_eq.
      * by rewrite list_lookup_insert_ne.
Qed.

(** [p] is the parent of [c]. *)
Definition child (p c : nat) : Prop := c = 2 * p + 1 \/ c = 2 * p + 2.
Lemma child_parent (j : nat) : j <> 0 -> child ((j - 1) / 2) j.
Proof.
  intros Hj. unfold child. pose proof (Nat.div_mod_eq (j - 1) 2). pose proof (Nat.mod_upper_bound (j - 1) 2). lia.
Qed.
Lemma child_inj (p p' c : nat) : child p c -> child p' c -> p = p'.
Proof. unfold child. lia. Qed.
End Heap.

(** ** What any comparison that does not panic gives *)

Section Permuted.
Context {A : Type} (less : A -> A -> outcome bool) (ok : A -> Prop).
Hypothesis less_returns : forall a b, ok a -> ok b -> returns (less a b) (fun _ => True).

Lemma Less_returns (l : list A) (i j : nat) : Forall ok l -> i < length l -> j < length l ->
  returns (Less less l i j) (fun _ => True).
Proof.
  intros Hok Hi Hj. unfold Less. apply returns_bind, at_lt; [done|]. intros a Ha.
  apply returns_bind, at_lt; [done|]. intros b Hb. apply less_returns; by eapply Forall_lookup_1.
Qed.

Lemma up_perm (fuel j : nat) (l : list A) : Forall ok l -> j < length l -> j < fuel ->
  returns (up less fuel j l) (fun l' => l' ≡ₚ l).
Proof.
  revert j l. induction fuel as [|fuel IH]; intros j l Hok Hj Hf; [lia|]. cbn [up].
  destruct (Nat.eqb_spec ((j - 1) / 2) j) as [He|He]; [by cbn|].
  assert (Hi : (j - 1) / 2 < j).
  { assert (Hc : child ((j - 1) / 2) j) by (apply child_parent; intros ->; done). unfold child in Hc. lia. }
  eapply returns_bind, returns_mono; [apply Less_returns; [done|lia|lia]|]. intros [] _; [|by cbn].
  eapply returns_bind, returns_mono; [apply swap_ok; lia|]. intros l' [Hp _].
  eapply returns_mono; [apply IH; [by rewrite Hp|rewrite Hp; lia|lia]|]. intros l'' Hp'. by rewrite Hp'.
Qed.

Lemma down_perm (fuel i n : nat) (l : list A) : Forall ok l -> n <= length l -> n <= fuel + i -> 0 < fuel ->
  returns (down less fuel i n l) (fun l' => l' ≡ₚ l).
Proof.
  revert i l. induction fuel as [|fuel IH]; intros i l Hok Hn Hf Hf0; [lia|]. cbn [down].
  destruct (Nat.leb_spec n (2 * i + 1)) as [Hle|Hlt]; [by cbn|].
  assert (Hb : returns (if 2 * i + 1 + 1 <? n then Less less l (2 * i + 1 + 1) (2 * i + 1) else Ret false)
    (fun b => (if (b : bool) then 2 * i + 1 + 1 else 2 * i + 1) < n)).
  { destruct (Nat.ltb_spec (2 * i + 1 + 1) n); [|cbn; lia].
    eapply returns_mono; [apply Less_returns; [done|lia|lia]|]. intros [] _; lia. }
  eapply returns_bind, returns_mono; [exact Hb|]. intros b Hj. clear Hb.
  cbv zeta beta in *. remember (if b then 2 * i + 1 + 1 else 2 * i + 1) as j eqn:Ej. assert (i < j) by (destruct b; lia).
  eapply returns_bind, returns_mono; [apply Less_returns; [done|lia|lia]|]. intros [] _; [|by cbn].
  eapply returns_bind, returns_mono; [apply swap_ok; lia|]. intros l' [Hp _].
  eapply returns_mono; [apply IH; [by rewrite Hp|rewrite Hp; lia|lia|lia]|]. intros l'' Hp'. by rewrite Hp'.
Qed.

Lemma Push_perm (x : A) (l : list A) : Forall ok (x :: l) -> returns (Push less x l) (fun l' => l' ≡ₚ x :: l).
Proof.
  intros [Hx Hok]%Forall_cons. eapply returns_mono; [apply up_perm|].
  - apply Forall_app. split; [done|by constructor].
  - rewrite length_app. cbn. lia.
  - lia.
  - intros l' Hp. rewrite Hp. by rewrite Permutation_app_comm.
Qed.

Lemma Pop_perm (l : list A) : Forall ok l -> l <> [] -> returns (Pop less l) (fun '(x, l') => x :: l' ≡ₚ l).
Proof.
  intros Hok Hne. unfold Pop. destruct (length l) as [|n] eqn:Hlen; [by destruct l|].
  eapply returns_bind, returns_mono; [apply (swap_ok 0 n l); lia|]. intros l' [Hp _].
  eapply returns_bind, returns_mono; [apply (down_perm (S n) 0 n l'); [by rewrite Hp|rewrite Hp; lia|lia|lia]|].
  intros l'' Hp'. assert (Hlen' : length l'' = S n) by by rewrite Hp', Hp.
  destruct (lookup_lt_is_Some_2 l'' n) as [x Hx]; [lia|]. apply returns_bind, (at_ok _ _ _ _ Hx). cbn.
  rewrite <- Hp, <- Hp'. rewrite <- (take_drop n l'') at 2. rewrite (drop_S _ _ _ Hx), drop_ge by lia.
  by rewrite Permutation_app_comm.
Qed.
End Permuted.

(** ** What a comparison that is a strict weak order gives *)

Section Ordered.
Context {A : Type} (less : A -> A -> outcome bool) (ok : A -> Prop) (lt : A -> A -> bool).
Hypothesis less_lt : forall a b, ok a -> ok b -> less a b = Ret (lt a b).
Hypothesis lt_asym : forall a b, ok a -> ok b -> lt a b = true -> lt b a = false.
Hypothesis le_trans : forall a b c, ok a -> ok b -> ok c -> lt b a = false -> lt c b = false -> lt c a = false.

Definition le (a b : A) : Prop := lt b a = false.
Definition edge (l : list A) (p c : nat) : Prop := forall a b, l !! p = Some a -> l !! c = Some b -> le a b.
Definition heap (l : list A) : Prop := forall p c, child p c -> edge l p c.
(** The heap of the first [n] elements; every edge but the one above [j], or but those below [i]. *)
Definition heap_to (n : nat) (l : list A) : Prop := forall p c, child p c -> c < n -> edge l p c.
Definition up_inv (j : nat) (l : list A) : Prop :=
  (forall p c, child p c -> c <> j -> edge l p c) /\ (forall p c, child p j -> child j c -> edge l p c).
Definition down_inv (i n : nat) (l : list A) : Prop :=
  (forall p c, child p c -> c < n -> p <> i -> edge l p c) /\ (forall p c, child p i -> child i c -> c < n -> edge l p c).

Lemma Less_ok (l : list A) (i j : nat) (P : bool -> Prop) : Forall ok l -> i < length l -> j < length l ->
  (forall a b, l !! i = Some a -> l !! j = Some b -> ok a -> ok b -> P (lt a b)) -> returns (Less less l i j) P.
Proof.
  intros Hok Hi Hj HP. unfold Less. apply returns_bind, at_lt; [done|]. intros a Ha.
  apply returns_bind, at_lt; [done|]. intros b Hb.
  assert (ok a) by by eapply Forall_lookup_1. assert (ok b) by by eapply Forall_lookup_1.
  rewrite less_lt by done. cbn. by apply HP.
Qed.

Lemma up_swap (i j : nat) (l l' : list A) (x y : A) : Forall ok l -> child i j ->
  l !! j = Some x -> l !! i = Some y -> lt x y = true -> up_inv j l ->
  (forall k, l' !! k = if decide (k = i) then l !! j else if decide (k = j) then l !! i else l !! k) -> up_inv i l'.
Proof.
  intros Hok Hc Hx Hy Hlt [H1 H2] Hl.
  assert (Hget : forall k a, l !! k = Some a -> ok a) by (intros; by eapply Forall_lookup_1).
  assert (Hne : i <> j) by (unfold child in Hc; lia).
  split.
  - intros p c Hpc Hci. unfold edge. intros a b. rewrite !Hl.
    destruct (decide (c = i)); [done|]. destruct (decide (c = j)) as [->|Hcj].
    + assert (p = i) as -> by by eapply child_inj. rewrite decide_True by done. rewrite Hx, Hy. intros [= <-] [= <-].
      apply lt_asym; eauto.
    + destruct (decide (p = i)) as [->|Hpi].
      * rewrite Hx. intros [= <-] Hb. pose proof (H1 i c Hpc Hcj y b Hy Hb) as Hyb. eapply (le_trans _ y); eauto.
      * destruct (decide (p = j)) as [->|Hpj]; [rewrite Hy; intros [= <-] Hb; by apply (H2 i c)|].
        intros Ha Hb. by apply (H1 p c).
  - intros p c Hpi Hic. unfold edge. intros a b. rewrite !Hl.
    assert (p <> i /\ p <> j /\ c <> i) as (? & ? & ?) by (unfold child in *; lia).
    rewrite (decide_False (P := p = i)), (decide_False (P := p = j)), (decide_False (P := c = i)) by done.
    intros Ha. assert (Hay : le a y) by (apply (H1 p i); [done|unfold child in *; lia|done|done]).
    destruct (decide (c = j)) as [->|Hcj]; [by rewrite Hy; intros [= <-]|].
    intros Hb. pose proof (H1 i c Hic Hcj y b Hy Hb) as Hyb. eapply (le_trans _ y); eauto.
Qed.

Lemma up_inv_root (l : list A) : up_inv 0 l -> heap l.
Proof. intros [H _] p c Hpc. apply H; [done|unfold child in Hpc; lia]. Qed.

Lemma up_ok (fuel j : nat) (l : list A) : Forall ok l -> j < length l -> j < fuel -> up_inv j l ->
  returns (up less fuel j l) (fun l' => l' ≡ₚ l /\ heap l').
Proof.
  revert j l. induction fuel as [|fuel IH]; intros j l Hok Hj Hf Hinv; [lia|]. cbn [up].
  destruct (Nat.eqb_spec ((j - 1) / 2) j) as [He|He].
  { cbn. split; [done|]. assert (j = 0) as ->; [|by apply up_inv_root].
    destruct (decide (j = 0)); [done|]. pose proof (child_parent j). unfold child in *. lia. }
  assert (Hc : child ((j - 1) / 2) j) by (apply child_parent; intros ->; done).
  assert (Hi : (j - 1) / 2 < j) by (unfold child in Hc; lia). set (i := (j - 1) / 2) in *.
  apply returns_bind, Less_ok; [done|lia|lia|]. intros x y Hx Hy Hox Hoy. destruct (lt x y) eqn:Hxy.
  - eapply returns_bind, returns_mono; [apply (swap_ok i j l); lia|]. intros l' [Hp Hl].
    eapply returns_mono; [apply IH|].
    + by rewrite Hp.
    + rewrite Hp. lia.
    + lia.
    + by eapply up_swap.
    + intros l'' [Hp' Hh]. split; [by rewrite Hp'|done].
  - cbn. split; [done|]. destruct Hinv as [H1 H2]. intros p c Hpc. destruct (decide (c = j)) as [->|Hn]; [|by apply H1].
    assert (p = i) as -> by by eapply child_inj. intros a b Ha Hb. by simplify_eq.
Qed.

Lemma Push_ok (x : A) (l : list A) : Forall ok (x :: l) -> heap l ->
  returns (Push less x l) (fun l' => l' ≡ₚ x :: l /\ heap l').
Proof.
  intros Hok Hh. eapply returns_mono; [apply up_ok|].
  - apply Forall_app. apply Forall_cons in Hok as [? ?]. split; [done|by constructor].
  - rewrite length_app. cbn. lia.
  - lia.
  - assert (forall k a, (l ++ [x]) !! k = Some a -> k <> length l -> l !! k = Some a).
    { intros k a Hk Hn. apply lookup_app_Some in Hk as [|[? Hk]]; [done|].
      apply lookup_lt_Some in Hk. cbn in Hk. lia. }
    split.
    + intros p c Hpc Hn a b Ha Hb. apply (Hh p c); [done| |by apply H].
      apply H; [done|]. apply lookup_lt_Some in Hb. rewrite length_app in Hb. cbn in Hb. unfold child in Hpc. lia.
    + intros p c Hp Hc a b Ha Hb. apply lookup_lt_Some in Hb. rewrite length_app in Hb. cbn in Hb. unfold child in *. lia.
  - intros l' [Hp Hl]. split; [|done]. rewrite Hp. by rewrite Permutation_app_comm.
Qed.

Lemma down_swap (i j n : nat) (l l' : list A) (x y : A) : Forall ok l -> child i j -> j < n -> n <= length l ->
  l !! j = Some x -> l !! i = Some y -> lt x y = true ->
  (forall c b, child i c -> c < n -> l !! c = Some b -> le x b) -> down_inv i n l ->
  (forall k, l' !! k = if decide (k = i) then l !! j else if decide (k = j) then l !! i else l !! k) -> down_inv j n l'.
Proof.
  intros Hok Hc Hj Hn Hx Hy Hlt Hmin [H1 H2] Hl.
  assert (Hget : forall k a, l !! k = Some a -> ok a) by (intros; by eapply Forall_lookup_1).
  split.
  - intros p c Hpc Hcn Hpj. unfold edge. intros a b. rewrite !Hl. destruct (decide (p = i)) as [->|Hpi].
    + assert (c <> i) by (unfold child in *; lia). rewrite (decide_False (P := c = i)) by done.
      rewrite Hx. intros [= <-]. destruct (decide (c = j)) as [->|Hcj].
      * rewrite Hy. intros [= <-]. apply lt_asym; eauto.
      * intros Hb. by apply (Hmin c b).
    + rewrite (decide_False (P := p = j)) by done. destruct (decide (c = i)) as [->|Hci].
      * intros Ha. rewrite Hx. intros [= <-]. by apply (H2 p j).
      * destruct (decide (c = j)) as [->|Hcj]; [exfalso; apply Hpi; by eapply child_inj|]. intros Ha Hb.
        by apply (H1 p c).
  - intros p c Hpj Hjc Hcn. assert (p = i) as -> by by eapply child_inj. unfold edge. intros a b. rewrite !Hl.
    assert (c <> i /\ c <> j) as [? ?] by (unfold child in *; lia).
    rewrite (decide_True (P := i = i)), (decide_False (P := c = i)), (decide_False (P := c = j)) by done.
    intros Ha Hb. apply (H1 j c); [done|done|unfold child in *; lia|done|done].
Qed.

(** The smaller child of [i]. *)
Lemma smaller_child (i n : nat) (l : list A) (P : bool -> Prop) : Forall ok l -> n <= length l -> 2 * i + 1 < n ->
  (forall b : bool, let j := if b then 2 * i + 1 + 1 else 2 * i + 1 in j < n ->
    (forall x c b', l !! j = Some x -> child i c -> c < n -> l !! c = Some b' -> le x b') -> P b) ->
  returns (if 2 * i + 1 + 1 <? n then Less less l (2 * i + 1 + 1) (2 * i + 1) else Ret false) P.
Proof.
  intros Hok Hn Hj1 HP. assert (Hrefl : forall a, ok a -> le a a).
  { intros a Ha. unfold le. destruct (lt a a) eqn:H; [|done]. by rewrite (lt_asym a a) in H. }
  assert (Hget : forall k a, l !! k = Some a -> ok a) by (intros; by eapply Forall_lookup_1).
  destruct (Nat.ltb_spec (2 * i + 1 + 1) n) as [Hj2|Hj2].
  - apply Less_ok; [done|lia|lia|]. intros x y Hx Hy Hox Hoy.
    assert (Hlt : lt x y = true -> le x y) by (apply lt_asym; done). apply HP; [destruct (lt x y); lia|].
    intros z c w Hz Hc Hcn Hw. destruct (lt x y) eqn:Hxy.
    + rewrite Hx in Hz. injection Hz as <-. destruct Hc as [-> | ->].
      * rewrite Hy in Hw. injection Hw as <-. by apply Hlt.
      * replace (2 * i + 2) with (2 * i + 1 + 1) in Hw by lia. rewrite Hx in Hw. injection Hw as <-. by apply Hrefl.
    + rewrite Hy in Hz. injection Hz as <-. destruct Hc as [-> | ->].
      * rewrite Hy in Hw. injection Hw as <-. by apply Hrefl.
      * replace (2 * i + 2) with (2 * i + 1 + 1) in Hw by lia. rewrite Hx in Hw. by injection Hw as <-.
  - cbn. apply HP; [lia|]. intros z c w Hz Hc Hcn Hw. assert (c = 2 * i + 1) as -> by (unfold child in Hc; lia).
    rewrite Hz in Hw. injection Hw as <-. eapply Hrefl, Hget, Hz.
Qed.

Lemma down_ok (fuel i n : nat) (l : list A) : Forall ok l -> n <= length l -> n <= fuel + i -> 0 < fuel ->
  down_inv i n l ->
  returns (down less fuel i n l) (fun l' => l' ≡ₚ l /\ heap_to n l' /\ forall k, n <= k -> l' !! k = l !! k).
Proof.
  revert i l. induction fuel as [|fuel IH]; intros i l Hok Hn Hf Hf0 Hinv; [lia|]. cbn [down].
  destruct (Nat.leb_spec n (2 * i + 1)) as [Hle|Hlt'].
  { cbn. split_and!; [done| |done]. intros p c Hpc Hcn. apply (proj1 Hinv); [done|done|]. unfold child in Hpc. lia. }
  apply returns_bind, smaller_child; [done|done|done|]. intros b j Hj Hmin.
  assert (Hc : child i j) by (subst j; destruct b; unfold child; lia). assert (Hij : i < j) by (unfold child in Hc; lia).
  apply returns_bind, Less_ok; [done|lia|lia|]. intros x y Hx Hy Hox Hoy. destruct (lt x y) eqn:Hxy.
  - eapply returns_bind, returns_mono; [apply (swap_ok i j l); lia|]. intros l' [Hp Hl].
    eapply returns_mono; [apply IH|].
    + by rewrite Hp.
    + rewrite Hp. lia.
    + lia.
    + lia.
    + eapply down_swap; eauto.
    + intros l'' (Hp' & Hh & Hk). split_and!; [by rewrite Hp'|done|]. intros k Hk'. rewrite Hk, Hl by done.
      by rewrite !decide_False by lia.
  - cbn. split_and!; [done| |done]. intros p c Hpc Hcn. destruct (decide (p = i)) as [->|Hpi]; [|by apply (proj1 Hinv)].
    intros a w Ha Hw. rewrite Hy in Ha. injection Ha as <-.
    pose proof (Hmin x c w Hx Hpc Hcn Hw) as Hxw. eapply (le_trans _ x); try done; eapply Forall_lookup_1; eauto.
Qed.

Lemma heap_root (l : list A) (x : A) : Forall ok l -> heap l -> l !! 0 = Some x -> Forall (le x) l.
Proof.
  intros Hok Hh Hx. assert (Hget : forall k a, l !! k = Some a -> ok a) by (intros; by eapply Forall_lookup_1).
  apply Forall_lookup. intros k. induction (lt_wf k) as [k _ IH]. intros y Hy. destruct (decide (k = 0)) as [->|Hk].
  - rewrite Hx in Hy. injection Hy as <-. unfold le. destruct (lt x x) eqn:H; [|done].
    by rewrite (lt_asym x x) in H by eauto.
  - pose proof (child_parent k Hk) as Hc. assert (Hlt : (k - 1) / 2 < k) by (unfold child in Hc; lia).
    destruct (lookup_lt_is_Some_2 l ((k - 1) / 2)) as [z Hz]; [apply lookup_lt_Some in Hy; lia|].
    apply (le_trans x z y); eauto; [by eapply IH|by apply (Hh _ _ Hc)].
Qed.

Lemma Pop_ok (l : list A) : Forall ok l -> heap l -> l <> [] ->
  returns (Pop less l) (fun '(x, l') => x :: l' ≡ₚ l /\ heap l' /\ Forall (le x) l).
Proof.
  intros Hok Hh Hne. unfold Pop. destruct (length l) as [|n] eqn:Hlen; [by destruct l|].
  eapply returns_bind, returns_mono; [apply (swap_ok 0 n l); lia|]. intros l' [Hp Hl].
  eapply returns_bind, returns_mono; [apply (down_ok (S n) 0 n l')|].
  - by rewrite Hp.
  - rewrite Hp. lia.
  - lia.
  - lia.
  - split; [|intros p c Hp0; unfold child in Hp0; lia].
    intros p c Hpc Hcn Hp0. unfold edge. intros a b. rewrite !Hl. rewrite !decide_False by (unfold child in *; lia).
    intros Ha Hb. by apply (Hh p c).
  - intros l'' (Hp' & Hh' & Hk). assert (Hlen' : length l'' = S n) by by rewrite Hp', Hp.
    destruct (lookup_lt_is_Some_2 l 0) as [x Hx]; [lia|]. assert (Hxn : l'' !! n = Some x).
    { rewrite Hk, Hl by done. destruct (decide (n = 0)) as [->|]; [done|]. by rewrite decide_True by done. }
    apply returns_bind, (at_ok _ _ _ _ Hxn). cbn. split_and!.
    + rewrite <- Hp, <- Hp'. rewrite <- (take_drop n l'') at 2. rewrite (drop_S _ _ _ Hxn), drop_ge by lia.
      by rewrite Permutation_app_comm.
    + intros p c Hpc a b Ha Hb. apply lookup_take_Some in Ha as [Ha _], Hb as [Hb ?]. by apply (Hh' p c).
    + by apply heap_root.
Qed.
End Ordered.
