(* ===== verification/Exchange.v ===== *)
(** * The exchange sort

    The double loop with which the vector index prunes neighbours and the
    encrypted replica ranks its scores: for each [i], every later element that
    comes before the one at [i] changes places with it. *)

From stdpp Require Import sorting.
From S2P Require Import Prelude.
Local Open Scope nat_scope.

Section Exchange.
Context {A : Type} (before : A -> A -> bool).

(** The inner loop: [x] is what stands at [i], the list what is left at [j]. *)
Fixpoint pass (x : A) (l : list A) : A * list A :=
  match l with
  | [] => (x, [])
  | y :: l' =>
      if before y x then let '(z, t) := pass y l' in (z, x :: t)
      else let '(z, t) := pass x l' in (z, y :: t)
  end.
(** The outer loop; the fuel is the number of elements. *)
Fixpoint exchange (fuel : nat) (l : list A) : list A :=
  match fuel, l with
  | S fuel', x :: l' => let '(z, t) := pass x l' in z :: exchange fuel' t
  | _, _ => l
  end.
Definition exchange_sort (l : list A) : list A := exchange (length l) l.

Lemma pass_perm (x : A) (l : list A) : (pass x l).1 :: (pass x l).2 ≡ₚ x :: l.
Proof.
  revert x. induction l as [|y l IH]; intros x; [done|]. cbn [pass]. destruct (before y x).
  - specialize (IH y). destruct (pass y l) as [z t]. cbn in *. rewrite Permutation_swap, IH. done.
  - specialize (IH x). destruct (pass x l) as [z t]. cbn in *. rewrite Permutation_swap, IH. apply Permutation_swap.
Qed.
Lemma pass_length (x : A) (l : list A) : length (pass x l).2 = length l.
Proof. pose proof (Permutation_length (pass_perm x l)) as H. cbn in H. lia. Qed.

Lemma exchange_perm (fuel : nat) (l : list A) : exchange fuel l ≡ₚ l.
Proof.
  revert l. induction fuel as [|fuel IH]; intros [|x l]; cbn [exchange]; try done.
  pose proof (pass_perm x l) as Hp. destruct (pass x l) as [z t]. by rewrite IH.
Qed.
Lemma exchange_sort_perm (l : list A) : exchange_sort l ≡ₚ l.
Proof. apply exchange_perm. Qed.

(** With a strict weak order the result is sorted. *)
Definition not_after (a b : A) : Prop := before b a = false.
Context (ok : A -> Prop).
Hypothesis before_asym : forall a b, ok a -> ok b -> before a b = true -> before b a = false.
Hypothesis before_trans : forall a b c, ok a -> ok b -> ok c -> not_after a b -> not_after b c -> not_after a c.

Lemma pass_least (x : A) (l : list A) : ok x -> Forall ok l ->
  ok (pass x l).1 /\ not_after (pass x l).1 x /\ Forall (not_after (pass x l).1) l.
Proof.
  intros Hx Hl. revert x Hx. induction Hl as [|y l Hy Hl IH]; intros x Hx; cbn [pass].
  - split_and!; [done| |done]. unfold not_after. destruct (before x x) eqn:H; [|done]. by rewrite (before_asym x x) in H.
  - destruct (before y x) eqn:Hyx.
    + destruct (IH y Hy) as (H1 & H2 & H3). destruct (pass y l) as [z t]. cbn in *. split_and!; [done| |by constructor].
      apply (before_trans z y x); [done..|]. by apply before_asym.
    + destruct (IH x Hx) as (H1 & H2 & H3). destruct (pass x l) as [z t]. cbn in *. split_and!; [done|done|].
      constructor; [|done]. by apply (before_trans z x y).
Qed.

Lemma exchange_sorted (fuel : nat) (l : list A) : length l <= fuel -> Forall ok l ->
  StronglySorted not_after (exchange fuel l).
Proof.
  revert l. induction fuel as [|fuel IH]; intros [|x l] Hf Hok; cbn [exchange]; try (by constructor).
  { cbn in Hf. lia. }
  apply Forall_cons in Hok as [Hx Hl]. pose proof (pass_perm x l) as Hp. pose proof (pass_length x l) as Hlen.
  destruct (pass_least x l Hx Hl) as (Hz & Hzx & Hzl). destruct (pass x l) as [z t]. cbn in *.
  assert (Forall ok (z :: t)) as [_ Ht]%Forall_cons by (rewrite Hp; by constructor).
  assert (Forall (not_after z) (z :: t)) as [_ Hzt]%Forall_cons by (rewrite Hp; by constructor).
  constructor; [apply IH; [lia|done]|]. by rewrite exchange_perm.
Qed.
Lemma exchange_sort_sorted (l : list A) : Forall ok l -> StronglySorted not_after (exchange_sort l).
Proof. by apply exchange_sorted. Qed.
End Exchange.

Lemma StronglySorted_impl {A} (R S : A -> A -> Prop) (l : list A) :
  (forall a b, R a b -> S a b) -> StronglySorted R l -> StronglySorted S l.
Proof. intros H. induction 1; constructor; [done|]. eapply Forall_impl; [done|by apply H]. Qed.
