(* ===== verification/NetIP.v ===== *)
(** * Package [net]: addresses

    [net.ParseIP], [net.IP.String], [net.IP.To4], [net.IPMask.Size] and
    [net.SplitHostPort], as the configuration, the lifecycle engine and the
    network managers use them.  An IP is the list of its bytes: 16 as
    [ParseIP] returns it, 4 as [To4] does, and none for a nil slice. *)

From S2P Require Import Prelude GoStrings StringFacts.
Local Open Scope Z_scope.

Definition hex_val (c : ascii) : option Z :=
  if is_digit c then Some (byte c - 48)
  else if in_range 97 102 c then Some (byte c - 87)
  else if in_range 65 70 c then Some (byte c - 55)
  else None.

(** [netip.parseIPv4Fields]: [val] and [digLen] describe the current octet,
    [fields] are the finished ones. *)
Fixpoint v4_fields (val : Z) (digLen : nat) (fields : list Z) (s : string) : option (list Z) :=
  match s with
  | EmptyString => if (length fields <? 3)%nat then None else Some (fields ++ [val])
  | String c s' =>
      if is_digit c then
        if (digLen =? 1)%nat && (val =? 0) then None
        else let val' := val * 10 + (byte c - 48) in
             if 255 <? val' then None else v4_fields val' (S digLen) fields s'
      else if Ascii.eqb c "."%char then
        if (digLen =? 0)%nat || bool_decide (s' = EmptyString) then None
        else if (length fields =? 3)%nat then None
        else v4_fields 0 0 (fields ++ [val]) s'
      else None
  end.

(** One group of hexadecimal digits: their number, value, and the rest. *)
Fixpoint hex_group (off : nat) (acc : Z) (s : string) : option (nat * Z * string) :=
  match s with
  | EmptyString => Some (off, acc, s)
  | String c s' =>
      match hex_val c with
      | None => Some (off, acc, s)
      | Some d => if (3 <? off)%nat then None else hex_group (S off) (acc * 16 + d) s'
      end
  end.

(** The loop of [netip.parseIPv6]: [ip] are the bytes written so far, [ell]
    the position of the ellipsis. *)
Fixpoint v6_loop (fuel : nat) (ell : option nat) (ip : list Z) (s : string)
    : option (list Z * option nat * string) :=
  match fuel with
  | O => Some (ip, ell, s)
  | S f =>
      match hex_group 0 0 s with
      | None => None
      | Some (O, _, _) => None
      | Some (S _, acc, rest) =>
          let ip' := ip ++ [acc / 256; acc mod 256] in
          match rest with
          | EmptyString => Some (ip', ell, EmptyString)
          | String c rest' =>
              if Ascii.eqb c "."%char then
                if bool_decide (ell = None) && negb (length ip =? 12)%nat then None
                else if (16 <? length ip + 4)%nat then None
                else match v4_fields 0 0 [] s with
                     | None => None
                     | Some f4 => Some (ip ++ f4, ell, EmptyString)
                     end
              else if Ascii.eqb c ":"%char then
                match rest' with
                | EmptyString => None
                | String c2 rest2 =>
                    if Ascii.eqb c2 ":"%char then
                      match ell with
                      | Some _ => None
                      | None =>
                          if bool_decide (rest2 = EmptyString)
                          then Some (ip', Some (length ip'), EmptyString)
                          else v6_loop f (Some (length ip')) ip' rest2
                      end
                    else v6_loop f ell ip' rest'
                end
              else None
          end
      end
  end.

Definition v6_parse (s : string) : option (list Z) :=
  let start :=
    if HasPrefix s "::" then
      let s' := str_drop 2 s in
      if bool_decide (s' = EmptyString) then Some ([], Some 0%nat, EmptyString)
      else v6_loop 8 (Some 0%nat) [] s'
    else v6_loop 8 None [] s in
  match start with
  | Some (ip, ell, EmptyString) =>
      if (length ip <? 16)%nat then
        match ell with
        | None => None
        | Some e => Some (take e ip ++ replicate (16 - length ip) 0 ++ drop e ip)
        end
      else match ell with Some _ => None | None => Some ip end
  | _ => None
  end.

Definition v4_in_v6 (f : list Z) : list Z := [0;0;0;0;0;0;0;0;0;0;255;255] ++ f.

(** The first of ['.'], [':'] and ['%'] selects the parser. *)
Fixpoint addr_kind (s : string) : option ascii :=
  match s with
  | EmptyString => None
  | String c s' =>
      if Ascii.eqb c "."%char || Ascii.eqb c ":"%char || Ascii.eqb c "%"%char then Some c
      else addr_kind s'
  end.

(** [net.ParseIP]; zones are refused. *)
Definition ParseIP (s : string) : option (list Z) :=
  if str_existsb (Ascii.eqb "%"%char) s then None
  else match addr_kind s with
       | Some c => if Ascii.eqb c "."%char then v4_in_v6 <$> v4_fields 0 0 [] s else v6_parse s
       | None => None
       end.

(** [ip.To4()]; [[]] is nil. *)
Definition To4 (ip : list Z) : list Z :=
  if (length ip =? 4)%nat then ip
  else if bool_decide (take 12 ip = take 12 (v4_in_v6 [])) && (length ip =? 16)%nat
  then drop 12 ip else [].

Definition dotted (f : list Z) : string := Join (map itoa f) ".".

Fixpoint groups (ip : list Z) : list Z :=
  match ip with a :: b :: l => (a * 256 + b) :: groups l | _ => [] end.
Definition hex_short (n : Z) : string :=
  hex_fixed (if n <? 16 then 1 else if n <? 256 then 2 else if n <? 4096 then 3 else 4) n.
Fixpoint zero_run (l : list Z) : nat :=
  match l with 0 :: l' => S (zero_run l') | _ => 0%nat end.
(** The first longest run of at least two zero groups: start and length. *)
Fixpoint best_run (i : nat) (l : list Z) : option (nat * nat) :=
  match l with
  | [] => None
  | _ :: l' =>
      let n := zero_run l in
      match best_run (S i) l' with
      | Some (j, m) => if (m <=? n)%nat then Some (i, n) else Some (j, m)
      | None => if (2 <=? n)%nat then Some (i, n) else None
      end
  end.
Definition v6_string (ip : list Z) : string :=
  let g := groups ip in
  match best_run 0 g with
  | None => Join (map hex_short g) ":"
  | Some (j, n) =>
      Join (map hex_short (take j g)) ":" +:+ "::" +:+ Join (map hex_short (drop (j + n) g)) ":"
  end.

(** [ip.String()] for the byte lists above. *)
Definition IPString (ip : list Z) : string :=
  if decide (ip = []) then "<nil>"
  else if decide (To4 ip <> []) then dotted (To4 ip)
  else v6_string ip.

(** [mask.Size()]: the number of leading ones, 0 for a non-canonical mask. *)
Definition MaskSize (mask : list Z) : Z :=
  let bits := concat (map (fun b => map (fun i => Z.testbit b (Z.of_nat (7 - i))) (seq 0 8)) mask) in
  let ones := length (drop_while (fun b : bool => b) bits) in
  if forallb negb (drop_while (fun b : bool => b) bits)
  then Z.of_nat (length bits - ones) else 0.

(** ** SplitHostPort *)

Definition addr_error (addr why : string) : result (string * string) :=
  Err (Errorf (if decide (addr = EmptyString) then why else "address " +:+ addr +:+ ": " +:+ why)).

Definition SplitHostPort (hostport : string) : result (string * string) :=
  let missingPort := "missing port in address" in
  let tooManyColons := "too many colons in address" in
  match LastIndexByte hostport ":"%char with
  | None => addr_error hostport missingPort
  | Some i =>
      let finish (host : string) (j k : nat) :=
        match IndexByte (str_drop j hostport) "["%char with
        | Some _ => addr_error hostport "unexpected '[' in address"
        | None =>
            match IndexByte (str_drop k hostport) "]"%char with
            | Some _ => addr_error hostport "unexpected ']' in address"
            | None => Ok (host, str_drop (S i) hostport)
            end
        end in
      if HasPrefix hostport "[" then
        match IndexByte hostport "]"%char with
        | None => addr_error hostport "missing ']' in address"
        | Some e =>
            if (e + 1 =? String.length hostport)%nat then addr_error hostport missingPort
            else if (e + 1 =? i)%nat then finish (str_drop 1 (str_take e hostport)) 1%nat (e + 1)%nat
            else if bool_decide (str_get (e + 1) hostport = Some ":"%char)
                 then addr_error hostport tooManyColons
                 else addr_error hostport missingPort
        end
      else
        let host := str_take i hostport in
        match IndexByte host ":"%char with
        | Some _ => addr_error hostport tooManyColons
        | None => finish host 0%nat 0%nat
        end
  end.

(** ** Facts *)

(** The bytes an accepted address can hold. *)
Definition ip_byte (c : ascii) : bool := is_hex c || Ascii.eqb c "."%char || Ascii.eqb c ":"%char.

Lemma v4_fields_bytes (s : string) (val : Z) (n : nat) (fs : list Z) :
  v4_fields val n fs s <> None -> str_forallb ip_byte s = true.
Proof.
  revert val n fs. induction s as [|c s IH]; intros val n fs; [done|]. simpl.
  unfold ip_byte at 1, is_hex. destruct (is_digit c) eqn:Hd; simpl.
  - repeat (case_goal; try done). intros H. by apply IH in H.
  - destruct (Ascii.eqb c ".") eqn:Hc; [|done]. rewrite orb_true_r. simpl.
    repeat (case_goal; try done). intros H. by apply IH in H.
Qed.

Lemma hex_val_byte (c : ascii) : hex_val c <> None -> ip_byte c = true.
Proof.
  unfold hex_val, ip_byte, is_hex. destruct (is_digit c); [done|].
  destruct (in_range 97 102 c); [done|]. by destruct (in_range 65 70 c).
Qed.

Lemma hex_group_bytes (s rest : string) (off off' : nat) (acc acc' : Z) :
  hex_group off acc s = Some (off', acc', rest) ->
  str_forallb ip_byte rest = true -> str_forallb ip_byte s = true.
Proof.
  revert off acc. induction s as [|c s IH]; intros off acc; simpl; [done|].
  destruct (hex_val c) eqn:Hc.
  - case_goal; [done|]. intros H Hr. rewrite hex_val_byte by by rewrite Hc. by eapply IH.
  - by intros [= <- <- <-].
Qed.

Lemma hex_group_rest (p : ascii -> bool) (s rest : string) (off off' : nat) (acc acc' : Z) :
  hex_group off acc s = Some (off', acc', rest) ->
  str_forallb p s = true -> str_forallb p rest = true.
Proof.
  revert off acc. induction s as [|c s IH]; intros off acc; simpl; [by intros [= _ _ <-]|].
  intros Hg [Hc Hs]%andb_true_iff. destruct (hex_val c).
  - destruct (3 <? off)%nat; [done|]. by eapply IH.
  - injection Hg as _ _ <-. simpl. by rewrite Hc.
Qed.

Lemma v6_loop_bytes (fuel : nat) (ell ell' : option nat) (ip ip' : list Z) (s : string) :
  v6_loop fuel ell ip s = Some (ip', ell', EmptyString) -> str_forallb ip_byte s = true.
Proof.
  revert ell ip s. induction fuel as [|f IH]; intros ell ip s; simpl; [by intros [= _ _ ->]|].
  destruct (hex_group 0 0 s) as [[[[|off] acc] rest]|] eqn:Hg; try done.
  intros H. eapply hex_group_bytes; [exact Hg|]. revert H.
  destruct rest as [|c rest]; [done|].
  destruct (Ascii.eqb c ".") eqn:Hdot.
  - destruct (bool_decide (ell = None) && _); [done|]. case_goal; [done|].
    destruct (v4_fields 0 0 [] s) eqn:Hv; [|done]. intros _.
    assert (str_forallb ip_byte s = true) as Hs by (apply (v4_fields_bytes s 0 0 []); by rewrite Hv).
    by eapply hex_group_rest.
  - destruct (Ascii.eqb c ":") eqn:Hcol; [|done].
    intros H. simpl. unfold ip_byte at 1. rewrite Hcol, orb_true_r. simpl. revert H.
    destruct rest as [|c2 rest]; [done|].
    destruct (Ascii.eqb c2 ":") eqn:Hcol2.
    + destruct ell; [done|]. intros H. simpl. unfold ip_byte at 1. rewrite Hcol2, orb_true_r. simpl.
      case_bool_decide; [by subst|]. by eapply IH.
    + intros H. by eapply IH.
Qed.

Lemma ParseIP_bytes (s : string) : ParseIP s <> None -> str_forallb ip_byte s = true.
Proof.
  unfold ParseIP. destruct (str_existsb _ s); [done|]. destruct (addr_kind s) as [c|]; [|done].
  destruct (Ascii.eqb c ".").
  - intros H. apply (v4_fields_bytes s 0 0 []). by destruct (v4_fields 0 0 [] s).
  - unfold v6_parse. destruct (HasPrefix s "::") eqn:Hp.
    + apply HasPrefix_spec in Hp as [t ->]. change (str_drop 2 ("::" +:+ t)) with t.
      case_bool_decide as Ht; [by rewrite Ht|]. intros H.
      destruct (v6_loop 8 (Some 0%nat) [] t) as [[[ip ell] [|]]|] eqn:Hl; try done.
      apply v6_loop_bytes in Hl. by rewrite forallb_app_str, Hl.
    + intros H. destruct (v6_loop 8 None [] s) as [[[ip ell] [|]]|] eqn:Hl; try done.
      by eapply v6_loop_bytes.
Qed.

(** Reading a number of an octet. *)
Fixpoint v4_digits (val : Z) (n : nat) (w : string) : option (Z * nat) :=
  match w with
  | EmptyString => Some (val, n)
  | String c w' =>
      if is_digit c then
        if (n =? 1)%nat && (val =? 0) then None
        else let val' := val * 10 + (byte c - 48) in
             if 255 <? val' then None else v4_digits val' (S n) w'
      else None
  end.
Lemma v4_fields_digits (w rest : string) (val v : Z) (n m : nat) (fs : list Z) :
  v4_digits val n w = Some (v, m) -> v4_fields val n fs (w +:+ rest) = v4_fields v m fs rest.
Proof.
  revert val n. induction w as [|c w IH]; intros val n; [by intros [= -> ->]|].
  rewrite app_cons. simpl. destruct (is_digit c); [|done].
  destruct ((n =? 1)%nat && (val =? 0)); [done|]. case_goal; [done|]. apply IH.
Qed.
Lemma v4_digits_itoa (a : Z) :
  0 <= a < 256 -> exists m, v4_digits 0 0 (itoa a) = Some (a, S m).
Proof.
  intros Ha.
  assert (forallb (fun k => match v4_digits 0 0 (itoa (Z.of_nat k)) with
    | Some (v, S _) => v =? Z.of_nat k | _ => false end) (seq 0 256) = true) as H by by vm_compute.
  rewrite forallb_forall in H. specialize (H (Z.to_nat a)). rewrite Z2Nat.id in H by lia.
  destruct (v4_digits 0 0 (itoa a)) as [[v [|m]]|]; try (discriminate H; apply in_seq; lia).
  exists m. do 2 f_equal. apply Z.eqb_eq, H, in_seq. lia.
Qed.

Lemma addr_kind_digits (w rest : string) :
  str_forallb is_digit w = true -> addr_kind (w +:+ String "." rest) = Some "."%char.
Proof.
  induction w as [|c w IH]; [done|]. intros H. simpl in H. apply andb_true_iff in H as [Hc Hw].
  rewrite app_cons. simpl. assert (Ascii.eqb c "." || Ascii.eqb c ":" || Ascii.eqb c "%" = false) as ->; [|by apply IH].
  apply negb_true_iff. revert c Hc. apply ascii_impl. by vm_compute.
Qed.

Lemma ParseIP_dotted (a b c d : Z) :
  Forall (fun x => 0 <= x < 256) [a; b; c; d] ->
  ParseIP (dotted [a; b; c; d]) = Some (v4_in_v6 [a; b; c; d]).
Proof.
  intros H. assert (v4_fields 0 0 [] (dotted [a; b; c; d]) = Some [a; b; c; d]) as Hv.
  { repeat (apply Forall_cons in H as [? H]).
    destruct (v4_digits_itoa a), (v4_digits_itoa b), (v4_digits_itoa c), (v4_digits_itoa d); try done.
    unfold dotted. simpl Join.
    do 3 (erewrite v4_fields_digits by eassumption; simpl;
      rewrite ?app_empty_l, bool_decide_eq_false_2 by eauto with torvm; simpl).
    rewrite <- (app_empty_r (itoa d)). by erewrite v4_fields_digits by eassumption. }
  pose proof (v4_fields_bytes (dotted [a; b; c; d]) 0 0 []) as Hb. rewrite Hv in Hb.
  specialize (Hb ltac:(done)). unfold ParseIP.
  assert (str_existsb (Ascii.eqb "%") (dotted [a; b; c; d]) = false) as ->.
  { rewrite existsb_forallb. apply negb_false_iff. revert Hb. apply forallb_impl.
    intros x Hx. apply (ascii_impl ip_byte (fun x => negb (Ascii.eqb "%" x))); [by vm_compute|done]. }
  apply Forall_cons in H as [Ha _]. destruct (utoa_digits a) as [_ Hd]; [lia|].
  assert (dotted [a; b; c; d] = utoa a +:+ String "." (Join (map itoa [b; c; d]) ".")) as Hdot.
  { unfold dotted, itoa at 1. simpl Join. by destruct (a <? 0) eqn:?; [lia|]. }
  rewrite Hdot at 1. rewrite addr_kind_digits by done. simpl. by rewrite Hv.
Qed.

#[export] Hint Rewrite ParseIP_dotted : torvm.
