(* ===== verification/Config.v ===== *)
(** * Package [config]: the configuration, its validation, loading and diff

    [config.go], [diff.go] and [migrate.go].  A Go slice is an [option list],
    because [reflect.DeepEqual], which [Diff] uses, tells a nil slice from an
    empty one.  Field names of nested structs carry the struct's name. *)

From S2P Require Import Prelude GoStrings StringFacts NetIP.
Local Open Scope Z_scope.

(** [runtime.GOOS]. *)
Inductive goos := linux | darwin | windows | other_os.
#[export] Instance goos_eq_dec : EqDecision goos.
Proof. solve_decision. Defined.

Definition slice (A : Type) : Type := option (list A).
Definition elems {A} (s : slice A) : list A := default [] s.

Record BridgeConfig := {
  Bridge_UseBridges : bool;
  Bridge_Transport : string;
  Bridge_Bridges : slice string
}.
Record ProxyConfig := {
  Proxy_Type : string;
  Proxy_Address : string;
  Proxy_Username : string;
  Proxy_Password : string
}.
Record RetryConfig := { Retry_Enabled : bool; Retry_MaxAttempts : Z }.
Record ServiceConfig := { Service_RunAtLoad : bool }.
Record EntropyConfig := {
  Entropy_EnableHaveged : bool;
  Entropy_EnableRngd : bool;
  Entropy_ExposeRDRAND : bool;
  Entropy_SerialEntropyDevice : string;
  Entropy_VirtioRNGMaxBytes : Z;
  Entropy_VirtioRNGPeriod : Z;
  Entropy_KernelEntropyBytes : Z
}.
Record VectorConfig := {
  Vector_Enabled : bool;
  Vector_IndexDir : string;
  Vector_Dimension : Z;
  Vector_ModelPath : string;
  Vector_HNSWm : Z;
  Vector_HNSWefConstruct : Z;
  Vector_HNSWefSearch : Z;
  Vector_SearchMode : string;
  Vector_TopK : Z
}.
Record FHEConfig := {
  FHE_Enabled : bool;
  FHE_IndexDir : string;
  FHE_DocumentDirs : slice string;
  FHE_ShareEnabled : bool;
  FHE_HiddenServicePort : Z;
  FHE_Peers : slice string;
  FHE_RingDegree : Z;
  FHE_AutoIndex : bool;
  FHE_AutoIndexInterval : Z;
  FHE_MaxIndexSizeMB : Z
}.
Record BrowserConfig := {
  Browser_Enabled : bool;
  Browser_VMMemoryMB : Z;
  Browser_VMCPUs : Z;
  Browser_KernelPath : string;
  Browser_InitrdPath : string;
  Browser_StateDiskPath : string;
  Browser_QMPSocketPath : string;
  Browser_VNCDisplay : Z;
  Browser_AutoStart : bool;
  Browser_CanaryIntervalSec : Z;
  Browser_HoneyTokens : bool;
  Browser_AutoRemediate : bool
}.
Record RelayConfig := {
  Relays_ExcludeNodes : slice string;
  Relays_ExcludeExitNodes : slice string;
  Relays_StrictNodes : bool
}.
Record Config := {
  Version : Z;
  TAPName : string;
  HostIP : string;
  VMIP : string;
  SubnetMask : string;
  DNS1 : string;
  DNS2 : string;
  SOCKSPort : Z;
  ControlPort : Z;
  TransPort : Z;
  DNSPort : Z;
  VMMemoryMB : Z;
  VMCPUs : Z;
  KernelPath : string;
  InitrdPath : string;
  StateDiskPath : string;
  QMPSocketPath : string;
  Verbose : bool;
  Accel : string;
  Headless : bool;
  VhostNet : bool;
  IOMMUEnabled : bool;
  Bridge : BridgeConfig;
  Proxy : ProxyConfig;
  Service : ServiceConfig;
  Retry : RetryConfig;
  Entropy : EntropyConfig;
  Relays : RelayConfig;
  Browser : BrowserConfig;
  FHE : FHEConfig;
  Vector : VectorConfig
}.

#[export] Instance BridgeConfig_eq_dec : EqDecision BridgeConfig.
Proof. solve_decision. Defined.
#[export] Instance ProxyConfig_eq_dec : EqDecision ProxyConfig.
Proof. solve_decision. Defined.
#[export] Instance RetryConfig_eq_dec : EqDecision RetryConfig.
Proof. solve_decision. Defined.
#[export] Instance ServiceConfig_eq_dec : EqDecision ServiceConfig.
Proof. solve_decision. Defined.
#[export] Instance EntropyConfig_eq_dec : EqDecision EntropyConfig.
Proof. solve_decision. Defined.
#[export] Instance VectorConfig_eq_dec : EqDecision VectorConfig.
Proof. solve_decision. Defined.
#[export] Instance FHEConfig_eq_dec : EqDecision FHEConfig.
Proof. solve_decision. Defined.
#[export] Instance BrowserConfig_eq_dec : EqDecision BrowserConfig.
Proof. solve_decision. Defined.
#[export] Instance RelayConfig_eq_dec : EqDecision RelayConfig.
Proof. solve_decision. Defined.

(** ** Defaults *)

(** [filepath.Join] of clean, non-empty components. *)
Definition path_join (os : goos) (l : list string) : string :=
  Join l (if decide (os = windows) then "\" else "/").

Definition defaultQMPPath (os : goos) : string :=
  if decide (os = windows) then "\\.\pipe\torvm-qmp" else "/run/torvm/qmp.sock".
Definition defaultBrowserQMPPath (os : goos) : string :=
  if decide (os = windows) then "\\.\pipe\torvm-browser-qmp" else "/run/torvm/browser-qmp.sock".

Definition DefaultConfig (os : goos) : Config := {|
  Version := 0;
  TAPName := if decide (os = windows) then "TorVM Tap" else "torvm0";
  HostIP := "10.10.10.2";
  VMIP := "10.10.10.1";
  SubnetMask := "255.255.255.252";
  DNS1 := "4.2.2.4";
  DNS2 := "4.2.2.2";
  SOCKSPort := 9050;
  ControlPort := 9051;
  TransPort := 9095;
  DNSPort := 9093;
  VMMemoryMB := 128;
  VMCPUs := 2;
  KernelPath := path_join os ["dist"; "vm"; "vmlinuz"];
  InitrdPath := path_join os ["dist"; "vm"; "initramfs.gz"];
  StateDiskPath := path_join os ["dist"; "vm"; "state.img"];
  QMPSocketPath := defaultQMPPath os;
  Verbose := false;
  Accel := "";
  Headless := false;
  VhostNet := false;
  IOMMUEnabled := false;
  Bridge := {| Bridge_UseBridges := false; Bridge_Transport := ""; Bridge_Bridges := None |};
  Proxy := {| Proxy_Type := ""; Proxy_Address := ""; Proxy_Username := ""; Proxy_Password := "" |};
  Service := {| Service_RunAtLoad := false |};
  Retry := {| Retry_Enabled := true; Retry_MaxAttempts := 3 |};
  Entropy := {|
    Entropy_EnableHaveged := true;
    Entropy_EnableRngd := true;
    Entropy_ExposeRDRAND := true;
    Entropy_SerialEntropyDevice := "";
    Entropy_VirtioRNGMaxBytes := 1024;
    Entropy_VirtioRNGPeriod := 1000;
    Entropy_KernelEntropyBytes := 64
  |};
  Relays := {| Relays_ExcludeNodes := None; Relays_ExcludeExitNodes := None;
               Relays_StrictNodes := false |};
  Browser := {|
    Browser_Enabled := false;
    Browser_VMMemoryMB := 512;
    Browser_VMCPUs := 2;
    Browser_KernelPath := path_join os ["dist"; "browservm"; "vmlinuz"];
    Browser_InitrdPath := path_join os ["dist"; "browservm"; "initramfs.gz"];
    Browser_StateDiskPath := path_join os ["dist"; "browservm"; "state.img"];
    Browser_QMPSocketPath := defaultBrowserQMPPath os;
    Browser_VNCDisplay := 1;
    Browser_AutoStart := true;
    Browser_CanaryIntervalSec := 5;
    Browser_HoneyTokens := true;
    Browser_AutoRemediate := true
  |};
  FHE := {|
    FHE_Enabled := false;
    FHE_IndexDir := path_join os ["dist"; "fhe"];
    FHE_DocumentDirs := None;
    FHE_ShareEnabled := false;
    FHE_HiddenServicePort := 8443;
    FHE_Peers := None;
    FHE_RingDegree := 12;
    FHE_AutoIndex := false;
    FHE_AutoIndexInterval := 60;
    FHE_MaxIndexSizeMB := 512
  |};
  Vector := {|
    Vector_Enabled := false;
    Vector_IndexDir := path_join os ["dist"; "vector"];
    Vector_Dimension := 128;
    Vector_ModelPath := "";
    Vector_HNSWm := 16;
    Vector_HNSWefConstruct := 200;
    Vector_HNSWefSearch := 50;
    Vector_SearchMode := "hybrid";
    Vector_TopK := 10
  |}
|}.

(** ** Validation *)

(** [`^[a-zA-Z][a-zA-Z0-9]{0,14}$`] *)
Definition tapNameUnixRe (s : string) : bool :=
  match s with
  | String c s' => is_alpha c && str_forallb is_alnum s' && (len s' <=? 14)
  | EmptyString => false
  end.
(** [`^[a-zA-Z][a-zA-Z0-9 -]{0,63}$`] *)
Definition tapNameWindowsRe (s : string) : bool :=
  match s with
  | String c s' =>
      is_alpha c &&
      str_forallb (fun a => is_alnum a || Ascii.eqb a " "%char || Ascii.eqb a "-"%char) s' &&
      (len s' <=? 63)
  | EmptyString => false
  end.

Definition one_of (l : list string) (s : string) : bool := bool_decide (s ∈ l).
Definition outside (lo hi v : Z) : bool := (v <? lo) || (hi <? v).

Section Validate.
Context `{U : UnicodeTables} (os : goos).

Definition validateTAPName (name : string) : result unit :=
  fail_if (bool_decide (name = EmptyString)) "TAPName must not be empty" ;;
  if decide (os = windows) then
    fail_if (negb (tapNameWindowsRe name))
      ("TAPName " +:+ Quote name +:+
       " does not match allowed pattern (letters, digits, spaces, hyphens; max 64 chars)")
  else
    fail_if (negb (tapNameUnixRe name))
      ("TAPName " +:+ Quote name +:+
       " does not match allowed pattern (letter followed by up to 14 alphanumeric chars)").

Definition validatePort (name : string) (port : Z) : result unit :=
  fail_if (outside 1 65535 port) (name +:+ " must be 1-65535, got " +:+ itoa port).

Definition validateIP (p : string * string) : result unit :=
  fail_if (bool_decide (ParseIP p.2 = None)) ("invalid IP for " +:+ p.1 +:+ ": " +:+ Quote p.2).
Definition validatePath (p : string * string) : result unit :=
  fail_if (bool_decide (p.2 = EmptyString)) (p.1 +:+ " must not be empty").
Definition validateRange (name range : string) (lo hi v : Z) : result unit :=
  fail_if (outside lo hi v) (name +:+ " must be " +:+ range +:+ ", got " +:+ itoa v).
Definition validateEnum (name : string) (l : list string) (v : string) : result unit :=
  fail_if (negb (one_of l v)) ("invalid " +:+ name +:+ ": " +:+ Quote v).

(** The entropy settings, [config.go] 388-408. *)
Definition validateEntropy (e : EntropyConfig) : result unit :=
  let dev := Entropy_SerialEntropyDevice e in
  validateRange "Entropy.VirtioRNGMaxBytes" "64-65536" 64 65536 (Entropy_VirtioRNGMaxBytes e) ;;
  validateRange "Entropy.VirtioRNGPeriod" "100-60000" 100 60000 (Entropy_VirtioRNGPeriod e) ;;
  validateRange "Entropy.KernelEntropyBytes" "16-256" 16 256 (Entropy_KernelEntropyBytes e) ;;
  if decide (dev = EmptyString) then Ok tt
  else
    fail_if (Contains dev (str1 NUL)) "Entropy.SerialEntropyDevice contains null byte" ;;
    fail_if (negb (HasPrefix dev "/dev/"))
      ("Entropy.SerialEntropyDevice must be a /dev/ path, got " +:+ Quote dev) ;;
    fail_if (Contains dev "..") "Entropy.SerialEntropyDevice must not contain '..'".

(** The vector settings, [config.go] 411-433. *)
Definition validateVector (v : VectorConfig) : result unit :=
  if Vector_Enabled v then
    validateRange "Vector.Dimension" "8-2048" 8 2048 (Vector_Dimension v) ;;
    validateRange "Vector.HNSWm" "4-64" 4 64 (Vector_HNSWm v) ;;
    validateRange "Vector.HNSWefConstruct" "10-1000" 10 1000 (Vector_HNSWefConstruct v) ;;
    validateRange "Vector.HNSWefSearch" "10-500" 10 500 (Vector_HNSWefSearch v) ;;
    validateRange "Vector.TopK" "1-1000" 1 1000 (Vector_TopK v) ;;
    validateEnum "Vector.SearchMode" ["keyword"; "vector"; "hybrid"; ""] (Vector_SearchMode v)
  else Ok tt.

(** The FHE settings, [config.go] 436-451. *)
Definition validateFHE (f : FHEConfig) : result unit :=
  if FHE_Enabled f then
    validateRange "FHE.RingDegree" "10-15 (logN)" 10 15 (FHE_RingDegree f) ;;
    (if FHE_HiddenServicePort f =? 0 then Ok tt
     else validatePort "FHE.HiddenServicePort" (FHE_HiddenServicePort f)) ;;
    validateRange "FHE.MaxIndexSizeMB" "1-10240" 1 10240 (FHE_MaxIndexSizeMB f) ;;
    validateRange "FHE.AutoIndexInterval" "1-1440 minutes" 1 1440 (FHE_AutoIndexInterval f)
  else Ok tt.

(** The browser VM settings, [config.go] 454-477. *)
Definition validateBrowser (b : BrowserConfig) : result unit :=
  if Browser_Enabled b then
    validateRange "Browser.VMMemoryMB" "256-4096" 256 4096 (Browser_VMMemoryMB b) ;;
    validateRange "Browser.VMCPUs" "1-8" 1 8 (Browser_VMCPUs b) ;;
    validateRange "Browser.VNCDisplay" "0-99" 0 99 (Browser_VNCDisplay b) ;;
    validateRange "Browser.CanaryIntervalSec" "1-300" 1 300 (Browser_CanaryIntervalSec b) ;;
    each validatePath [
      ("Browser.KernelPath", Browser_KernelPath b);
      ("Browser.InitrdPath", Browser_InitrdPath b);
      ("Browser.StateDiskPath", Browser_StateDiskPath b);
      ("Browser.QMPSocketPath", Browser_QMPSocketPath b) ]
  else Ok tt.

Definition Validate (c : Config) : result unit :=
  each validateIP [
    ("HostIP", HostIP c); ("VMIP", VMIP c); ("SubnetMask", SubnetMask c);
    ("DNS1", DNS1 c); ("DNS2", DNS2 c) ] ;;
  validatePort "SOCKSPort" (SOCKSPort c) ;;
  validatePort "ControlPort" (ControlPort c) ;;
  validatePort "TransPort" (TransPort c) ;;
  validatePort "DNSPort" (DNSPort c) ;;
  validateRange "VMMemoryMB" "32-4096" 32 4096 (VMMemoryMB c) ;;
  validateRange "VMCPUs" "1-16" 1 16 (VMCPUs c) ;;
  each validatePath [
    ("KernelPath", KernelPath c); ("InitrdPath", InitrdPath c);
    ("StateDiskPath", StateDiskPath c); ("QMPSocketPath", QMPSocketPath c) ] ;;
  validateTAPName (TAPName c) ;;
  validateEnum "Accel" [""; "kvm"; "hvf"; "whpx"; "tcg"] (Accel c) ;;
  validateEnum "Proxy.Type" [""; "http"; "https"; "socks5"] (Proxy_Type (Proxy c)) ;;
  validateEnum "Bridge.Transport" [""; "none"; "obfs4"; "meek-azure"; "snowflake"]
    (Bridge_Transport (Bridge c)) ;;
  validateEntropy (Entropy c) ;;
  validateVector (Vector c) ;;
  validateFHE (FHE c) ;;
  validateBrowser (Browser c).
End Validate.

(** ** Migration and loading

    The file system and the JSON codec ([os], [encoding/json]) are an
    interface; [migrateJSON] and [Load] are the code between them. *)

Inductive stat_result := StatOk (perm : Z) | StatNotExist | StatErr (e : error).
Inductive read_result := ReadOk (data : string) | ReadNotExist | ReadErr (e : error).

Class ConfigIO := {
  (** [os.Stat(path)]: the permission bits. *)
  os_stat : string -> stat_result;
  (** [os.ReadFile(path)]. *)
  os_read : string -> read_result;
  (** [json.Unmarshal(data, &env)] of [configEnvelope]; [None] on error. *)
  json_version : string -> option Z;
  (** [json.Unmarshal(data, &raw)] into a raw map ([None] on error); the JSON
      text [null] leaves the map nil ([Some None]).  [MarshalIndent] of a map. *)
  json_object : string -> option (option (gmap string string));
  json_indent : gmap string string -> option string;
  (** [json.Unmarshal(data, cfg)] over an existing configuration. *)
  json_config : string -> Config -> result Config
}.

Definition ConfigVersion : Z := 1.

Definition set_Version (c : Config) (v : Z) : Config := {|
  Version := v; TAPName := TAPName c; HostIP := HostIP c; VMIP := VMIP c;
  SubnetMask := SubnetMask c; DNS1 := DNS1 c; DNS2 := DNS2 c; SOCKSPort := SOCKSPort c;
  ControlPort := ControlPort c; TransPort := TransPort c; DNSPort := DNSPort c;
  VMMemoryMB := VMMemoryMB c; VMCPUs := VMCPUs c; KernelPath := KernelPath c;
  InitrdPath := InitrdPath c; StateDiskPath := StateDiskPath c;
  QMPSocketPath := QMPSocketPath c; Verbose := Verbose c; Accel := Accel c;
  Headless := Headless c; VhostNet := VhostNet c; IOMMUEnabled := IOMMUEnabled c;
  Bridge := Bridge c; Proxy := Proxy c; Service := Service c; Retry := Retry c;
  Entropy := Entropy c; Relays := Relays c; Browser := Browser c; FHE := FHE c;
  Vector := Vector c |}.

(** What [migrateJSON] does: its error is always nil, but assigning into a
    nil map panics. *)
Inductive migrated := Migrated (data : string) | NilMapPanic | OutOfFuel.

Section Load.
Context `{U : UnicodeTables} `{IO : ConfigIO} (os : goos).

(** The migration loop, from version [v]. *)
Fixpoint migrate_loop (fuel : nat) (v : Z) (data : string) : migrated :=
  if v <? ConfigVersion then
    match fuel with
    | O => OutOfFuel
    | S f =>
        if v =? 0 then
          match json_object data with
          | None => Migrated data
          | Some None => NilMapPanic
          | Some (Some raw) =>
              match json_indent (<["config_version" := "1"]> raw) with
              | None => Migrated data
              | Some data' => migrate_loop f 1 data'
              end
          end
        else Migrated data
    end
  else Migrated data.

(** One iteration is enough: the only step leads to the current version. *)
Definition migrateJSON (data : string) : migrated :=
  migrate_loop 1 (default 0 (json_version data)) data.

Definition insecure (perm : Z) : bool := negb (Z.land perm 18 =? 0).

(** [%04o]. *)
Fixpoint octal_fixed (width : nat) (n : Z) : string :=
  match width with
  | O => EmptyString
  | S w => String (digit_char (Z.shiftr n (3 * Z.of_nat w) mod 8)) (octal_fixed w n)
  end.

Definition check_perm (path : string) : result unit :=
  if decide (os = windows) then Ok tt
  else match os_stat path with
       | StatErr e => wrap "stat config file" (Err e)
       | StatNotExist => Ok tt
       | StatOk perm =>
           fail_if (insecure perm)
             ("config file " +:+ path +:+ " has insecure permissions " +:+ octal_fixed 4 perm
              +:+ "; must not be group-writable or world-writable (expected 0600 or 0644)")
       end.

Definition load_default : result Config :=
  wrap "default config invalid" (Validate os (DefaultConfig os)) ;; Ok (DefaultConfig os).

(** [None] is a panic. *)
Definition Load (path : string) : option (result Config) :=
  if decide (path = EmptyString) then Some load_default
  else
    match check_perm path with
    | Err e => Some (Err e)
    | Ok _ =>
        match os_read path with
        | ReadNotExist => Some load_default
        | ReadErr e => Some (Err e)
        | ReadOk data =>
            match migrateJSON data with
            | Migrated data' => Some (
                cfg ← json_config data' (DefaultConfig os);
                wrap "config validation" (Validate os (set_Version cfg ConfigVersion)) ;;
                Ok (set_Version cfg ConfigVersion))
            | NilMapPanic | OutOfFuel => None
            end
        end
    end.
End Load.

(** ** Diff *)

Record ConfigDiff := { HotReloadable : list string; RestartRequired : list string }.

Definition HasChanges (d : ConfigDiff) : bool :=
  (0 <? length (HotReloadable d))%nat || (0 <? length (RestartRequired d))%nat.

Definition hotReloadableFields : list string :=
  ["Bridge"; "Proxy"; "Verbose"; "Relays"; "FHE"; "Vector"].

(** A field of [Config] as [reflect] sees it: its name, its JSON tag, and
    whether [reflect.DeepEqual] holds of its two values. *)
Record field := { f_name : string; f_tag : string; f_equal : Config -> Config -> bool }.
Definition fld {A} `{EqDecision A} (name tag : string) (get : Config -> A) : field :=
  {| f_name := name; f_tag := tag; f_equal := fun a b => bool_decide (get a = get b) |}.

(** The fields in declaration order. *)
Definition fields : list field := [
  fld "Version" "config_version" Version; fld "TAPName" "tap_name" TAPName;
  fld "HostIP" "host_ip" HostIP; fld "VMIP" "vm_ip" VMIP;
  fld "SubnetMask" "subnet_mask" SubnetMask; fld "DNS1" "dns1" DNS1; fld "DNS2" "dns2" DNS2;
  fld "SOCKSPort" "socks_port" SOCKSPort; fld "ControlPort" "control_port" ControlPort;
  fld "TransPort" "trans_port" TransPort; fld "DNSPort" "dns_port" DNSPort;
  fld "VMMemoryMB" "vm_memory_mb" VMMemoryMB; fld "VMCPUs" "vm_cpus" VMCPUs;
  fld "KernelPath" "kernel_path" KernelPath; fld "InitrdPath" "initrd_path" InitrdPath;
  fld "StateDiskPath" "state_disk_path" StateDiskPath;
  fld "QMPSocketPath" "qmp_socket_path" QMPSocketPath; fld "Verbose" "verbose" Verbose;
  fld "Accel" "accel" Accel; fld "Headless" "headless" Headless;
  fld "VhostNet" "-" VhostNet; fld "IOMMUEnabled" "-" IOMMUEnabled;
  fld "Bridge" "bridge" Bridge; fld "Proxy" "proxy" Proxy; fld "Service" "service" Service;
  fld "Retry" "retry" Retry; fld "Entropy" "entropy" Entropy; fld "Relays" "relays" Relays;
  fld "Browser" "browser" Browser; fld "FHE" "fhe" FHE; fld "Vector" "vector" Vector ].

Definition label (f : field) : string := f_name f +:+ " (" +:+ f_tag f +:+ ")".

(** The body of the loop of [Diff]. *)
Definition diff_field (old new : Config) (diff : ConfigDiff) (f : field) : ConfigDiff :=
  if decide (f_tag f = "-") then diff
  else if f_equal f old new then diff
  else if one_of hotReloadableFields (f_name f)
  then {| HotReloadable := HotReloadable diff ++ [label f]; RestartRequired := RestartRequired diff |}
  else {| HotReloadable := HotReloadable diff; RestartRequired := RestartRequired diff ++ [label f] |}.

Definition Diff (old new : Config) : ConfigDiff :=
  foldl (diff_field old new) {| HotReloadable := []; RestartRequired := [] |} fields.

(** ** What a valid configuration is *)

(** The accepted TAP names: a letter, then characters of the platform's set. *)
Definition tap_name_ok (os : goos) (s : string) : Prop :=
  exists c t, s = String c t /\ is_alpha c = true /\
    if decide (os = windows)
    then len s <= 64 /\
         str_forallb (fun a => is_alnum a || Ascii.eqb a " "%char || Ascii.eqb a "-"%char) t = true
    else len s <= 15 /\ str_forallb is_alnum t = true.

Definition serial_ok (dev : string) : Prop :=
  dev = EmptyString \/
  (exists t, dev = "/dev/" +:+ t) /\ no_byte NUL dev = true /\
  ~ (exists a b, dev = a +:+ ".." +:+ b).

Record valid_config (os : goos) (c : Config) : Prop := {
  v_ips : Forall (fun s => ParseIP s <> None) [HostIP c; VMIP c; SubnetMask c; DNS1 c; DNS2 c];
  v_ports : Forall (fun p => 1 <= p <= 65535) [SOCKSPort c; ControlPort c; TransPort c; DNSPort c];
  v_vm : 32 <= VMMemoryMB c <= 4096 /\ 1 <= VMCPUs c <= 16;
  v_paths : Forall (fun s => s <> EmptyString)
              [KernelPath c; InitrdPath c; StateDiskPath c; QMPSocketPath c];
  v_tap : tap_name_ok os (TAPName c);
  v_accel : Accel c ∈ [""; "kvm"; "hvf"; "whpx"; "tcg"];
  v_proxy : Proxy_Type (Proxy c) ∈ [""; "http"; "https"; "socks5"];
  v_bridge : Bridge_Transport (Bridge c) ∈ [""; "none"; "obfs4"; "meek-azure"; "snowflake"];
  v_entropy : 64 <= Entropy_VirtioRNGMaxBytes (Entropy c) <= 65536 /\
    100 <= Entropy_VirtioRNGPeriod (Entropy c) <= 60000 /\
    16 <= Entropy_KernelEntropyBytes (Entropy c) <= 256 /\
    serial_ok (Entropy_SerialEntropyDevice (Entropy c));
  v_vector : Vector_Enabled (Vector c) = true ->
    8 <= Vector_Dimension (Vector c) <= 2048 /\ 4 <= Vector_HNSWm (Vector c) <= 64 /\
    10 <= Vector_HNSWefConstruct (Vector c) <= 1000 /\
    10 <= Vector_HNSWefSearch (Vector c) <= 500 /\ 1 <= Vector_TopK (Vector c) <= 1000 /\
    Vector_SearchMode (Vector c) ∈ ["keyword"; "vector"; "hybrid"; ""];
  v_fhe : FHE_Enabled (FHE c) = true ->
    10 <= FHE_RingDegree (FHE c) <= 15 /\ 0 <= FHE_HiddenServicePort (FHE c) <= 65535 /\
    1 <= FHE_MaxIndexSizeMB (FHE c) <= 10240 /\ 1 <= FHE_AutoIndexInterval (FHE c) <= 1440;
  v_browser : Browser_Enabled (Browser c) = true ->
    256 <= Browser_VMMemoryMB (Browser c) <= 4096 /\ 1 <= Browser_VMCPUs (Browser c) <= 8 /\
    0 <= Browser_VNCDisplay (Browser c) <= 99 /\
    1 <= Browser_CanaryIntervalSec (Browser c) <= 300 /\
    Forall (fun s => s <> EmptyString)
      [Browser_KernelPath (Browser c); Browser_InitrdPath (Browser c);
       Browser_StateDiskPath (Browser c); Browser_QMPSocketPath (Browser c)]
}.

Section ValidateFacts.
Context `{U : UnicodeTables} (os : goos).

Lemma outside_false (lo hi v : Z) : outside lo hi v = false <-> lo <= v <= hi.
Proof. unfold outside. rewrite orb_false_iff. lia. Qed.
Lemma validateRange_ok (n r : string) (lo hi v : Z) :
  validateRange n r lo hi v = Ok tt <-> lo <= v <= hi.
Proof. unfold validateRange. by rewrite fail_if_ok, outside_false. Qed.
Lemma validatePort_ok (n : string) (p : Z) : validatePort n p = Ok tt <-> 1 <= p <= 65535.
Proof. unfold validatePort. by rewrite fail_if_ok, outside_false. Qed.
Lemma validateIP_ok (p : string * string) : validateIP p = Ok tt <-> ParseIP p.2 <> None.
Proof. unfold validateIP. by rewrite fail_if_ok, bool_decide_eq_false. Qed.
Lemma validatePath_ok (p : string * string) : validatePath p = Ok tt <-> p.2 <> EmptyString.
Proof. unfold validatePath. by rewrite fail_if_ok, bool_decide_eq_false. Qed.
Lemma validateEnum_ok (n : string) (l : list string) (v : string) :
  validateEnum n l v = Ok tt <-> v ∈ l.
Proof.
  unfold validateEnum, one_of. rewrite fail_if_ok, negb_false_iff. apply bool_decide_eq_true.
Qed.

Lemma len_cons (a : ascii) (s : string) : len (String a s) = 1 + len s.
Proof. unfold len. simpl. lia. Qed.

Lemma validateTAPName_ok (s : string) : validateTAPName os s = Ok tt <-> tap_name_ok os s.
Proof.
  unfold validateTAPName, tap_name_ok. rewrite seq_ok, fail_if_ok, bool_decide_eq_false.
  destruct s as [|c t]; [split; [by intros [? _]|by intros (? & ? & ? & _)]|].
  unfold tapNameUnixRe, tapNameWindowsRe.
  destruct (decide (os = windows)); rewrite fail_if_ok, negb_false_iff, !andb_true_iff, Z.leb_le;
    (split; [intros [_ [[? ?] ?]]; exists c, t; rewrite len_cons; split_and!; try done; lia
            |intros (? & ? & [= <- <-] & ? & ? & ?); rewrite len_cons in *; split_and!; try done; lia]).
Qed.

Lemma contains_nul (s : string) : Contains s (str1 NUL) = false <-> no_byte NUL s = true.
Proof.
  unfold Contains, no_byte. induction s as [|a s IH]; [done|]. cbn [str_forallb].
  change (Index (String a s) (str1 NUL)) with
    (if Ascii.eqb NUL a && true then Some 0%nat else S <$> Index s (str1 NUL)).
  rewrite (Ascii.eqb_sym NUL a). destruct (Ascii.eqb a NUL); [done|]. cbn [andb negb].
  rewrite <- IH. by destruct (Index s (str1 NUL)).
Qed.

Lemma contains_false (s sub : string) :
  Contains s sub = false <-> ~ (exists a b, s = a +:+ sub +:+ b).
Proof. rewrite <- Contains_spec. by destruct (Contains s sub). Qed.

Lemma validateEntropy_ok (e : EntropyConfig) :
  validateEntropy e = Ok tt <->
  64 <= Entropy_VirtioRNGMaxBytes e <= 65536 /\ 100 <= Entropy_VirtioRNGPeriod e <= 60000 /\
  16 <= Entropy_KernelEntropyBytes e <= 256 /\ serial_ok (Entropy_SerialEntropyDevice e).
Proof.
  unfold validateEntropy, serial_ok. rewrite !seq_ok, !validateRange_ok.
  destruct (decide _) as [|Hne]; [by intuition|].
  rewrite !seq_ok, !fail_if_ok, contains_nul, contains_false, negb_false_iff, HasPrefix_spec.
  by intuition.
Qed.

Lemma validateVector_ok (v : VectorConfig) :
  validateVector v = Ok tt <->
  (Vector_Enabled v = true ->
   8 <= Vector_Dimension v <= 2048 /\ 4 <= Vector_HNSWm v <= 64 /\
   10 <= Vector_HNSWefConstruct v <= 1000 /\ 10 <= Vector_HNSWefSearch v <= 500 /\
   1 <= Vector_TopK v <= 1000 /\ Vector_SearchMode v ∈ ["keyword"; "vector"; "hybrid"; ""]).
Proof.
  unfold validateVector. destruct (Vector_Enabled v); [|by split].
  rewrite !seq_ok, !validateRange_ok, validateEnum_ok. tauto.
Qed.

Lemma validateFHE_ok (f : FHEConfig) :
  validateFHE f = Ok tt <->
  (FHE_Enabled f = true ->
   10 <= FHE_RingDegree f <= 15 /\ 0 <= FHE_HiddenServicePort f <= 65535 /\
   1 <= FHE_MaxIndexSizeMB f <= 10240 /\ 1 <= FHE_AutoIndexInterval f <= 1440).
Proof.
  unfold validateFHE. destruct (FHE_Enabled f); [|by split].
  rewrite !seq_ok, !validateRange_ok.
  assert ((if FHE_HiddenServicePort f =? 0 then Ok tt
           else validatePort "FHE.HiddenServicePort" (FHE_HiddenServicePort f)) = Ok tt
          <-> 0 <= FHE_HiddenServicePort f <= 65535) as ->.
  { destruct (FHE_HiddenServicePort f =? 0) eqn:H0; [|rewrite validatePort_ok]; split; try done; lia. }
  tauto.
Qed.

Lemma validateBrowser_ok (b : BrowserConfig) :
  validateBrowser b = Ok tt <->
  (Browser_Enabled b = true ->
   256 <= Browser_VMMemoryMB b <= 4096 /\ 1 <= Browser_VMCPUs b <= 8 /\
   0 <= Browser_VNCDisplay b <= 99 /\ 1 <= Browser_CanaryIntervalSec b <= 300 /\
   Forall (fun s => s <> EmptyString)
     [Browser_KernelPath b; Browser_InitrdPath b; Browser_StateDiskPath b; Browser_QMPSocketPath b]).
Proof.
  unfold validateBrowser. destruct (Browser_Enabled b); [|by split].
  rewrite !seq_ok, !validateRange_ok, each_ok, !Forall_cons, !validatePath_ok, !Forall_nil. simpl.
  tauto.
Qed.
End ValidateFacts.

Lemma Validate_ok (U : UnicodeTables) (os : goos) (c : Config) :
  Validate os c = Ok tt <-> valid_config os c.
Proof.
  unfold Validate.
  rewrite !seq_ok, !each_ok, !validatePort_ok, !validateRange_ok, validateTAPName_ok, !validateEnum_ok,
    validateEntropy_ok, validateVector_ok, validateFHE_ok, validateBrowser_ok.
  rewrite !Forall_cons, !Forall_nil, !validateIP_ok, !validatePath_ok. simpl.
  split.
  - intros H. split; rewrite ?Forall_cons, ?Forall_nil; tauto.
  - intros [Hi Hp ? Hpa ? ? ? ? ? ? ? Hb]. rewrite !Forall_cons in Hi; rewrite !Forall_cons in Hp;
    rewrite !Forall_cons in Hpa; rewrite !Forall_cons, Forall_nil in Hb. tauto.
Qed.

(** C24. [Config.Validate] accepts exactly the valid configurations: every address,
    port, path, range and enumeration check of the code, and nothing else. *)
Theorem Validate_iff (U : UnicodeTables) (os : goos) (c : Config) :
  Validate os c = Ok tt <-> valid_config os c.
Proof. apply Validate_ok. Qed.

(** The default configuration is valid on every platform. *)
Lemma DefaultConfig_ok (U : UnicodeTables) (os : goos) :
  Validate os (DefaultConfig os) = Ok tt.
Proof. destruct os; vm_compute; reflexivity. Qed.

(** ** Loading *)

Section LoadFacts.
Context `{U : UnicodeTables} `{IO : ConfigIO} (os : goos).

Lemma migrate_loop_current (fuel : nat) (v : Z) (data : string) :
  ConfigVersion <= v -> migrate_loop fuel v data = Migrated data.
Proof. intros H. destruct fuel; simpl; unfold ConfigVersion in *; by destruct (v <? 1) eqn:?; [lia|]. Qed.

Lemma migrateJSON_total (data : string) : migrateJSON data <> OutOfFuel.
Proof.
  unfold migrateJSON. simpl. destruct (_ <? ConfigVersion); [|done].
  destruct (_ =? 0); [|done]. destruct (json_object data) as [[raw|]|]; [|done|done].
  destruct (json_indent _); [|done]. done.
Qed.

Lemma load_default_valid (U' := U) :
  load_default os = Ok (DefaultConfig os).
Proof. unfold load_default. by rewrite (DefaultConfig_ok U). Qed.
End LoadFacts.

(** A file system with one file of the given permissions and text. *)
Definition one_file (perm : Z) (text : string) (version : Z) (object : option (gmap string string)) : ConfigIO := {|
  os_stat := fun _ => StatOk perm; os_read := fun _ => ReadOk text;
  json_version := fun _ => Some version; json_object := fun _ => Some object;
  json_indent := fun _ => None; json_config := fun _ c => Ok c |}.

Lemma Load_ok (U : UnicodeTables) (IO : ConfigIO) (os : goos) (path : string) (c : Config) :
  Load os path = Some (Ok c) ->
  valid_config os c /\ (c = DefaultConfig os \/ Version c = ConfigVersion).
Proof.
  unfold Load. rewrite load_default_valid.
  assert (valid_config os (DefaultConfig os)) as Hd.
  { apply (Validate_ok U), (DefaultConfig_ok U). }
  destruct (decide _); [by intros [= <-]; auto|].
  destruct (check_perm os path); [|done].
  destruct (os_read path) as [data| |]; [|by intros [= <-]; auto|done].
  destruct (migrateJSON data) as [data'| |]; [|done|done].
  destruct (json_config data' (DefaultConfig os)) as [cfg|]; simpl; [|done].
  destruct (Validate os (set_Version cfg ConfigVersion)) as [[]|] eqn:Hv; simpl; [|done].
  intros [= <-]. split; [by apply (Validate_ok U)|by right].
Qed.

(** Every configuration [Load] returns is valid, and it is the default one
    unless a file was read, in which case it carries the current version. *)
Theorem Load_valid (U : UnicodeTables) (IO : ConfigIO) (os : goos) (path : string) (c : Config) :
  Load os path = Some (Ok c) ->
  valid_config os c /\ (c = DefaultConfig os \/ Version c = ConfigVersion).
Proof. apply Load_ok. Qed.
Lemma Load_valid_witness :
  valid_config linux (set_Version (DefaultConfig linux) ConfigVersion).
Proof.
  refine (proj1 (Load_valid ascii_tables (one_file 384 "{}" 1 (Some ∅)) linux "/etc/torvm.json" _ _)).
  vm_compute. reflexivity.
Defined.

(** Off Windows, a group- or world-writable file is refused before it is read,
    whatever it holds. *)
Theorem Load_refuses_writable (U : UnicodeTables) (IO : ConfigIO) (os : goos) (path : string) (perm : Z) :
  os <> windows -> path <> EmptyString -> os_stat path = StatOk perm ->
  Z.testbit perm 1 = true \/ Z.testbit perm 4 = true ->
  exists e, Load os path = Some (Err e).
Proof.
  intros Hos Hp Hs Hbit. unfold Load, check_perm. rewrite !decide_False, Hs by done.
  assert (insecure perm = true) as ->; [|by eexists].
  unfold insecure. apply negb_true_iff, Z.eqb_neq. intros H0.
  assert (forall n, Z.testbit (Z.land perm 18) n = false) as Hb by (intros n; by rewrite H0, Z.bits_0).
  destruct Hbit as [Hbit|Hbit].
  - specialize (Hb 1). by rewrite Z.land_spec, Hbit in Hb.
  - specialize (Hb 4). by rewrite Z.land_spec, Hbit in Hb.
Qed.
Lemma Load_refuses_writable_witness :
  exists e, @Load ascii_tables (one_file 438 "{}" 1 (Some ∅)) linux "/etc/torvm.json" = Some (Err e).
Proof.
  apply (Load_refuses_writable _ _ _ _ 438); [done|done|reflexivity|by left].
Defined.

(** A configuration file holding the JSON text [null] panics in [migrateJSON]
    (assignment into a nil map) instead of being reported as an error. *)
Theorem Load_null_panics (U : UnicodeTables) (IO : ConfigIO) (os : goos) (path data : string) (perm : Z) :
  path <> EmptyString -> os_stat path = StatOk perm -> insecure perm = false ->
  os_read path = ReadOk data -> json_version data = Some 0 -> json_object data = Some None ->
  Load os path = None.
Proof.
  intros Hp Hs Hi Hr Hv Hn. unfold Load, check_perm. rewrite decide_False, Hs, Hr by done.
  unfold migrateJSON. rewrite Hv. simpl. rewrite Hn, Hi. by destruct (decide _).
Qed.
Lemma Load_null_panics_witness :
  @Load ascii_tables (one_file 384 "null" 0 None) linux "/etc/torvm.json" = None.
Proof. apply (Load_null_panics _ _ _ _ "null" 384); by vm_compute. Defined.

(** ** Diff *)

Definition changed (old new : Config) (f : field) : bool :=
  bool_decide (f_tag f <> "-") && negb (f_equal f old new).
Definition hot (f : field) : bool := one_of hotReloadableFields (f_name f).

Lemma diff_field_changed (old new : Config) (d : ConfigDiff) (f : field) :
  diff_field old new d f =
  if changed old new f then
    if hot f
    then {| HotReloadable := HotReloadable d ++ [label f]; RestartRequired := RestartRequired d |}
    else {| HotReloadable := HotReloadable d; RestartRequired := RestartRequired d ++ [label f] |}
  else d.
Proof.
  unfold diff_field, changed, hot.
  destruct (decide (f_tag f = "-")) as [Ht|Ht].
  - by rewrite (bool_decide_eq_false_2 (f_tag f <> "-")) by (by intros ?).
  - rewrite (bool_decide_eq_true_2 (f_tag f <> "-")) by done. by destruct (f_equal f old new).
Qed.

Lemma Diff_foldl (old new : Config) (d : ConfigDiff) (l : list field) :
  foldl (diff_field old new) d l = {|
    HotReloadable := HotReloadable d ++ map label (List.filter (fun f => changed old new f && hot f) l);
    RestartRequired := RestartRequired d
      ++ map label (List.filter (fun f => changed old new f && negb (hot f)) l) |}.
Proof.
  revert d. induction l as [|f l IH]; intros d; simpl.
  - rewrite !app_nil_r. by destruct d.
  - rewrite IH, diff_field_changed. destruct (changed old new f); [|done].
    destruct (hot f); simpl; by rewrite <- app_assoc.
Qed.

(** [Diff] reports the changed fields that are not tagged ["-"], in declaration
    order, split by [hotReloadableFields]. *)
Lemma Diff_spec (old new : Config) :
  Diff old new = {|
    HotReloadable := map label (List.filter (fun f => changed old new f && hot f) fields);
    RestartRequired := map label (List.filter (fun f => changed old new f && negb (hot f)) fields) |}.
Proof. unfold Diff. by rewrite Diff_foldl. Qed.

Definition with_runtime (c : Config) (vhost iommu : bool) : Config := {|
  Version := Version c; TAPName := TAPName c; HostIP := HostIP c; VMIP := VMIP c;
  SubnetMask := SubnetMask c; DNS1 := DNS1 c; DNS2 := DNS2 c; SOCKSPort := SOCKSPort c;
  ControlPort := ControlPort c; TransPort := TransPort c; DNSPort := DNSPort c;
  VMMemoryMB := VMMemoryMB c; VMCPUs := VMCPUs c; KernelPath := KernelPath c;
  InitrdPath := InitrdPath c; StateDiskPath := StateDiskPath c;
  QMPSocketPath := QMPSocketPath c; Verbose := Verbose c; Accel := Accel c;
  Headless := Headless c; VhostNet := vhost; IOMMUEnabled := iommu;
  Bridge := Bridge c; Proxy := Proxy c; Service := Service c; Retry := Retry c;
  Entropy := Entropy c; Relays := Relays c; Browser := Browser c; FHE := FHE c;
  Vector := Vector c |}.

Lemma filter_nil_forallb {A} (p : A -> bool) (l : list A) :
  List.filter p l = [] <-> forallb (fun x => negb (p x)) l = true.
Proof.
  induction l as [|x l IH]; [done|]. simpl. destruct (p x); simpl; [by split|done].
Qed.

Lemma HasChanges_false (old new : Config) :
  HasChanges (Diff old new) = false <-> forallb (fun f => negb (changed old new f)) fields = true.
Proof.
  rewrite Diff_spec. unfold HasChanges; cbn [HotReloadable RestartRequired].
  rewrite orb_false_iff, !length_map, !Nat.ltb_ge.
  assert (forall A (l : list A), (length l <= 0)%nat <-> l = []) as Hl.
  { intros A [|]; simpl; split; try done; lia. }
  rewrite !Hl, !filter_nil_forallb, !forallb_forall. split.
  - intros [H1 H2] f Hf. specialize (H1 f Hf). specialize (H2 f Hf).
    destruct (changed old new f), (hot f); done.
  - intros H. split; intros f Hf; specialize (H f Hf); by destruct (changed old new f).
Qed.

(** No change is reported exactly when the configurations agree on everything
    but the two runtime-detected capabilities. *)
Theorem Diff_no_changes (old new : Config) :
  HasChanges (Diff old new) = false <-> with_runtime old (VhostNet new) (IOMMUEnabled new) = new.
Proof.
  rewrite HasChanges_false. split.
  - intros H. destruct old, new. unfold with_runtime; simpl in *.
    unfold changed in H; simpl in H.
    repeat (apply andb_true_iff in H as [?H H]).
    repeat match goal with
    | H : negb (negb (bool_decide (?a = ?b))) = true |- _ =>
        rewrite negb_involutive in H; apply bool_decide_eq_true in H; subst
    end. reflexivity.
  - intros <-. apply forallb_forall. intros f Hf. apply list_elem_of_In in Hf.
    unfold changed. repeat (apply elem_of_cons in Hf as [->|Hf]; [
      simpl; first [by rewrite bool_decide_eq_true_2 | done] |]). by apply not_elem_of_nil in Hf.
Qed.
