(* ===== verification/Torrc.v ===== *)
(** * Package [config], [torrc.go]: the torrc overlay

    The validation of everything that ends up in a torrc directive, the
    overlay text, and [parseTorrcOverlay] of [lifecycle.go], which turns the
    text back into the directives of a SETCONF command. *)

From S2P Require Import Prelude GoStrings StringFacts NetIP Config.
Local Open Scope Z_scope.

(** ** Validation *)

Definition byte_in (chars : string) (c : ascii) : bool := str_existsb (Ascii.eqb c) chars.

Definition bridgeLineRe (s : string) : bool :=
  negb (bool_decide (s = EmptyString)) &&
  str_forallb (fun c => is_alnum c || byte_in ".:[] /=,+_-" c) s.

Definition fingerprintRe (s : string) : bool :=
  match s with
  | String c h => Ascii.eqb c "$" && (len h =? 40) && str_forallb is_hex h
  | EmptyString => false
  end.

Definition countryCodeRe (s : string) : bool :=
  match s with
  | String o (String a (String b (String c EmptyString))) =>
      Ascii.eqb o "{" && is_alpha a && is_alpha b && Ascii.eqb c "}"
  | _ => false
  end.

Definition credentialRe (s : string) : bool :=
  negb (bool_decide (s = EmptyString)) &&
  str_forallb (fun c => is_alnum c || byte_in "!@#$%^&*()_+=[]{}<>,.?/~-" c) s.

Definition maxCredentialLen : Z := 255.

Definition ctl_rune (c : Z * string) : bool := (c.1 <? 32) || (c.1 =? 127).

Definition sanitizeTorrcLine (field value : string) : result unit :=
  if ContainsAny value CRLF then Err (Errorf ("torrc " +:+ field +:+ " contains newline characters"))
  else match List.find ctl_rune (runes value) with
       | Some c => Err (Errorf ("torrc " +:+ field +:+ " contains control character 0x" +:+ hex_fixed 2 c.1))
       | None => Ok tt
       end.

Section Validators.
Context `{U : UnicodeTables}.

Definition validateBridgeLine (line : string) : result unit :=
  sanitizeTorrcLine "bridge" line ;;
  fail_if (1024 <? len line) ("bridge line too long (" +:+ itoa (len line) +:+ " chars, max 1024)") ;;
  fail_if (negb (bridgeLineRe line)) ("bridge line contains invalid characters: " +:+ Quote line).

Definition validateProxyAddress (addr : string) : result unit :=
  sanitizeTorrcLine "proxy address" addr ;;
  hp ← wrap ("proxy address " +:+ Quote addr +:+ " is not valid host:port") (SplitHostPort addr);
  fail_if (bool_decide (hp.1 = EmptyString)) "proxy address has empty host" ;;
  fail_if (bool_decide (hp.2 = EmptyString)) "proxy address has empty port".

Definition validateCredential (field value : string) : result unit :=
  if decide (value = EmptyString) then Ok tt
  else
    sanitizeTorrcLine field value ;;
    fail_if (maxCredentialLen <? len value)
      (field +:+ " too long (" +:+ itoa (len value) +:+ " chars, max " +:+ itoa maxCredentialLen +:+ ")") ;;
    fail_if (negb (credentialRe value)) (field +:+ " contains invalid characters").

Definition validateRelayEntry (entry : string) : result unit :=
  sanitizeTorrcLine "relay entry" entry ;;
  fail_if (negb (fingerprintRe entry) && negb (countryCodeRe entry))
    ("relay entry " +:+ Quote entry +:+ " must be a fingerprint ($hex40) or country code ({XX})").

Definition validateRelayConfig (rc : RelayConfig) : result unit :=
  each (fun e => wrap "ExcludeNodes" (validateRelayEntry e)) (elems (Relays_ExcludeNodes rc)) ;;
  each (fun e => wrap "ExcludeExitNodes" (validateRelayEntry e)) (elems (Relays_ExcludeExitNodes rc)).
End Validators.

(** ** The overlay *)

Section Overlay.
Context `{U : UnicodeTables}.

(** The [switch] on the transport. *)
Definition transport_lines (transport : string) : result (list string) :=
  if decide (transport = "obfs4") then Ok ["ClientTransportPlugin obfs4 exec /usr/bin/obfs4proxy"]
  else if decide (transport = "meek-azure") then Ok ["ClientTransportPlugin meek_lite exec /usr/bin/obfs4proxy"]
  else if decide (transport = "snowflake") then Ok ["ClientTransportPlugin snowflake exec /usr/bin/snowflake-client"]
  else if decide (transport = "" \/ transport = "none") then Ok []
  else Err (Errorf ("unsupported bridge transport: " +:+ Quote transport)).

(** The [for] loop over the bridges. *)
Fixpoint bridge_loop (bridges : list string) : result (list string) :=
  match bridges with
  | [] => Ok []
  | b0 :: bs =>
      let b := TrimSpace b0 in
      if decide (b = EmptyString) then bridge_loop bs
      else validateBridgeLine b ;; rest ← bridge_loop bs; Ok (("Bridge " +:+ b) :: rest)
  end.

Definition bridge_lines (b : BridgeConfig) : result (list string) :=
  if Bridge_UseBridges b then
    t ← transport_lines (Bridge_Transport b);
    bs ← bridge_loop (elems (Bridge_Bridges b));
    Ok ("UseBridges 1" :: t ++ bs)
  else Ok [].

(** The [switch] on the proxy type: an unknown type adds no line. *)
Definition proxy_directives (p : ProxyConfig) : list string :=
  let ty := ToLower (Proxy_Type p) in
  let user := Proxy_Username p in let pass := Proxy_Password p in
  let auth l := if decide (user = EmptyString) then [] else l in
  if decide (ty = "http") then
    ("HTTPProxy " +:+ Proxy_Address p) :: auth ["HTTPProxyAuthenticator " +:+ user +:+ ":" +:+ pass]
  else if decide (ty = "https") then
    ("HTTPSProxy " +:+ Proxy_Address p) :: auth ["HTTPSProxyAuthenticator " +:+ user +:+ ":" +:+ pass]
  else if decide (ty = "socks5") then
    ("Socks5Proxy " +:+ Proxy_Address p) ::
    auth ["Socks5ProxyUsername " +:+ user; "Socks5ProxyPassword " +:+ pass]
  else [].

Definition proxy_lines (p : ProxyConfig) : result (list string) :=
  if decide (Proxy_Type p <> EmptyString /\ Proxy_Address p <> EmptyString) then
    validateProxyAddress (Proxy_Address p) ;;
    validateCredential "proxy username" (Proxy_Username p) ;;
    validateCredential "proxy password" (Proxy_Password p) ;;
    Ok (proxy_directives p)
  else Ok [].

Definition relay_lines (rc : RelayConfig) : result (list string) :=
  validateRelayConfig rc ;;
  Ok ((match elems (Relays_ExcludeNodes rc) with [] => [] | l => ["ExcludeNodes " +:+ Join l ","] end)
   ++ (match elems (Relays_ExcludeExitNodes rc) with [] => [] | l => ["ExcludeExitNodes " +:+ Join l ","] end)
   ++ (if Relays_StrictNodes rc then ["StrictNodes 1"] else [])).

Definition fhe_lines (c : Config) : list string :=
  let f := FHE c in
  if FHE_Enabled f && FHE_ShareEnabled f && (0 <? FHE_HiddenServicePort f) then
    ["HiddenServiceDir /home/tor/hidden_service/fhe_index";
     "HiddenServicePort " +:+ itoa (FHE_HiddenServicePort f) +:+ " " +:+ HostIP c +:+ ":"
       +:+ itoa (FHE_HiddenServicePort f)]
  else [].

Definition overlay_lines (c : Config) : result (list string) :=
  b ← bridge_lines (Bridge c);
  p ← proxy_lines (Proxy c);
  r ← relay_lines (Relays c);
  Ok (b ++ p ++ r ++ fhe_lines c).

Definition TorrcOverlay (c : Config) : result string :=
  lines ← overlay_lines c;
  match lines with
  | [] => Ok EmptyString
  | _ => Ok (Join lines nl +:+ nl)
  end.
End Overlay.

(** ** [parseTorrcOverlay] ([lifecycle.go])

    [m[k] = v] overwrites: a later line with the same key replaces an earlier one. *)
Definition parse_line (directives : gmap string string) (line0 : string) : gmap string string :=
  let line := TrimSpace line0 in
  if decide (line = EmptyString) then directives
  else match IndexByte line " " with
       | None => <[line := EmptyString]> directives
       | Some i => <[str_take i line := str_drop (S i) line]> directives
       end.
Definition parseTorrcOverlay (overlay : string) : gmap string string :=
  foldl parse_line ∅ (Split overlay LF).

(** ** What is accepted *)

Definition clean (s : string) : bool := str_forallb (fun c => negb (is_ctl c)) s.

Lemma find_ctl (s : string) : List.find ctl_rune (runes s) = None <-> clean s = true.
Proof.
  unfold clean. induction s as [|a s IH] using rune_ind; [done|].
  rewrite runes_cons. destruct (is_ascii a) eqn:Ha.
  - rewrite (decode_ascii _ _ Ha) in *. simpl in *. unfold ctl_rune at 1, is_ctl at 1. simpl.
    destruct (_ || _); [done|]. exact IH.
  - destruct (decode_multi a s Ha) as [Hr Hb]. cbn [List.find]. unfold ctl_rune at 1. cbn [fst].
    assert (((decode_rune a s).1 <? 32) = false) as -> by (apply Z.ltb_ge; lia).
    assert (((decode_rune a s).1 =? 127) = false) as -> by (apply Z.eqb_neq; lia). cbn [orb].
    rewrite IH. rewrite <- (take_drop (decode_rune a s).2 (String a s)) at 2.
    rewrite forallb_app_str, (forallb_impl _ (fun c => negb (is_ctl c)) _) with (2 := Hb); [done|].
    by apply ascii_impl.
Qed.

Lemma clean_no_byte (c : ascii) (s : string) : is_ctl c = true -> clean s = true -> no_byte c s = true.
Proof.
  intros Hc. unfold no_byte. apply forallb_impl. intros x Hx. destruct (Ascii.eqb_spec x c); [|done].
  subst. by rewrite Hc in Hx.
Qed.

Lemma sanitize_ok (f v : string) : sanitizeTorrcLine f v = Ok tt <-> clean v = true.
Proof.
  unfold sanitizeTorrcLine, ContainsAny. rewrite existsb_forallb.
  destruct (str_forallb _ v) eqn:Hs; cbn [negb].
  - rewrite <- find_ctl. by destruct (List.find _ _).
  - split; [done|]. intros Hc. rewrite (forallb_impl _ _ v) with (2 := Hc) in Hs; [done|].
    by apply ascii_impl.
Qed.

(** Every accepted character class excludes control characters. *)
Lemma bridgeLineRe_clean (s : string) : bridgeLineRe s = true -> clean s = true.
Proof. intros [_ H]%andb_true_iff. revert H. apply forallb_impl. by apply ascii_impl. Qed.
Lemma credentialRe_clean (s : string) : credentialRe s = true -> clean s = true.
Proof. intros [_ H]%andb_true_iff. revert H. apply forallb_impl. by apply ascii_impl. Qed.
Lemma fingerprintRe_clean (s : string) : fingerprintRe s = true -> clean s = true.
Proof.
  destruct s as [|c s]; [done|]. simpl. intros [[->%Ascii.eqb_eq _]%andb_true_iff H]%andb_true_iff.
  revert H. unfold clean. cbn [str_forallb]. apply (forallb_impl is_hex).
  by apply (ascii_impl is_hex (fun c => negb (is_ctl c))).
Qed.
Lemma is_alpha_clean (c : ascii) : is_alpha c = true -> negb (is_ctl c) = true.
Proof. revert c. by apply (ascii_impl is_alpha (fun c => negb (is_ctl c))). Qed.
Lemma countryCodeRe_clean (s : string) : countryCodeRe s = true -> clean s = true.
Proof.
  destruct s as [|o [|a [|b [|c [|? ?]]]]]; try done. unfold countryCodeRe.
  rewrite !andb_true_iff, !Ascii.eqb_eq. intros [[[-> Ha] Hb] ->].
  unfold clean. simpl. by rewrite (is_alpha_clean a Ha), (is_alpha_clean b Hb).
Qed.
#[export] Hint Resolve bridgeLineRe_clean credentialRe_clean fingerprintRe_clean countryCodeRe_clean : torvm.

Definition bridge_ok (b : string) : Prop := len b <= 1024 /\ bridgeLineRe b = true.
Definition proxy_address_ok (a : string) : Prop :=
  clean a = true /\
  exists host port, SplitHostPort a = Ok (host, port) /\ host <> EmptyString /\ port <> EmptyString.
Definition credential_ok (v : string) : Prop :=
  v = EmptyString \/ len v <= maxCredentialLen /\ credentialRe v = true.
Definition relay_entry_ok (e : string) : Prop := fingerprintRe e = true \/ countryCodeRe e = true.

(** What [TorrcOverlay] accepts. *)
Record overlay_ok (c : Config) : Prop := {
  ov_bridges : Bridge_UseBridges (Bridge c) = true ->
    Bridge_Transport (Bridge c) ∈ ["obfs4"; "meek-azure"; "snowflake"; ""; "none"] /\
    Forall (fun b => TrimSpace b = EmptyString \/ bridge_ok (TrimSpace b)) (elems (Bridge_Bridges (Bridge c)));
  ov_proxy : Proxy_Type (Proxy c) <> EmptyString -> Proxy_Address (Proxy c) <> EmptyString ->
    proxy_address_ok (Proxy_Address (Proxy c)) /\
    credential_ok (Proxy_Username (Proxy c)) /\ credential_ok (Proxy_Password (Proxy c));
  ov_relays : Forall relay_entry_ok (elems (Relays_ExcludeNodes (Relays c))) /\
    Forall relay_entry_ok (elems (Relays_ExcludeExitNodes (Relays c)))
}.

Section Accept.
Context `{U : UnicodeTables}.

Lemma validateBridgeLine_ok (b : string) : validateBridgeLine b = Ok tt <-> bridge_ok b.
Proof.
  unfold validateBridgeLine, bridge_ok.
  rewrite !seq_ok, sanitize_ok, !fail_if_ok, negb_false_iff, Z.ltb_ge.
  split; [tauto|]. intros [? ?]. eauto with torvm.
Qed.

Lemma validateProxyAddress_ok (a : string) : validateProxyAddress a = Ok tt <-> proxy_address_ok a.
Proof.
  unfold validateProxyAddress, proxy_address_ok. rewrite seq_ok, sanitize_ok.
  destruct (SplitHostPort a) as [[h p]|e]; simpl.
  - rewrite seq_ok, !fail_if_ok, !bool_decide_eq_false. split.
    + intros [? [? ?]]. eauto 6.
    + by intros [? (h' & p' & [= <- <-] & ? & ?)].
  - by split; [intros [? ?]|intros [? (? & ? & ? & ?)]].
Qed.

Lemma validateCredential_ok (f v : string) : validateCredential f v = Ok tt <-> credential_ok v.
Proof.
  unfold validateCredential, credential_ok. destruct (decide _); [tauto|].
  rewrite !seq_ok, sanitize_ok, !fail_if_ok, negb_false_iff, Z.ltb_ge.
  split; [tauto|]. intros [?|[? ?]]; [done|]. eauto with torvm.
Qed.

Lemma validateRelayEntry_ok (e : string) : validateRelayEntry e = Ok tt <-> relay_entry_ok e.
Proof.
  unfold validateRelayEntry, relay_entry_ok.
  rewrite seq_ok, sanitize_ok, fail_if_ok, andb_false_iff, !negb_false_iff.
  split; [tauto|]. intros [?|?]; eauto with torvm.
Qed.

Lemma validateRelayConfig_ok (rc : RelayConfig) :
  validateRelayConfig rc = Ok tt <->
  Forall relay_entry_ok (elems (Relays_ExcludeNodes rc)) /\
  Forall relay_entry_ok (elems (Relays_ExcludeExitNodes rc)).
Proof.
  unfold validateRelayConfig. rewrite seq_ok, !each_ok.
  by setoid_rewrite wrap_ok; setoid_rewrite validateRelayEntry_ok.
Qed.

Lemma transport_ok (t : string) :
  is_ok (transport_lines t) = true <-> t ∈ ["obfs4"; "meek-azure"; "snowflake"; ""; "none"].
Proof.
  unfold transport_lines. rewrite !elem_of_cons, elem_of_nil.
  repeat case_decide; simpl; naive_solver.
Qed.

Lemma bridge_loop_ok (l : list string) :
  is_ok (bridge_loop l) = true <->
  Forall (fun b => TrimSpace b = EmptyString \/ bridge_ok (TrimSpace b)) l.
Proof.
  induction l as [|b l IH]; [by split|]. rewrite Forall_cons, <- IH, <- validateBridgeLine_ok. simpl.
  destruct (decide _); [tauto|].
  destruct (validateBridgeLine (TrimSpace b)) as [[]|]; simpl; [|naive_solver].
  destruct (bridge_loop l); naive_solver.
Qed.
End Accept.

(** ** The lines of the overlay *)

(** The directives of one line's key: a keyword of [keys] and its value. *)
Definition directive (keys : list string) (line : string) : Prop :=
  exists k v, one_of keys k = true /\ line = k +:+ " " +:+ v /\ clean line = true.

Definition plugin_keys : list string := ["UseBridges"; "ClientTransportPlugin"].
Definition other_keys : list string :=
  ["HTTPProxy"; "HTTPProxyAuthenticator"; "HTTPSProxy"; "HTTPSProxyAuthenticator"; "Socks5Proxy";
   "Socks5ProxyUsername"; "Socks5ProxyPassword"; "ExcludeNodes"; "ExcludeExitNodes"; "StrictNodes";
   "HiddenServiceDir"; "HiddenServicePort"].
(** Every keyword the overlay uses. *)
Definition torrc_keys : list string := plugin_keys ++ "Bridge" :: other_keys.

(** The bridge lines of the configuration that are not blank, trimmed. *)
Definition kept_bridges (b : BridgeConfig) : list string :=
  List.filter (fun x => negb (bool_decide (x = EmptyString))) (map TrimSpace (elems (Bridge_Bridges b))).

Lemma directive_app (keys : list string) (k v : string) :
  one_of keys k = true -> clean (k +:+ " ") = true -> clean v = true -> directive keys (k +:+ " " +:+ v).
Proof.
  intros Hk Hc Hv. exists k, v. split_and!; [done|done|].
  rewrite <- str_app_assoc. unfold clean in *. by rewrite forallb_app_str, Hc, Hv.
Qed.

Lemma directive_mono (k1 k2 : list string) (l : string) : k1 ⊆ k2 -> directive k1 l -> directive k2 l.
Proof.
  intros Hs (k & v & Hk & Hl). exists k, v. split; [|done].
  unfold one_of in *. apply bool_decide_eq_true in Hk. by apply bool_decide_eq_true, Hs.
Qed.

Lemma clean_app (a b : string) : clean (a +:+ b) = clean a && clean b.
Proof. apply forallb_app_str. Qed.
Lemma clean_utoa (n : Z) : 0 <= n -> clean (utoa n) = true.
Proof.
  intros [_ Hn]%utoa_digits. revert Hn. apply forallb_impl. by apply ascii_impl.
Qed.
Lemma clean_itoa (n : Z) : clean (itoa n) = true.
Proof.
  unfold itoa. destruct (n <? 0) eqn:Hn.
  - change (clean (utoa (- n)) = true). apply clean_utoa. lia.
  - apply clean_utoa. lia.
Qed.
Lemma clean_ip (s : string) : ParseIP s <> None -> clean s = true.
Proof. intros H%ParseIP_bytes. revert H. apply forallb_impl. by apply ascii_impl. Qed.
Lemma clean_credential (v : string) : credential_ok v -> clean v = true.
Proof. intros [->|[_ H]]; [done|by apply credentialRe_clean]. Qed.
Lemma clean_relays (l : list string) : Forall relay_entry_ok l -> clean (Join l ",") = true.
Proof.
  intros H. apply forallb_join; [|done]. eapply Forall_impl; [exact H|].
  intros e [?|?]; [by apply fingerprintRe_clean|by apply countryCodeRe_clean].
Qed.
#[export] Hint Resolve clean_itoa clean_ip clean_credential clean_relays : torvm.

Ltac directive_tac k v :=
  apply (directive_app _ k v); [reflexivity|reflexivity|rewrite ?clean_app; eauto with torvm].

Definition bridge_line (b : string) : string := "Bridge " +:+ b.

Section Lines.
Context `{U : UnicodeTables}.

Lemma bridge_loop_spec (l bs : list string) :
  let kept := List.filter (fun x => negb (bool_decide (x = EmptyString))) (map TrimSpace l) in
  bridge_loop l = Ok bs -> bs = map bridge_line kept /\ Forall bridge_ok kept.
Proof.
  cbn zeta. revert bs. induction l as [|x l IH]; intros bs; simpl; [by intros [= <-]|].
  destruct (decide (TrimSpace x = EmptyString)) as [He|He].
  - rewrite bool_decide_true by done. apply IH.
  - rewrite bool_decide_false by done.
    destruct (validateBridgeLine _) as [[]|] eqn:Hv; simpl; [|done].
    destruct (bridge_loop l) as [rest|]; simpl; [|done]. intros [= <-].
    destruct (IH rest) as [-> ?]; [done|]. split; [done|].
    constructor; [by apply validateBridgeLine_ok|done].
Qed.

Lemma transport_directives (tr : string) (t : list string) :
  transport_lines tr = Ok t -> Forall (directive plugin_keys) t.
Proof.
  unfold transport_lines. repeat case_decide; intros [= <-]; repeat constructor.
  - directive_tac "ClientTransportPlugin" "obfs4 exec /usr/bin/obfs4proxy"; done.
  - directive_tac "ClientTransportPlugin" "meek_lite exec /usr/bin/obfs4proxy"; done.
  - directive_tac "ClientTransportPlugin" "snowflake exec /usr/bin/snowflake-client"; done.
Qed.

Lemma bridge_lines_spec (b : BridgeConfig) (ls : list string) :
  bridge_lines b = Ok ls ->
  if Bridge_UseBridges b then
    exists hd : list string, ls = (hd ++ map bridge_line (kept_bridges b))%list /\
      Forall (directive plugin_keys) hd /\ Forall bridge_ok (kept_bridges b)
  else ls = [].
Proof.
  unfold bridge_lines. destruct (Bridge_UseBridges b); [|by intros [= <-]].
  destruct (transport_lines _) as [t|] eqn:Ht; simpl; [|done].
  destruct (bridge_loop _) as [bs|] eqn:Hb; simpl; [|done]. intros [= <-].
  apply bridge_loop_spec in Hb as [-> Hb].
  exists ("UseBridges 1" :: t). split_and!; [done| |done].
  constructor; [|by eapply transport_directives]. directive_tac "UseBridges" "1"; done.
Qed.

Lemma proxy_lines_spec (p : ProxyConfig) (ls : list string) :
  proxy_lines p = Ok ls -> Forall (directive other_keys) ls.
Proof.
  unfold proxy_lines. destruct (decide _); [|intros [= <-]; constructor].
  destruct (validateProxyAddress _) as [[]|] eqn:Ha; simpl; [|done].
  destruct (validateCredential "proxy username" _) as [[]|] eqn:Hu; simpl; [|done].
  destruct (validateCredential "proxy password" _) as [[]|] eqn:Hp; simpl; [|done].
  apply validateProxyAddress_ok in Ha as [Ha _].
  apply validateCredential_ok, clean_credential in Hu. apply validateCredential_ok, clean_credential in Hp.
  intros [= <-]. unfold proxy_directives.
  repeat case_decide; repeat constructor.
  - directive_tac "HTTPProxy" (Proxy_Address p).
  - directive_tac "HTTPProxy" (Proxy_Address p).
  - directive_tac "HTTPProxyAuthenticator" (Proxy_Username p +:+ ":" +:+ Proxy_Password p). by rewrite Hu, Hp.
  - directive_tac "HTTPSProxy" (Proxy_Address p).
  - directive_tac "HTTPSProxy" (Proxy_Address p).
  - directive_tac "HTTPSProxyAuthenticator" (Proxy_Username p +:+ ":" +:+ Proxy_Password p). by rewrite Hu, Hp.
  - directive_tac "Socks5Proxy" (Proxy_Address p).
  - directive_tac "Socks5Proxy" (Proxy_Address p).
  - directive_tac "Socks5ProxyUsername" (Proxy_Username p).
  - directive_tac "Socks5ProxyPassword" (Proxy_Password p).
Qed.

Lemma relay_lines_spec (rc : RelayConfig) (ls : list string) :
  relay_lines rc = Ok ls -> Forall (directive other_keys) ls.
Proof.
  unfold relay_lines. destruct (validateRelayConfig rc) as [[]|] eqn:Hv; simpl; [|done].
  apply validateRelayConfig_ok in Hv as [Hn%clean_relays He%clean_relays].
  intros [= <-]. rewrite !Forall_app. split_and!.
  - destruct (elems _) eqn:Hl in Hn |- *; repeat constructor.
    directive_tac "ExcludeNodes" (Join (s :: l) ","). 
  - destruct (elems (Relays_ExcludeExitNodes rc)) as [|s l]; repeat constructor.
    directive_tac "ExcludeExitNodes" (Join (s :: l) ",").
  - destruct (Relays_StrictNodes rc); repeat constructor. directive_tac "StrictNodes" "1"; done.
Qed.

Lemma fhe_lines_spec (c : Config) :
  ParseIP (HostIP c) <> None -> Forall (directive other_keys) (fhe_lines c).
Proof.
  intros Hip%clean_ip. unfold fhe_lines. destruct (_ && _); repeat constructor.
  - directive_tac "HiddenServiceDir" "/home/tor/hidden_service/fhe_index"; done.
  - directive_tac "HiddenServicePort" (itoa (FHE_HiddenServicePort (FHE c)) +:+ " " +:+ HostIP c +:+ ":"
      +:+ itoa (FHE_HiddenServicePort (FHE c))). by rewrite !clean_itoa, Hip.
Qed.

(** The whole overlay: the plugin lines, the bridges, the rest. *)
Lemma overlay_lines_spec (c : Config) (ls : list string) :
  ParseIP (HostIP c) <> None -> overlay_lines c = Ok ls ->
  exists hd rest : list string,
    ls = hd ++ map bridge_line (if Bridge_UseBridges (Bridge c) then kept_bridges (Bridge c) else []) ++ rest /\
    Forall (directive plugin_keys) hd /\
    Forall bridge_ok (if Bridge_UseBridges (Bridge c) then kept_bridges (Bridge c) else []) /\
    Forall (directive other_keys) rest.
Proof.
  intros Hip. unfold overlay_lines.
  destruct (bridge_lines _) as [b|] eqn:Hb; simpl; [|done].
  destruct (proxy_lines _) as [p|] eqn:Hp; simpl; [|done].
  destruct (relay_lines _) as [r|] eqn:Hr; simpl; [|done]. intros [= <-].
  apply bridge_lines_spec in Hb. apply proxy_lines_spec in Hp. apply relay_lines_spec in Hr.
  apply fhe_lines_spec in Hip.
  assert (Forall (directive other_keys) (p ++ r ++ fhe_lines c)) by by rewrite !Forall_app.
  destruct (Bridge_UseBridges (Bridge c)).
  - destruct Hb as (hd & -> & Hh & Hk). exists hd, (p ++ r ++ fhe_lines c). by rewrite <- app_assoc.
  - subst. by exists [], (p ++ r ++ fhe_lines c).
Qed.

Lemma overlay_directives (c : Config) (ls : list string) :
  ParseIP (HostIP c) <> None -> overlay_lines c = Ok ls -> Forall (directive torrc_keys) ls.
Proof.
  intros Hip (hd & rest & -> & Hh & Hb & Hr)%overlay_lines_spec; [|done].
  rewrite !Forall_app, Forall_map. split_and!.
  - eapply Forall_impl; [exact Hh|]. intros l. apply directive_mono. unfold torrc_keys. set_solver.
  - eapply Forall_impl; [exact Hb|]. intros l [_ Hl%bridgeLineRe_clean]. directive_tac "Bridge" l.
  - eapply Forall_impl; [exact Hr|]. intros l. apply directive_mono. unfold torrc_keys. set_solver.
Qed.

Lemma TorrcOverlay_split (c : Config) (s : string) :
  ParseIP (HostIP c) <> None -> TorrcOverlay c = Ok s ->
  exists ls, overlay_lines c = Ok ls /\
    (ls = [] /\ s = EmptyString \/ ls <> [] /\ Split s LF = ls ++ [EmptyString]).
Proof.
  intros Hip. unfold TorrcOverlay. destruct (overlay_lines c) as [ls|] eqn:Hl; simpl; [|done].
  intros Hs. exists ls. split; [done|]. apply overlay_directives in Hl; [|done].
  destruct ls as [|l ls]; [left; by injection Hs as <-|]. right. split; [done|].
  injection Hs as <-. apply (Split_Join_end (l :: ls)); [done|].
  eapply Forall_impl; [exact Hl|]. intros x (? & ? & _ & _ & Hc). by apply clean_no_byte.
Qed.
End Lines.

(** ** Reading the overlay back *)

Lemma parse_directive (d : gmap string string) (k v : string) :
  is_word k -> parse_line d (k +:+ " " +:+ v) = <[k := trim_right v]> d.
Proof.
  intros Hk. unfold parse_line. rewrite TrimSpace_word, trim_right_space by done.
  assert (no_byte " " k = true) as Hns.
  { destruct Hk as [_ Hk]. revert Hk. unfold no_byte. apply forallb_impl. by apply ascii_impl. }
  rewrite decide_False by by apply word_app_ne.
  destruct (decide (trim_right v = EmptyString)) as [->|Hv].
  - rewrite app_empty_r. by apply IndexByte_none in Hns as ->.
  - change (k +:+ " " +:+ trim_right v) with (k +:+ String " " (trim_right v)).
    rewrite IndexByte_app by done. rewrite take_length_app.
    change (S (String.length k)) with (1 + String.length k)%nat. rewrite Nat.add_comm.
    change (String " " (trim_right v)) with (" " +:+ trim_right v). rewrite <- str_app_assoc.
    replace (String.length k + 1)%nat with (String.length (k +:+ " ")) by by rewrite length_app_str.
    by rewrite drop_length_app.
Qed.

Definition is_wordb (w : string) : bool := negb (bool_decide (w = EmptyString)) && str_forallb word_byte w.
Lemma is_wordb_ok (w : string) : is_wordb w = true -> is_word w.
Proof. intros [?%negb_true_iff%bool_decide_eq_false ?]%andb_true_iff. by split. Qed.

Lemma directive_parse (keys : list string) (l key : string) (d : gmap string string) :
  forallb is_wordb keys = true -> one_of keys key = false -> directive keys l ->
  parse_line d l !! key = d !! key.
Proof.
  intros Hw Hn (k & v & Hk & -> & _). unfold one_of in *.
  apply bool_decide_eq_true in Hk. apply bool_decide_eq_false in Hn.
  rewrite forallb_forall in Hw. rewrite parse_directive.
  - apply lookup_insert_ne. by intros ->.
  - by apply is_wordb_ok, Hw, list_elem_of_In.
Qed.

Lemma directives_parse (keys ls : list string) (key : string) (d : gmap string string) :
  forallb is_wordb keys = true -> one_of keys key = false -> Forall (directive keys) ls ->
  foldl parse_line d ls !! key = d !! key.
Proof.
  intros Hw Hn H. revert d. induction H as [|l ls Hl _ IH]; intros d; simpl; [done|].
  by rewrite IH, (directive_parse keys).
Qed.

Lemma bridges_parse (bs : list string) (d : gmap string string) :
  foldl parse_line d (map bridge_line bs) !! "Bridge" =
  match last bs with Some b => Some (trim_right b) | None => d !! "Bridge" end.
Proof.
  revert d. induction bs as [|b bs IH]; intros d; [done|]. simpl foldl. rewrite IH.
  unfold bridge_line at 1. change ("Bridge " +:+ b) with ("Bridge" +:+ " " +:+ b).
  rewrite parse_directive by by apply is_wordb_ok. rewrite lookup_insert_eq.
  destruct bs as [|b' bs]; [done|]. rewrite last_cons_cons.
  by destruct (last (b' :: bs)) eqn:Hl; [|apply last_None in Hl].
Qed.

Lemma parse_blank_end (d : gmap string string) (ls : list string) :
  foldl parse_line d (ls ++ [EmptyString]) = foldl parse_line d ls.
Proof. by rewrite foldl_app. Qed.

Lemma kept_trimmed (b : BridgeConfig) (x : string) :
  last (kept_bridges b) = Some x -> bridge_ok x -> trim_right x = x.
Proof.
  intros Hl%last_Some_elem_of [_ [_ Hx]%andb_true_iff].
  unfold kept_bridges in Hl. rewrite list_elem_of_In, filter_In, in_map_iff in Hl.
  destruct Hl as [(y & <- & _) _]. apply trim_right_TrimSpace.
  revert Hx. apply forallb_impl. by apply ascii_impl.
Qed.

(** ** Theorems *)

Section AcceptOverlay.
Context `{U : UnicodeTables}.

Lemma bridge_lines_ok (b : BridgeConfig) :
  is_ok (bridge_lines b) = true <-> (Bridge_UseBridges b = true ->
    Bridge_Transport b ∈ ["obfs4"; "meek-azure"; "snowflake"; ""; "none"] /\
    Forall (fun b => TrimSpace b = EmptyString \/ bridge_ok (TrimSpace b)) (elems (Bridge_Bridges b))).
Proof.
  rewrite <- transport_ok, <- bridge_loop_ok. unfold bridge_lines.
  destruct (Bridge_UseBridges _); [|by split].
  destruct (transport_lines _); simpl; [destruct (bridge_loop _); simpl|]; intuition congruence.
Qed.

Lemma proxy_lines_ok (p : ProxyConfig) :
  is_ok (proxy_lines p) = true <-> (Proxy_Type p <> EmptyString -> Proxy_Address p <> EmptyString ->
    proxy_address_ok (Proxy_Address p) /\
    credential_ok (Proxy_Username p) /\ credential_ok (Proxy_Password p)).
Proof.
  rewrite <- validateProxyAddress_ok, <- (validateCredential_ok "proxy username"),
    <- (validateCredential_ok "proxy password"). unfold proxy_lines.
  destruct (decide _) as [[? ?]|Hn]; [rewrite !is_ok_seq; simpl; tauto|simpl; tauto].
Qed.

Lemma overlay_lines_ok (c : Config) : is_ok (overlay_lines c) = true <->
  is_ok (bridge_lines (Bridge c)) = true /\ is_ok (proxy_lines (Proxy c)) = true /\
  validateRelayConfig (Relays c) = Ok tt.
Proof.
  unfold overlay_lines, relay_lines. destruct (bridge_lines _); simpl; [|intuition congruence].
  destruct (proxy_lines _); simpl; [|intuition congruence].
  destruct (validateRelayConfig _) as [[]|]; simpl; intuition congruence.
Qed.
End AcceptOverlay.

(** [TorrcOverlay] succeeds exactly on the accepted settings, and reports an
    error for every other one: unknown transport, malformed or over-long
    bridge, proxy address that is no host:port, credential outside the
    character class, relay entry that is neither fingerprint nor country. *)
Theorem TorrcOverlay_accepts (U : UnicodeTables) (c : Config) :
  is_ok (TorrcOverlay c) = true <-> overlay_ok c.
Proof.
  assert (is_ok (TorrcOverlay c) = is_ok (overlay_lines c)) as ->.
  { unfold TorrcOverlay. by destruct (overlay_lines c) as [[|? ?]|]. }
  rewrite overlay_lines_ok, bridge_lines_ok, proxy_lines_ok, validateRelayConfig_ok.
  split; [intros [? [? ?]]; by split|intros [? ? ?]; done].
Qed.

(** The default configuration with two bridges. *)
Definition two_bridges : Config :=
  let c := DefaultConfig linux in
  {| Version := Version c; TAPName := TAPName c; HostIP := HostIP c; VMIP := VMIP c;
     SubnetMask := SubnetMask c; DNS1 := DNS1 c; DNS2 := DNS2 c; SOCKSPort := SOCKSPort c;
     ControlPort := ControlPort c; TransPort := TransPort c; DNSPort := DNSPort c;
     VMMemoryMB := VMMemoryMB c; VMCPUs := VMCPUs c; KernelPath := KernelPath c;
     InitrdPath := InitrdPath c; StateDiskPath := StateDiskPath c; QMPSocketPath := QMPSocketPath c;
     Verbose := Verbose c; Accel := Accel c; Headless := Headless c; VhostNet := VhostNet c;
     IOMMUEnabled := IOMMUEnabled c;
     Bridge := {| Bridge_UseBridges := true; Bridge_Transport := "obfs4";
                  Bridge_Bridges := Some ["obfs4 192.0.2.1:443 AAAA"; "obfs4 192.0.2.2:443 BBBB"] |};
     Proxy := Proxy c; Service := Service c; Retry := Retry c; Entropy := Entropy c;
     Relays := Relays c; Browser := Browser c; FHE := FHE c; Vector := Vector c |}.
Definition two_bridges_overlay : string := Join
  ["UseBridges 1"; "ClientTransportPlugin obfs4 exec /usr/bin/obfs4proxy";
   "Bridge obfs4 192.0.2.1:443 AAAA"; "Bridge obfs4 192.0.2.2:443 BBBB"; ""] nl.

(** C9. No torrc injection: in the overlay of a validated configuration, cutting
    the text at line feeds gives exactly one directive per setting, each one
    a keyword of the overlay's own followed by a value without control bytes. *)
Theorem TorrcOverlay_no_injection (U : UnicodeTables) (os : goos) (c : Config) (s : string) :
  Validate os c = Ok tt -> TorrcOverlay c = Ok s ->
  s = EmptyString \/
  exists ls, ls <> [] /\ Split s LF = ls ++ [EmptyString] /\ Forall (directive torrc_keys) ls.
Proof.
  intros [Hi _ _ _ _ _ _ _ _ _ _]%Validate_ok Hs. apply Forall_cons in Hi as [Hip _].
  destruct (TorrcOverlay_split c s Hip Hs) as (ls & Hl & [[_ ->]|[Hne Hsp]]); [by left|].
  right. exists ls. split_and!; [done|done|]. by eapply overlay_directives.
Qed.
Lemma TorrcOverlay_no_injection_witness :
  two_bridges_overlay = EmptyString \/
  exists ls, ls <> [] /\ Split two_bridges_overlay LF = ls ++ [EmptyString] /\ Forall (directive torrc_keys) ls.
Proof. apply (TorrcOverlay_no_injection ascii_tables linux two_bridges); by vm_compute. Defined.

(** The directives that are sent to Tor after a reload hold at most one
    bridge: [parseTorrcOverlay] keeps the last [Bridge] line of the overlay
    and drops all the earlier ones. *)
Theorem reload_keeps_last_bridge (U : UnicodeTables) (os : goos) (c : Config) (s : string) :
  Validate os c = Ok tt -> Bridge_UseBridges (Bridge c) = true -> TorrcOverlay c = Ok s ->
  parseTorrcOverlay s !! "Bridge" = last (kept_bridges (Bridge c)).
Proof.
  intros [Hi _ _ _ _ _ _ _ _ _ _]%Validate_ok Hu Hs. apply Forall_cons in Hi as [Hip _].
  destruct (TorrcOverlay_split c s Hip Hs) as (ls & Hl & Hsp).
  destruct (overlay_lines_spec c ls Hip Hl) as (hd & rest & -> & Hh & Hb & Hr).
  rewrite Hu in *. unfold parseTorrcOverlay.
  assert (foldl parse_line ∅ (Split s LF)
    = foldl parse_line ∅ (hd ++ map bridge_line (kept_bridges (Bridge c)) ++ rest)) as ->.
  { destruct Hsp as [[He ->]|[_ ->]]; [by rewrite He|by rewrite parse_blank_end]. }
  rewrite !foldl_app, (directives_parse other_keys rest) by done. rewrite bridges_parse.
  rewrite (directives_parse plugin_keys hd) by done.
  destruct (last (kept_bridges (Bridge c))) as [b|] eqn:Hlast; [|done].
  f_equal. eapply kept_trimmed; [done|]. rewrite Forall_forall in Hb. apply Hb.
  by apply last_Some_elem_of.
Qed.
Lemma reload_keeps_last_bridge_witness :
  parseTorrcOverlay two_bridges_overlay !! "Bridge" = Some "obfs4 192.0.2.2:443 BBBB".
Proof.
  refine (eq_trans (reload_keeps_last_bridge ascii_tables linux two_bridges _ _ _ _) _); by vm_compute.
Defined.
