(* ===== verification/GeoIP.v ===== *)
(** * Package [tor], [geoip.go]: the country centroid table

    A latitude or longitude is written in hundredths of a degree: every
    literal of the table has at most two decimals. *)

From S2P Require Import Prelude GoStrings StringFacts.
Local Open Scope Z_scope.

Definition CountryCentroids_A_L : list (string * (Z * Z)) := [
  ("AD", (4250, 150)); ("AE", (2400, 5400)); ("AF", (3300, 6500)); ("AG", (1705, -6180));
  ("AI", (1820, -6310)); ("AL", (4100, 2000)); ("AM", (4000, 4500)); ("AO", (-1250, 1850));
  ("AR", (-3400, -6400)); ("AS", (-1430, -17000)); ("AT", (4730, 1330)); ("AU", (-2500, 13500));
  ("AW", (1250, -7000)); ("AZ", (4050, 4750)); ("BA", (4400, 1800)); ("BB", (1320, -5950));
  ("BD", (2400, 9000)); ("BE", (5080, 400)); ("BF", (1300, -200)); ("BG", (4300, 2500));
  ("BH", (2600, 5050)); ("BI", (-350, 2950)); ("BJ", (950, 230)); ("BM", (3230, -6480));
  ("BN", (450, 11470)); ("BO", (-1700, -6500)); ("BR", (-1000, -5500)); ("BS", (2430, -7600));
  ("BT", (2750, 9050)); ("BW", (-2200, 2400)); ("BY", (5300, 2800)); ("BZ", (1730, -8880));
  ("CA", (6000, -9600)); ("CD", (0, 2500)); ("CF", (700, 2100)); ("CG", (-100, 1500));
  ("CH", (4700, 800)); ("CI", (800, -500)); ("CL", (-3000, -7100)); ("CM", (600, 1200));
  ("CN", (3500, 10500)); ("CO", (400, -7200)); ("CR", (1000, -8400)); ("CU", (2200, -7950));
  ("CV", (1600, -2400)); ("CW", (1220, -6900)); ("CY", (3500, 3300)); ("CZ", (4980, 1550));
  ("DE", (5100, 900)); ("DJ", (1150, 4310)); ("DK", (5600, 1000)); ("DM", (1540, -6140));
  ("DO", (1900, -7070)); ("DZ", (2800, 300)); ("EC", (-200, -7750)); ("EE", (5900, 2600));
  ("EG", (2700, 3000)); ("ER", (1500, 3900)); ("ES", (4000, -400)); ("ET", (800, 3800));
  ("FI", (6400, 2600)); ("FJ", (-1800, 17900)); ("FK", (-5180, -5900)); ("FM", (690, 15820));
  ("FO", (6200, -700)); ("FR", (4600, 200)); ("GA", (-100, 1180)); ("GB", (5400, -200));
  ("GD", (1210, -6170)); ("GE", (4200, 4350)); ("GF", (400, -5300)); ("GG", (4950, -250));
  ("GH", (800, -200)); ("GI", (3610, -540)); ("GL", (7200, -4000)); ("GM", (1350, -1550));
  ("GN", (1100, -1000)); ("GP", (1630, -6160)); ("GQ", (200, 1000)); ("GR", (3900, 2200));
  ("GT", (1550, -9030)); ("GU", (1340, 14480)); ("GW", (1200, -1500)); ("GY", (500, -5900));
  ("HK", (2230, 11420)); ("HN", (1500, -8650)); ("HR", (4520, 1550)); ("HT", (1900, -7240));
  ("HU", (4700, 2000)); ("ID", (-500, 12000)); ("IE", (5300, -800)); ("IL", (3150, 3480));
  ("IM", (5420, -450)); ("IN", (2000, 7700)); ("IQ", (3300, 4400)); ("IR", (3200, 5300));
  ("IS", (6500, -1800)); ("IT", (4280, 1280)); ("JE", (4920, -210)); ("JM", (1830, -7750));
  ("JO", (3100, 3600)); ("JP", (3600, 13800)); ("KE", (100, 3800)); ("KG", (4100, 7500));
  ("KH", (1300, 10500)); ("KI", (140, 17300)); ("KM", (-1220, 4430)); ("KN", (1730, -6270));
  ("KP", (4000, 12700)); ("KR", (3700, 12750)); ("KW", (2950, 4780)); ("KY", (1930, -8130));
  ("KZ", (4800, 6800))].

Definition CountryCentroids_L_Z : list (string * (Z * Z)) := [
  ("LA", (1800, 10500)); ("LB", (3380, 3580)); ("LC", (1390, -6100)); ("LI", (4720, 950));
  ("LK", (700, 8100)); ("LR", (650, -950)); ("LS", (-2950, 2850)); ("LT", (5600, 2400));
  ("LU", (4980, 610)); ("LV", (5700, 2500)); ("LY", (2500, 1700)); ("MA", (3200, -500));
  ("MC", (4370, 740)); ("MD", (4700, 2900)); ("ME", (4250, 1930)); ("MG", (-2000, 4700));
  ("MH", (900, 16800)); ("MK", (4150, 2140)); ("ML", (1700, -400)); ("MM", (2200, 9800));
  ("MN", (4600, 10500)); ("MO", (2220, 11350)); ("MP", (1520, 14580)); ("MQ", (1470, -6100));
  ("MR", (2000, -1200)); ("MS", (1670, -6220)); ("MT", (3590, 1440)); ("MU", (-2030, 5760));
  ("MV", (320, 7320)); ("MW", (-1350, 3400)); ("MX", (2300, -10200)); ("MY", (250, 11250));
  ("MZ", (-1830, 3500)); ("NA", (-2200, 1700)); ("NC", (-2150, 16550)); ("NE", (1600, 800));
  ("NG", (1000, 800)); ("NI", (1300, -8500)); ("NL", (5250, 580)); ("NO", (6200, 1000));
  ("NP", (2800, 8400)); ("NR", (-50, 16690)); ("NZ", (-4200, 17400)); ("OM", (2100, 5700));
  ("PA", (900, -8000)); ("PE", (-1000, -7600)); ("PF", (-1500, -14000)); ("PG", (-600, 14700));
  ("PH", (1300, 12200)); ("PK", (3000, 7000)); ("PL", (5200, 2000)); ("PM", (4680, -5630));
  ("PR", (1830, -6650)); ("PS", (3190, 3520)); ("PT", (3950, -800)); ("PW", (750, 13450));
  ("PY", (-2300, -5800)); ("QA", (2550, 5130)); ("RE", (-2110, 5550)); ("RO", (4600, 2500));
  ("RS", (4400, 2100)); ("RU", (6000, 10000)); ("RW", (-200, 2990)); ("SA", (2500, 4500));
  ("SB", (-800, 15900)); ("SC", (-470, 5550)); ("SD", (1500, 3000)); ("SE", (6200, 1500));
  ("SG", (140, 10380)); ("SI", (4610, 1480)); ("SK", (4870, 1950)); ("SL", (850, -1180));
  ("SM", (4390, 1240)); ("SN", (1400, -1400)); ("SO", (1000, 4900)); ("SR", (400, -5600));
  ("SS", (700, 3000)); ("ST", (100, 700)); ("SV", (1380, -8890)); ("SX", (1800, -6300));
  ("SY", (3500, 3800)); ("SZ", (-2650, 3150)); ("TC", (2180, -7180)); ("TD", (1500, 1900));
  ("TG", (800, 120)); ("TH", (1500, 10000)); ("TJ", (3900, 7100)); ("TL", (-880, 12600));
  ("TM", (4000, 6000)); ("TN", (3400, 900)); ("TO", (-2000, -17500)); ("TR", (3900, 3500));
  ("TT", (1100, -6100)); ("TV", (-800, 17800)); ("TW", (2350, 12100)); ("TZ", (-600, 3500));
  ("UA", (4900, 3200)); ("UG", (100, 3200)); ("US", (3800, -9700)); ("UY", (-3300, -5600));
  ("UZ", (4100, 6400)); ("VA", (4190, 1250)); ("VC", (1330, -6120)); ("VE", (800, -6600));
  ("VG", (1840, -6460)); ("VI", (1830, -6490)); ("VN", (1600, 10800)); ("VU", (-1600, 16700));
  ("WS", (-1360, -17230)); ("XK", (4260, 2100)); ("YE", (1500, 4800)); ("ZA", (-2900, 2400));
  ("ZM", (-1500, 3000)); ("ZW", (-2000, 3000))].

Definition CountryCentroids : gmap string (Z * Z) :=
  list_to_map (CountryCentroids_A_L ++ CountryCentroids_L_Z).

(** ** Facts *)

Definition on_globe (p : Z * Z) : bool :=
  (-9000 <=? p.1) && (p.1 <=? 9000) && (-18000 <=? p.2) && (p.2 <=? 18000).
Definition country_code (cc : string) : bool := (len cc =? 2) && str_forallb is_upper cc.

Lemma CountryCentroids_all (P : string -> Z * Z -> bool) :
  forallb (fun kv => P kv.1 kv.2) (CountryCentroids_A_L ++ CountryCentroids_L_Z) = true ->
  forall cc p, CountryCentroids !! cc = Some p -> P cc p = true.
Proof.
  intros H cc p Hp%elem_of_list_to_map_2. rewrite forallb_forall in H.
  apply list_elem_of_In in Hp. by apply (H (cc, p)).
Qed.

(** The literal has no duplicate key, every key is a two-letter upper-case
    code, as [GetRelayCountry] returns them, and every point is on the globe. *)
Theorem CountryCentroids_wf :
  NoDup (map fst (CountryCentroids_A_L ++ CountryCentroids_L_Z)) /\
  forall cc p, CountryCentroids !! cc = Some p -> country_code cc = true /\ on_globe p = true.
Proof.
  split.
  - apply (bool_decide_unpack _). vm_compute. exact I.
  - intros cc p Hp. apply andb_true_iff. revert cc p Hp.
    apply (CountryCentroids_all (fun cc p => country_code cc && on_globe p)). by vm_compute.
Qed.
