(* ===== verification/Control.v ===== *)
(** * Package [tor]: the control protocol client

    [control.go], [circuit.go], [relay.go], [bandwidth.go], [bootstrap.go].
    A command runs in a state monad over the client: the bytes written to the
    connection so far, and the arrivals its [select] statement will take, in
    the order it takes them (a line of [syncResp], its closing, the closing of
    [done], the timer).  The reader goroutine is a step function of its own
    over the two bounded channels. *)

From S2P Require Import Prelude GoStrings StringFacts GeoIP.
Local Open Scope Z_scope.

Record AsyncEvent := { Code : Z; Action : string; Lines : list string }.
#[export] Instance AsyncEvent_eq_dec : EqDecision AsyncEvent.
Proof. solve_decision. Defined.
Record BandwidthStats := { BytesRead : Z; BytesWritten : Z }.
Record BootstrapStatus := { Progress : Z; Tag : string; Summary : string }.
Record CircuitInfo := { ID : string; Status : string; Path : list string; Purpose : string }.
(** Coordinates in hundredths of a degree, as in the table. *)
Record RelayInfo := {
  Fingerprint : string; Nickname : string; CountryCode : string;
  Latitude : Z; Longitude : Z; Role : string
}.

(** ** Lines *)

Definition isAsyncEvent (line : string) : bool :=
  (3 <=? len line) && bool_decide (str_take 3 line = "650").

Definition stripStatusPrefix (line : string) : string :=
  if 4 <=? len line then str_drop 4 line else line.

Definition validateNoNewlines (s : string) : result unit :=
  fail_if (ContainsAny s CRLF) "input contains illegal newline characters".

Definition expectOK (lines : list string) : result unit :=
  match last lines with
  | None => Err (Errorf "tor: empty response")
  | Some l => fail_if (negb (HasPrefix l "250 ")) ("tor: " +:+ l)
  end.

(** The event [dispatchEvent] sends. *)
Definition parse_event (line : string) : AsyncEvent :=
  let body := if 4 <? len line then str_drop 4 line else EmptyString in
  {| Code := 650;
     Action := match IndexByte body " " with Some i => str_take i body | None => body end;
     Lines := [body] |}.

(** ** The reader goroutine

    One step per line read from the connection; the consumers of the two
    channels take their own steps.  The sizes are those of [NewControlClient]. *)

Definition events_cap : nat := 256.
Definition syncResp_cap : nat := 128.

Record reader := { syncResp : list string; events : list AsyncEvent }.

(** [dispatchEvent]: a full channel drops the event. *)
Definition dispatchEvent (line : string) (r : reader) : reader :=
  if (length (events r) <? events_cap)%nat
  then {| syncResp := syncResp r; events := events r ++ [parse_event line] |}
  else r.

(** The body of [readLoop] for one line; [None]: it blocks on a full [syncResp]. *)
Definition read_line (line0 : string) (r : reader) : option reader :=
  let line := TrimRight line0 CRLF in
  if decide (line = EmptyString) then Some r
  else if isAsyncEvent line then Some (dispatchEvent line r)
  else if (length (syncResp r) <? syncResp_cap)%nat
       then Some {| syncResp := syncResp r ++ [line]; events := events r |}
       else None.

(** Interleavings of the goroutine with the consumers of the two channels:
    lines read, replies taken, events taken, in the order of the history. *)
Inductive reader_step := StepLine (line : string) | StepSync (l : string) | StepEvent (e : AsyncEvent).

Definition reader_exec (s : reader_step) (r : reader) : option reader :=
  match s with
  | StepLine l => read_line l r
  | StepSync l =>
      match syncResp r with
      | l' :: rest => if decide (l = l') then Some {| syncResp := rest; events := events r |} else None
      | [] => None
      end
  | StepEvent e =>
      match events r with
      | e' :: rest =>
          if decide (e = e') then Some {| syncResp := syncResp r; events := rest |} else None
      | [] => None
      end
  end.
Fixpoint reader_run (h : list reader_step) (r : reader) : option reader :=
  match h with
  | [] => Some r
  | s :: h' => match reader_exec s r with Some r' => reader_run h' r' | None => None end
  end.

(** ** Commands *)

(** What the [select] of [collectResponse] receives; the list of arrivals ends
    where the reader goroutine closes [syncResp]. *)
Inductive arrival :=
  | GotLine (line : string)
  | GotDone
  | TimerFired (timeout : string).

Inductive sent := Sent | WriteErr (e : string) | FlushErr (e : string).

(** The connection: the answer of [WriteString] and [Flush] for a chunk, given
    the bytes written before it. *)
Class Conn := conn_write : string -> string -> sent.

Record client := { written : string; arrivals : list arrival }.

Definition ctl (A : Type) : Type := client -> result A * client.
#[export] Instance ctl_ret : MRet ctl := fun A a c => (Ok a, c).
#[export] Instance ctl_bind : MBind ctl := fun A B f m c =>
  match m c with
  | (Ok a, c') => f a c'
  | (Err e, c') => (Err e, c')
  end.
Definition lift {A} (m : result A) : ctl A := fun c => (m, c).

(** The loop of [collectResponse]; [timeout] is the text of the duration. *)
Fixpoint collect (lines : list string) (arr : list arrival) : result (list string) * list arrival :=
  match arr with
  | [] => (Err (Errorf "tor: connection closed"), [])
  | GotDone :: rest => (Err (Errorf "tor: connection closed"), rest)
  | TimerFired t :: rest => (Err (Errorf ("tor: command timeout after " +:+ t)), rest)
  | GotLine line :: rest =>
      let lines' := lines ++ [line] in
      if (4 <=? len line) && bool_decide (str_get 3 line = Some " "%char) then
        if bool_decide (str_get 0 line = Some "4"%char) || bool_decide (str_get 0 line = Some "5"%char)
        then (Err (Errorf ("tor: " +:+ line)), rest)
        else (Ok lines', rest)
      else collect lines' rest
  end.

Definition collectResponse : ctl (list string) := fun c =>
  let '(r, arr) := collect [] (arrivals c) in (r, {| written := written c; arrivals := arr |}).

Definition add_info (m : gmap string string) (line : string) : gmap string string :=
  let body := stripStatusPrefix line in
  match IndexByte body "=" with
  | Some i => <[str_take i body := str_drop (S i) body]> m
  | None => m
  end.

Section Commands.
Context `{conn : Conn} `{U : UnicodeTables}.

Definition sendCommand (cmd : string) : ctl (list string) := fun c =>
  match conn_write (written c) (cmd +:+ CRLF) with
  | WriteErr e => (Err (Errorf ("tor: write: " +:+ e)), c)
  | FlushErr e => (Err (Errorf ("tor: flush: " +:+ e)), c)
  | Sent => collectResponse {| written := written c +:+ cmd +:+ CRLF; arrivals := arrivals c |}
  end.

Definition Authenticate (password : string) : ctl unit :=
  lift (wrap "tor: authenticate" (validateNoNewlines password)) ;;
  lines ← sendCommand ("AUTHENTICATE " +:+ dq +:+ password +:+ dq);
  lift (expectOK lines).

Definition GetInfo (keywords : list string) : ctl (gmap string string) :=
  lift (each (fun kw => wrap "tor: getinfo" (validateNoNewlines kw)) keywords) ;;
  lines ← sendCommand ("GETINFO " +:+ Join keywords " ");
  mret (foldl add_info ∅ lines).

Definition Signal (sig : string) : ctl unit :=
  lift (wrap "tor: signal" (validateNoNewlines sig)) ;;
  lines ← sendCommand ("SIGNAL " +:+ sig);
  lift (expectOK lines).

(** [directives] lists the entries of the map in the order [range] visits
    them; Go fixes no order. *)
Definition SetConf (directives : list (string * string)) : ctl unit :=
  lift (each (fun kv => wrap "tor: setconf key" (validateNoNewlines kv.1) ;;
                        wrap "tor: setconf value" (validateNoNewlines kv.2)) directives) ;;
  lines ← sendCommand ("SETCONF " +:+ Join (map (fun kv => kv.1 +:+ "=" +:+ kv.2) directives) " ");
  lift (expectOK lines).

Definition SetEvents (evs : list string) : ctl unit :=
  lift (each (fun ev => wrap "tor: setevents" (validateNoNewlines ev)) evs) ;;
  lines ← sendCommand ("SETEVENTS " +:+ Join evs " ");
  lift (expectOK lines).

Definition circuitIDRe (s : string) : bool :=
  negb (bool_decide (s = EmptyString)) && str_forallb is_digit s.

Definition CloseCircuit (circuitID : string) : ctl unit :=
  if negb (circuitIDRe circuitID) then
    lift (Err (Errorf ("tor: invalid circuit ID " +:+ Quote circuitID)))
  else
    lines ← sendCommand ("CLOSECIRCUIT " +:+ circuitID);
    lift (expectOK lines).
End Commands.

(** ** Parsers *)

Definition drop_word (s : string) : string :=
  match IndexByte s " " with Some i => str_take i s | None => s end.

Section Parsers.
Context `{U : UnicodeTables}.

Definition ParseBandwidthEvent (line : string) : result BandwidthStats :=
  let s := if HasPrefix line "650 " || HasPrefix line "650-" then str_drop 4 line else line in
  if negb (HasPrefix s "BW ") then Err (Errorf ("tor: not a BW event: " +:+ Quote line))
  else match Fields s with
       | [_; r; w] =>
           read ← wrap "tor: invalid bytes read" (ParseInt r);
           wrote ← wrap "tor: invalid bytes written" (ParseInt w);
           Ok {| BytesRead := read; BytesWritten := wrote |}
       | _ => Err (Errorf ("tor: invalid BW event format: " +:+ Quote line))
       end.

Definition ParseBootstrapStatus (line : string) : result BootstrapStatus :=
  match Index line "PROGRESS=" with
  | None => Err (Errorf ("tor: missing PROGRESS in bootstrap status: " +:+ Quote line))
  | Some i =>
      progress ← wrap "tor: invalid PROGRESS value"
                   (Atoi (drop_word (str_drop (i + String.length "PROGRESS=") line)));
      Ok {| Progress := progress;
            Tag := match Index line "TAG=" with
                   | Some j => drop_word (str_drop (j + String.length "TAG=") line)
                   | None => EmptyString
                   end;
            Summary := match Index line ("SUMMARY=" +:+ dq) with
                       | Some j =>
                           let rest := str_drop (j + String.length ("SUMMARY=" +:+ dq)) line in
                           match IndexByte rest DQ with Some q => str_take q rest | None => rest end
                       | None => EmptyString
                       end |}
  end.

(** The [PURPOSE=] loop over [fields[3:]]. *)
Fixpoint find_purpose (fields : list string) : string :=
  match fields with
  | [] => EmptyString
  | f :: fs => if HasPrefix f "PURPOSE=" then str_drop (String.length "PURPOSE=") f else find_purpose fs
  end.

(** [None]: the slice expression [fields[3:]] panics on fewer than three fields. *)
Definition parseCircuitLine (line : string) : option CircuitInfo :=
  match Fields line with
  | id :: status :: path :: rest =>
      if HasPrefix path "PURPOSE=" then
        Some {| ID := id; Status := status; Path := [];
                Purpose := str_drop (String.length "PURPOSE=") path |}
      else Some {| ID := id; Status := status; Path := Split path ","; Purpose := find_purpose rest |}
  | _ => None
  end.

(** The loop of [GetCircuits]; [None]: a panic. *)
Fixpoint circuit_loop (lines : list string) : option (list CircuitInfo) :=
  match lines with
  | [] => Some []
  | l :: ls =>
      let line := TrimSpace l in
      if decide (line = EmptyString) then circuit_loop ls
      else ci ← parseCircuitLine line; cis ← circuit_loop ls; Some (ci :: cis)
  end.

Definition ParseRelayPath (entry0 : string) : string * string :=
  let entry := TrimSpace entry0 in
  match IndexByte entry "~" with
  | Some i => (str_take i entry, str_drop (S i) entry)
  | None => (entry, EmptyString)
  end.

(** The loop of [GetRelayAddress] over the lines of the network status. *)
Fixpoint find_address (lines : list string) : option string :=
  match lines with
  | [] => None
  | l :: ls =>
      let line := TrimSpace l in
      if HasPrefix line "r " then
        match Fields line !! 6%nat with Some a => Some a | None => find_address ls end
      else find_address ls
  end.
End Parsers.

(** ** Queries *)

Section Queries.
Context `{conn : Conn} `{U : UnicodeTables}.

Definition GetBootstrapStatus : ctl BootstrapStatus :=
  info ← GetInfo ["status/bootstrap-phase"];
  match info !! "status/bootstrap-phase" with
  | None => lift (Err (Errorf "tor: no bootstrap-phase in response"))
  | Some phase => lift (ParseBootstrapStatus phase)
  end.

Definition GetCircuits : ctl (option (list CircuitInfo)) :=
  info ← GetInfo ["circuit-status"];
  match info !! "circuit-status" with
  | None => mret (Some [])
  | Some raw => mret (circuit_loop (Split raw LF))
  end.

Definition GetRelayCountry (ip : string) : ctl string :=
  lift (wrap "tor: relay country" (validateNoNewlines ip)) ;;
  info ← GetInfo ["ip-to-country/" +:+ ip];
  match info !! ("ip-to-country/" +:+ ip) with
  | Some cc =>
      if decide (cc = EmptyString) then lift (Err (Errorf ("tor: no country for IP " +:+ ip)))
      else mret (ToUpper (TrimSpace cc))
  | None => lift (Err (Errorf ("tor: no country for IP " +:+ ip)))
  end.

Definition GetRelayAddress (fingerprint : string) : ctl string :=
  lift (wrap "tor: relay address" (validateNoNewlines fingerprint)) ;;
  let fp := TrimPrefix fingerprint "$" in
  info ← GetInfo ["ns/id/" +:+ fp];
  match info !! ("ns/id/" +:+ fp) with
  | None => lift (Err (Errorf ("tor: no network status for " +:+ fingerprint)))
  | Some raw =>
      match find_address (Split raw LF) with
      | Some a => mret a
      | None => lift (Err (Errorf ("tor: could not parse address from ns/id/" +:+ fp)))
      end
  end.

(** The partially filled [RelayInfo] that goes with an error is part of the value. *)
Definition ResolveRelay (pathEntry : string) (c : client) : (RelayInfo * option error) * client :=
  let '(fp, nick) := ParseRelayPath pathEntry in
  let info cc lat lon := {| Fingerprint := fp; Nickname := nick; CountryCode := cc;
                            Latitude := lat; Longitude := lon; Role := EmptyString |} in
  match GetRelayAddress fp c with
  | (Err e, c1) => ((info EmptyString 0 0, Some e), c1)
  | (Ok ip, c1) =>
      match GetRelayCountry ip c1 with
      | (Err e, c2) => ((info EmptyString 0 0, Some e), c2)
      | (Ok cc, c2) =>
          match CountryCentroids !! cc with
          | Some (lat, lon) => ((info cc lat lon, None), c2)
          | None => ((info cc 0 0, None), c2)
          end
      end
  end.
End Queries.

(** ** The demultiplexer *)

Definition sync_line (s : reader_step) : option string :=
  match s with
  | StepLine l0 =>
      let l := TrimRight l0 CRLF in
      if decide (l = EmptyString) then None else if isAsyncEvent l then None else Some l
  | _ => None
  end.
Definition async_event (s : reader_step) : option AsyncEvent :=
  match s with
  | StepLine l0 =>
      let l := TrimRight l0 CRLF in
      if decide (l = EmptyString) then None else if isAsyncEvent l then Some (parse_event l) else None
  | _ => None
  end.
Definition taken_sync (s : reader_step) : option string := match s with StepSync l => Some l | _ => None end.
Definition taken_event (s : reader_step) : option AsyncEvent := match s with StepEvent e => Some e | _ => None end.

Definition reader_bounded (r : reader) : Prop :=
  (length (syncResp r) <= syncResp_cap)%nat /\ (length (events r) <= events_cap)%nat.

Lemma reader_exec_spec (st : reader_step) (r r' : reader) :
  reader_exec st r = Some r' ->
  syncResp r ++ option_list (sync_line st) = option_list (taken_sync st) ++ syncResp r' /\
  sublist (option_list (taken_event st) ++ events r') (events r ++ option_list (async_event st)) /\
  (reader_bounded r -> reader_bounded r').
Proof.
  unfold reader_exec, reader_bounded. destruct st as [l|l|e]; simpl.
  - unfold read_line. destruct (decide _); [intros [= <-]; rewrite !app_nil_r; auto|].
    destruct (isAsyncEvent _); simpl.
    + intros [= <-]. unfold dispatchEvent. rewrite app_nil_r.
      destruct (_ <? events_cap)%nat eqn:Hc; simpl.
      * apply Nat.ltb_lt in Hc. rewrite length_app. split_and!; [done|done|simpl; lia].
      * split_and!; [done|by apply sublist_inserts_r|done].
    + destruct (_ <? syncResp_cap)%nat eqn:Hc; [|done]. intros [= <-]. simpl. rewrite app_nil_r.
      apply Nat.ltb_lt in Hc. rewrite length_app. split_and!; [done|done|simpl; lia].
  - destruct (syncResp r) as [|l' rest] eqn:Hr; [done|]. destruct (decide _) as [->|]; [|done].
    intros [= <-]. simpl. rewrite !app_nil_r. split_and!; [done|done|simpl; lia].
  - destruct (events r) as [|e' rest] eqn:Hr; [done|]. destruct (decide _) as [->|]; [|done].
    intros [= <-]. simpl. rewrite !app_nil_r. split_and!; [done|done|simpl; lia].
Qed.

Lemma omap_cons_list {A B} (f : A -> option B) (x : A) (l : list A) :
  omap f (x :: l) = option_list (f x) ++ omap f l.
Proof. simpl. by destruct (f x). Qed.

Lemma reader_run_spec (h : list reader_step) (r r' : reader) :
  reader_run h r = Some r' ->
  syncResp r ++ omap sync_line h = omap taken_sync h ++ syncResp r' /\
  sublist (omap taken_event h ++ events r') (events r ++ omap async_event h) /\
  (reader_bounded r -> reader_bounded r').
Proof.
  revert r. induction h as [|st h IH]; intros r.
  { intros [= <-]. simpl. by rewrite !app_nil_r. }
  cbn [reader_run]. destruct (reader_exec st r) as [r1|] eqn:He; [|done].
  apply reader_exec_spec in He as (Hs & Hv & Hb). intros (Hs' & Hv' & Hb')%IH.
  rewrite !omap_cons_list. split_and!; [| |auto].
  - by rewrite app_assoc, Hs, <- app_assoc, Hs', app_assoc.
  - rewrite <- app_assoc. transitivity (option_list (taken_event st) ++ events r1 ++ omap async_event h).
    + by apply sublist_app.
    + rewrite !app_assoc. by apply sublist_app.
Qed.

(** C13. The reader goroutine never reorders or loses a reply and never mixes one
    with an event, in any interleaving with the two consumers: the reply
    lines taken and still queued are exactly the non-650 lines read, in order;
    the events taken and queued are 650 lines read, in order, some of them
    dropped; the channels keep their capacities. *)
Theorem readLoop_demux (h : list reader_step) (r : reader) :
  reader_run h {| syncResp := []; events := [] |} = Some r ->
  omap sync_line h = omap taken_sync h ++ syncResp r /\
  sublist (omap taken_event h ++ events r) (omap async_event h) /\
  (length (syncResp r) <= syncResp_cap)%nat /\ (length (events r) <= events_cap)%nat.
Proof.
  intros (Hs & Hv & Hb)%reader_run_spec. split_and!; [done|done|..]; apply Hb; split; simpl; lia.
Qed.
Lemma readLoop_demux_witness :
  let h := [StepLine ("250-a=1" +:+ CRLF); StepLine ("650 BW 1 2" +:+ CRLF); StepSync "250-a=1";
            StepLine ("250 OK" +:+ CRLF)] in
  reader_run h {| syncResp := []; events := [] |}
    = Some {| syncResp := ["250 OK"]; events := [parse_event "650 BW 1 2"] |} /\
  omap sync_line h = ["250-a=1"; "250 OK"].
Proof.
  split; [by vm_compute|]. refine (eq_trans (proj1 (readLoop_demux _ _ _)) _); by vm_compute.
Defined.

(** ** Framing *)

(** A line that ends a reply, and the kind of reply. *)
Definition final_line (l : string) : bool := (4 <=? len l) && bool_decide (str_get 3 l = Some " "%char).
Definition error_line (l : string) : bool :=
  bool_decide (str_get 0 l = Some "4"%char) || bool_decide (str_get 0 l = Some "5"%char).

Lemma collect_spec (acc mid : list string) (fin : string) (rest : list arrival) :
  Forall (fun l => final_line l = false) mid -> final_line fin = true ->
  collect acc (map GotLine (mid ++ [fin]) ++ rest) =
  (if error_line fin then Err (Errorf ("tor: " +:+ fin)) else Ok (acc ++ mid ++ [fin]), rest).
Proof.
  intros Hm Hf. revert acc. induction Hm as [|l mid Hl _ IH]; intros acc; cbn [app map collect].
  - unfold final_line, error_line in *. rewrite Hf. by destruct (_ || _).
  - unfold final_line in Hl. rewrite Hl, IH. by rewrite <- !app_assoc.
Qed.

Section CommandFacts.
Context `{conn : Conn} `{U : UnicodeTables}.

(** One protocol line: [cmd] with no line break of its own. *)
Definition one_line (c c' : client) : Prop :=
  written c' = written c \/
  exists cmd, written c' = written c +:+ cmd +:+ CRLF /\ no_byte CR cmd = true /\ no_byte LF cmd = true.

Definition no_breaks (s : string) : bool := no_byte CR s && no_byte LF s.

Lemma validateNoNewlines_ok (s : string) : validateNoNewlines s = Ok tt <-> no_breaks s = true.
Proof.
  unfold validateNoNewlines, no_breaks, ContainsAny, no_byte.
  rewrite fail_if_ok, existsb_forallb, negb_false_iff.
  induction s as [|a s IH]; [done|]. simpl. rewrite !andb_true_iff, IH, andb_true_iff.
  destruct (Ascii.eqb a CR), (Ascii.eqb a LF); simpl; intuition congruence.
Qed.

Lemma no_breaks_app (a b : string) : no_breaks (a +:+ b) = no_breaks a && no_breaks b.
Proof.
  unfold no_breaks, no_byte. rewrite !forallb_app_str.
  by destruct (str_forallb _ a), (str_forallb _ a), (str_forallb _ b), (str_forallb _ b).
Qed.
Lemma no_breaks_join (l : list string) (sep : string) :
  Forall (fun s => no_breaks s = true) l -> no_breaks sep = true -> no_breaks (Join l sep) = true.
Proof.
  intros H Hs. unfold no_breaks in *. apply andb_true_iff in Hs as [Hs1 Hs2]. apply andb_true_iff.
  split; apply forallb_join; try done; eapply Forall_impl; try exact H; by intros x [? ?]%andb_true_iff.
Qed.

Lemma collectResponse_written (c : client) : written (collectResponse c).2 = written c.
Proof. unfold collectResponse. by destruct (collect _ _). Qed.

Lemma sendCommand_one_line (cmd : string) (c : client) :
  no_breaks cmd = true -> one_line c (sendCommand cmd c).2.
Proof.
  intros [Hcr Hlf]%andb_true_iff. unfold sendCommand, one_line.
  destruct (conn_write _ _); simpl; [|by left|by left].
  right. exists cmd. by rewrite collectResponse_written.
Qed.

(** A command: checks that send nothing, one line sent, a pure epilogue. *)
Lemma command_one_line {A} (v : result unit) (cmd : string) (k : list string -> result A) (c : client) :
  (v = Ok tt -> no_breaks cmd = true) ->
  one_line c ((lift v ;; lines ← sendCommand cmd; lift (k lines)) c).2.
Proof.
  intros Hv. unfold lift, mbind, ctl_bind. destruct v as [[]|e]; [|by left].
  pose proof (sendCommand_one_line cmd c (Hv eq_refl)) as H.
  by destruct (sendCommand cmd c) as [[lines|e] c'].
Qed.

Lemma no_breaks_args (prefix : string) (l : list string) (sep p : string) :
  no_breaks prefix = true -> no_breaks sep = true ->
  each (fun x => wrap p (validateNoNewlines x)) l = Ok tt -> no_breaks (prefix +:+ Join l sep) = true.
Proof.
  intros Hp Hs H. rewrite no_breaks_app, Hp. apply no_breaks_join; [|done].
  apply each_ok in H. eapply Forall_impl; [exact H|].
  intros x Hx%wrap_ok. by apply validateNoNewlines_ok.
Qed.

Lemma circuit_id_no_breaks (s : string) : circuitIDRe s = true -> no_breaks s = true.
Proof.
  intros [_ H]%andb_true_iff. unfold no_breaks, no_byte.
  apply andb_true_iff; split; revert H; apply forallb_impl; by apply ascii_impl.
Qed.
End CommandFacts.

(** The methods that send one command each. *)
Inductive command :=
  | CAuthenticate (password : string)
  | CGetInfo (keywords : list string)
  | CSignal (sig : string)
  | CSetConf (directives : list (string * string))
  | CSetEvents (evs : list string)
  | CCloseCircuit (id : string).

Definition run_command `{conn : Conn} `{U : UnicodeTables} (cmd : command) (c : client) : client :=
  match cmd with
  | CAuthenticate p => (Authenticate p c).2
  | CGetInfo l => (GetInfo l c).2
  | CSignal s => (Signal s c).2
  | CSetConf l => (SetConf l c).2
  | CSetEvents l => (SetEvents l c).2
  | CCloseCircuit id => (CloseCircuit id c).2
  end.

(** C8. No protocol injection: whatever its arguments hold, a command method
    writes nothing, or exactly one line, ended by CRLF and with no other CR or
    LF in it. *)
Theorem command_no_injection (conn : Conn) (U : UnicodeTables) (cmd : command) (c : client) :
  one_line c (run_command cmd c).
Proof.
  destruct cmd as [p|l|s|l|l|id]; simpl.
  - apply command_one_line. rewrite wrap_ok, validateNoNewlines_ok. intros Hp.
    by rewrite !no_breaks_app, Hp.
  - apply (command_one_line _ _ (fun lines => Ok (foldl add_info ∅ lines))). by apply no_breaks_args.
  - apply command_one_line. rewrite wrap_ok, validateNoNewlines_ok. intros Hp.
    by rewrite !no_breaks_app, Hp.
  - apply command_one_line. rewrite each_ok. intros H. rewrite no_breaks_app.
    apply no_breaks_join; [|done]. apply Forall_map. eapply Forall_impl; [exact H|].
    intros [k v]. rewrite seq_ok, !wrap_ok, !validateNoNewlines_ok. simpl. intros [Hk Hv].
    by rewrite !no_breaks_app, Hk, Hv.
  - apply command_one_line. by apply no_breaks_args.
  - unfold CloseCircuit. destruct (circuitIDRe id) eqn:Hid; simpl; [|by left].
    apply (command_one_line (Ok tt)). intros _. rewrite no_breaks_app. by apply circuit_id_no_breaks.
Qed.

(** ** GETINFO *)

Definition midline (k v : string) : string := "250-" +:+ k +:+ "=" +:+ v.
(** Tor's reply to GETINFO for single-line values. *)
Definition info_reply (kvs : list (string * string)) : list string :=
  map (fun kv => midline kv.1 kv.2) kvs ++ ["250 OK"].

Section GetInfoFacts.
Context `{conn : Conn} `{U : UnicodeTables}.

Lemma len_ge4 (a b c d : ascii) (s : string) :
  (4 <=? len (String a (String b (String c (String d s))))) = true.
Proof. unfold len. apply Z.leb_le. simpl String.length. lia. Qed.

Lemma strip_midline (sep : ascii) (s : string) :
  stripStatusPrefix ("250" +:+ String sep s) = s.
Proof.
  unfold stripStatusPrefix. change ("250" +:+ String sep s) with (String "2" (String "5" (String "0" (String sep s)))).
  by rewrite len_ge4.
Qed.

Lemma midline_not_final (k v : string) : final_line (midline k v) = false.
Proof. unfold final_line. by rewrite andb_false_r. Qed.

Lemma add_info_midline (m : gmap string string) (k v : string) :
  no_byte "=" k = true -> add_info m (midline k v) = <[k := v]> m.
Proof.
  intros Hk. unfold add_info, midline. change ("250-" +:+ k +:+ "=" +:+ v) with ("250" +:+ String "-" (k +:+ String "=" v)).
  rewrite strip_midline, IndexByte_app by done.
  rewrite take_length_app. change (k +:+ String "=" v) with (k +:+ "=" +:+ v). rewrite <- str_app_assoc.
  replace (S (String.length k)) with (String.length (k +:+ "=")) by (rewrite length_app_str; simpl; lia).
  by rewrite drop_length_app.
Qed.

Lemma add_info_midlines (kvs : list (string * string)) (m : gmap string string) :
  Forall (fun kv => no_byte "=" kv.1 = true) kvs ->
  foldl add_info m (map (fun kv => midline kv.1 kv.2) kvs) = foldl (fun m kv => <[kv.1 := kv.2]> m) m kvs.
Proof.
  intros H. revert m. induction H as [|kv kvs Hk _ IH]; intros m; [done|]. simpl foldl.
  by rewrite add_info_midline, IH.
Qed.

(** What a query gets when the connection delivers one complete reply. *)
Lemma GetInfo_reply (kws mid : list string) (fin w : string) (rest : list arrival) :
  Forall (fun kw => no_breaks kw = true) kws ->
  (forall w chunk, conn_write w chunk = Sent) ->
  Forall (fun l => final_line l = false) mid -> final_line fin = true ->
  GetInfo kws {| written := w; arrivals := map GotLine (mid ++ [fin]) ++ rest |} =
  (if error_line fin then Err (Errorf ("tor: " +:+ fin)) else Ok (foldl add_info ∅ (mid ++ [fin])),
   {| written := w +:+ ("GETINFO " +:+ Join kws " ") +:+ CRLF; arrivals := rest |}).
Proof.
  intros Hk Hw Hm Hf. unfold GetInfo, lift, mbind, ctl_bind.
  assert (each (fun kw => wrap "tor: getinfo" (validateNoNewlines kw)) kws = Ok tt) as ->.
  { apply each_ok. eapply Forall_impl; [exact Hk|]. intros x Hx. by apply wrap_ok, validateNoNewlines_ok. }
  unfold sendCommand. rewrite Hw. unfold collectResponse. cbn [arrivals written].
  rewrite collect_spec by done. by destruct (error_line fin).
Qed.

(** [m[k] = v] for a list of entries with distinct keys. *)
Lemma foldl_insert (kvs : list (string * string)) (m : gmap string string) (k : string) :
  NoDup (map fst kvs) ->
  foldl (fun m kv => <[kv.1 := kv.2]> m) m kvs !! k =
  match (list_to_map kvs : gmap string string) !! k with Some v => Some v | None => m !! k end.
Proof.
  revert m. induction kvs as [|[k' v'] kvs IH]; intros m Hnd; [done|].
  apply NoDup_cons in Hnd as [Hn Hnd]. simpl. rewrite IH by done.
  destruct (decide (k' = k)) as [->|Hne].
  - rewrite lookup_insert_eq, lookup_insert_eq. rewrite not_elem_of_list_to_map_1; [done|exact Hn].
  - by rewrite !lookup_insert_ne.
Qed.
End GetInfoFacts.

(** C16. GETINFO round trip: for a complete reply with one value per keyword, the
    map returned holds exactly the values of the reply, one line was written,
    and what follows the reply is left for the next command. *)
Theorem GetInfo_roundtrip (conn : Conn) (U : UnicodeTables) (kvs : list (string * string)) (w : string)
    (rest : list arrival) :
  (forall w chunk, conn_write w chunk = Sent) -> NoDup (map fst kvs) ->
  Forall (fun kv => no_breaks kv.1 = true /\ no_byte "=" kv.1 = true) kvs ->
  GetInfo (map fst kvs) {| written := w; arrivals := map GotLine (info_reply kvs) ++ rest |} =
  (Ok (list_to_map kvs),
   {| written := w +:+ ("GETINFO " +:+ Join (map fst kvs) " ") +:+ CRLF; arrivals := rest |}).
Proof.
  intros Hw Hnd H. unfold info_reply. rewrite GetInfo_reply; try done.
  - assert (forall m, add_info m "250 OK" = m) as Hok by done.
    change (error_line "250 OK") with false. cbv iota. do 2 f_equal. rewrite foldl_app.
    cbn [foldl]. rewrite Hok, add_info_midlines.
    + apply map_eq. intros k. rewrite foldl_insert by done.
      destruct (list_to_map kvs !! k); [done|apply lookup_empty].
    + eapply Forall_impl; [exact H|]. by intros kv [_ ?].
  - apply Forall_map. eapply Forall_impl; [exact H|]. by intros kv [? _].
  - apply Forall_map, Forall_true. intros kv. apply midline_not_final.
Qed.
Definition sent_always : Conn := fun _ _ => Sent.
Lemma GetInfo_roundtrip_witness :
  NoDup ["version"; "a"] /\
  (@GetInfo sent_always ["version"; "a"]
    {| written := ""; arrivals := map GotLine (info_reply [("version", "0.4"); ("a", "b=c")]) |}).1
  = Ok (list_to_map [("version", "0.4"); ("a", "b=c")]).
Proof.
  split; [apply (bool_decide_unpack _); vm_compute; exact I|].
  refine (eq_trans (f_equal fst (GetInfo_roundtrip sent_always ascii_tables
    [("version", "0.4"); ("a", "b=c")] "" [] _ _ _)) _).
  - reflexivity.
  - apply (bool_decide_unpack _). vm_compute. exact I.
  - repeat constructor; vm_compute; reflexivity.
  - reflexivity.
Defined.

(** ** Multi-line data *)

(** Tor's reply to a query whose value spans several lines. *)
Definition data_reply (key : string) (data : list string) : list string :=
  ("250+" +:+ key +:+ "=") :: data ++ ["."; "250 OK"].

Lemma add_info_other (m : gmap string string) (l key : string) :
  HasPrefix (stripStatusPrefix l) (key +:+ "=") = false -> add_info m l !! key = m !! key.
Proof.
  intros Hp. unfold add_info. destruct (IndexByte _ _) as [i|] eqn:Hi; [|done].
  apply IndexByte_some in Hi. apply lookup_insert_ne. intros Hk.
  destruct Hi as (Hs & _). rewrite Hk in Hs.
  assert (HasPrefix (stripStatusPrefix l) (key +:+ "=") = true) as Ht; [|by rewrite Ht in Hp].
  rewrite Hs. change (key +:+ String "=" (str_drop (S i) (stripStatusPrefix l)))
    with (key +:+ "=" +:+ str_drop (S i) (stripStatusPrefix l)).
  rewrite <- str_app_assoc. apply HasPrefix_app.
Qed.

Lemma add_info_others (ls : list string) (m : gmap string string) (key : string) :
  Forall (fun l => HasPrefix (stripStatusPrefix l) (key +:+ "=") = false) ls ->
  foldl add_info m ls !! key = m !! key.
Proof.
  intros H. revert m. induction H as [|l ls Hl _ IH]; intros m; [done|]. simpl.
  by rewrite IH, add_info_other.
Qed.

(** The circuits Tor lists in a multi-line reply are lost: whatever the data
    lines hold, [GetCircuits] returns the empty list and no error. *)
Theorem GetCircuits_data_lost (conn : Conn) (U : UnicodeTables) (data : list string) (w : string)
    (rest : list arrival) :
  (forall w chunk, conn_write w chunk = Sent) ->
  Forall (fun l => final_line l = false /\
                   HasPrefix (stripStatusPrefix l) "circuit-status=" = false) data ->
  (GetCircuits {| written := w; arrivals := map GotLine (data_reply "circuit-status" data) ++ rest |}).1
  = Ok (Some []).
Proof.
  intros Hw H. unfold GetCircuits, data_reply. unfold mbind, ctl_bind.
  change (("250+" +:+ "circuit-status" +:+ "=") :: data ++ ["."; "250 OK"])
    with ((("250+circuit-status=") :: data) ++ ["."] ++ ["250 OK"]).
  rewrite app_assoc, GetInfo_reply; [|by repeat constructor|done| |done].
  - change (error_line "250 OK") with false. cbv iota.
    assert (foldl add_info ∅ ((("250+circuit-status=" :: data) ++ ["."]) ++ ["250 OK"]) !! "circuit-status"
      = Some EmptyString) as ->; [|done].
    rewrite <- app_assoc, <- app_comm_cons. cbn [foldl].
    rewrite (add_info_others _ _ "circuit-status"); [done|].
    apply Forall_app. split; [|by repeat constructor].
    eapply Forall_impl; [exact H|]. by intros l [_ ?].
  - constructor; [done|]. apply Forall_app. split; [|by repeat constructor].
    eapply Forall_impl; [exact H|]. by intros l [? _].
Qed.
Lemma GetCircuits_data_lost_witness :
  (@GetCircuits sent_always {| written := ""; arrivals := map GotLine (data_reply "circuit-status"
     ["12 BUILT $AA~a,$BB~b PURPOSE=GENERAL"]) |}).1 = Ok (Some []).
Proof.
  refine (GetCircuits_data_lost sent_always ascii_tables ["12 BUILT $AA~a,$BB~b PURPOSE=GENERAL"] "" [] _ _).
  - reflexivity.
  - repeat constructor; vm_compute; reflexivity.
Defined.

(** ** Parsers *)

Definition print_bandwidth (b : BandwidthStats) : string :=
  "BW " +:+ itoa (BytesRead b) +:+ " " +:+ itoa (BytesWritten b).

(** Every event Tor sends is read back: with or without the status prefix,
    over the whole range of int64. *)
Theorem bandwidth_roundtrip (U : UnicodeTables) (b : BandwidthStats) (prefix : string) :
  prefix ∈ [""; "650 "; "650-"] ->
  MinInt64 <= BytesRead b <= MaxInt64 -> MinInt64 <= BytesWritten b <= MaxInt64 ->
  ParseBandwidthEvent (prefix +:+ print_bandwidth b) = Ok b.
Proof.
  intros Hp Hr Hw. unfold ParseBandwidthEvent.
  assert ((if HasPrefix (prefix +:+ print_bandwidth b) "650 " || HasPrefix (prefix +:+ print_bandwidth b) "650-"
           then str_drop 4 (prefix +:+ print_bandwidth b) else prefix +:+ print_bandwidth b)
          = print_bandwidth b) as ->.
  { rewrite !elem_of_cons, elem_of_nil in Hp. by destruct Hp as [->|[->|[->|[]]]]. }
  change (HasPrefix (print_bandwidth b) "BW ") with true. cbn [negb].
  assert (Fields (print_bandwidth b) = ["BW"; itoa (BytesRead b); itoa (BytesWritten b)]) as ->.
  { apply (Fields_words ["BW"; itoa (BytesRead b)]). repeat constructor; try done; apply itoa_word. }
  unfold ParseInt. rewrite !parse_int_itoa by done. by destruct b.
Qed.
Lemma bandwidth_roundtrip_witness :
  @ParseBandwidthEvent ascii_tables "650 BW 1024 -7" = Ok {| BytesRead := 1024; BytesWritten := -7 |}.
Proof.
  apply (bandwidth_roundtrip ascii_tables {| BytesRead := 1024; BytesWritten := -7 |} "650 ").
  - right. by left.
  - by vm_compute.
  - by vm_compute.
Defined.

(** *** Bootstrap status *)

Definition print_bootstrap (b : BootstrapStatus) : string :=
  "NOTICE BOOTSTRAP PROGRESS=" +:+ itoa (Progress b) +:+ " TAG=" +:+ Tag b
    +:+ " SUMMARY=" +:+ dq +:+ Summary b +:+ dq.

Definition tag_byte (c : ascii) : bool := is_lower c || is_digit c || Ascii.eqb c "_".

(** The pattern disagrees with [a] inside [a], at its start or at every start. *)
Fixpoint mismatch (a sub : string) : bool :=
  match a, sub with
  | String x a', String y sub' => negb (Ascii.eqb y x) || mismatch a' sub'
  | _, _ => false
  end.
Fixpoint mismatches (a sub : string) : bool :=
  match a with
  | EmptyString => true
  | String _ a' => mismatch a sub && mismatches a' sub
  end.

Lemma mismatch_prefix (a t sub : string) : mismatch a sub = true -> HasPrefix (a +:+ t) sub = false.
Proof.
  revert sub. induction a as [|x a IH]; intros [|y sub]; simpl; try done.
  intros [H|H]%orb_true_iff; [by apply negb_true_iff in H as ->|].
  change (String.append a t) with (a +:+ t). by rewrite IH, andb_false_r.
Qed.
Lemma Index_mismatch (a t sub : string) :
  mismatches a sub = true -> Index (a +:+ t) sub = (fun i => String.length a + i)%nat <$> Index t sub.
Proof.
  induction a as [|x a IH].
  - intros _. rewrite app_empty_l. by destruct (Index t sub).
  - cbn [mismatches]. intros [Hx Ha]%andb_true_iff. apply mismatch_prefix with (t := t) in Hx.
    rewrite app_cons in *. change (Index (String x (a +:+ t)) sub) with
      (if HasPrefix (String x (a +:+ t)) sub then Some 0%nat else S <$> Index (a +:+ t) sub).
    rewrite Hx, IH by done. by destruct (Index t sub).
Qed.

Lemma Index_skip (a t sub : string) (x : ascii) :
  no_byte x a = true -> Index (a +:+ t) (String x sub) = (fun i => String.length a + i)%nat <$> Index t (String x sub).
Proof.
  intros H. apply Index_mismatch. induction a as [|y a IH]; [done|].
  cbn [mismatches mismatch]. unfold no_byte in H. simpl in H. apply andb_true_iff in H as [Hy Ha].
  rewrite Ascii.eqb_sym, Hy. by apply IH.
Qed.

Lemma drop_word_app (a t : string) : no_byte " " a = true -> drop_word (a +:+ String " " t) = a.
Proof. intros H. unfold drop_word. by rewrite IndexByte_app, take_length_app. Qed.

Lemma drop_add (a b : string) (n : nat) : str_drop (String.length a + n) (a +:+ b) = str_drop n b.
Proof. induction a as [|x a IH]; [done|]. exact IH. Qed.


(** The pieces of the line, in the order the parser looks for them. *)
Section BootstrapLine.
Context (num tag summary : string).
Context (Hnum : no_byte "T" num = true) (Hnum' : no_byte "S" num = true) (Hsp : no_byte " " num = true).
Context (Htag : forall x, x ∈ ["S"%char; " "%char] -> no_byte x tag = true).

Let summary_part := " SUMMARY=" +:+ dq +:+ summary +:+ dq.
Let tag_part := " TAG=" +:+ tag +:+ summary_part.
Let head := "NOTICE BOOTSTRAP PROGRESS=".
Let line := head +:+ num +:+ tag_part.

Lemma progress_part : Index line "PROGRESS=" = Some 17%nat /\ drop_word (str_drop 26 line) = num.
Proof.
  split; [done|]. change (str_drop 26 line) with (num +:+ String " " (str_drop 1 tag_part)).
  by apply drop_word_app.
Qed.

Lemma tag_found : Index line "TAG=" = Some (26 + (String.length num + 1))%nat.
Proof.
  unfold line. by rewrite Index_mismatch, Index_skip.
Qed.
Lemma tag_read : drop_word (str_drop ((26 + (String.length num + 1)) + 4) line) = tag.
Proof.
  rewrite <- Nat.add_assoc. change 26%nat with (String.length head). unfold line.
  rewrite drop_add. rewrite <- Nat.add_assoc, drop_add.
  change (str_drop (1 + 4) tag_part) with (tag +:+ String " " (str_drop 1 summary_part)).
  apply drop_word_app. apply Htag. right. by left.
Qed.

Lemma summary_found :
  Index line ("SUMMARY=" +:+ dq) = Some (26 + (String.length num + (5 + (String.length tag + 1))))%nat.
Proof.
  unfold line. rewrite Index_mismatch by done.
  change ("SUMMARY=" +:+ dq) with (String "S" ("UMMARY=" +:+ dq)). rewrite Index_skip by done.
  unfold tag_part. rewrite Index_mismatch by done. rewrite Index_skip by (apply Htag; by left). done.
Qed.
Lemma summary_read :
  str_drop ((26 + (String.length num + (5 + (String.length tag + 1)))) + 9) line = summary +:+ String DQ EmptyString.
Proof.
  rewrite <- Nat.add_assoc. change 26%nat with (String.length head). unfold line.
  rewrite drop_add. rewrite <- Nat.add_assoc, drop_add.
  rewrite <- Nat.add_assoc. change 5%nat with (String.length " TAG="). unfold tag_part.
  rewrite drop_add. rewrite <- Nat.add_assoc, drop_add. done.
Qed.
End BootstrapLine.

(** [ParseBootstrapStatus] reads back every status line Tor prints. *)
Theorem bootstrap_roundtrip (U : UnicodeTables) (b : BootstrapStatus) :
  MinInt64 <= Progress b <= MaxInt64 -> str_forallb tag_byte (Tag b) = true -> no_byte DQ (Summary b) = true ->
  ParseBootstrapStatus (print_bootstrap b) = Ok b.
Proof.
  intros Hp Ht Hs.
  assert (Hx : forall x, x ∈ ["S"%char; " "%char] -> no_byte x (Tag b) = true).
  { intros x Hx. revert Ht. apply forallb_impl. rewrite !elem_of_cons, elem_of_nil in Hx.
    by destruct Hx as [->|[->|[]]]; apply ascii_impl. }
  assert (HT : no_byte "T" (itoa (Progress b)) = true) by by apply itoa_no_byte.
  assert (HS : no_byte "S" (itoa (Progress b)) = true) by by apply itoa_no_byte.
  assert (HW : no_byte " " (itoa (Progress b)) = true) by by apply itoa_no_byte.
  unfold ParseBootstrapStatus, print_bootstrap.
  destruct (progress_part _ (Tag b) (Summary b) HW) as [-> Hnum].
  cbn [String.length Nat.add]. rewrite Hnum. unfold Atoi. rewrite parse_int_itoa by done. cbn [wrap mbind result_bind].
  rewrite (tag_found _ (Tag b) (Summary b) HT), tag_read by done.
  rewrite (summary_found _ (Tag b) (Summary b) HS Hx).
  change (String.length ("SUMMARY=" +:+ dq)) with 9%nat. rewrite summary_read.
  rewrite IndexByte_app, take_length_app by done. by destruct b.
Qed.
Lemma bootstrap_roundtrip_witness :
  @ParseBootstrapStatus ascii_tables (print_bootstrap {| Progress := 50; Tag := "loading_descriptors";
    Summary := "Loading relay descriptors" |})
  = Ok {| Progress := 50; Tag := "loading_descriptors"; Summary := "Loading relay descriptors" |}.
Proof. apply (bootstrap_roundtrip ascii_tables); by vm_compute. Defined.

(** *** Circuits *)

(** A circuit-status line: further keyword arguments may precede the purpose. *)
Definition print_circuit (ci : CircuitInfo) (flags : list string) : string :=
  Join ([ID ci; Status ci; Join (Path ci) ","] ++ flags ++ ["PURPOSE=" +:+ Purpose ci]) " ".

Record circuit_wf (ci : CircuitInfo) : Prop := {
  wf_words : Forall is_word [ID ci; Status ci; Join (Path ci) ","];
  wf_path : Path ci <> [] /\ Forall (fun h => no_byte "," h = true) (Path ci);
  wf_path_start : HasPrefix (Join (Path ci) ",") "PURPOSE=" = false;
  wf_purpose : str_forallb word_byte (Purpose ci) = true
}.

Lemma find_purpose_flags (flags : list string) (p : string) :
  Forall (fun f => HasPrefix f "PURPOSE=" = false) flags ->
  find_purpose (flags ++ ["PURPOSE=" +:+ p]) = p.
Proof.
  induction 1 as [|f fs Hf _ IH]; [done|]. cbn [find_purpose app]. by rewrite Hf.
Qed.

(** A well-formed line is read back, hops in order, whatever other keyword
    arguments it carries. *)
Theorem circuit_roundtrip (ci : CircuitInfo) (flags : list string) :
  circuit_wf ci -> Forall is_word flags -> Forall (fun f => HasPrefix f "PURPOSE=" = false) flags ->
  parseCircuitLine (print_circuit ci flags) = Some ci.
Proof.
  intros [Hw [Hne Hp] Hs Hpu] Hf Hfp. unfold parseCircuitLine, print_circuit.
  rewrite app_assoc, Fields_words.
  - rewrite <- app_assoc. cbn [app]. rewrite Hs, find_purpose_flags by done.
    change "," with (str1 ",") in Hs |- *.
    change (Split (Join (Path ci) (str1 ",")) ",") with (Split (Join (Path ci) (str1 ",")) ","%char).
    rewrite Split_Join by done. by destruct ci.
  - rewrite !Forall_app. split_and!; [done|done|]. constructor; [|done]. split; [done|].
    by rewrite forallb_app_str, Hpu.
Qed.
Lemma circuit_roundtrip_witness :
  parseCircuitLine "12 BUILT $AA~a,$BB~b BUILD_FLAGS=NEED_CAPACITY PURPOSE=GENERAL"
  = Some {| ID := "12"; Status := "BUILT"; Path := ["$AA~a"; "$BB~b"]; Purpose := "GENERAL" |}.
Proof.
  apply (circuit_roundtrip {| ID := "12"; Status := "BUILT"; Path := ["$AA~a"; "$BB~b"]; Purpose := "GENERAL" |}
           ["BUILD_FLAGS=NEED_CAPACITY"]).
  - split; [repeat constructor; done|split; [done|repeat constructor]|done|done].
  - repeat constructor; done.
  - repeat constructor.
Defined.

(** [parseCircuitLine] panics exactly on the lines with fewer than three
    fields, such as a circuit with no hop and no keyword argument. *)
Theorem parseCircuitLine_panics (line : string) :
  parseCircuitLine line = None <-> (length (Fields line) < 3)%nat.
Proof.
  unfold parseCircuitLine. destruct (Fields line) as [|a [|b [|c l]]]; cbn [length]; try (split; [lia|done]).
  split; [by destruct (HasPrefix c "PURPOSE=")|intros H; exfalso; lia].
Qed.

(** *** Relays *)

Definition print_relay (fp nick : string) : string := fp +:+ "~" +:+ nick.

Lemma ParseRelayPath_print (fp nick : string) :
  no_byte "~" fp = true -> ends_ok (print_relay fp nick) = true ->
  ParseRelayPath (print_relay fp nick) = (fp, nick).
Proof.
  intros Hf He. unfold ParseRelayPath. rewrite TrimSpace_id by done. unfold print_relay.
  change (fp +:+ "~" +:+ nick) with (fp +:+ String "~" nick). rewrite IndexByte_app, take_length_app by done.
  change (String "~" nick) with ("~" +:+ nick). rewrite <- str_app_assoc.
  replace (S (String.length fp)) with (String.length (fp +:+ "~")) by (rewrite length_app_str; simpl; lia).
  by rewrite drop_length_app.
Qed.
