(* ===== verification/Session.v ===== *)
(** * Package [tor], [control.go]: the life of a control connection

    Opening and closing a connection, beside the goroutine that reads from it.
    [Close] and the end of [readLoop] run the same unguarded sequence (is
    [done] closed? if not, close it) in different goroutines, so the model takes
    them apart at every point where another goroutine can come in between.
    The channels are those of [Control]; the kernel's connection is the order
    in which lines and errors arrive. *)

From S2P Require Import Prelude GoStrings StringFacts Control.
Local Open Scope nat_scope.

(** ** State *)

(** Where [readLoop] is: at its first [select], in [ReadString], holding a
    reply, holding an error, past the check of [done], past [conn.Close()],
    returning (the deferred close is to come), returned. *)
Inductive reader_pc := Head | Reading | Sending (line : string) | Failed | Unclosed | Unplugged | Leaving | Gone.
#[export] Instance reader_pc_eq_dec : EqDecision reader_pc.
Proof. solve_decision. Defined.
(** Where a call of [Close] is: before its [select], past it, past
    [close(c.done)], returned. *)
Inductive closer_pc := Called | Passed | Closed | Returned (e : option error).

Record session := {
  done : bool; conn_closed : bool; chans : reader; sync_closed : bool;
  pc : reader_pc; closers : list closer_pc
}.

Definition set_pc (p : reader_pc) (s : session) : session :=
  {| done := done s; conn_closed := conn_closed s; chans := chans s; sync_closed := sync_closed s; pc := p; closers := closers s |}.
Definition set_chans (r : reader) (s : session) : session :=
  {| done := done s; conn_closed := conn_closed s; chans := r; sync_closed := sync_closed s; pc := pc s; closers := closers s |}.
Definition set_done (s : session) : session :=
  {| done := true; conn_closed := conn_closed s; chans := chans s; sync_closed := sync_closed s; pc := pc s; closers := closers s |}.
Definition set_conn_closed (s : session) : session :=
  {| done := done s; conn_closed := true; chans := chans s; sync_closed := sync_closed s; pc := pc s; closers := closers s |}.
Definition set_sync_closed (s : session) : session :=
  {| done := done s; conn_closed := conn_closed s; chans := chans s; sync_closed := true; pc := pc s; closers := closers s |}.
Definition set_closers (cs : list closer_pc) (s : session) : session :=
  {| done := done s; conn_closed := conn_closed s; chans := chans s; sync_closed := sync_closed s; pc := pc s; closers := cs |}.

Definition no_chans : reader := {| syncResp := []; events := [] |}.
Definition fresh : session :=
  {| done := false; conn_closed := false; chans := no_chans; sync_closed := false; pc := Head; closers := [] |}.
(** [NewControlClient], given the outcome of the dialling. *)
Definition NewControlClient (addr : string) (dial : option error) : result session :=
  match dial with
  | Some e => Err (Errorf ("tor: dial " +:+ addr +:+ ": " +:+ Error e))
  | None => Ok fresh
  end.

(** ** Moves

    [Blocked] is a move that cannot be made now, [Crash] a panic: closing a
    closed channel, or sending on one. *)
Inductive move :=
  | ReaderLine (line : string)  (* [ReadString] returns a line *)
  | ReaderErr                   (* [ReadString] returns an error of the connection: reset, end of file *)
  | ReaderClosed                (* [ReadString] fails as [conn] is closed on this side *)
  | ReaderStop                  (* the last [select] receives from [done] *)
  | ReaderStep                  (* any other step of the goroutine *)
  | CallClose                   (* some goroutine calls [Close] *)
  | CloseStep (i : nat)         (* the next step of the [i]-th call *)
  | Consume (s : reader_step).  (* a receive from one of the two channels *)
Inductive moved := Next (s : session) | Blocked | Crash.

(** [close(c.done)]. *)
Definition close_done (k : session -> session) (s : session) : moved :=
  if done s then Crash else Next (k (set_done s)).

Definition read_one (line0 : string) (s : session) : session :=
  let line := TrimRight line0 CRLF in
  if decide (line = EmptyString) then set_pc Head s
  else if isAsyncEvent line then set_pc Head (set_chans (dispatchEvent line (chans s)) s)
  else set_pc (Sending line) s.
Definition send_one (line : string) (s : session) : moved :=
  if sync_closed s then Crash
  else if length (syncResp (chans s)) <? syncResp_cap then
    Next (set_pc Head (set_chans {| syncResp := syncResp (chans s) ++ [line]; events := events (chans s) |} s))
  else Blocked.

(** [readLoop]. *)
Definition reader_move (m : move) (s : session) : moved :=
  match pc s, m with
  | Head, ReaderStep => Next (set_pc (if done s then Leaving else Reading) s)
  | Reading, ReaderLine line => Next (read_one line s)
  | Reading, ReaderErr => Next (set_pc Failed s)
  | Reading, ReaderClosed => if conn_closed s then Next (set_pc Failed s) else Blocked
  | Sending line, ReaderStep => send_one line s
  | Sending _, ReaderStop => if done s then Next (set_pc Leaving s) else Blocked
  | Failed, ReaderStep => Next (set_pc (if done s then Leaving else Unclosed) s)
  | Unclosed, ReaderStep => Next (set_pc Unplugged (set_conn_closed s))
  | Unplugged, ReaderStep => close_done (set_pc Leaving) s
  | Leaving, ReaderStep => if sync_closed s then Crash else Next (set_pc Gone (set_sync_closed s))
  | _, _ => Blocked
  end.

Section Moves.
(** What [conn.Close()] returns, given whether the connection is closed. *)
Variable conn_Close : bool -> option error.

(** [Close]. *)
Definition close_move (i : nat) (s : session) : moved :=
  let go p := set_closers (<[i := p]> (closers s)) in
  match closers s !! i with
  | Some Called => Next (go (if done s then Returned None else Passed) s)
  | Some Passed => close_done (go Closed) s
  | Some Closed => Next (go (Returned (conn_Close (conn_closed s))) (set_conn_closed s))
  | _ => Blocked
  end.
Definition consume (st : reader_step) (s : session) : moved :=
  match st with
  | StepLine _ => Blocked
  | _ => match reader_exec st (chans s) with Some r => Next (set_chans r s) | None => Blocked end
  end.
Definition exec (m : move) (s : session) : moved :=
  match m with
  | CallClose => Next (set_closers (closers s ++ [Called]) s)
  | CloseStep i => close_move i s
  | Consume st => consume st s
  | _ => reader_move m s
  end.
Fixpoint run (ms : list move) (s : session) : moved :=
  match ms with
  | [] => Next s
  | m :: ms' => match exec m s with Next s' => run ms' s' | r => r end
  end.

End Moves.

(** ** Who is past the check *)

Definition passed (c : closer_pc) : bool := match c with Passed => true | _ => false end.
Definition reader_inside (p : reader_pc) : nat := match p with Unclosed | Unplugged => 1 | _ => 0 end.
Definition closers_inside (cs : list closer_pc) : nat := length (List.filter passed cs).
(** How many goroutines found [done] open and have not closed it yet. *)
Definition inside (s : session) : nat := closers_inside (closers s) + reader_inside (pc s).

(** The moves of [readLoop], and how many it can make before it returns when
    [done] is closed. *)
Definition is_reader (m : move) : bool :=
  match m with ReaderLine _ | ReaderErr | ReaderClosed | ReaderStop | ReaderStep => true | _ => false end.
Definition left (p : reader_pc) : nat :=
  match p with Gone => 0 | Leaving => 1 | Head | Failed => 2 | Sending _ => 3 | Reading => 4 | Unclosed | Unplugged => 3 end.

(** What was read and what was received. *)
Definition line_of_move (m : move) : option string := match m with ReaderLine l => Some l | _ => None end.
Definition consumed (m : move) : option reader_step := match m with Consume st => Some st | _ => None end.
Definition line_of (st : reader_step) : option string := match st with StepLine l => Some l | _ => None end.
Definition take_of (st : reader_step) : option reader_step := match st with StepLine _ => None | _ => Some st end.

Lemma close_done_next (k : session -> session) (s s' : session) :
  close_done k s = Next s' -> done s = false /\ s' = k (set_done s).
Proof. unfold close_done. by destruct (done s); intros [= <-]. Qed.

Lemma closers_inside_insert (cs : list closer_pc) (i : nat) (c c' : closer_pc) :
  cs !! i = Some c ->
  closers_inside (<[i := c']> cs) + Nat.b2n (passed c) = closers_inside cs + Nat.b2n (passed c').
Proof.
  unfold closers_inside. revert i. induction cs as [|x cs IH]; intros [|i] H; [done|done| |].
  - injection H as ->. simpl. destruct (passed c), (passed c'); simpl; lia.
  - simpl. specialize (IH _ H). destruct (passed x); simpl; lia.
Qed.
Lemma closers_inside_app (cs1 cs2 : list closer_pc) :
  closers_inside (cs1 ++ cs2) = closers_inside cs1 + closers_inside cs2.
Proof. unfold closers_inside. by rewrite List.filter_app, length_app. Qed.
Lemma closers_inside_some (cs : list closer_pc) : 1 <= closers_inside cs -> exists i, cs !! i = Some Passed.
Proof.
  unfold closers_inside. induction cs as [|c cs IH]; simpl; [lia|]. intros H. destruct c; try by exists 0.
  all: destruct (IH H) as [i ?]; by exists (S i).
Qed.

(** The goroutine owns [syncResp]: it is closed when it returns.  Once [done]
    is closed nobody is past the check, unless two were there together. *)
Record quiet (s : session) : Prop := {
  q_sync : sync_closed s = true <-> pc s = Gone;
  q_done : done s = true -> inside s = 0
}.
Lemma quiet_fresh : quiet fresh.
Proof. by split. Qed.


Definition no_race (conn_Close : bool -> option error) (ms : list move) : Prop :=
  forall ms1 ms2 s1, ms = ms1 ++ ms2 -> run conn_Close ms1 fresh = Next s1 -> inside s1 <= 1.

Lemma set_inside (f : session -> session) (s : session) :
  closers (f s) = closers s -> pc (f s) = pc s -> inside (f s) = inside s.
Proof. intros H1 H2. unfold inside. by rewrite H1, H2. Qed.

Section Facts.
Variable conn_Close : bool -> option error.
#[local] Abbreviation exec := (exec conn_Close).
#[local] Abbreviation run := (run conn_Close).

(** Follow the one branch of a move that is possible. *)
Ltac step_inv H :=
  repeat match type of H with
  | Blocked = _ => discriminate H
  | Crash = _ => discriminate H
  | Next _ = Crash => discriminate H
  | Next _ = Next _ => injection H as <-
  | close_done _ _ = Next _ => apply close_done_next in H as [? ->]
  | match ?x with _ => _ end = _ => destruct x eqn:?
  | (let _ := _ in _) = _ => cbv zeta in H
  end.
Ltac moves m H :=
  destruct m; cbn [Session.exec] in H; unfold reader_move, send_one, close_move, consume in H; step_inv H.


Lemma quiet_exec (m : move) (s s' : session) : quiet s -> inside s <= 1 -> exec m s = Next s' -> quiet s'.
Proof.
  intros [Hs Hd] Hi H. destruct s as [d cc ch sc p cs]. unfold inside in *. cbn -[closers_inside] in Hs, Hd, Hi.
  moves m H; cbn -[closers_inside] in *; subst;
    repeat match goal with
    | E : cs !! ?i = Some _ |- context [<[?i := ?c]> cs] => pose proof (closers_inside_insert cs i _ c E); clear E
    end;
    unfold read_one; repeat case_match; split; unfold inside; cbn -[closers_inside] in *;
    rewrite ?closers_inside_app; cbn in *; first [intuition congruence | intros ?%Hd; lia | lia].
Qed.
(** A panic needs two goroutines past the check. *)
Lemma quiet_no_crash (m : move) (s : session) : quiet s -> inside s <= 1 -> exec m s <> Crash.
Proof.
  intros [Hs Hd] Hi H. destruct s as [d cc ch sc p cs]. unfold inside in *. cbn -[closers_inside] in Hs, Hd, Hi.
  moves m H; unfold close_done in *; cbn -[closers_inside] in *; step_inv H; subst; try discriminate (proj1 Hs eq_refl).
  - specialize (Hd eq_refl). simpl in Hd. lia.
  - pose proof (closers_inside_insert _ _ _ Closed Heqo) as E. simpl in E. specialize (Hd eq_refl). lia.
Qed.

Lemma session_run_app (ms1 ms2 : list move) (s : session) :
  run (ms1 ++ ms2) s = match run ms1 s with Next s' => run ms2 s' | r => r end.
Proof. revert s. induction ms1 as [|m ms1 IH]; intros s; [done|]. cbn [app Session.run]. by destruct (exec m s). Qed.

(** A panic is preceded by a state with two goroutines past the check. *)
Lemma session_crash_from_race (ms : list move) (s : session) : quiet s -> run ms s = Crash ->
  exists ms1 ms2 s1, ms = ms1 ++ ms2 /\ run ms1 s = Next s1 /\ 2 <= inside s1.
Proof.
  revert s. induction ms as [|m ms IH]; intros s Hq H; [done|].
  destruct (decide (2 <= inside s)) as [|Hi]; [by exists [], (m :: ms), s|]. cbn [Session.run] in H.
  destruct (exec m s) as [s1| |] eqn:E; [|done|].
  - destruct (IH s1) as (ms1 & ms2 & s2 & -> & H1 & H2); [|done|].
    { eapply quiet_exec; [exact Hq|lia|exact E]. }
    exists (m :: ms1), ms2, s2. cbn [Session.run]. by rewrite E.
  - exfalso. eapply quiet_no_crash; [exact Hq|lia|exact E].
Qed.

(** With [done] closed, anyone past the check can panic. *)
Lemma crash_when_done (s : session) : done s = true -> 1 <= inside s -> exists ms, run ms s = Crash.
Proof.
  intros Hd Hi. destruct (decide (1 <= closers_inside (closers s))) as [[i E]%closers_inside_some|Hc].
  - exists [CloseStep i]. cbn. unfold close_move, close_done. by rewrite E, Hd.
  - unfold inside in Hi. destruct (pc s) eqn:E; simpl in Hi; try lia.
    + exists [ReaderStep; ReaderStep]. cbn. unfold reader_move at 1. rewrite E. cbn. unfold close_done. cbn. by rewrite Hd.
    + exists [ReaderStep]. cbn. unfold reader_move, close_done. by rewrite E, Hd.
Qed.
Lemma race_crashes (s : session) : 2 <= inside s -> exists ms, run ms s = Crash.
Proof.
  intros Hi. destruct (done s) eqn:Hd; [apply crash_when_done; [done|lia]|].
  destruct (closers_inside_some (closers s)) as [i E].
  { unfold inside in Hi. destruct (pc s); simpl in Hi; lia. }
  set (s1 := set_closers (<[i := Closed]> (closers s)) (set_done s)).
  assert (exec (CloseStep i) s = Next s1) as E1 by (cbn; unfold close_move, close_done; by rewrite E, Hd).
  destruct (crash_when_done s1) as [ms H]; [done| |].
  - pose proof (closers_inside_insert _ _ _ Closed E) as E2. unfold inside in *. simpl in *. lia.
  - exists (CloseStep i :: ms). cbn [Session.run]. by rewrite E1.
Qed.

(** Once [done] is closed every move of the goroutine brings it closer to its
    return. *)
Lemma closing_exec (m : move) (s s' : session) : done s = true -> inside s = 0 -> exec m s = Next s' ->
  done s' = true /\ inside s' = 0 /\ left (pc s') + Nat.b2n (is_reader m) <= left (pc s).
Proof.
  intros Hd Hi H. destruct s as [d cc ch sc p cs]. unfold inside in *. cbn -[closers_inside] in Hd, Hi. subst d.
  moves m H; cbn -[closers_inside] in *; subst; try done;
    repeat match goal with
    | E : cs !! ?i = Some _ |- context [<[?i := ?c]> cs] => pose proof (closers_inside_insert cs i _ c E); clear E
    end;
    unfold read_one; repeat case_match; cbn -[closers_inside] in *; rewrite ?closers_inside_app; cbn in *; try done; split_and!; done || lia.
Qed.
Lemma closing_run (ms : list move) (s s' : session) : done s = true -> inside s = 0 -> run ms s = Next s' ->
  done s' = true /\ inside s' = 0 /\ left (pc s') + length (List.filter is_reader ms) <= left (pc s).
Proof.
  revert s. induction ms as [|m ms IH]; intros s Hd Hi; cbn [Session.run List.filter].
  { intros [= <-]. simpl. split_and!; [done|done|lia]. }
  destruct (exec m s) as [s1| |] eqn:E; [|done|done]. apply closing_exec in E as (H1 & H2 & H3); [|done|done].
  intros (H4 & H5 & H6)%IH; [|done|done]. split_and!; [done|done|]. destruct (is_reader m); simpl in *; lia.
Qed.
(** Who closes [done] closes the connection: before, as the reader does, or
    after, as [Close] does in its next step. *)
Record plugged (s : session) : Prop := {
  p_reader : pc s = Unplugged -> conn_closed s = true;
  p_done : done s = true -> conn_closed s = true \/ exists i, closers s !! i = Some Closed
}.
Lemma plugged_fresh : plugged fresh.
Proof. by split. Qed.
Lemma plugged_exec (m : move) (s s' : session) : plugged s -> exec m s = Next s' -> plugged s'.
Proof.
  intros [Hu Hd] H. destruct s as [d cc ch sc p cs]. cbn in Hu, Hd.
  moves m H; cbn in *; subst; unfold read_one; repeat case_match; split; cbn; try done; try (by auto); intros Hdone;
    try (specialize (Hd Hdone)); try (destruct Hd as [|[j Hj]]; [by left|right]); try (by left; apply Hu).
  - exists j. by apply lookup_app_l_Some.
  - exists j. destruct (decide (j = i)) as [->|]; [congruence|by rewrite list_lookup_insert_ne].
  - right. exists i. apply list_lookup_insert_eq. by eapply lookup_lt_Some.
Qed.
Lemma plugged_run (ms : list move) (s s' : session) : plugged s -> run ms s = Next s' -> plugged s'.
Proof.
  revert s. induction ms as [|m ms IH]; intros s Hp H; [by injection H as <-|]. cbn [Session.run] in H.
  destruct (exec m s) as [s1| |] eqn:E; [|done|done]. eapply IH; [by eapply plugged_exec|done].
Qed.

(** The moves that need nothing from outside: no line, no error of the
    connection, no call. *)
Definition own_moves : list move := [ReaderClosed; ReaderStop; ReaderStep].
Lemma closing_moves (s : session) : quiet s -> plugged s -> done s = true -> inside s = 0 -> pc s <> Gone ->
  (exists m s', m ∈ own_moves /\ exec m s = Next s') \/
  conn_closed s = false /\ exists i, closers s !! i = Some Closed.
Proof.
  intros [Hs _] [_ Hc] Hd Hi Hp. unfold inside in Hi.
  assert (pc s = Leaving -> sync_closed s = false) as Hl.
  { intros El. destruct (sync_closed s); [|done]. rewrite El in Hs. discriminate (proj1 Hs eq_refl). }
  assert (forall m s', m ∈ own_moves -> reader_move m s = Next s' -> exists m s', m ∈ own_moves /\ exec m s = Next s') as Hr.
  { intros m s' Hm H. exists m, s'. split; [done|]. unfold own_moves in Hm. destruct m; set_solver. }
  unfold reader_move in Hr. destruct (pc s) eqn:E; cbn [reader_inside] in Hi; try lia; try done.
  - left. eapply (Hr ReaderStep); [set_solver|done].
  - destruct (conn_closed s) eqn:Ec; [|right; destruct (Hc Hd); [done|by split]]. left. eapply (Hr ReaderClosed); [set_solver|done].
  - left. eapply (Hr ReaderStop); [set_solver|by rewrite Hd].
  - left. eapply (Hr ReaderStep); [set_solver|done].
  - left. eapply (Hr ReaderStep); [set_solver|by rewrite Hl].
Qed.

Lemma quiet_run (ms : list move) (s s' : session) : quiet s -> run ms s = Next s' ->
  (exists ms1 ms2 s1, ms = ms1 ++ ms2 /\ run ms1 s = Next s1 /\ 2 <= inside s1) \/ quiet s'.
Proof.
  revert s. induction ms as [|m ms IH]; intros s Hq H; [injection H as <-; by right|].
  destruct (decide (2 <= inside s)) as [|Hi]; [left; by exists [], (m :: ms), s|]. cbn [Session.run] in H.
  destruct (exec m s) as [s1| |] eqn:E; [|done|done].
  destruct (IH s1) as [(ms1 & ms2 & s2 & -> & H1 & H2)|]; [|done| |by right].
  { eapply quiet_exec; [exact Hq|lia|exact E]. }
  left. exists (m :: ms1), ms2, s2. cbn [Session.run]. by rewrite E.
Qed.

(** ** The session refines the reader of [Control]

    [h] is the history of the reader without its program counter, [pend] the
    reply line read last when it is still to be sent, or lost to the closing. *)
Definition pending (pend : list string) (p : reader_pc) : Prop :=
  match p with
  | Sending l => exists l0, pend = [l0] /\ l = TrimRight l0 CRLF /\ l <> EmptyString /\ isAsyncEvent l = false
  | Leaving | Gone => length pend <= 1
  | _ => pend = []
  end.
Definition simulates (ls : list string) (cs : list reader_step) (s : session) : Prop :=
  exists h pend, reader_run h no_chans = Some (chans s) /\ omap take_of h = cs /\ ls = omap line_of h ++ pend /\ pending pend (pc s).

Lemma reader_run_snoc (h : list reader_step) (st : reader_step) (r0 r r' : reader) :
  reader_run h r0 = Some r -> reader_exec st r = Some r' -> reader_run (h ++ [st]) r0 = Some r'.
Proof.
  revert r0. induction h as [|st0 h IH]; intros r0; cbn [app reader_run].
  - intros [= ->] ->. done.
  - destruct (reader_exec st0 r0); [apply IH|done].
Qed.


(** The history grows by one step, which handles the pending line if it is a line. *)
Lemma simulates_snoc (st : reader_step) (h : list reader_step) (ls pend : list string) (s s' : session) :
  reader_run h no_chans = Some (chans s) -> reader_exec st (chans s) = Some (chans s') ->
  ls = omap line_of h ++ option_list (line_of st) ++ pend -> pending pend (pc s') ->
  simulates ls (omap take_of h ++ option_list (take_of st)) s'.
Proof.
  intros Hr He -> Hp. exists (h ++ [st]), pend. split; [by eapply reader_run_snoc|]. rewrite !omap_app, <- app_assoc. cbn.
  split; [by destruct (take_of st)|]. split; [by destruct (line_of st)|done].
Qed.

Lemma simulates_line (l : string) (ls : list string) (cs : list reader_step) (s s' : session) :
  simulates ls cs s -> reader_move (ReaderLine l) s = Next s' -> simulates (ls ++ [l]) cs s'.
Proof.
  intros (h & pend & Hr & <- & -> & Hp) H. unfold reader_move in H. destruct (pc s) eqn:E; try done. injection H as <-.
  cbn in Hp. subst pend. rewrite app_nil_r. unfold read_one.
  assert (forall r, read_line l (chans s) = Some r -> simulates (omap line_of h ++ [l]) (omap take_of h) (set_pc Head (set_chans r s))) as Hs.
  { intros r Hl. rewrite <- (app_nil_r (omap take_of h)). by eapply (simulates_snoc (StepLine l)). }
  unfold read_line in Hs. destruct (decide _); [by apply (Hs (chans s))|]. destruct (isAsyncEvent _) eqn:Ea; [by eapply Hs|].
  exists h, [l]. split_and!; [done|done|done|]. by exists l.
Qed.
Lemma simulates_send (l : string) (ls : list string) (cs : list reader_step) (s s' : session) :
  simulates ls cs s -> pc s = Sending l -> send_one l s = Next s' -> simulates ls cs s'.
Proof.
  intros (h & pend & Hr & <- & -> & Hp) E H. rewrite E in Hp. destruct Hp as (l0 & -> & -> & Hn & Ha).
  unfold send_one in H. destruct (sync_closed s); [done|]. destruct (_ <? _) eqn:El; [|done]. injection H as <-.
  rewrite <- (app_nil_r (omap take_of h)). eapply (simulates_snoc (StepLine l0)); [done| |done|done].
  cbn. unfold read_line. by rewrite decide_False, Ha, El.
Qed.
(** The moves of which the channels see nothing. *)
Lemma simulates_pc (ls : list string) (cs : list reader_step) (s s' : session) :
  simulates ls cs s -> chans s' = chans s -> (forall pend, pending pend (pc s) -> pending pend (pc s')) -> simulates ls cs s'.
Proof. intros (h & pend & Hr & Hc & Hl & Hp) E H. exists h, pend. rewrite E. eauto. Qed.

Lemma simulates_exec (m : move) (ls : list string) (cs : list reader_step) (s s' : session) :
  simulates ls cs s -> exec m s = Next s' ->
  simulates (ls ++ option_list (line_of_move m)) (cs ++ option_list (consumed m)) s'.
Proof.
  intros Hsim H.
  destruct m as [l| | | | | |i|st]; cbn [line_of_move consumed option_list Session.exec] in *; rewrite ?app_nil_r.
  - by eapply simulates_line.
  - unfold reader_move in H. step_inv H. eapply simulates_pc; [done|done|]. rewrite Heqr. by intros pend ->.
  - unfold reader_move in H. step_inv H. eapply simulates_pc; [done|done|]. rewrite Heqr. by intros pend ->.
  - unfold reader_move in H. step_inv H. eapply simulates_pc; [done|done|]. rewrite Heqr. intros pend (l & -> & _); simpl; lia.
  - unfold reader_move in H. step_inv H; try by (eapply simulates_send; eauto).
    all: eapply simulates_pc; [done|done|]; rewrite Heqr; cbn; repeat case_match; by (intros pend ->; simpl; lia) || by intros pend ->.
  - injection H as <-. by eapply simulates_pc.
  - unfold close_move in H. step_inv H; by eapply simulates_pc.
  - destruct Hsim as (h & pend & Hr & <- & -> & Hp). unfold consume in H. step_inv H.
    all: match goal with E : reader_exec ?x _ = _ |- _ => by apply (simulates_snoc x h _ pend s) end.
Qed.

Lemma simulates_run (ms : list move) (ls : list string) (cs : list reader_step) (s s' : session) :
  simulates ls cs s -> run ms s = Next s' -> simulates (ls ++ omap line_of_move ms) (cs ++ omap consumed ms) s'.
Proof.
  revert ls cs s. induction ms as [|m ms IH]; intros ls cs s Hs; cbn [Session.run].
  { intros [= <-]. by rewrite !app_nil_r. }
  destruct (exec m s) as [s1| |] eqn:E; [|done|done]. apply (simulates_exec _ _ _ _ _ Hs) in E.
  intros H. apply (IH _ _ _ E) in H. by rewrite !omap_cons_list, !app_assoc.
Qed.
End Facts.

(** ** Theorems *)

(** Closing may panic, and exactly in one way: two goroutines (two calls of
    [Close], or one and the reader after an error) both see [done] open
    before either closes it.  A schedule that panics passes through such a
    state, and from such a state some schedule panics. *)
Theorem close_panics_by_race (conn_Close : bool -> option error) (ms : list move) :
  (run conn_Close ms fresh = Crash ->
   exists ms1 ms2 s, ms = ms1 ++ ms2 /\ run conn_Close ms1 fresh = Next s /\ 2 <= inside s) /\
  forall s, run conn_Close ms fresh = Next s -> 2 <= inside s -> exists ms', run conn_Close (ms ++ ms') fresh = Crash.
Proof.
  split; [apply session_crash_from_race, quiet_fresh|]. intros s H Hi. destruct (race_crashes conn_Close s Hi) as [ms' Hc].
  exists ms'. by rewrite session_run_app, H.
Qed.
Lemma close_panics_by_race_witness :
  let ms := [ReaderStep; ReaderErr; CallClose; ReaderStep; CloseStep 0] in
  exists ms', run (fun _ => None) (ms ++ ms') fresh = Crash.
Proof.
  intros ms. refine (proj2 (close_panics_by_race (fun _ => None) ms) _ eq_refl _). vm_compute. auto.
Defined.

(** C14. Unless goroutines raced for it, closing ends the reader: nothing panics any
    more, the reader makes at most four moves, whatever lines, errors and free
    places it meets, and until it has returned it can move without a line or an
    error from the other end, since its read fails on the closed connection; or
    the connection is not closed yet, and then a call of [Close] is about to
    close it.  The reader leaves [syncResp] closed behind it. *)
Theorem closing_ends_reader (conn_Close : bool -> option error) (ms ms' : list move) (s : session) :
  no_race conn_Close ms -> run conn_Close ms fresh = Next s -> done s = true ->
  run conn_Close ms' s <> Crash /\
  forall s', run conn_Close ms' s = Next s' ->
    length (List.filter is_reader ms') <= 4 /\
    (pc s' = Gone /\ sync_closed s' = true \/
     (exists m s'', m ∈ [ReaderClosed; ReaderStop; ReaderStep] /\ exec conn_Close m s' = Next s'') \/
     conn_closed s' = false /\ exists i s'', exec conn_Close (CloseStep i) s' = Next s'' /\ conn_closed s'' = true).
Proof.
  intros Hn H Hd. destruct (quiet_run conn_Close ms fresh s quiet_fresh H) as [(ms1 & ms2 & s1 & -> & H1 & H2)|Hq].
  { specialize (Hn ms1 ms2 s1 eq_refl H1). lia. }
  pose proof (q_done s Hq Hd) as Hi. pose proof (plugged_run conn_Close ms fresh s plugged_fresh H) as Hp. split.
  - intros Hc. destruct (session_crash_from_race conn_Close ms' s Hq Hc) as (ms1 & ms2 & s1 & _ & H1 & H2).
    apply closing_run in H1 as (_ & H3 & _); [lia|done|done].
  - intros s' H'. pose proof (plugged_run conn_Close ms' s s' Hp H') as Hp'.
    destruct (quiet_run conn_Close ms' s s' Hq H') as [(ms1 & ms2 & s1 & _ & H1 & H2)|Hq'].
    { apply closing_run in H1 as (_ & H3 & _); [lia|done|done]. }
    apply closing_run in H' as (Hd' & Hi' & Hl); [|done|done]. split; [destruct (pc s); simpl in Hl; lia|].
    destruct (decide (pc s' = Gone)) as [Hg|Hg]; [left; split; [done|by apply (q_sync s' Hq')]|right].
    destruct (closing_moves conn_Close s' Hq' Hp' Hd' Hi' Hg) as [Hm|[Hc [i E]]]; [by left|right].
    split; [done|]. exists i. eexists. cbn. unfold close_move. rewrite E. by split.
Qed.
Lemma closing_ends_reader_witness :
  let ms := [ReaderStep; CallClose; CloseStep 0; CloseStep 0; CloseStep 0] in
  let ms' := [ReaderClosed; ReaderStep; ReaderStep] in
  exists s s', run (fun _ => None) ms fresh = Next s /\ run (fun _ => None) ms' s = Next s' /\ pc s' = Gone /\
    length (List.filter is_reader ms') <= 4.
Proof.
  intros ms ms'. eexists _, _. split; [reflexivity|]. split; [vm_compute; reflexivity|]. split; [reflexivity|].
  refine (proj1 (proj2 (closing_ends_reader (fun _ => None) ms ms' _ _ eq_refl eq_refl) _ eq_refl)).
  intros ms1 ms2 s1 E H. subst ms.
  do 6 (destruct ms1 as [|? ms1]; [injection H as <-; vm_compute; lia|try (injection E as <- E)]); try discriminate.
Defined.

(** Whatever the moves of the readers and closers, the channels of the session
    are those of the reader of [Control] after some history in which the
    consumers did the same and the lines were the lines read, all but at most
    the last: the reader may hold a reply, and loses it if [done] is closed
    while it waits for a place. *)
Theorem session_refines_reader (conn_Close : bool -> option error) (ms : list move) (s : session) :
  run conn_Close ms fresh = Next s ->
  exists h pend, reader_run h no_chans = Some (chans s) /\ omap take_of h = omap consumed ms /\
    omap line_of_move ms = omap line_of h ++ pend /\ length pend <= 1 /\
    (pend <> [] -> (exists l, pc s = Sending l) \/ pc s = Leaving \/ pc s = Gone).
Proof.
  intros H. apply (simulates_run _ _ [] []) in H as (h & pend & Hr & Hc & Hl & Hp); [|by exists [], []].
  exists h, pend. split_and!; [done|done|done|..]; unfold pending in Hp.
  - destruct (pc s); subst; simpl; try lia. destruct Hp as (l0 & -> & _). simpl. lia.
  - destruct (pc s); subst; try done; eauto.
Qed.
Lemma session_refines_reader_witness :
  let ms := [ReaderStep; ReaderLine ("250 OK" +:+ CRLF); CallClose; CloseStep 0; CloseStep 0; ReaderStop] in
  exists h pend, reader_run h no_chans = Some no_chans /\ omap take_of h = omap consumed ms /\
    omap line_of_move ms = omap line_of h ++ pend.
Proof.
  intros ms. destruct (session_refines_reader (fun _ => None) ms _ eq_refl) as (h & pend & H1 & H2 & H3 & _).
  by exists h, pend.
Defined.

(** ** Replies that come late *)

(** Commands one after the other on one connection. *)
Fixpoint send_all `{conn : Conn} (cmds : list string) (c : client) : list (result (list string)) * client :=
  match cmds with
  | [] => ([], c)
  | cmd :: cmds' => let '(r, c1) := sendCommand cmd c in let '(rs, c2) := send_all cmds' c1 in (r :: rs, c2)
  end.
(** A complete reply that reports no error. *)
Definition reply_ok (reply : list string) : Prop :=
  exists mid fin, reply = mid ++ [fin] /\ Forall (fun l => final_line l = false) mid /\ final_line fin = true /\ error_line fin = false.

Lemma sendCommand_reply `{conn : Conn} (cmd w : string) (reply : list string) (rest : list arrival) :
  (forall w chunk, conn_write w chunk = Sent) -> reply_ok reply ->
  sendCommand cmd {| written := w; arrivals := map GotLine reply ++ rest |} =
  (Ok reply, {| written := w +:+ cmd +:+ CRLF; arrivals := rest |}).
Proof.
  intros Hw (mid & fin & -> & Hm & Hf & He). unfold sendCommand. rewrite Hw. unfold collectResponse. cbn [arrivals written].
  by rewrite collect_spec, He.
Qed.

Lemma send_all_replies `{conn : Conn} (cmds : list string) (w : string) (replies : list (list string)) (rest : list arrival) :
  (forall w chunk, conn_write w chunk = Sent) -> Forall reply_ok replies -> length cmds = length replies ->
  exists w', send_all cmds {| written := w; arrivals := map GotLine (concat replies) ++ rest |} =
    (map Ok replies, {| written := w'; arrivals := rest |}).
Proof.
  intros Hw Hr. revert w cmds. induction Hr as [|r rs Hr _ IH]; intros w [|cmd cmds] Hl; try done; [by exists w|].
  cbn [concat map send_all]. rewrite map_app, <- app_assoc, sendCommand_reply by done.
  destruct (IH (w +:+ cmd +:+ CRLF) cmds) as [w' ->]; [by injection Hl|]. by exists w'.
Qed.

(** C15. After a timeout the connection is out of step for good: nothing discards the
    reply that comes late, so that every later command is given the reply to the
    command before it, and its own is left for the next. *)
Theorem late_replies_shift (conn : Conn) (cmd0 : string) (cmds : list string) (t w : string)
    (replies : list (list string)) (rest : list arrival) :
  (forall w chunk, conn_write w chunk = Sent) -> Forall reply_ok replies -> length cmds = length replies ->
  let '(rs, c) := send_all (cmd0 :: cmds) {| written := w; arrivals := TimerFired t :: map GotLine (concat replies) ++ rest |} in
  rs = Err (Errorf ("tor: command timeout after " +:+ t)) :: map Ok replies /\ arrivals c = rest.
Proof.
  intros Hw Hr Hl. cbn [send_all]. unfold sendCommand at 1. rewrite Hw. unfold collectResponse. cbn [arrivals written collect].
  destruct (send_all_replies cmds (w +:+ cmd0 +:+ CRLF) replies rest Hw Hr Hl) as [w' ->]. done.
Qed.
Lemma late_replies_shift_witness :
  let replies := [["250-version=0.4"; "250 OK"]; ["250 closing"]] in
  let c := {| written := ""; arrivals := TimerFired "30s" :: map GotLine (concat replies) ++ [] |} in
  (@send_all sent_always ["GETINFO version"; "SIGNAL NEWNYM"; "GETINFO address"] c).1
  = [Err (Errorf "tor: command timeout after 30s"); Ok ["250-version=0.4"; "250 OK"]; Ok ["250 closing"]].
Proof.
  intros replies c. subst c.
  pose proof (late_replies_shift sent_always "GETINFO version" ["SIGNAL NEWNYM"; "GETINFO address"] "30s" "" replies []) as H.
  destruct (send_all _ _) as [rs c]. refine (proj1 (H _ _ _)); [reflexivity| |reflexivity].
  constructor; [exists ["250-version=0.4"], "250 OK"|constructor; [exists [], "250 closing"|done]].
  all: split_and!; [reflexivity|by repeat constructor|reflexivity|reflexivity].
Defined.
