(* ===== verification/Sha256.v ===== *)
(** * Packages [crypto/sha256] and [crypto/hmac]

    HMAC-SHA256 on byte lists (FIPS 180-4 and RFC 2104), executable, so that
    the integrity tag of a saved network configuration can be evaluated. *)

From S2P Require Import Prelude GoStrings StringFacts.
Local Open Scope Z_scope.

Definition w32 (x : Z) : Z := x mod 4294967296.
Definition rotr (n x : Z) : Z := Z.lor (Z.shiftr x n) (w32 (Z.shiftl x (32 - n))).
Definition lnot32 (x : Z) : Z := Z.lxor x 4294967295.

Definition sha_k : list Z := [
  1116352408; 1899447441; 3049323471; 3921009573; 961987163; 1508970993;
  2453635748; 2870763221; 3624381080; 310598401; 607225278; 1426881987;
  1925078388; 2162078206; 2614888103; 3248222580; 3835390401; 4022224774;
  264347078; 604807628; 770255983; 1249150122; 1555081692; 1996064986;
  2554220882; 2821834349; 2952996808; 3210313671; 3336571891; 3584528711;
  113926993; 338241895; 666307205; 773529912; 1294757372; 1396182291;
  1695183700; 1986661051; 2177026350; 2456956037; 2730485921; 2820302411;
  3259730800; 3345764771; 3516065817; 3600352804; 4094571909; 275423344;
  430227734; 506948616; 659060556; 883997877; 958139571; 1322822218;
  1537002063; 1747873779; 1955562222; 2024104815; 2227730452; 2361852424;
  2428436474; 2756734187; 3204031479; 3329325298].
Definition sha_h0 : list Z := [
  1779033703; 3144134277; 1013904242; 2773480762; 1359893119; 2600822924;
  528734635; 1541459225].

(** Big-endian bytes of a number, [n] of them. *)
Fixpoint be_bytes (n : nat) (x : Z) : list Z :=
  match n with
  | O => []
  | S k => Z.shiftr x (8 * Z.of_nat k) mod 256 :: be_bytes k x
  end.

Definition pad (msg : list Z) : list Z :=
  let l := length msg in
  let zeros := ((119 - l mod 64) mod 64)%nat in
  msg ++ [128] ++ repeat 0 zeros ++ be_bytes 8 (8 * Z.of_nat l).

Fixpoint words (bs : list Z) : list Z :=
  match bs with
  | a :: b :: c :: d :: rest => (a * 16777216 + b * 65536 + c * 256 + d) :: words rest
  | _ => []
  end.

(** The message schedule: the last sixteen words, newest first, are enough to
    compute the next. *)
Fixpoint schedule (fuel : nat) (win : list Z) : list Z :=
  match fuel with
  | O => []
  | S f =>
      let at_ i := nth i win 0 in
      let s0 := let x := at_ 1%nat in Z.lxor (rotr 7 x) (Z.lxor (rotr 18 x) (Z.shiftr x 3)) in
      let s1 := let x := at_ 14%nat in Z.lxor (rotr 17 x) (Z.lxor (rotr 19 x) (Z.shiftr x 10)) in
      let w := w32 (s1 + at_ 9%nat + s0 + at_ 0%nat) in
      at_ 0%nat :: schedule f (List.tl win ++ [w])
  end.

Record regs := { ra : Z; rb : Z; rc : Z; rd : Z; re : Z; rf : Z; rg : Z; rh : Z }.

Definition round (r : regs) (kw : Z * Z) : regs :=
  let S1 := Z.lxor (rotr 6 (re r)) (Z.lxor (rotr 11 (re r)) (rotr 25 (re r))) in
  let ch := Z.lxor (Z.land (re r) (rf r)) (Z.land (lnot32 (re r)) (rg r)) in
  let t1 := rh r + S1 + ch + kw.1 + kw.2 in
  let S0 := Z.lxor (rotr 2 (ra r)) (Z.lxor (rotr 13 (ra r)) (rotr 22 (ra r))) in
  let maj := Z.lxor (Z.land (ra r) (rb r)) (Z.lxor (Z.land (ra r) (rc r)) (Z.land (rb r) (rc r))) in
  {| ra := w32 (t1 + S0 + maj); rb := ra r; rc := rb r; rd := rc r;
     re := w32 (rd r + t1); rf := re r; rg := rf r; rh := rg r |}.

Definition compress (h : list Z) (block : list Z) : list Z :=
  match h with
  | [a; b; c; d; e; f; g; i] =>
      let r := foldl round {| ra := a; rb := b; rc := c; rd := d; re := e; rf := f; rg := g; rh := i |}
                 (zip sha_k (schedule 64 block)) in
      [w32 (a + ra r); w32 (b + rb r); w32 (c + rc r); w32 (d + rd r);
       w32 (e + re r); w32 (f + rf r); w32 (g + rg r); w32 (i + rh r)]
  | _ => h
  end.

Fixpoint blocks (fuel : nat) (h ws : list Z) : list Z :=
  match fuel, ws with
  | S f, _ :: _ => blocks f (compress h (take 16 ws)) (drop 16 ws)
  | _, _ => h
  end.

(** One step of fuel per word is more than one per block. *)
Definition sha256 (msg : list Z) : list Z :=
  let ws := words (pad msg) in mjoin (map (be_bytes 4) (blocks (length ws) sha_h0 ws)).

Definition hmac_sha256 (key msg : list Z) : list Z :=
  let k0 := if (64 <? length key)%nat then sha256 key else key in
  let k := k0 ++ repeat 0 (64 - length k0) in
  sha256 (map (Z.lxor 92) k ++ sha256 (map (Z.lxor 54) k ++ msg)).

(** A test vector of each standard. *)
Example sha256_abc : hex_encode (sha256 [97; 98; 99]) =
  "ba7816bf8f01cfea414140de5dae2223b00361a396177a9cb410ff61f20015ad".
Proof. vm_compute. reflexivity. Qed.
Example hmac_jefe :
  hex_encode (hmac_sha256 (map byte (String.list_ascii_of_string "Jefe"))
    (map byte (String.list_ascii_of_string "what do ya want for nothing?"))) =
  "5bdcc146bf60754e6a042426089575c75a003f089d2739839dec58b964ec3843".
Proof. vm_compute. reflexivity. Qed.
