(* ===== verification/Network.v ===== *)
(** * Package [network]: host routing, saved configurations, verification

    [network.go], the Linux, macOS and Windows managers, and the route and
    DNS verifier.  What a method does to the host is the trace of its
    commands and file operations; the host answers each one, given what was
    done before. *)

From S2P Require Import Prelude GoStrings StringFacts NetIP Sha256 Config.
Local Open Scope Z_scope.

(** ** Effects *)

Inductive effect :=
  | Run (name : string) (args : list string)
  | Output (name : string) (args : list string)
  | MkdirAll (path : string)
  | WriteFile (path data : string)
  | Remove (path : string)
  | Stat (path : string)
  | StartProcess (path : string) (args : list string).

(** The host: output and error text of an effect. *)
Class Host := host : list effect -> effect -> string * option string.

Definition net (A : Type) : Type := list effect -> result A * list effect.
#[export] Instance net_ret : MRet net := fun A a tr => (Ok a, tr).
#[export] Instance net_bind : MBind net := fun A B f m tr =>
  match m tr with
  | (Ok a, tr') => f a tr'
  | (Err e, tr') => (Err e, tr')
  end.
Definition net_lift {A} (m : result A) : net A := fun tr => (m, tr).
(** [if err := m; err != nil { return fmt.Errorf(...) }]. *)
Definition net_wrap {A} (prefix : string) (m : net A) : net A := fun tr =>
  let '(r, tr') := m tr in (wrap prefix r, tr').
(** [_ = m]. *)
Definition ignore (m : net unit) : net unit := fun tr => (Ok tt, (m tr).2).

Definition IP : Type := list Z.

Record SavedConfig := { Data : string; Platform : string; HMAC : string }.

(** The interface the lifecycle engine uses. *)
Record Manager := {
  CreateTAP : string -> IP -> IP -> list Z -> net unit;
  DestroyTAP : string -> net unit;
  SaveConfig : net SavedConfig;
  RestoreConfig : option SavedConfig -> net unit;
  SetupRouting : string -> IP -> net unit;
  TeardownRouting : net unit;
  FlushDNS : net unit
}.

(** ** Integrity of saved configurations *)

(** [rand.Read] fills the 32 bytes or fails; a nil key is [None]. *)
Definition newSessionKey (rand : result (list Z)) : option (list Z) :=
  match rand with Ok key => Some key | Err _ => None end.

Definition computeHMAC (key : option (list Z)) (data : string) : string :=
  match key with
  | None => EmptyString
  | Some k => hex_encode (hmac_sha256 k (map byte (String.list_ascii_of_string data)))
  end.

Definition verifyHMAC (key : option (list Z)) (data expected : string) : result unit :=
  match key with
  | None => Ok tt
  | Some _ =>
      fail_if (bool_decide (expected = EmptyString)) "saved config has no HMAC; integrity cannot be verified" ;;
      fail_if (negb (bool_decide (computeHMAC key data = expected)))
        "saved config HMAC mismatch; data may have been tampered with"
  end.

Section Managers.
Context `{H : Host} `{U : UnicodeTables}.
Context (sessionKey : option (list Z)).

Definition perform (e : effect) : net (string * option string) := fun tr => (Ok (host tr e), tr ++ [e]).

Definition run (name : string) (args : list string) : net unit :=
  r ← perform (Run name args);
  match r.2 with
  | Some err => net_lift (Err (Errorf (name +:+ " [" +:+ Join args " " +:+ "]: " +:+ r.1 +:+ ": " +:+ err)))
  | None => mret tt
  end.
(** [exec.Command(name, args...).Output()]. *)
Definition output (name : string) (args : list string) : net string :=
  r ← perform (Output name args);
  match r.2 with Some err => net_lift (Err (Errorf err)) | None => mret r.1 end.
Definition file_op (e : effect) : net unit :=
  r ← perform e;
  match r.2 with Some err => net_lift (Err (Errorf err)) | None => mret tt end.

(** The checks [RestoreConfig] makes on every platform. *)
Definition check_saved (platform : string) (cfg : option SavedConfig) : net SavedConfig :=
  match cfg with
  | Some c =>
      if decide (Platform c = platform) then
        net_lift (wrap "saved config integrity check failed" (verifyHMAC sessionKey (Data c) (HMAC c))) ;; mret c
      else net_lift (Err (Errorf ("invalid saved config for " +:+ platform)))
  | None => net_lift (Err (Errorf ("invalid saved config for " +:+ platform)))
  end.

(** *** Linux *)

Definition linux_CreateTAP (name : string) (hostIP vmIP : IP) (mask : list Z) : net unit :=
  net_wrap "create tap" (run "ip" ["tuntap"; "add"; "dev"; name; "mode"; "tap"]) ;;
  let cidr := IPString hostIP +:+ "/" +:+ itoa (MaskSize mask) in
  net_wrap "set tap address" (run "ip" ["addr"; "add"; cidr; "dev"; name]) ;;
  net_wrap "bring tap up" (run "ip" ["link"; "set"; name; "up"]).
Definition linux_DestroyTAP (name : string) : net unit :=
  run "ip" ["tuntap"; "del"; "dev"; name; "mode"; "tap"].
Definition linux_SaveConfig : net SavedConfig :=
  out ← net_wrap "save routes" (output "ip" ["route"; "show"]);
  mret {| Data := out; Platform := "linux"; HMAC := computeHMAC sessionKey out |}.
Definition linux_RestoreConfig (cfg : option SavedConfig) : net unit :=
  check_saved "linux" cfg ;; mret tt.
Definition linux_SetupRouting (tapName : string) (vmIP : IP) : net unit :=
  net_wrap "add default route"
    (run "ip" ["route"; "add"; "default"; "via"; IPString vmIP; "dev"; tapName; "metric"; "50"]).
Definition linux_TeardownRouting : net unit :=
  ignore (run "ip" ["route"; "del"; "default"; "metric"; "50"]).
Definition linux_FlushDNS : net unit := ignore (run "resolvectl" ["flush-caches"]).

Definition linuxManager : Manager := {|
  CreateTAP := linux_CreateTAP; DestroyTAP := linux_DestroyTAP; SaveConfig := linux_SaveConfig;
  RestoreConfig := linux_RestoreConfig; SetupRouting := linux_SetupRouting;
  TeardownRouting := linux_TeardownRouting; FlushDNS := linux_FlushDNS |}.

(** *** macOS *)

Definition darwin_SaveConfig : net SavedConfig :=
  out ← net_wrap "save routes" (output "netstat" ["-rn"]);
  mret {| Data := out; Platform := "darwin"; HMAC := computeHMAC sessionKey out |}.
Definition darwin_RestoreConfig (cfg : option SavedConfig) : net unit :=
  check_saved "darwin" cfg ;; mret tt.
Definition darwin_SetupRouting (tapName : string) (vmIP : IP) : net unit :=
  net_wrap "add route 0.0.0.0/1" (run "route" ["-n"; "add"; "-net"; "0.0.0.0/1"; IPString vmIP]) ;;
  net_wrap "add route 128.0.0.0/1" (run "route" ["-n"; "add"; "-net"; "128.0.0.0/1"; IPString vmIP]).
Definition darwin_TeardownRouting : net unit :=
  ignore (run "route" ["-n"; "delete"; "-net"; "0.0.0.0/1"]) ;;
  ignore (run "route" ["-n"; "delete"; "-net"; "128.0.0.0/1"]).
Definition darwin_FlushDNS : net unit :=
  ignore (run "dscacheutil" ["-flushcache"]) ;;
  ignore (run "killall" ["-HUP"; "mDNSResponder"]).

(** QEMU owns the vmnet device: both TAP methods are no-ops. *)
Definition darwinManager : Manager := {|
  CreateTAP := fun _ _ _ _ => mret tt; DestroyTAP := fun _ => mret tt; SaveConfig := darwin_SaveConfig;
  RestoreConfig := darwin_RestoreConfig; SetupRouting := darwin_SetupRouting;
  TeardownRouting := darwin_TeardownRouting; FlushDNS := darwin_FlushDNS |}.

(** *** Windows *)

Definition safePrefixes : list string :=
  ["set address"; "add dns"; "set dns"; "add wins"; "set wins"; "pushd"; "popd";
   "set interface"; "add address"].

Definition netsh_skipped (line : string) : bool :=
  bool_decide (line = EmptyString) || HasPrefix line "#" || HasPrefix line "rem ".
Definition netsh_safe (line : string) : bool :=
  List.existsb (HasPrefix (ToLower line)) safePrefixes.

(** The loop of [validateNetshDump] from line number [n + 1]. *)
Fixpoint netsh_loop (n : Z) (lines : list string) : result unit :=
  match lines with
  | [] => Ok tt
  | l :: ls =>
      let lineNum := n + 1 in
      let line := TrimSpace l in
      if netsh_skipped line then netsh_loop lineNum ls
      else if netsh_safe line then netsh_loop lineNum ls
      else Err (Errorf ("netsh dump line " +:+ itoa lineNum +:+ " has unexpected content: " +:+ Quote line))
  end.
Definition validateNetshDump (data : string) : result unit :=
  let '(lines, err) := ScanLines data in
  netsh_loop 0 lines ;; match err with Some e => Err e | None => Ok tt end.

Context (stateDir : string).
Definition savePath : string := path_join windows [stateDir; "netcfg.save"].

Definition windows_CreateTAP (name : string) (hostIP vmIP : IP) (mask : list Z) : net unit :=
  net_wrap "configure tap address"
    (run "netsh" ["interface"; "ip"; "set"; "address"; name; "static"; IPString hostIP; IPString mask;
                  IPString vmIP; "1"]).
Definition windows_DestroyTAP (name : string) : net unit :=
  ignore (run "netsh" ["interface"; "ip"; "delete"; "address"; name; "all"]).
Definition windows_SaveConfig : net SavedConfig :=
  out ← net_wrap "netsh dump" (output "netsh" ["interface"; "ip"; "dump"]);
  net_wrap "create state dir" (file_op (MkdirAll stateDir)) ;;
  net_wrap "write netcfg save" (file_op (WriteFile savePath out)) ;;
  mret {| Data := out; Platform := "windows"; HMAC := computeHMAC sessionKey out |}.
(** The end of [RestoreConfig]: the file is removed on both branches. *)
Definition windows_exec : net unit := fun tr =>
  let '(r, tr1) := run "netsh" ["exec"; savePath] tr in
  let tr2 := (ignore (file_op (Remove savePath)) tr1).2 in
  (wrap "netsh exec restore" r, tr2).
Definition windows_RestoreConfig (cfg : option SavedConfig) : net unit :=
  c ← check_saved "windows" cfg;
  net_lift (wrap "netsh dump validation failed" (validateNetshDump (Data c))) ;;
  net_wrap "write netcfg for restore" (file_op (WriteFile savePath (Data c))) ;;
  windows_exec.
Definition windows_SetupRouting (tapName : string) (vmIP : IP) : net unit :=
  net_wrap "set dns1" (run "netsh" ["interface"; "ip"; "set"; "dns"; tapName; "static"; "4.2.2.4"]) ;;
  net_wrap "set dns2" (run "netsh" ["interface"; "ip"; "add"; "dns"; tapName; "4.2.2.2"]).
Definition windows_FlushDNS : net unit := run "ipconfig" ["/flushdns"].

Definition windowsManager : Manager := {|
  CreateTAP := windows_CreateTAP; DestroyTAP := windows_DestroyTAP; SaveConfig := windows_SaveConfig;
  RestoreConfig := windows_RestoreConfig; SetupRouting := windows_SetupRouting;
  TeardownRouting := mret tt; FlushDNS := windows_FlushDNS |}.
End Managers.

(** ** Route verification *)

Section Verify.
Context `{H : Host}.

(** The inner loop of the Linux [verifyRoutes]: the last [via] and the last
    [dev] followed by another field. *)
Fixpoint via_dev (fields : list string) (gateway dev : string) : string * string :=
  match fields with
  | f :: (next :: _) as rest =>
      if decide (f = "via") then via_dev rest next dev
      else if decide (f = "dev") then via_dev rest gateway next
      else via_dev rest gateway dev
  | _ => (gateway, dev)
  end.

Definition default_route (tap vm line : string) : bool :=
  match Fields line with
  | f0 :: rest =>
      (5 <=? length (f0 :: rest))%nat && bool_decide (f0 = "default")
      && bool_decide (via_dev rest EmptyString EmptyString = (vm, tap))
  | [] => false
  end.

Definition linux_verifyRoutes (expectedTAP : string) (expectedVMIP : IP) : net unit :=
  out ← net_wrap "ip route show" (output "ip" ["route"; "show"]);
  let vmStr := IPString expectedVMIP in
  if List.existsb (default_route expectedTAP vmStr) (Split out LF) then mret tt
  else net_lift (Err (Errorf ("no default route via " +:+ vmStr +:+ " dev " +:+ expectedTAP +:+ " found"))).

(** The loop of the macOS [verifyRoutes]. *)
Fixpoint darwin_loop (vmStr : string) (found0 found128 : bool) (lines : list string) : result unit :=
  match lines with
  | [] =>
      fail_if (negb found0) ("route 0/1 via " +:+ vmStr +:+ " not found") ;;
      fail_if (negb found128) ("route 128.0/1 via " +:+ vmStr +:+ " not found")
  | l :: ls =>
      match Fields l with
      | dest :: gateway :: _ =>
          if decide (dest = "0/1") then
            if decide (gateway = vmStr) then darwin_loop vmStr true found128 ls
            else Err (Errorf ("route 0/1 points to " +:+ gateway +:+ ", expected " +:+ vmStr))
          else if decide (dest = "128.0/1") then
            if decide (gateway = vmStr) then darwin_loop vmStr found0 true ls
            else Err (Errorf ("route 128.0/1 points to " +:+ gateway +:+ ", expected " +:+ vmStr))
          else darwin_loop vmStr found0 found128 ls
      | _ => darwin_loop vmStr found0 found128 ls
      end
  end.
Definition darwin_verifyRoutes (expectedTAP : string) (expectedVMIP : IP) : net unit :=
  out ← net_wrap "netstat -rn" (output "netstat" ["-rn"]);
  net_lift (darwin_loop (IPString expectedVMIP) false false (Split out LF)).

(** The exported function of the Windows file, which returns warnings. *)
Definition windows_VerifyRoutes (tapName vmIP : string) : net (list string) := fun tr =>
  let '(routeTable, err) := host tr (Run "route" ["print"]) in
  let warnings :=
    match err with
    | Some e => ["failed to run 'route print': " +:+ e]
    | None =>
        (if Contains routeTable vmIP then [] else ["VM IP " +:+ vmIP +:+ " not found in routing table"])
        ++ (if Contains routeTable "0.0.0.0" then [] else ["default route 0.0.0.0 not found in routing table"])
        ++ (if Contains routeTable "128.0.0.0" then []
            else ["128.0.0.0/1 route not found in routing table"])
    end in
  (Ok warnings, tr ++ [Run "route" ["print"]]).
End Verify.

(** *** The DNS probe and the verifier loop *)

Definition dns_query : list Z := [0; 1; 1; 0; 0; 1; 0; 0; 0; 0; 0; 0; 0; 0; 1; 0; 1].

(** The UDP socket: the outcome of the dial, of the write and of the read. *)
Record udp := { udp_dial : string -> option error; udp_write : list Z -> option error; udp_read : result Z }.

Definition checkDNSLeak (u : udp) : result unit :=
  match udp_dial u "8.8.8.8:53" with
  | Some _ => Ok tt
  | None =>
      match udp_write u dns_query with
      | Some _ => Ok tt
      | None =>
          match udp_read u with
          | Err _ => Ok tt
          | Ok n => fail_if (0 <? n) ("received " +:+ itoa n +:+ "-byte DNS response from 8.8.8.8 outside Tor")
          end
      end
  end.

Record DriftEvent := { Type_ : string; Description : string }.
Record VerifierConfig := { Interval : Z; ExpectedTAP : string; ExpectedVMIP : IP }.

(** [check]: [send] tells whether the [select] sends or sees the context done. *)
Definition check (routes dns : result unit) (send : DriftEvent -> bool) : list DriftEvent :=
  let leak := match dns with
              | Err e => List.filter send [{| Type_ := "dns_leak"; Description := Error e |}]
              | Ok _ => []
              end in
  match routes with
  | Err e =>
      let ev := {| Type_ := "route_drift"; Description := Error e |} in
      if send ev then ev :: leak else []
  | Ok _ => leak
  end.

(** One round of the goroutine of [Start]: the initial check, then one check
    per tick until the context is done; a round is what the check observes. *)
Record observation := { ob_routes : result unit; ob_dns : result unit; ob_send : DriftEvent -> bool }.
Inductive tick := Ticker (o : observation) | CtxDone.

Definition default_interval (cfg : VerifierConfig) : VerifierConfig :=
  if Interval cfg <=? 0
  then {| Interval := 30000000000; ExpectedTAP := ExpectedTAP cfg; ExpectedVMIP := ExpectedVMIP cfg |}
  else cfg.

Definition observe (o : observation) : list DriftEvent := check (ob_routes o) (ob_dns o) (ob_send o).
Fixpoint verifier_loop (ticks : list tick) : list DriftEvent :=
  match ticks with
  | [] => []
  | CtxDone :: _ => []
  | Ticker o :: rest => observe o ++ verifier_loop rest
  end.
Definition Start (first : observation) (ticks : list tick) : list DriftEvent :=
  observe first ++ verifier_loop ticks.

(** ** Integrity *)

Section IntegrityFacts.
Context `{H : Host} `{U : UnicodeTables} (key : option (list Z)).

Lemma verifyHMAC_ok (data expected : string) :
  verifyHMAC key data expected = Ok tt <->
  key = None \/ expected <> EmptyString /\ expected = computeHMAC key data.
Proof.
  unfold verifyHMAC. destruct key as [k|]; [|by split; [left|]].
  rewrite seq_ok, !fail_if_ok, negb_false_iff, bool_decide_eq_true, bool_decide_eq_false.
  naive_solver.
Qed.

Lemma hex_encode_nonempty (l : list Z) : l <> [] -> hex_encode l <> EmptyString.
Proof. by destruct l. Qed.

Lemma compress_length (h b : list Z) : length h = 8%nat -> length (compress h b) = 8%nat.
Proof. by do 9 (destruct h as [|? h]; try done). Qed.
Lemma blocks_length (n : nat) (h ws : list Z) : length h = 8%nat -> length (blocks n h ws) = 8%nat.
Proof.
  revert h ws. induction n as [|n IH]; intros h ws Hh; [done|]. destruct ws; [done|].
  by apply IH, compress_length.
Qed.
Lemma sha256_nonempty (m : list Z) : sha256 m <> [].
Proof.
  unfold sha256. pose proof (blocks_length (length (words (pad m))) sha_h0 (words (pad m)) eq_refl) as Hl.
  destruct (blocks _ _ _) as [|x l]; done.
Qed.

Lemma verify_compute (data : string) : verifyHMAC key data (computeHMAC key data) = Ok tt.
Proof.
  apply verifyHMAC_ok. destruct key as [k|]; [right|by left]. split; [|done].
  apply hex_encode_nonempty. unfold hmac_sha256. apply sha256_nonempty.
Qed.

(** The checks of [RestoreConfig] have no effect, and pass only for an
    untampered configuration of the platform. *)
Lemma check_saved_spec (p : string) (cfg : option SavedConfig) (tr : list effect) :
  (check_saved key p cfg tr).2 = tr /\
  forall c, (check_saved key p cfg tr).1 = Ok c <->
    cfg = Some c /\ Platform c = p /\ verifyHMAC key (Data c) (HMAC c) = Ok tt.
Proof.
  unfold check_saved. destruct cfg as [c0|]; [|by split; [|split; [|intros [? _]]]].
  destruct (decide _) as [Hp|Hp].
  - unfold mbind, net_bind, net_lift. destruct (verifyHMAC key _ _) as [[]|] eqn:Hv; simpl.
    + split; [done|]. intros c. split; [by intros [= <-]|by intros [[= <-] _]].
    + split; [done|]. intros c. split; [done|]. intros ([= <-] & _ & Hv'). by rewrite Hv in Hv'.
  - split; [done|]. intros c. split; [done|]. by intros ([= <-] & ? & _).
Qed.
End IntegrityFacts.

(** The savers of the three platforms. *)
Definition savers `{H : Host} `{U : UnicodeTables} (key : option (list Z)) (dir : string) : list (string * net SavedConfig) :=
  [("linux", linux_SaveConfig key); ("darwin", darwin_SaveConfig key); ("windows", windows_SaveConfig key dir)].
Lemma saved_verifies `{H : Host} `{U : UnicodeTables} (key : option (list Z)) (dir : string)
    (tr : list effect) (p : string) (save : net SavedConfig) (c : SavedConfig) :
  In (p, save) (savers key dir) -> (save tr).1 = Ok c -> Platform c = p /\ verifyHMAC key (Data c) (HMAC c) = Ok tt.
Proof.
  intros [[= <- <-]|[[= <- <-]|[[= <- <-]|[]]]];
    unfold linux_SaveConfig, darwin_SaveConfig, windows_SaveConfig, output, net_wrap, file_op, net_lift,
      mbind, net_bind, mret, net_ret, perform;
    repeat (simpl; try case_match; simplify_eq; try done); intros [= <-]; (split; [done|]); simpl; apply verify_compute.
Qed.
Lemma check_saved_ok (key : option (list Z)) (p : string) (c : SavedConfig) (tr : list effect) :
  Platform c = p -> verifyHMAC key (Data c) (HMAC c) = Ok tt -> check_saved key p (Some c) tr = (Ok c, tr).
Proof. intros Hp Hv. unfold check_saved. rewrite decide_True by done. unfold mbind, net_bind, net_lift. by rewrite Hv. Qed.

(** Saving and restoring agree: on every platform a configuration returned by
    [SaveConfig] passes the platform and integrity checks of [RestoreConfig]
    under the same session key, whatever the command printed. *)
Theorem saved_config_accepted (H : Host) (U : UnicodeTables) (key : option (list Z)) (dir : string)
    (tr tr' : list effect) (p : string) (save : net SavedConfig) (c : SavedConfig) :
  In (p, save) [("linux", linux_SaveConfig key); ("darwin", darwin_SaveConfig key);
                ("windows", windows_SaveConfig key dir)] ->
  save tr = (Ok c, tr') ->
  check_saved key p (Some c) tr' = (Ok c, tr').
Proof.
  intros Hin Hs. destruct (saved_verifies key dir tr p save c Hin) as [Hp Hv]; [by rewrite Hs|]. by apply check_saved_ok.
Qed.

(** ** Windows: what reaches netsh *)

Section NetshFacts.
Context `{U : UnicodeTables}.

Lemma netsh_loop_ok (n : Z) (lines : list string) :
  netsh_loop n lines = Ok tt <->
  Forall (fun l => netsh_skipped (TrimSpace l) = true \/ netsh_safe (TrimSpace l) = true) lines.
Proof.
  revert n. induction lines as [|l ls IH]; intros n; [by split|]. cbn [netsh_loop].
  rewrite Forall_cons. destruct (netsh_skipped _), (netsh_safe _); rewrite ?IH; intuition congruence.
Qed.

Lemma validateNetshDump_ok (data : string) :
  validateNetshDump data = Ok tt <->
  (ScanLines data).2 = None /\
  Forall (fun l => netsh_skipped (TrimSpace l) = true \/ netsh_safe (TrimSpace l) = true) (ScanLines data).1.
Proof.
  unfold validateNetshDump. destruct (ScanLines data) as [lines err]. rewrite seq_ok, netsh_loop_ok. simpl.
  destruct err; intuition congruence.
Qed.
End NetshFacts.

Section Traces.
Context `{H : Host} `{U : UnicodeTables}.

Lemma net_bind_eq {A B} (m : net A) (f : A -> net B) (tr : list effect) :
  (m ≫= f) tr = match m tr with (Ok a, tr') => f a tr' | (Err e, tr') => (Err e, tr') end.
Proof. done. Qed.
Lemma run_trace (name : string) (args : list string) (tr : list effect) :
  (run name args tr).2 = tr ++ [Run name args].
Proof. unfold run. rewrite net_bind_eq. simpl. by destruct (host tr _) as [? [|]]. Qed.
Lemma file_op_trace (e : effect) (tr : list effect) : (file_op e tr).2 = tr ++ [e].
Proof. unfold file_op. rewrite net_bind_eq. simpl. by destruct (host tr _) as [? [|]]. Qed.
Lemma net_wrap_trace {A} (p : string) (m : net A) (tr : list effect) : (net_wrap p m tr).2 = (m tr).2.
Proof. unfold net_wrap. by destruct (m tr). Qed.
Lemma windows_exec_trace (dir : string) (tr : list effect) :
  (windows_exec dir tr).2 = tr ++ [Run "netsh" ["exec"; savePath dir]; Remove (savePath dir)].
Proof.
  unfold windows_exec. pose proof (run_trace "netsh" ["exec"; savePath dir] tr) as Ht.
  destruct (run _ _ tr) as [r tr1]. simpl in *. subst. by rewrite file_op_trace, <- app_assoc.
Qed.
End Traces.

(** C12. No unchecked dump is executed: [RestoreConfig] on Windows touches the host
    only for a Windows configuration whose tag verifies and whose every line
    is blank, a comment or one of the known-safe commands; it then writes
    exactly the checked data, executes that file, and removes it. *)
Theorem windows_restore_safe (H : Host) (U : UnicodeTables) (key : option (list Z)) (dir : string)
    (cfg : option SavedConfig) (tr : list effect) :
  let tr' := (windows_RestoreConfig key dir cfg tr).2 in
  tr' = tr \/
  exists c, cfg = Some c /\ Platform c = "windows" /\ verifyHMAC key (Data c) (HMAC c) = Ok tt /\
    (ScanLines (Data c)).2 = None /\
    Forall (fun l => netsh_skipped (TrimSpace l) = true \/ netsh_safe (TrimSpace l) = true) (ScanLines (Data c)).1 /\
    (tr' = tr ++ [WriteFile (savePath dir) (Data c)] \/
     tr' = tr ++ [WriteFile (savePath dir) (Data c); Run "netsh" ["exec"; savePath dir]; Remove (savePath dir)]).
Proof.
  cbn zeta. pose proof (check_saved_spec key "windows" cfg tr) as [Htr Hok].
  unfold windows_RestoreConfig. rewrite net_bind_eq.
  destruct (check_saved key "windows" cfg tr) as [[c|e] tr1]; simpl in Htr; subst tr1; [|by left].
  destruct (proj1 (Hok c) eq_refl) as (-> & Hp & Hv).
  rewrite net_bind_eq. unfold net_lift. destruct (validateNetshDump (Data c)) as [[]|] eqn:Hd; simpl; [|by left].
  apply validateNetshDump_ok in Hd as [? ?]. right. exists c. do 5 (split; [done|]).
  rewrite net_bind_eq.
  pose proof (net_wrap_trace "write netcfg for restore" (file_op (WriteFile (savePath dir) (Data c))) tr) as Hw.
  rewrite file_op_trace in Hw. destruct (net_wrap _ _ tr) as [[[]|e] tr1]; simpl in *; subst; [right|by left].
  by rewrite windows_exec_trace, <- app_assoc.
Qed.

(** ** What the verifiers accept *)

Section VerifyFacts.
Context `{H : Host}.

(** The destination and gateway columns of the lines that have them. *)
Definition route_of (line : string) : option (string * string) :=
  match Fields line with d :: g :: _ => Some (d, g) | _ => None end.

Lemma darwin_loop_ok (vm : string) (f0 f128 : bool) (lines : list string) :
  darwin_loop vm f0 f128 lines = Ok tt <->
  (forall g, ("0/1", g) ∈ omap route_of lines -> g = vm) /\
  (forall g, ("128.0/1", g) ∈ omap route_of lines -> g = vm) /\
  (f0 = true \/ ("0/1", vm) ∈ omap route_of lines) /\
  (f128 = true \/ ("128.0/1", vm) ∈ omap route_of lines).
Proof.
  revert f0 f128. induction lines as [|l ls IH]; intros f0 f128.
  { cbn [darwin_loop omap list_omap]. rewrite seq_ok, !fail_if_ok, !negb_false_iff.
    setoid_rewrite elem_of_nil. naive_solver. }
  assert (darwin_loop vm f0 f128 (l :: ls) =
    match route_of l with
    | Some (d, g) =>
        if decide (d = "0/1") then
          if decide (g = vm) then darwin_loop vm true f128 ls
          else Err (Errorf ("route 0/1 points to " +:+ g +:+ ", expected " +:+ vm))
        else if decide (d = "128.0/1") then
          if decide (g = vm) then darwin_loop vm f0 true ls
          else Err (Errorf ("route 128.0/1 points to " +:+ g +:+ ", expected " +:+ vm))
        else darwin_loop vm f0 f128 ls
    | None => darwin_loop vm f0 f128 ls
    end) as ->.
  { cbn [darwin_loop]. unfold route_of. by destruct (Fields l) as [|? [|? ?]]. }
  assert (omap route_of (l :: ls) = option_list (route_of l) ++ omap route_of ls) as ->.
  { simpl. by destruct (route_of l). }
  destruct (route_of l) as [[d g]|]; [|apply IH]. simpl.
  setoid_rewrite elem_of_cons.
  repeat case_decide; subst; rewrite ?IH; naive_solver.
Qed.
End VerifyFacts.

(** The macOS check passes exactly when both halves of the split default route
    are in the table and every entry for them points to the VM. *)
Theorem darwin_verifyRoutes_spec (H : Host) (tap : string) (vm : IP) (tr : list effect) (out : string) :
  host tr (Output "netstat" ["-rn"]) = (out, None) ->
  let routes := omap route_of (Split out LF) in
  (darwin_verifyRoutes tap vm tr).1 = Ok tt <->
  ("0/1", IPString vm) ∈ routes /\ ("128.0/1", IPString vm) ∈ routes /\
  forall d g, (d, g) ∈ routes -> d = "0/1" \/ d = "128.0/1" -> g = IPString vm.
Proof.
  intros Ho routes. unfold darwin_verifyRoutes, output, net_wrap. rewrite net_bind_eq.
  unfold perform. rewrite net_bind_eq, Ho. cbn [fst snd mret net_ret wrap net_lift].
  rewrite darwin_loop_ok. fold routes. split.
  - intros (H1 & H2 & H3 & H4). split_and!; [by destruct H3|by destruct H4|].
    intros d g Hd [->| ->]; auto.
  - intros (H1 & H2 & H3). split_and!; [| |by right|by right]; intros g Hg; eapply H3; eauto.
Qed.
Definition netstat_host (out : string) : Host := fun _ _ => (out, None).
Lemma darwin_verifyRoutes_spec_witness :
  (@darwin_verifyRoutes (netstat_host ("0/1 10.0.0.2" +:+ nl +:+ "128.0/1 10.0.0.2" +:+ nl)) "utun1" [10; 0; 0; 2] []).1
  = Ok tt.
Proof.
  refine (proj2 (darwin_verifyRoutes_spec (netstat_host _) "utun1" [10; 0; 0; 2] []
    ("0/1 10.0.0.2" +:+ nl +:+ "128.0/1 10.0.0.2" +:+ nl) eq_refl) _).
  split_and!; [vm_compute; by left|vm_compute; right; by left|].
  vm_compute. intros d g Hd _.
  apply list_elem_of_In in Hd. destruct Hd as [[= <- <-]|[[= <- <-]|[]]]; reflexivity.
Defined.

Section LinuxRoutes.
Lemma via_dev_skip (f : string) (rest : list string) (g d : string) :
  f <> "via" -> f <> "dev" -> rest <> [] -> via_dev (f :: rest) g d = via_dev rest g d.
Proof. intros Hv Hd. destruct rest; [done|]. intros _. cbn [via_dev]. by rewrite !decide_False. Qed.

Lemma via_dev_via (x : string) (r : list string) (g d : string) :
  via_dev ("via" :: x :: r) g d = via_dev (x :: r) x d.
Proof. done. Qed.
Lemma via_dev_dev (x : string) (r : list string) (g d : string) :
  via_dev ("dev" :: x :: r) g d = via_dev (x :: r) g x.
Proof. done. Qed.
Lemma via_dev_plain (fs : list string) (g d : string) :
  Forall (fun f => f <> "via" /\ f <> "dev") fs -> via_dev fs g d = (g, d).
Proof.
  induction 1 as [|f fs [Hv Hd] H IH]; [done|]. destruct fs; [done|]. by rewrite via_dev_skip.
Qed.

Lemma dotted_word (ip : list Z) : To4 ip <> [] -> is_word (IPString ip).
Proof.
  intros H4. unfold IPString. rewrite decide_False, decide_True; [|done|].
  - unfold dotted. destruct (To4 ip) as [|x l]; [done|]. split.
    + destruct l as [|z l]; [apply itoa_word|]. intros He.
      apply (word_app_ne (itoa x) ("." +:+ Join (map itoa (z :: l)) ".")); [apply itoa_word|exact He].
    + apply forallb_join; [|done]. apply Forall_map, Forall_true. intros z. apply itoa_word.
  - by intros ->.
Qed.
Lemma dotted_not_key (ip : list Z) (k : string) : To4 ip <> [] -> k = "via" \/ k = "dev" -> IPString ip <> k.
Proof.
  intros H4 Hk He. unfold IPString in He.
  rewrite decide_False, decide_True in He; [|done|by intros ->].
  assert (str_forallb (fun c => negb (is_lower c)) (dotted (To4 ip)) = true) as Hl.
  { apply forallb_join; [|done]. apply Forall_map, Forall_true. intros z. unfold itoa.
    assert (forall n, 0 <= n -> str_forallb (fun c => negb (is_lower c)) (utoa n) = true) as Hu.
    { intros n [_ Hn]%utoa_digits. revert Hn. apply forallb_impl. by apply ascii_impl. }
    destruct (z <? 0) eqn:Hz; [apply Z.ltb_lt in Hz|apply Z.ltb_ge in Hz; by apply Hu].
    change (str_forallb (fun c => negb (is_lower c)) (utoa (- z)) = true). apply Hu. lia. }
  rewrite He in Hl. by destruct Hk as [-> | ->].
Qed.
Lemma tap_word (s : string) : tap_name_ok linux s -> is_word s.
Proof.
  intros (c & t & -> & Hc & _ & Ht). split; [done|]. simpl. apply andb_true_iff. split.
  - revert Hc. by apply (ascii_impl is_alpha word_byte).
  - revert Ht. apply forallb_impl. by apply ascii_impl.
Qed.
Lemma words_no_lf (ws : list string) : Forall is_word ws -> no_byte LF (Join ws " ") = true.
Proof.
  intros H. apply forallb_join; [|done]. eapply Forall_impl; [exact H|].
  intros w [_ Hw]. revert Hw. apply forallb_impl. by apply ascii_impl.
Qed.
End LinuxRoutes.

(** The Linux check recognises the route that [SetupRouting] installs, as
    [ip route show] prints it, wherever it stands in the table. *)
Theorem linux_verify_after_setup (H : Host) (tap : string) (vm : IP) (tr : list effect)
    (before after extra : list string) :
  tap_name_ok linux tap -> tap <> "via" -> tap <> "dev" -> To4 vm <> [] ->
  Forall (fun l => no_byte LF l = true) (before ++ after) ->
  Forall is_word extra -> Forall (fun f => f <> "via" /\ f <> "dev") extra ->
  let line := Join (("default" :: "via" :: IPString vm :: "dev" :: tap :: extra ++ ["metric"]) ++ ["50"]) " " in
  host tr (Output "ip" ["route"; "show"]) = (Join (before ++ line :: after) nl, None) ->
  (linux_verifyRoutes tap vm tr).1 = Ok tt.
Proof.
  intros Ht Hnv Hnd H4 Hl Hew Hek line Ho.
  assert (Forall is_word (("default" :: "via" :: IPString vm :: "dev" :: tap :: extra ++ ["metric"]) ++ ["50"])) as Hw.
  { pose proof (dotted_word vm H4). pose proof (tap_word tap Ht).
    rewrite Forall_app. split; [repeat (constructor; [done|])|by repeat constructor].
    rewrite Forall_app. by split; [|repeat constructor]. }
  unfold linux_verifyRoutes, output, net_wrap. rewrite net_bind_eq.
  unfold perform. rewrite net_bind_eq, Ho. cbn [fst snd mret net_ret wrap].
  unfold nl. rewrite (Split_Join (before ++ line :: after) LF); [|by destruct before|].
  - assert (List.existsb (default_route tap (IPString vm)) (before ++ line :: after) = true) as ->; [|done].
    rewrite List.existsb_app. apply orb_true_iff. right. cbn [List.existsb]. apply orb_true_iff. left.
    unfold default_route, line. rewrite Fields_words by done. cbn [app].
    rewrite !andb_true_iff, !bool_decide_eq_true, Nat.leb_le. split_and!; [simpl; lia|done|].
    pose proof (dotted_not_key vm "via" H4 (or_introl eq_refl)).
    pose proof (dotted_not_key vm "dev" H4 (or_intror eq_refl)).
    rewrite via_dev_via, via_dev_skip, via_dev_dev, via_dev_skip; try done; [|by destruct extra].
    rewrite <- app_assoc.
    apply via_dev_plain. rewrite Forall_app. by split; [|repeat constructor].
  - apply Forall_app in Hl as [Hb Ha]. rewrite Forall_app, Forall_cons.
    split_and!; [done|by apply words_no_lf|done].
Qed.
Lemma linux_verify_after_setup_witness :
  (@linux_verifyRoutes (netstat_host (Join ["10.0.0.0/24 dev eth0";
     "default via 10.10.10.2 dev torvm0 proto static metric 50"; ""] nl)) "torvm0" [10; 10; 10; 2] []).1 = Ok tt.
Proof.
  apply (linux_verify_after_setup (netstat_host _) "torvm0" [10; 10; 10; 2] []
    ["10.0.0.0/24 dev eth0"] [""] ["proto"; "static"]); try discriminate.
  - exists "t"%char, "orvm0". vm_compute. repeat split; discriminate.
  - repeat constructor.
  - repeat constructor; discriminate.
  - repeat constructor; discriminate.
  - reflexivity.
Defined.
Lemma saved_config_accepted_witness :
  let key := Some [1; 2; 3] in
  let c := {| Data := "default dev eth0"; Platform := "linux"; HMAC := computeHMAC key "default dev eth0" |} in
  let tr' := [Output "ip" ["route"; "show"]] in
  check_saved key "linux" (Some c) tr' = (Ok c, tr').
Proof.
  intros key c tr'.
  refine (saved_config_accepted (netstat_host "default dev eth0") ascii_tables key "" [] tr' "linux"
    (@linux_SaveConfig (netstat_host "default dev eth0") key) c _ _).
  - left. reflexivity.
  - reflexivity.
Defined.
