(* ===== verification/Retry.v ===== *)
(** * Package [lifecycle]: states, error classes and the retry policy

    [lifecycle.go] (the state type) and [retry.go].  Durations are int64
    nanoseconds; float64 arithmetic is the binary64 arithmetic of the Standard
    Library's [SpecFloat], so a delay is computed bit for bit. *)

From Stdlib Require Import SpecFloat.
From S2P Require Import Prelude GoStrings StringFacts GoFloats.
Local Open Scope Z_scope.

(** ** States *)

Inductive State :=
  | StateInit | StateCheckPrivileges | StateSaveNetwork | StateCreateTAP | StateLaunchVM
  | StateWaitTAP | StateConfigureTAP | StateFlushDNS | StateWaitBootstrap | StateRunning
  | StateShutdown | StateRestoreNetwork | StateCleanup | StateFailed.

#[export] Instance State_eq_dec : EqDecision State.
Proof. solve_decision. Defined.

(** The values of the [iota] constants. *)
Definition State_iota (s : State) : nat :=
  match s with
  | StateInit => 0 | StateCheckPrivileges => 1 | StateSaveNetwork => 2 | StateCreateTAP => 3
  | StateLaunchVM => 4 | StateWaitTAP => 5 | StateConfigureTAP => 6 | StateFlushDNS => 7
  | StateWaitBootstrap => 8 | StateRunning => 9 | StateShutdown => 10 | StateRestoreNetwork => 11
  | StateCleanup => 12 | StateFailed => 13
  end%nat.
Definition all_states : list State :=
  [StateInit; StateCheckPrivileges; StateSaveNetwork; StateCreateTAP; StateLaunchVM; StateWaitTAP;
   StateConfigureTAP; StateFlushDNS; StateWaitBootstrap; StateRunning; StateShutdown; StateRestoreNetwork;
   StateCleanup; StateFailed].
#[export] Instance State_countable : Countable State.
Proof.
  refine (inj_countable' State_iota (fun n => nth n all_states StateFailed) _). by intros [].
Defined.

Definition State_names : list string :=
  ["Init"; "CheckPrivileges"; "SaveNetwork"; "CreateTAP"; "LaunchVM"; "WaitTAP"; "ConfigureTAP";
   "FlushDNS"; "WaitBootstrap"; "Running"; "Shutdown"; "RestoreNetwork"; "Cleanup"; "Failed"].
(** [State.String] on any int. *)
Definition State_String (s : Z) : option string :=
  if s <? 0 then None
  else Some (match State_names !! Z.to_nat s with
             | Some n => n
             | None => "State(" +:+ itoa s +:+ ")"
             end).

(** ** Durations *)

Definition Second : Z := 1000000000.
Definition Millisecond : Z := 1000000.

(** ** Retry policy *)

Record RetryPolicy := {
  MaxAttempts : Z;
  BaseDelay : Z;
  MaxDelay : Z;
  JitterFactor : spec_float
}.

Inductive ErrorClass := Transient | Permanent.
#[export] Instance ErrorClass_eq_dec : EqDecision ErrorClass.
Proof. solve_decision. Defined.

Definition transientPatterns : list string :=
  ["resource temporarily unavailable"; "address already in use"; "connection refused"; "connection reset"].
Definition permanentPatterns : list string :=
  ["permission denied"; "file not found"; "no such file"; "config validation"].

Definition ClassifyError (state : State) (err : option error) : ErrorClass :=
  match err with
  | None => Permanent
  | Some e =>
      if decide (e = DeadlineExceeded) then Transient
      else
        let msg := Error e in
        if List.existsb (Contains msg) transientPatterns then Transient
        else if List.existsb (Contains msg) permanentPatterns then Permanent
        else Transient
  end.

(** The delay before jitter. *)
Definition base_delay (attempt : Z) (policy : RetryPolicy) : Z :=
  let delay := f64_trunc (f64_mul (f64_of_Z (BaseDelay policy)) (f64_of_Z (2 ^ attempt))) in
  if MaxDelay policy <? delay then MaxDelay policy else delay.

(** [rnd] is the value of [rand.Float64()]. *)
Definition ShouldRetry (state : State) (err : option error) (attempt : Z) (policy : option RetryPolicy)
    (rnd : spec_float) : bool * Z :=
  match policy with
  | None => (false, 0)
  | Some p =>
      if MaxAttempts p <=? attempt then (false, 0)
      else if decide (ClassifyError state err = Permanent) then (false, 0)
      else
        let delay := base_delay attempt p in
        let jitter := f64_add (f64_of_Z 1) (f64_mul (JitterFactor p) rnd) in
        (true, f64_trunc (f64_mul (f64_of_Z delay) jitter))
  end.

Definition DefaultRetryPolicy : gmap State RetryPolicy := list_to_map [
  (StateCreateTAP, {| MaxAttempts := 3; BaseDelay := 2 * Second; MaxDelay := 30 * Second;
                      JitterFactor := tenths 2 |});
  (StateLaunchVM, {| MaxAttempts := 2; BaseDelay := 5 * Second; MaxDelay := 30 * Second;
                     JitterFactor := tenths 2 |});
  (StateSaveNetwork, {| MaxAttempts := 2; BaseDelay := 1 * Second; MaxDelay := 10 * Second;
                        JitterFactor := tenths 1 |});
  (StateConfigureTAP, {| MaxAttempts := 2; BaseDelay := 2 * Second; MaxDelay := 15 * Second;
                         JitterFactor := tenths 2 |});
  (StateFlushDNS, {| MaxAttempts := 2; BaseDelay := 1 * Second; MaxDelay := 5 * Second;
                     JitterFactor := tenths 1 |})].

(** ** Facts *)

Lemma State_String_iota (s : State) : exists n, State_String (Z.of_nat (State_iota s)) = Some n.
Proof. destruct s; by eexists. Qed.

Lemma ShouldRetry_decision (state : State) (err : option error) (attempt : Z) (policy : option RetryPolicy)
    (rnd : spec_float) :
  (ShouldRetry state err attempt policy rnd).1 = true <->
  exists p, policy = Some p /\ attempt < MaxAttempts p /\ ClassifyError state err = Transient.
Proof.
  unfold ShouldRetry. destruct policy as [p|]; [|by split; [|intros (? & ? & _)]].
  destruct (MaxAttempts p <=? attempt) eqn:Ha.
  - apply Z.leb_le in Ha. split; [done|]. intros (? & [= <-] & ? & _). lia.
  - apply Z.leb_gt in Ha. destruct (decide _) as [Hc|Hc].
    + split; [done|]. intros (? & _ & _ & Ht). by rewrite Ht in Hc.
    + split; [|done]. intros _. exists p. split_and!; [done|done|]. by destruct (ClassifyError _ _).
Qed.

(** A wrapped text is classified by what it contains: a transient pattern
    wins over a permanent one. *)
Lemma ClassifyError_spec (state : State) (e : error) :
  ClassifyError state (Some e) = Permanent <->
  e <> DeadlineExceeded /\ (forall p, p ∈ transientPatterns -> Contains (Error e) p = false) /\
  exists p, p ∈ permanentPatterns /\ Contains (Error e) p = true.
Proof.
  unfold ClassifyError. destruct (decide _) as [->|Hd]; [by split; [|intros [? _]]|].
  assert (forall l, List.existsb (Contains (Error e)) l = true <-> exists p, p ∈ l /\ Contains (Error e) p = true) as Hl.
  { intros l. rewrite existsb_exists. by setoid_rewrite list_elem_of_In. }
  destruct (List.existsb _ transientPatterns) eqn:Ht.
  - apply Hl in Ht as (p & Hp & Hc). split; [done|]. intros (_ & H & _). by rewrite (H p Hp) in Hc.
  - assert (forall p, p ∈ transientPatterns -> Contains (Error e) p = false) as Hn.
    { intros p Hp. apply not_true_iff_false. intros Hc.
      assert (List.existsb (Contains (Error e)) transientPatterns = true) as Hx by (apply Hl; eauto).
      by rewrite Hx in Ht. }
    destruct (List.existsb _ permanentPatterns) eqn:Hp.
    + split; [|done]. intros _. split_and!; [done|done|by apply Hl].
    + split; [done|]. intros (_ & _ & Hx%Hl). by rewrite Hx in Hp.
Qed.

(** The policies the engine runs with: retries are bounded per state, and the
    delay before jitter doubles from the base up to the cap, in exact
    arithmetic, with no rounding or overflow. *)
Theorem default_delays (state : State) (p : RetryPolicy) (attempt : Z) :
  DefaultRetryPolicy !! state = Some p -> 0 <= attempt < MaxAttempts p ->
  MaxAttempts p <= 3 /\ base_delay attempt p = Z.min (BaseDelay p * 2 ^ attempt) (MaxDelay p).
Proof.
  intros Hp Ha. apply elem_of_list_to_map_2 in Hp.
  assert (attempt = 0 \/ attempt = 1 \/ attempt = 2) as Hc.
  { repeat (apply elem_of_cons in Hp as [[= -> ->]|Hp]; [simpl in Ha; lia|]). by apply not_elem_of_nil in Hp. }
  repeat (apply elem_of_cons in Hp as [[= -> ->]|Hp];
    [split; [done|]; by destruct Hc as [->|[->| ->]]; vm_compute|]). by apply not_elem_of_nil in Hp.
Qed.
Lemma default_delays_witness :
  base_delay 2 {| MaxAttempts := 3; BaseDelay := 2 * Second; MaxDelay := 30 * Second; JitterFactor := tenths 2 |}
  = 8 * Second.
Proof.
  refine (eq_trans (proj2 (default_delays StateCreateTAP _ 2 _ _)) _); [reflexivity|simpl; lia|reflexivity].
Defined.
