(* ===== verification/Lifecycle.v ===== *)
(** * Package [lifecycle]: the engine

    [lifecycle.go] and [failsafe.go].  The engine runs in a state monad over
    its own state and the history of its external calls.  Each call has a
    response type; the environment answers it from the history, so an
    environment is any behaviour of the context, the clock, the VM, the
    network manager and Tor. *)

From Stdlib Require Import SpecFloat.
From S2P Require Import Prelude GoStrings StringFacts GoFloats NetIP Config Torrc Control Network Retry.
Local Open Scope Z_scope.

(** ** External calls *)

Inductive call : Type -> Type :=
  (* context *)
  | CtxErr : call (option error)
  (* select of [time.After(delay)] and [ctx.Done()]: true for the timer *)
  | RetryWait (delay : Z) : call bool
  (* runtime *)
  | Goos : call goos
  | Getuid : call Z
  | Float64 : call spec_float
  | Now : call Z
  | Sleep (d : Z) : call unit
  (* observers and metrics *)
  | Notify (from to : State) : call unit
  | BootstrapProgress (progress : Z) (summary : string) : call unit
  (* VMController *)
  | VMStart : call (result unit)
  | VMStop : call (result unit)
  | VMIsRunning : call bool
  | VMWait : call (result unit)
  (* network.Manager *)
  | NetSaveConfig : call (result SavedConfig)
  | NetCreateTAP (name : string) (hostIP vmIP : IP) (mask : list Z) : call (result unit)
  | NetDestroyTAP (name : string) : call (result unit)
  | NetRestoreConfig (cfg : SavedConfig) : call (result unit)
  | NetSetupRouting (tap : string) (vmIP : IP) : call (result unit)
  | NetTeardownRouting : call (result unit)
  | NetFlushDNS : call (result unit)
  (* TCP probe: dial, linger 0, close *)
  | Dial (addr : string) : call (result unit)
  (* tor.ControlClient *)
  | NewControlClient (addr : string) : call (result unit)
  | TorAuthenticate (password : string) : call (result unit)
  | TorClose : call unit
  | TorBootstrapStatus : call (result BootstrapStatus)
  | TorSetConf (directives : gmap string string) : call (result unit)
  | TorSignal (sig : string) : call (result unit)
  (* logger *)
  | SetVerbose (b : bool) : call unit.

Inductive event := | Ev (T : Type) (c : call T).
Arguments Ev {T} c.

Class Env := answer : forall (T : Type), list event -> call T -> T.
Arguments answer {Env T} h c.

(** ** State *)

Record Engine := {
  Cfg : Config;
  state : State;
  savedNet : option SavedConfig;
  TorControl : bool; (* a client is connected *)
  fs_active : bool;  (* [FailSafe.active] *)
  retryPolicy : gmap State RetryPolicy;
  attempts : gmap State Z
}.

Record st := { eng : Engine; tr : list event }.
Definition M (A : Type) : Type := st -> A * st.
#[export] Instance M_ret : MRet M := fun A a s => (a, s).
#[export] Instance M_fmap : FMap M := fun A B f m s => let '(a, s') := m s in (f a, s').
#[export] Instance M_bind : MBind M := fun A B f m s => let '(a, s') := m s in f a s'.

Definition upd (f : Engine -> Engine) : M unit := fun s => (tt, {| eng := f (eng s); tr := tr s |}).
Definition get {A} (f : Engine -> A) : M A := fun s => (f (eng s), s).

Definition set_state (x : State) (e : Engine) : Engine :=
  {| Cfg := Cfg e; state := x; savedNet := savedNet e; TorControl := TorControl e; fs_active := fs_active e;
     retryPolicy := retryPolicy e; attempts := attempts e |}.
Definition set_savedNet (x : option SavedConfig) (e : Engine) : Engine :=
  {| Cfg := Cfg e; state := state e; savedNet := x; TorControl := TorControl e; fs_active := fs_active e;
     retryPolicy := retryPolicy e; attempts := attempts e |}.
Definition set_TorControl (x : bool) (e : Engine) : Engine :=
  {| Cfg := Cfg e; state := state e; savedNet := savedNet e; TorControl := x; fs_active := fs_active e;
     retryPolicy := retryPolicy e; attempts := attempts e |}.
Definition set_fs (x : bool) (e : Engine) : Engine :=
  {| Cfg := Cfg e; state := state e; savedNet := savedNet e; TorControl := TorControl e; fs_active := x;
     retryPolicy := retryPolicy e; attempts := attempts e |}.
Definition set_attempts (x : gmap State Z) (e : Engine) : Engine :=
  {| Cfg := Cfg e; state := state e; savedNet := savedNet e; TorControl := TorControl e;
     fs_active := fs_active e; retryPolicy := retryPolicy e; attempts := x |}.
Definition set_Cfg (x : Config) (e : Engine) : Engine :=
  {| Cfg := x; state := state e; savedNet := savedNet e; TorControl := TorControl e;
     fs_active := fs_active e; retryPolicy := retryPolicy e; attempts := attempts e |}.

(** [NewEngine], [NewEngineWithDeps]. *)
Definition NewEngine (cfg : Config) : Engine :=
  {| Cfg := cfg; state := StateInit; savedNet := None; TorControl := false; fs_active := false;
     retryPolicy := DefaultRetryPolicy; attempts := ∅ |}.
Definition init (cfg : Config) : st := {| eng := NewEngine cfg; tr := [] |}.

Section Engine.
Context `{env : Env} `{U : UnicodeTables}.

Definition do_call {T} (c : call T) : M T := fun s =>
  (answer (tr s) c, {| eng := eng s; tr := tr s ++ [Ev c] |}).

(** *** Failsafe *)

Definition Activate : M unit :=
  active ← get fs_active;
  if (active : bool) then mret tt
  else do_call NetTeardownRouting ;; upd (set_fs true).
Definition Deactivate : M unit :=
  active ← get fs_active;
  if (active : bool) then upd (set_fs false) else mret tt.
Definition IsActive : M bool := get fs_active.

(** *** Transitions *)

Definition transition (next : State) : M unit :=
  prev ← get state;
  upd (fun e => set_attempts (delete prev (attempts e)) e) ;;
  upd (set_state next) ;;
  do_call (Notify prev next).

(** *** The handlers; the result is the returned error *)

Definition checkPrivileges : M (result unit) :=
  os ← do_call Goos;
  if decide (os = windows) then mret (Ok tt)
  else
    uid ← do_call Getuid;
    mret (fail_if (negb (uid =? 0)) ("must run as root (current uid=" +:+ itoa uid +:+ ")")).

Definition doSaveNetwork : M (result unit) :=
  r ← do_call NetSaveConfig;
  match r with
  | Err e => mret (Err e)
  | Ok saved => upd (set_savedNet (Some saved)) ;; transition StateCreateTAP ;; mret (Ok tt)
  end.

Definition doCreateTAP : M (result unit) :=
  cfg ← get Cfg;
  match ParseIP (HostIP cfg), ParseIP (VMIP cfg), ParseIP (SubnetMask cfg) with
  | None, _, _ => mret (Err (Errorf ("invalid HostIP: " +:+ Quote (HostIP cfg))))
  | _, None, _ => mret (Err (Errorf ("invalid VMIP: " +:+ Quote (VMIP cfg))))
  | _, _, None => mret (Err (Errorf ("invalid SubnetMask: " +:+ Quote (SubnetMask cfg))))
  | Some hostIP, Some vmIP, Some maskIP =>
      r ← do_call (NetCreateTAP (TAPName cfg) hostIP vmIP (To4 maskIP));
      match r with
      | Err e => mret (Err e)
      | Ok _ => transition StateLaunchVM ;; mret (Ok tt)
      end
  end.

Definition doLaunchVM : M (result unit) :=
  r ← do_call VMStart;
  match r with
  | Err e => mret (Err e)
  | Ok _ => transition StateWaitTAP ;; mret (Ok tt)
  end.

Definition address (port : Config -> Z) (cfg : Config) : string := VMIP cfg +:+ ":" +:+ itoa (port cfg).
Definition maxBackoff : Z := 10 * Second.
Definition next_backoff (b : Z) : Z := if maxBackoff <? b * 2 then maxBackoff else b * 2.

(** The polling loops: one unit of fuel per iteration; [None] is no fuel left. *)
Fixpoint wait_tap_loop (fuel : nat) (deadline backoff : Z) : M (option (result unit)) :=
  match fuel with
  | O => mret None
  | S f =>
      now ← do_call Now;
      if negb (now <? deadline) then mret (Some (Err (Errorf "TAP connect timeout after 1m0s")))
      else
        cerr ← do_call CtxErr;
        match cerr with
        | Some e => mret (Some (Err e))
        | None =>
            up ← do_call VMIsRunning;
            if negb (up : bool) then mret (Some (Err (Errorf "VM exited during TAP wait")))
            else
              cfg ← get Cfg;
              conn ← do_call (Dial (address ControlPort cfg));
              match conn with
              | Ok _ => transition StateConfigureTAP ;; mret (Some (Ok tt))
              | Err _ => do_call (Sleep backoff) ;; wait_tap_loop f deadline (next_backoff backoff)
              end
        end
  end.
Definition tap_fuel : nat := 11.
Definition doWaitTAP : M (option (result unit)) :=
  now ← do_call Now;
  wait_tap_loop tap_fuel (now + 60 * Second) (500 * Millisecond).

Definition doConfigureTAP : M (result unit) :=
  cfg ← get Cfg;
  match ParseIP (VMIP cfg) with
  | None => mret (Err (Errorf ("invalid VMIP: " +:+ Quote (VMIP cfg))))
  | Some vmIP =>
      r ← do_call (NetSetupRouting (TAPName cfg) vmIP);
      match r with
      | Err e => mret (Err e)
      | Ok _ => transition StateFlushDNS ;; mret (Ok tt)
      end
  end.

Definition doFlushDNS : M (result unit) :=
  do_call NetFlushDNS ;;
  cfg ← get Cfg;
  client ← do_call (NewControlClient (address ControlPort cfg));
  (match client with
   | Err _ => mret tt
   | Ok _ =>
       auth ← do_call (TorAuthenticate EmptyString);
       match auth with
       | Err _ => do_call TorClose
       | Ok _ => upd (set_TorControl true)
       end
   end) ;;
  transition StateWaitBootstrap ;; mret (Ok tt).

(** One probe of the bootstrap loop: true when Tor is ready. *)
Definition bootstrap_probe : M bool :=
  ctl ← get TorControl;
  if (ctl : bool) then
    status ← do_call TorBootstrapStatus;
    match status with
    | Ok s => do_call (BootstrapProgress (Progress s) (Summary s)) ;; mret (100 <=? Progress s)
    | Err _ => mret false
    end
  else
    cfg ← get Cfg;
    conn ← do_call (Dial (address SOCKSPort cfg));
    mret (is_ok conn).

Fixpoint wait_bootstrap_loop (fuel : nat) (deadline backoff : Z) : M (option (result unit)) :=
  match fuel with
  | O => mret None
  | S f =>
      now ← do_call Now;
      if negb (now <? deadline) then mret (Some (Err (Errorf "Tor bootstrap timeout after 5m0s")))
      else
        cerr ← do_call CtxErr;
        match cerr with
        | Some e => mret (Some (Err e))
        | None =>
            up ← do_call VMIsRunning;
            if negb (up : bool) then mret (Some (Err (Errorf "VM exited during bootstrap")))
            else
              ready ← bootstrap_probe;
              if (ready : bool) then transition StateRunning ;; mret (Some (Ok tt))
              else do_call (Sleep backoff) ;; wait_bootstrap_loop f deadline (next_backoff backoff)
        end
  end.
Definition bootstrap_fuel : nat := 34.
Definition doWaitBootstrap : M (option (result unit)) :=
  now ← do_call Now;
  wait_bootstrap_loop bootstrap_fuel (now + 300 * Second) Second.

Definition doRunning : M (result unit) :=
  Deactivate ;;
  err ← do_call VMWait;
  (match err with
   | Ok _ => mret tt
   | Err _ => cerr ← do_call CtxErr; match cerr with None => Activate | Some _ => mret tt end
   end) ;;
  transition StateShutdown ;; mret (Ok tt).

Definition doShutdown : M (result unit) :=
  ctl ← get TorControl;
  (if (ctl : bool) then do_call TorClose ;; upd (set_TorControl false) else mret tt) ;;
  up ← do_call VMIsRunning;
  (if (up : bool) then do_call VMStop ;; mret tt else mret tt) ;;
  transition StateRestoreNetwork ;; mret (Ok tt).

Definition doRestoreNetwork : M (result unit) :=
  r ← do_call NetTeardownRouting;
  (match r with Err _ => Activate | Ok _ => mret tt end) ;;
  saved ← get savedNet;
  (match saved with Some cfg => do_call (NetRestoreConfig cfg) ;; mret tt | None => mret tt end) ;;
  cfg ← get Cfg;
  do_call (NetDestroyTAP (TAPName cfg)) ;;
  transition StateCleanup ;; mret (Ok tt).

Definition doCleanup : M (result unit) := Deactivate ;; mret (Ok tt).

(** *** The loop *)

Inductive handled :=
  | Returns (r : result unit)  (* [return] from [Run] *)
  | Continues (err : result unit)  (* the value of [err] after the [switch] *)
  | Spins. (* fuel of a polling loop exhausted *)

Definition polled (r : option (result unit)) : handled :=
  match r with Some err => Continues err | None => Spins end.

(** The [switch]. *)
Definition handle (s : State) : M handled :=
  match s with
  | StateInit => transition StateCheckPrivileges ;; mret (Continues (Ok tt))
  | StateCheckPrivileges =>
      err ← checkPrivileges;
      match err with
      | Err e => mret (Returns (Err e))
      | Ok _ => transition StateSaveNetwork ;; mret (Continues (Ok tt))
      end
  | StateSaveNetwork => Continues <$> doSaveNetwork
  | StateCreateTAP => Continues <$> doCreateTAP
  | StateLaunchVM => Continues <$> doLaunchVM
  | StateWaitTAP => polled <$> doWaitTAP
  | StateConfigureTAP => Continues <$> doConfigureTAP
  | StateFlushDNS => Continues <$> doFlushDNS
  | StateWaitBootstrap => polled <$> doWaitBootstrap
  | StateRunning => Continues <$> doRunning
  | StateShutdown => Continues <$> doShutdown
  | StateRestoreNetwork => Continues <$> doRestoreNetwork
  | StateCleanup => Returns <$> doCleanup
  | StateFailed => mret (Returns (Err (Errorf "lifecycle: entered failed state")))
  end.

(** [if err != nil { ... }]. *)
Definition on_error (err : error) : M unit :=
  s ← get state;
  pol ← get retryPolicy;
  att ← get attempts;
  rnd ← do_call Float64;
  let '(retry, delay) := ShouldRetry s (Some err) (default 0 (att !! s)) (pol !! s) rnd in
  if (retry : bool) then
    upd (fun e => set_attempts (<[s := default 0 (att !! s) + 1]> att) e) ;;
    timer ← do_call (RetryWait delay);
    if (timer : bool) then mret tt else transition StateShutdown
  else
    Activate ;; transition StateShutdown.

Inductive outcome := Returned (r : result unit) | OutOfFuel.

(** One iteration of the [for] loop: [Some] is a return. *)
Definition iteration : M (option outcome) :=
  cerr ← do_call CtxErr;
  (match cerr with Some _ => transition StateShutdown | None => mret tt end) ;;
  s ← get state;
  h ← handle s;
  match h with
  | Returns r => mret (Some (Returned r))
  | Spins => mret (Some OutOfFuel)
  | Continues (Ok _) => mret None
  | Continues (Err e) => on_error e ;; mret None
  end.

Fixpoint Run (fuel : nat) : M outcome :=
  match fuel with
  | O => mret OutOfFuel
  | S f => o ← iteration; match o with Some r => mret r | None => Run f end
  end.

(** *** Requests from outside the loop *)

Definition NewIdentity : M (result unit) :=
  ctl ← get TorControl;
  if (ctl : bool) then do_call (TorSignal "NEWNYM")
  else mret (Err (Errorf "tor control not connected")).

(** The part of [ReloadConfig] that talks to Tor. *)
Definition push_config (newCfg : Config) : M (result unit) :=
  match TorrcOverlay newCfg with
  | Err e => mret (Err (Errorf ("config reload: generate torrc overlay: " +:+ Error e)))
  | Ok overlay =>
      r ← (if decide (overlay = EmptyString) then mret (Ok tt)
           else do_call (TorSetConf (parseTorrcOverlay overlay)));
      match r with
      | Err e => mret (Err (Errorf ("config reload: setconf: " +:+ Error e)))
      | Ok _ => do_call (TorSignal "RELOAD") ;; mret (Ok tt)
      end
  end.

Definition ReloadConfig (newCfg : Config) : M (result unit) :=
  cfg ← get Cfg;
  let diff := Diff cfg newCfg in
  if negb (HasChanges diff) then mret (Ok tt)
  else
    ctl ← get TorControl;
    s ← get state;
    r ← (if negb (bool_decide (HotReloadable diff = [])) && ctl && bool_decide (s = StateRunning)
         then push_config newCfg else mret (Ok tt));
    match r with
    | Err e => mret (Err e)
    | Ok _ =>
        (if Bool.eqb (Verbose newCfg) (Verbose cfg) then mret tt else do_call (SetVerbose (Verbose newCfg))) ;;
        upd (set_Cfg newCfg) ;; mret (Ok tt)
    end.
End Engine.
