(* ===== verification/LifecycleFacts.v ===== *)
(** * The engine: what one iteration does, and what every run does *)

From Stdlib Require Import SpecFloat.
From S2P Require Import Prelude GoStrings StringFacts GoFloats NetIP Config Torrc Control Network Retry Lifecycle.
Local Open Scope Z_scope.

(** ** Reading a history *)

(** The transitions of a history. *)
Definition trail_of (e : event) : option (State * State) :=
  match e with Ev c => match c with Notify a b => Some (a, b) | _ => None end end.
Definition trail (l : list event) : list (State * State) := omap trail_of l.

(** The calls that change the host or start the VM. *)
Definition touches (e : event) : bool :=
  match e with Ev c =>
    match c with NetCreateTAP _ _ _ _ | NetSetupRouting _ _ | VMStart => true | _ => false end end.
Definition untouched (l : list event) : Prop := Forall (fun e => touches e = false) l.

(** The handlers a call can come from; [true] for every handler. *)
Definition allowed (x : State) (e : event) : bool :=
  match e with Ev c =>
    match c with
    | NetCreateTAP _ _ _ _ => bool_decide (x = StateCreateTAP)
    | NetSetupRouting _ _ => bool_decide (x = StateConfigureTAP)
    | VMStart => bool_decide (x = StateLaunchVM)
    | NetRestoreConfig _ | NetDestroyTAP _ => bool_decide (x = StateRestoreNetwork)
    | NetTeardownRouting => bool_decide (x = StateRestoreNetwork \/ x = StateRunning)
    | _ => true
    end end.

(** The state after a handler that succeeds. *)
Definition next_state (s : State) : State :=
  match s with
  | StateInit => StateCheckPrivileges
  | StateCheckPrivileges => StateSaveNetwork
  | StateSaveNetwork => StateCreateTAP
  | StateCreateTAP => StateLaunchVM
  | StateLaunchVM => StateWaitTAP
  | StateWaitTAP => StateConfigureTAP
  | StateConfigureTAP => StateFlushDNS
  | StateFlushDNS => StateWaitBootstrap
  | StateWaitBootstrap => StateRunning
  | StateRunning => StateShutdown
  | StateShutdown => StateRestoreNetwork
  | StateRestoreNetwork => StateCleanup
  | StateCleanup => StateCleanup
  | StateFailed => StateFailed
  end.

Definition moved (h : handled) : bool := match h with Continues (Ok _) => true | _ => false end.

Record handle_spec (x : State) (s : st) (h : handled) (s' : st) : Prop := {
  hs_cfg : Cfg (eng s') = Cfg (eng s);
  hs_policy : retryPolicy (eng s') = retryPolicy (eng s);
  hs_tr : exists evs, tr s' = tr s ++ evs /\ Forall (fun e => allowed x e = true) evs /\
            trail evs = (if moved h then [(x, next_state x)] else []);
  hs_state : state (eng s') = (if moved h then next_state x else x);
  hs_attempts : attempts (eng s') = (if moved h then delete x (attempts (eng s)) else attempts (eng s));
  hs_saved : x <> StateSaveNetwork -> savedNet (eng s') = savedNet (eng s);
  hs_returns : forall r, h = Returns r ->
    (x = StateCheckPrivileges \/ x = StateFailed) /\ is_ok r = false \/ x = StateCleanup /\ r = Ok tt;
  hs_error : forall e, h = Continues (Err e) ->
    x ∈ [StateSaveNetwork; StateCreateTAP; StateLaunchVM; StateWaitTAP; StateConfigureTAP; StateWaitBootstrap]
}.

(** Unfold the monad and the handlers in [H : m s = (a, s')] down to the
    answers of the environment. *)
Ltac exec H :=
  cbv [handle checkPrivileges doSaveNetwork doCreateTAP doLaunchVM doConfigureTAP doFlushDNS doRunning doShutdown
       doRestoreNetwork doCleanup bootstrap_probe Activate Deactivate transition mbind M_bind mret M_ret fmap M_fmap do_call upd get
       set_state set_savedNet set_TorControl set_fs set_attempts set_Cfg
       eng tr Cfg state savedNet TorControl fs_active retryPolicy attempts polled] in H.

(** Close a [handle_spec] goal whose final state is explicit. *)
Ltac spec_tac :=
  split; cbn [eng tr Cfg state savedNet TorControl fs_active retryPolicy attempts moved next_state];
  [done|done
  |eexists; split;
     [first [rewrite <- !app_assoc; reflexivity|reflexivity|symmetry; apply app_nil_r]
     |split; [repeat constructor|reflexivity]]
  |done|done|done
  |intros ? [= <-]; first [by right|by left; split; [left|]|by left; split; [right|]]
  |intros ? [= <-]; by repeat first [left|right] ].

(** Case on every answer in the body of a polling loop. *)
Ltac loop_cases H :=
  repeat match type of H with
  | context [match ?x with _ => _ end] =>
      lazymatch x with
      | context [match _ with _ => _ end] => fail
      | _ => destruct x eqn:?; exec H; simplify_eq
      end
  end; cbn [polled]; try (by spec_tac).

Lemma trail_app (l1 l2 : list event) : trail (l1 ++ l2) = trail l1 ++ trail l2.
Proof. apply omap_app. Qed.

(** Quiet calls before a handler do not change its summary. *)
Lemma handle_spec_prefix (x : State) (s s1 s' : st) (h : handled) (evs : list event) :
  eng s1 = eng s -> tr s1 = tr s ++ evs -> Forall (fun e => allowed x e = true) evs -> trail evs = [] ->
  handle_spec x s1 h s' -> handle_spec x s h s'.
Proof.
  intros He Ht Ha Hq [Hc Hp (evs' & Htr & Hal & Hn) Hs Hat Hsv Hr Herr]. rewrite He, Ht in *.
  split; try done. exists (evs ++ evs'). rewrite app_assoc, trail_app, Hq. split_and!; [done| |done].
  by apply Forall_app.
Qed.

Section Handlers.
Context `{env : Env} `{U : UnicodeTables}.

Lemma handle_straight (x : State) (s s' : st) (h : handled) :
  state (eng s) = x -> x <> StateWaitTAP -> x <> StateWaitBootstrap ->
  handle x s = (h, s') -> handle_spec x s h s'.
Proof.
  intros Hx Ht Hb H. destruct s as [[cfg x0 sv ctl fs pol att] t]; simpl in Hx; subst x0.
  destruct x; try done; exec H; simplify_eq; repeat (case_match; simplify_eq); spec_tac.
Qed.

Lemma wait_tap_spec (fuel : nat) (deadline backoff : Z) (s s' : st) (r : option (result unit)) :
  state (eng s) = StateWaitTAP -> wait_tap_loop fuel deadline backoff s = (r, s') ->
  handle_spec StateWaitTAP s (polled r) s'.
Proof.
  revert backoff s. induction fuel as [|f IH]; intros backoff s Hx H;
    destruct s as [[cfg x0 sv ctl fs pol att] t]; simpl in Hx; subst x0; cbn [wait_tap_loop] in H; exec H.
  - simplify_eq. cbn [polled]. spec_tac.
  - loop_cases H. 
    eapply handle_spec_prefix; [..|eapply IH; [|exact H]]; cbn [eng tr state]; [done| | | |done].
    + rewrite <- !app_assoc. reflexivity.
    + repeat constructor.
    + done.
Qed.

Lemma wait_bootstrap_spec (fuel : nat) (deadline backoff : Z) (s s' : st) (r : option (result unit)) :
  state (eng s) = StateWaitBootstrap -> wait_bootstrap_loop fuel deadline backoff s = (r, s') ->
  handle_spec StateWaitBootstrap s (polled r) s'.
Proof.
  revert backoff s. induction fuel as [|f IH]; intros backoff s Hx H;
    destruct s as [[cfg x0 sv ctl fs pol att] t]; simpl in Hx; subst x0; cbn [wait_bootstrap_loop] in H; exec H.
  - simplify_eq. cbn [polled]. spec_tac.
  - destruct ctl; loop_cases H.
    all: eapply handle_spec_prefix; [..|eapply IH; [|exact H]]; cbn [eng tr state];
      [done|rewrite <- !app_assoc; reflexivity|repeat constructor|done|done].
Qed.

Lemma handle_ok (x : State) (s s' : st) (h : handled) :
  state (eng s) = x -> handle x s = (h, s') -> handle_spec x s h s'.
Proof.
  intros Hx H. destruct (decide (x = StateWaitTAP)) as [->|Ht].
  { unfold handle, doWaitTAP, fmap, M_fmap, mbind, M_bind, do_call in H.
    destruct (wait_tap_loop _ _ _ _) as [r s1] eqn:Hw. injection H as <- <-.
    eapply handle_spec_prefix; [..|eapply wait_tap_spec; [|exact Hw]]; [done|done|by repeat constructor|done|done]. }
  destruct (decide (x = StateWaitBootstrap)) as [->|Hb].
  { unfold handle, doWaitBootstrap, fmap, M_fmap, mbind, M_bind, do_call in H.
    destruct (wait_bootstrap_loop _ _ _ _) as [r s1] eqn:Hw. injection H as <- <-.
    eapply handle_spec_prefix; [..|eapply wait_bootstrap_spec; [|exact Hw]]; [done|done|by repeat constructor|done|done]. }
  by apply handle_straight.
Qed.
End Handlers.

(** ** The error path and the loop head *)

Record error_spec (x : State) (s s' : st) : Prop := {
  es_cfg : Cfg (eng s') = Cfg (eng s);
  es_policy : retryPolicy (eng s') = retryPolicy (eng s);
  es_saved : savedNet (eng s') = savedNet (eng s);
  es_tr : exists evs, tr s' = tr s ++ evs /\ untouched evs /\
            trail evs = (if decide (state (eng s') = x) then [] else [(x, StateShutdown)]);
  es_next :
    (state (eng s') = x /\ exists p, retryPolicy (eng s) !! x = Some p /\
       default 0 (attempts (eng s) !! x) < MaxAttempts p /\
       attempts (eng s') = <[x := default 0 (attempts (eng s) !! x) + 1]> (attempts (eng s))) \/
    (state (eng s') = StateShutdown /\ attempts (eng s') = delete x (attempts (eng s)))
}.

Section Loop.
Context `{env : Env} `{U : UnicodeTables}.

Lemma on_error_spec (x : State) (e : error) (s s' : st) :
  state (eng s) = x -> x <> StateShutdown -> on_error e s = (tt, s') -> error_spec x s s'.
Proof.
  intros Hx Hn H. destruct s as [[cfg x0 sv ctl fs pol att] t]; simpl in Hx; subst x0.
  unfold on_error in H. exec H.
  destruct (ShouldRetry x (Some e) (default 0 (att !! x)) (pol !! x) (answer t Float64)) as [b d] eqn:Hs.
  destruct b.
  - assert (exists p, pol !! x = Some p /\ default 0 (att !! x) < MaxAttempts p) as (p & Hp & Hlt).
    { pose proof (proj1 (ShouldRetry_decision x (Some e) (default 0 (att !! x)) (pol !! x) (answer t Float64))) as Hr.
      rewrite Hs in Hr. destruct (Hr eq_refl) as (p & Hp & Hlt & _). by exists p. }
    loop_cases H; (split; cbn [eng tr Cfg state savedNet retryPolicy attempts]; try done;
      [eexists; rewrite <- !app_assoc; split; [reflexivity|split; [by repeat constructor|]]|]).
    + by rewrite decide_True.
    + left. split; [done|]. by exists p.
    + by rewrite decide_False.
    + right. split; [done|]. apply delete_insert_eq.
  - loop_cases H; (split; cbn [eng tr Cfg state savedNet retryPolicy attempts]; try done;
      [eexists; rewrite <- ?app_assoc; split; [reflexivity|split; [by repeat constructor|by rewrite decide_False]]
      |right; done]).
Qed.

(** The first statements of an iteration, up to the [switch]. *)
Definition head : M unit :=
  cerr ← do_call CtxErr;
  match cerr with Some _ => transition StateShutdown | None => mret tt end.

Lemma iteration_unfold (s : st) :
  iteration s =
  let s1 := (head s).2 in
  let '(h, s2) := handle (state (eng s1)) s1 in
  match h with
  | Returns r => (Some (Returned r), s2)
  | Spins => (Some OutOfFuel, s2)
  | Continues (Ok _) => (None, s2)
  | Continues (Err e) => (None, (on_error e s2).2)
  end.
Proof.
  unfold iteration, head, mbind, M_bind, get. destruct (do_call CtxErr s) as [cerr s0].
  destruct (match cerr with Some _ => transition StateShutdown | None => mret tt end s0) as [u s1]. simpl.
  destruct (handle (state (eng s1)) s1) as [[r|[[]|e]|] s2]; try done.
  by destruct (on_error e s2).
Qed.

Lemma head_spec (s : st) :
  let s1 := (head s).2 in
  Cfg (eng s1) = Cfg (eng s) /\ retryPolicy (eng s1) = retryPolicy (eng s) /\
  savedNet (eng s1) = savedNet (eng s) /\
  (s1 = {| eng := eng s; tr := tr s ++ [Ev CtxErr] |} /\ answer (tr s) CtxErr = None \/
   answer (tr s) CtxErr <> None /\ state (eng s1) = StateShutdown /\
   attempts (eng s1) = delete (state (eng s)) (attempts (eng s)) /\
   tr s1 = tr s ++ [Ev CtxErr; Ev (Notify (state (eng s)) StateShutdown)]).
Proof.
  destruct s as [[cfg x sv ctl fs pol att] t]. unfold head, mbind, M_bind, do_call. cbn [tr eng]. destruct (answer t CtxErr) as [e|]; simpl.
  - split_and!; try done. right. rewrite <- app_assoc. by split_and!.
  - split_and!; try done. by left.
Qed.
End Loop.

(** ** The invariant of the loop *)

(** The edges of the state machine: the next phase, or shutdown. *)
Definition edge (a b : State) : bool :=
  bool_decide (b = next_state a /\ a <> b) || bool_decide (b = StateShutdown).
(** Walk a list of transitions; [None] when it is no path. *)
Fixpoint follow (s : State) (l : list (State * State)) : option State :=
  match l with
  | [] => Some s
  | (a, b) :: l' => if decide (a = s) then if edge a b then follow b l' else None else None
  end.
Lemma follow_app (s : State) (l1 l2 : list (State * State)) :
  follow s (l1 ++ l2) = match follow s l1 with Some s' => follow s' l2 | None => None end.
Proof.
  revert s. induction l1 as [|[a b] l1 IH]; intros s; [done|]. simpl.
  destruct (decide _); [|done]. by destruct (edge a b).
Qed.
Lemma follow_one (s : State) (l : list (State * State)) (a b : State) :
  follow s l = Some a -> edge a b = true -> follow s (l ++ [(a, b)]) = Some b.
Proof. intros Hf He. rewrite follow_app, Hf. simpl. by rewrite decide_True, He. Qed.

Section Invariant.
Context `{env : Env} `{U : UnicodeTables}.

(** The VM was seen not to run, or [VM.Stop] was called, and it was not started
    since.  What [VM.Stop] answered is not looked at, as in the code. *)
Definition stop_called (t : list event) : Prop :=
  exists a b, t = a ++ Ev VMIsRunning :: b /\ untouched b /\
    (answer a VMIsRunning = false \/ Ev VMStop ∈ b).
(** The calls that put the network back were made, in this order: the tear-down
    of routing, the restoring of the saved configuration (if there is one), the
    destruction of the TAP device; and none that sets anything up since.  Their
    answers are not looked at: the code logs their errors and goes on. *)
Definition restore_called (cfg : Config) (saved : option SavedConfig) (t : list event) : Prop :=
  exists pre mid post,
    t = pre ++ Ev NetTeardownRouting :: mid ++ Ev (NetDestroyTAP (TAPName cfg)) :: post /\
    stop_called pre /\ untouched mid /\ untouched post /\
    forall c, saved = Some c -> Ev (NetRestoreConfig c) ∈ mid.

Lemma untouched_app (l1 l2 : list event) : untouched (l1 ++ l2) <-> untouched l1 /\ untouched l2.
Proof. apply Forall_app. Qed.

Lemma stop_called_app (t evs : list event) : stop_called t -> untouched evs -> stop_called (t ++ evs).
Proof.
  intros (a & b & -> & Hb & Hv) He. exists a, (b ++ evs). rewrite <- app_assoc. split; [done|].
  rewrite untouched_app. split; [done|]. destruct Hv; [by left|]. right. apply elem_of_app. by left.
Qed.
Lemma restore_called_app (cfg : Config) (sv : option SavedConfig) (t evs : list event) :
  restore_called cfg sv t -> untouched evs -> restore_called cfg sv (t ++ evs).
Proof.
  intros (pre & mid & post & -> & Hv & Hm & Hp & Hs) He. exists pre, mid, (post ++ evs).
  rewrite untouched_app. split_and!; try done. by rewrite <- !app_assoc; simpl; rewrite <- !app_assoc.
Qed.

Lemma shutdown_stops (s s' : st) (h : handled) :
  state (eng s) = StateShutdown -> handle StateShutdown s = (h, s') ->
  h = Continues (Ok tt) /\ stop_called (tr s').
Proof.
  intros Hx H. destruct s as [[cfg x0 sv ctl fs pol att] t]; simpl in Hx; subst x0. exec H.
  destruct ctl; loop_cases H; (split; [done|]); cbn [tr]; rewrite <- ?app_assoc; cbn [app].
  - exists (t ++ [Ev TorClose]), [Ev VMStop; Ev (Notify StateShutdown StateRestoreNetwork)].
    rewrite <- app_assoc. split; [done|split; [by repeat constructor|right; by left]].
  - exists (t ++ [Ev TorClose]), [Ev (Notify StateShutdown StateRestoreNetwork)].
    rewrite <- app_assoc. split; [done|split; [by repeat constructor|by left]].
  - exists t, [Ev VMStop; Ev (Notify StateShutdown StateRestoreNetwork)].
    split; [done|split; [by repeat constructor|right; by left]].
  - exists t, [Ev (Notify StateShutdown StateRestoreNetwork)].
    split; [done|split; [by repeat constructor|by left]].
Qed.

Lemma restore_restores (s s' : st) (h : handled) :
  state (eng s) = StateRestoreNetwork -> stop_called (tr s) -> handle StateRestoreNetwork s = (h, s') ->
  h = Continues (Ok tt) /\ restore_called (Cfg (eng s')) (savedNet (eng s')) (tr s').
Proof.
  intros Hx Hv H. destruct s as [[cfg x0 sv ctl fs pol att] t]; simpl in Hx, Hv; subst x0. exec H.
  destruct sv as [c|], fs; loop_cases H; (split; [done|]); cbn [tr eng Cfg savedNet];
    rewrite <- ?app_assoc; cbn [app].
  all: match goal with |- restore_called _ _ (?t ++ Ev NetTeardownRouting :: ?l) =>
    match l with
    | [Ev (NetDestroyTAP ?n); ?x] => exists t, [], [x]
    | [?m; Ev (NetDestroyTAP ?n); ?x] => exists t, [m], [x]
    | [?m; ?m'; Ev (NetDestroyTAP ?n); ?x] => exists t, [m; m'], [x]
    end end.
  all: split_and!; [done|done|by repeat constructor|by repeat constructor|].
  all: intros c' [=]; subst; by repeat first [left|right].
Qed.

Definition early (x : State) : bool :=
  match x with StateInit | StateCheckPrivileges | StateSaveNetwork => true | _ => false end.

Record Inv (s : st) : Prop := {
  inv_trail : follow StateInit (trail (tr s)) = Some (state (eng s));
  inv_early : early (state (eng s)) = true -> untouched (tr s);
  inv_stopped : state (eng s) = StateRestoreNetwork -> stop_called (tr s);
  inv_restored : state (eng s) = StateCleanup -> restore_called (Cfg (eng s)) (savedNet (eng s)) (tr s);
  inv_failed : state (eng s) <> StateFailed;
  inv_attempts : forall x, x <> state (eng s) -> attempts (eng s) !! x = None;
  inv_bound : 0 <= default 0 (attempts (eng s) !! state (eng s)) <=
    Z.max 0 (default 0 (MaxAttempts <$> retryPolicy (eng s) !! state (eng s)))
}.

Lemma init_Inv (cfg : Config) : Inv (init cfg).
Proof.
  split; cbn [init NewEngine eng tr state attempts]; try done.
  by vm_compute.
Qed.

Lemma allowed_untouched (x : State) (evs : list event) :
  x <> StateCreateTAP -> x <> StateConfigureTAP -> x <> StateLaunchVM ->
  Forall (fun e => allowed x e = true) evs -> untouched evs.
Proof.
  intros H1 H2 H3 H. eapply Forall_impl; [exact H|]. intros [T c].
  destruct c; simpl; try done; intros Hb%bool_decide_eq_true; done.
Qed.

Lemma delete_all (a : State) (att : gmap State Z) :
  (forall x, x <> a -> att !! x = None) -> forall x, delete a att !! x = None.
Proof.
  intros H x. destruct (decide (x = a)) as [->|Hn]; [apply lookup_delete_eq|].
  rewrite lookup_delete_ne by done. by apply H.
Qed.

Lemma head_Inv (s : st) : Inv s -> Inv (head s).2.
Proof.
  intros [Ht He Hst Hr Hf Ha Hb]. destruct (head_spec s) as (Hc & Hp & Hs & [[-> _]|(_ & Hstate & Hatt & Htr)]).
  - split; cbn [eng tr]; try done.
    + by rewrite trail_app, app_nil_r.
    + intros. apply untouched_app. split; [by apply He|by repeat constructor].
    + intros. apply stop_called_app; [by apply Hst|by repeat constructor].
    + intros. apply restore_called_app; [by apply Hr|by repeat constructor].
  - assert (forall x, attempts (eng (head s).2) !! x = None) as Hz.
    { rewrite Hatt. by apply delete_all. }
    split; rewrite ?Hstate; try done.
    + rewrite Htr, trail_app. simpl. apply follow_one; [done|].
      unfold edge. by rewrite (bool_decide_eq_true_2 (StateShutdown = StateShutdown)), orb_true_r.
    + rewrite Hz. simpl. lia.
Qed.

Lemma next_edge (x : State) : x <> StateCleanup -> x <> StateFailed -> edge x (next_state x) = true.
Proof. by destruct x. Qed.

Lemma handle_Inv (s s' : st) :
  Inv s -> handle (state (eng s)) s = (Continues (Ok tt), s') -> Inv s'.
Proof.
  intros [Ht He Hst Hr Hf Ha Hb] H.
  pose proof (handle_ok _ _ _ _ eq_refl H) as [Hc Hp (evs & Htr & Hal & Hn) Hs Hat Hsv _ _].
  cbn [moved] in *.
  assert (state (eng s) <> StateCleanup) as Hnc.
  { intros Hx. rewrite Hx in H. unfold handle, doCleanup, fmap, M_fmap, mbind, M_bind in H.
    by destruct (Deactivate s). }
  assert (forall x, attempts (eng s') !! x = None) as Hz by (rewrite Hat; by apply delete_all).
  split; rewrite ?Hs.
  - rewrite Htr, trail_app, Hn. apply follow_one; [done|by apply next_edge].
  - intros Hx. assert (early (state (eng s)) = true) as Hx' by by destruct (state (eng s)).
    assert (untouched evs) as Hu by by apply (allowed_untouched (state (eng s))); destruct (state (eng s)).
    rewrite Htr. apply untouched_app. split; [by apply He|done].
  - intros Hx. assert (state (eng s) = StateShutdown) as Hx' by by destruct (state (eng s)).
    rewrite Hx' in H. by apply (shutdown_stops s s' _ Hx') in H as [_ ?].
  - intros Hx. assert (state (eng s) = StateRestoreNetwork) as Hx' by by destruct (state (eng s)).
    rewrite Hx' in H. by apply (restore_restores s s' _ Hx' (Hst Hx')) in H as [_ ?].
  - intros Hx. by destruct (state (eng s)).
  - done.
  - rewrite Hz. simpl. lia.
Qed.

Definition failing : list State :=
  [StateSaveNetwork; StateCreateTAP; StateLaunchVM; StateWaitTAP; StateConfigureTAP; StateWaitBootstrap].

Lemma failing_plain (x : State) : x ∈ failing ->
  x <> StateShutdown /\ x <> StateRestoreNetwork /\ x <> StateCleanup /\ x <> StateFailed.
Proof. intros H. apply (bool_decide_pack _) in H. by destruct x. Qed.

(** A handler that fails stays in its phase and keeps the invariant. *)
Lemma error_Inv (s s' : st) (e : error) :
  Inv s -> handle (state (eng s)) s = (Continues (Err e), s') ->
  Inv s' /\ state (eng s') = state (eng s) /\ state (eng s) ∈ failing.
Proof.
  intros [Ht He Hst Hr Hf Ha Hb] H.
  pose proof (handle_ok _ _ _ _ eq_refl H) as [Hc Hp (evs & Htr & Hal & Hn) Hs Hat Hsv _ Her].
  cbn [moved] in *. pose proof (Her e eq_refl) as Hfail. fold failing in Hfail.
  destruct (failing_plain _ Hfail) as (? & ? & ? & ?). split; [|done].
  split; rewrite ?Hs, ?Hat, ?Hp; try done.
  - by rewrite Htr, trail_app, Hn, app_nil_r.
  - intros Hx. rewrite Htr. apply untouched_app. split; [by apply He|].
    by apply (allowed_untouched (state (eng s))); destruct (state (eng s)).
Qed.

Lemma on_error_Inv (s s' : st) (e : error) :
  Inv s -> state (eng s) ∈ failing -> on_error e s = (tt, s') -> Inv s'.
Proof.
  intros [Ht He Hst Hr Hf Ha Hb] Hfail H. destruct (failing_plain _ Hfail) as (? & ? & ? & ?).
  destruct (on_error_spec _ _ _ _ eq_refl ltac:(done) H) as [Hc Hp Hsv (evs & Htr & Hu & Hn) Hnext].
  destruct Hnext as [(Hs & p & Hpol & Hlt & Hat)|(Hs & Hat)]; rewrite Hs in Hn.
  - rewrite decide_True in Hn by done. split; rewrite ?Hs, ?Hp; try done.
    + by rewrite Htr, trail_app, Hn, app_nil_r.
    + intros Hx. rewrite Htr. apply untouched_app. split; [by apply He|done].
    + intros x Hx. rewrite Hat, lookup_insert_ne by done. by apply Ha.
    + rewrite Hat, lookup_insert_eq, Hpol in *. simpl in *. lia.
  - rewrite decide_False in Hn by done. split; rewrite ?Hs; try done.
    + rewrite Htr, trail_app, Hn. apply follow_one; [done|].
      unfold edge. by rewrite (bool_decide_eq_true_2 (StateShutdown = StateShutdown)), orb_true_r.
    + intros x _. rewrite Hat. by apply delete_all.
    + rewrite Hat, delete_all by done. simpl. lia.
Qed.

(** What a return of [Run] guarantees. *)
Definition returned_ok (r : result unit) (s : st) : Prop :=
  r = Ok tt /\ restore_called (Cfg (eng s)) (savedNet (eng s)) (tr s) \/
  is_ok r = false /\ untouched (tr s).

Lemma iteration_Inv (s s' : st) (o : option outcome) :
  Inv s -> iteration s = (o, s') ->
  match o with
  | None => Inv s'
  | Some (Returned r) => returned_ok r s'
  | Some OutOfFuel => True
  end.
Proof.
  intros HI%head_Inv. rewrite iteration_unfold. cbv zeta. set (s1 := (head s).2) in *.
  destruct (handle (state (eng s1)) s1) as [[r|[[]|e]|] s2] eqn:Hh; intros [= <- <-].
  - destruct HI as [_ He _ Hr Hf _ _].
    pose proof (handle_ok _ _ _ _ eq_refl Hh) as [Hc _ (evs & Htr & Hal & _) _ _ Hsv Hret _].
    assert (untouched evs) as Hu.
    { apply (allowed_untouched (state (eng s1))); [..|done];
        destruct (Hret r eq_refl) as [[[-> | ->] _]|[-> _]]; done. }
    unfold returned_ok. destruct (Hret r eq_refl) as [[[Hx|Hx] Hr']|[Hx ->]].
    + right. split; [done|]. rewrite Htr. apply untouched_app. split; [by apply He; rewrite Hx|done].
    + by rewrite Hx in Hf.
    + left. split; [done|]. rewrite Htr, Hc, Hsv by by rewrite Hx. apply restore_called_app; [by apply Hr|done].
  - by eapply handle_Inv.
  - destruct (error_Inv _ _ _ HI Hh) as (HI' & Hs & Hfl).
    destruct (on_error e s2) as [[] s3] eqn:Ho. eapply on_error_Inv; [exact HI'|by rewrite Hs|exact Ho].
  - done.
Qed.

Lemma Run_Inv (fuel : nat) (s s' : st) (r : result unit) :
  Inv s -> Run fuel s = (Returned r, s') -> returned_ok r s'.
Proof.
  revert s. induction fuel as [|f IH]; intros s HI H; [done|].
  cbn [Run] in H. unfold mbind, M_bind in H.
  destruct (iteration s) as [o s1] eqn:Hi. pose proof (iteration_Inv _ _ _ HI Hi) as Ho.
  destruct o as [[r'|]|]; [by injection H as <- <-|done|by eapply IH].
Qed.
End Invariant.

(** ** Every run follows the state machine *)

Section Path.
Context `{env : Env} `{U : UnicodeTables}.

Lemma iteration_trail (s s' : st) (o : option outcome) :
  Inv s -> iteration s = (o, s') -> follow StateInit (trail (tr s')) = Some (state (eng s')).
Proof.
  intros HI H. pose proof (iteration_Inv _ _ _ HI H) as Ho. destruct o; [|apply Ho].
  rewrite iteration_unfold in H. cbv zeta in H. pose proof (head_Inv _ HI) as [Ht _ _ _ _ _ _].
  destruct (handle _ _) as [[r|[[]|e]|] s2] eqn:Hh; simplify_eq;
    pose proof (handle_ok _ _ _ _ eq_refl Hh) as [_ _ (evs & Htr & _ & Hn) Hs _ _ _ _];
    cbn [moved] in *; by rewrite Htr, trail_app, Hn, app_nil_r, Hs.
Qed.

Lemma Run_trail (fuel : nat) (s s' : st) (o : outcome) :
  Inv s -> Run fuel s = (o, s') -> follow StateInit (trail (tr s')) = Some (state (eng s')).
Proof.
  revert s. induction fuel as [|f IH]; intros s HI H.
  { injection H as <- <-. apply HI. }
  cbn [Run] in H. unfold mbind, M_bind in H.
  destruct (iteration s) as [o' s1] eqn:Hi. pose proof (iteration_Inv _ _ _ HI Hi) as Ho.
  pose proof (iteration_trail _ _ _ HI Hi) as Hp. destruct o' as [r|].
  - by injection H as <- <-.
  - by eapply IH.
Qed.
End Path.

(** ** Termination *)

(** The documented behaviour of package [time]: the clock does not go back,
    and [Sleep(d)] lasts at least [d]. *)
Record clock_ok (env : Env) : Prop := {
  clock_mono : forall t t', answer t Now <= answer (t ++ t') Now;
  clock_sleep : forall t d, answer t Now + d <= answer (t ++ [Ev (Sleep d)]) Now
}.
(** A context that is never done: no cancellation, and every timer fires. *)
Record never_done (env : Env) : Prop := {
  nd_err : forall t, answer t CtxErr = None;
  nd_wait : forall t d, answer t (RetryWait d) = true
}.

(** The total of [n] sleeps from backoff [b]. *)
Fixpoint sleeps (n : nat) (b : Z) : Z :=
  match n with O => 0 | S n' => b + sleeps n' (next_backoff b) end.

Section Termination.
Context `{env : Env} `{U : UnicodeTables} (Hclock : clock_ok env).

Lemma clock_after (t evs : list event) (d : Z) :
  answer t Now + d <= answer (t ++ evs ++ [Ev (Sleep d)]) Now.
Proof.
  pose proof (clock_mono _ Hclock t evs). pose proof (clock_sleep _ Hclock (t ++ evs) d).
  rewrite <- app_assoc in *. lia.
Qed.

(** [n] sleeps that cover the time left are enough: the loop returns. *)
Lemma wait_tap_returns (n : nat) (deadline backoff : Z) (s : st) :
  deadline - answer (tr s) Now <= sleeps n backoff -> (wait_tap_loop (S n) deadline backoff s).1 <> None.
Proof.
  revert backoff s. induction n as [|n IH]; intros backoff s Hd;
    destruct s as [[cfg x sv ctl fs pol att] t]; cbn [tr sleeps] in Hd.
  - cbn [wait_tap_loop]. unfold mbind, M_bind, do_call. cbn [tr].
    assert ((answer t Now <? deadline) = false) as -> by (apply Z.ltb_ge; lia). done.
  - remember (S n) as m eqn:Hm. cbn [wait_tap_loop]. unfold mbind, M_bind, do_call, get. cbn [tr eng Cfg].
    destruct (negb _); [done|]. destruct (answer _ CtxErr); [done|]. destruct (negb _); [done|].
    destruct (answer _ (Dial _)) as [|e]; [done|]. subst m. apply IH. cbn [tr].
    rewrite <- !app_assoc.
    pose proof (clock_after t [Ev Now; Ev CtxErr; Ev VMIsRunning; Ev (Dial (address ControlPort cfg))] backoff).
    cbn [app eng Cfg] in *. lia.
Qed.

Lemma bootstrap_probe_tr (s : st) :
  exists evs, (bootstrap_probe s).2 = {| eng := eng s; tr := tr s ++ evs |}.
Proof.
  destruct s as [[cfg x sv ctl fs pol att] t].
  unfold bootstrap_probe, mbind, M_bind, mret, M_ret, do_call, get; cbn [eng tr TorControl].
  destruct ctl; [destruct (answer _ TorBootstrapStatus)|]; cbn [eng tr snd]; rewrite <- ?app_assoc; by eexists.
Qed.

Lemma wait_bootstrap_returns (n : nat) (deadline backoff : Z) (s : st) :
  deadline - answer (tr s) Now <= sleeps n backoff -> (wait_bootstrap_loop (S n) deadline backoff s).1 <> None.
Proof.
  revert backoff s. induction n as [|n IH]; intros backoff s Hd; cbn [sleeps] in Hd.
  - cbn [wait_bootstrap_loop]. unfold mbind, M_bind, do_call.
    assert ((answer (tr s) Now <? deadline) = false) as -> by (apply Z.ltb_ge; lia). done.
  - remember (S n) as m eqn:Hm. cbn [wait_bootstrap_loop]. unfold mbind, M_bind, do_call. cbn [tr eng].
    destruct (negb _); [done|]. destruct (answer _ CtxErr); [done|]. destruct (negb _); [done|].
    match goal with |- context [bootstrap_probe ?s0] => destruct (bootstrap_probe_tr s0) as [evs Hp];
      destruct (bootstrap_probe s0) as [ready s1] end.
    cbn [snd eng tr] in Hp. subst s1 m. destruct ready; [done|]. apply IH. cbn [tr].
    rewrite <- !app_assoc. pose proof (clock_after (tr s) (Ev Now :: Ev CtxErr :: Ev VMIsRunning :: evs) backoff).
    cbn [app] in *. lia.
Qed.

Lemma handle_no_spin (x : State) (s s' : st) : handle x s <> (Spins, s').
Proof.
  intros H. destruct (decide (x = StateWaitTAP)) as [->|Ht].
  { unfold handle, doWaitTAP, fmap, M_fmap, mbind, M_bind, do_call in H.
    destruct (wait_tap_loop _ _ _ _) as [[r|] s1] eqn:Hw; [done|].
    apply (wait_tap_returns 10 (answer (tr s) Now + 60 * Second) (500 * Millisecond)
             {| eng := eng s; tr := tr s ++ [Ev Now] |}); [|by unfold tap_fuel in Hw; rewrite Hw].
    cbn [tr]. pose proof (clock_mono _ Hclock (tr s) [Ev Now]).
    change (sleeps 10 (500 * Millisecond)) with 65500000000. unfold Second. lia. }
  destruct (decide (x = StateWaitBootstrap)) as [->|Hb].
  { unfold handle, doWaitBootstrap, fmap, M_fmap, mbind, M_bind, do_call in H.
    destruct (wait_bootstrap_loop _ _ _ _) as [[r|] s1] eqn:Hw; [done|].
    apply (wait_bootstrap_returns 33 (answer (tr s) Now + 300 * Second) Second
             {| eng := eng s; tr := tr s ++ [Ev Now] |}); [|by unfold bootstrap_fuel in Hw; rewrite Hw].
    cbn [tr]. pose proof (clock_mono _ Hclock (tr s) [Ev Now]).
    change (sleeps 33 Second) with 305000000000. unfold Second. lia. }
  destruct x; try done; unfold handle, fmap, M_fmap in H;
    repeat match type of H with context [let '(_, _) := ?m in _] => destruct m as [[] ?] end; try done.
  unfold mbind, M_bind in H. destruct (checkPrivileges s) as [[|] ?]; [|done].
  by destruct (transition _ _).
Qed.
End Termination.

(** *** The measure of the loop *)

(** The phases still ahead, the current one included. *)
Definition phases (x : State) : list State :=
  match x with
  | StateFailed => [StateFailed]
  | _ => drop (State_iota x) (take 13 all_states)
  end.
Definition tries (pol : gmap State RetryPolicy) (x : State) : Z :=
  1 + Z.max 0 (default 0 (MaxAttempts <$> pol !! x)).
Definition budget (pol : gmap State RetryPolicy) (x : State) : Z :=
  foldr (fun y b => tries pol y + b) 0 (phases x).
Definition measure (s : st) : Z :=
  budget (retryPolicy (eng s)) (state (eng s)) - default 0 (attempts (eng s) !! state (eng s)).

Lemma tries_pos (pol : gmap State RetryPolicy) (x : State) : 1 <= tries pol x.
Proof. unfold tries. lia. Qed.
Lemma budget_next (pol : gmap State RetryPolicy) (x : State) :
  x <> StateCleanup -> x <> StateFailed -> budget pol x = tries pol x + budget pol (next_state x).
Proof. by destruct x. Qed.
Lemma budget_nonneg (pol : gmap State RetryPolicy) (x : State) : 1 <= budget pol x.
Proof.
  assert (forall l, 0 <= foldr (fun y b => tries pol y + b) 0 l) as Hl.
  { induction l as [|y l IH]; cbn [foldr]; [lia|]. pose proof (tries_pos pol y). lia. }
  unfold budget. destruct (phases x) as [|y l] eqn:Hp; [by destruct x|]. cbn [foldr].
  pose proof (tries_pos pol y). pose proof (Hl l). lia.
Qed.
(** Shutdown is ahead of every phase that can fail. *)
Lemma budget_shutdown (pol : gmap State RetryPolicy) (x : State) :
  x ∈ failing -> budget pol StateShutdown + tries pol x <= budget pol x.
Proof.
  intros Hx. apply (bool_decide_pack _) in Hx. unfold budget.
  generalize (tries pol) (tries_pos pol). intros f Hf.
  pose proof (Hf StateCreateTAP). pose proof (Hf StateLaunchVM). pose proof (Hf StateWaitTAP).
  pose proof (Hf StateConfigureTAP). pose proof (Hf StateFlushDNS). pose proof (Hf StateWaitBootstrap).
  pose proof (Hf StateRunning). destruct x; try done; simpl; lia.
Qed.

Section Returns.
Context `{env : Env} `{U : UnicodeTables} (Hclock : clock_ok env) (Hctx : never_done env).

Lemma head_never_done (s : st) : (head s).2 = {| eng := eng s; tr := tr s ++ [Ev CtxErr] |}.
Proof.
  destruct (head_spec s) as (_ & _ & _ & [[-> _]|(H & _)]); [done|].
  by rewrite (nd_err _ Hctx) in H.
Qed.

Lemma measure_nonneg (s : st) : Inv s -> 1 <= measure s.
Proof.
  intros [_ _ _ _ _ _ Hb]. unfold measure.
  assert (tries (retryPolicy (eng s)) (state (eng s)) <= budget (retryPolicy (eng s)) (state (eng s))) as Ht.
  { destruct (decide (state (eng s) = StateCleanup)) as [->|H1].
    { change (budget ?p StateCleanup) with (tries p StateCleanup + 0). lia. }
    destruct (decide (state (eng s) = StateFailed)) as [->|H2].
    { change (budget ?p StateFailed) with (tries p StateFailed + 0). lia. }
    rewrite budget_next by done. pose proof (budget_nonneg (retryPolicy (eng s)) (next_state (state (eng s)))). lia. }
  unfold tries in Ht. lia.
Qed.

Lemma on_error_measure (s s' : st) (e : error) :
  Inv s -> state (eng s) ∈ failing -> on_error e s = (tt, s') -> measure s' < measure s.
Proof.
  intros [_ _ _ _ _ Ha Hb] Hfl H. destruct (failing_plain _ Hfl) as (? & _).
  destruct (on_error_spec _ _ _ _ eq_refl ltac:(done) H) as [_ Hp _ _ [(Hs & p & _ & _ & Hat)|(Hs & Hat)]];
    unfold measure; rewrite Hp, Hs, Hat.
  - rewrite lookup_insert_eq. simpl. lia.
  - rewrite (delete_all _ _ Ha). simpl. pose proof (budget_shutdown (retryPolicy (eng s)) _ Hfl).
    unfold tries in *. lia.
Qed.

(** An iteration returns or brings the end closer. *)
Lemma iteration_progress (s s' : st) (o : option outcome) :
  Inv s -> iteration s = (o, s') ->
  match o with None => measure s' < measure s | Some r => exists r', r = Returned r' end.
Proof.
  intros HI. rewrite iteration_unfold, head_never_done. cbv zeta. cbn [eng].
  pose proof (head_Inv _ HI) as HI1. rewrite head_never_done in HI1.
  set (s1 := {| eng := eng s; tr := tr s ++ [Ev CtxErr] |}) in *.
  change (state (eng s)) with (state (eng s1)). assert (measure s = measure s1) as -> by done.
  destruct (handle (state (eng s1)) s1) as [[r|[[]|e]|] s2] eqn:Hh; intros [= <- <-].
  - by eexists.
  - pose proof (handle_ok _ _ _ _ eq_refl Hh) as [_ Hp _ Hs Hat _ _ _]. cbn [moved] in *.
    pose proof (handle_Inv _ _ HI1 Hh) as _. destruct HI1 as [_ _ _ _ Hf Ha Hb].
    unfold measure. rewrite Hp, Hs, Hat, (delete_all _ _ Ha). simpl default.
    destruct (decide (state (eng s1) = StateCleanup)) as [Hc|Hc].
    + rewrite Hc in Hh. unfold handle, doCleanup, fmap, M_fmap, mbind, M_bind in Hh. by destruct (Deactivate s1).
    + rewrite (budget_next _ (state (eng s1))) by done. change (eng s) with (eng s1). unfold tries. lia.
  - destruct (error_Inv _ _ _ HI1 Hh) as (HI2 & Hs & Hfl).
    pose proof (handle_ok _ _ _ _ eq_refl Hh) as [_ Hp _ _ Hat _ _ _]. cbn [moved] in *.
    assert (measure s1 = measure s2) as -> by by unfold measure; rewrite Hp, Hs, Hat.
    destruct (on_error e s2) as [[] s3] eqn:Ho. eapply on_error_measure; [done|by rewrite Hs|done].
  - exfalso. by eapply handle_no_spin.
Qed.

Lemma Run_returns (fuel : nat) (s : st) :
  Inv s -> measure s <= Z.of_nat fuel -> exists r s', Run fuel s = (Returned r, s').
Proof.
  revert s. induction fuel as [|f IH]; intros s HI Hm.
  { pose proof (measure_nonneg _ HI). lia. }
  cbn [Run]. unfold mbind, M_bind. destruct (iteration s) as [o s1] eqn:Hi.
  pose proof (iteration_progress _ _ _ HI Hi) as Hp. pose proof (iteration_Inv _ _ _ HI Hi) as HI1.
  destruct o as [r|].
  - destruct Hp as [r' ->]. by exists r', s1.
  - apply IH; [done|lia].
Qed.
End Returns.
