(* ===== verification/LifecycleTheorems.v ===== *)
(** * The engine: its theorems

    Runs from the initial engine under any environment, and environments to
    run it in. *)

From Stdlib Require Import SpecFloat.
From S2P Require Import Prelude GoStrings StringFacts GoFloats NetIP Config Torrc Control Network Retry Lifecycle LifecycleFacts.
Local Open Scope Z_scope.

(** ** Concrete environments *)

(** The clock: the time slept so far. *)
Definition slept (t : list event) : Z :=
  foldr (fun e acc => (match e with Ev c => match c with Sleep d => Z.max 0 d | _ => 0 end end) + acc) 0 t.

(** Every call succeeds, Tor is ready at once and the VM exits by itself;
    [ctx] is what the context answers. *)
Definition calm (ctx : list event -> option error) (wait : result unit) : Env :=
  fun T t c =>
    match c with
    | CtxErr => ctx t
    | RetryWait _ => true
    | Goos => linux
    | Getuid => 0
    | Float64 => f64_of_Z 0
    | Now => slept t
    | Sleep _ => tt
    | Notify _ _ => tt
    | BootstrapProgress _ _ => tt
    | VMStart => Ok tt
    | VMStop => Ok tt
    | VMIsRunning => true
    | VMWait => wait
    | NetSaveConfig => Ok {| Data := "default"; Platform := "linux"; HMAC := "" |}
    | NetCreateTAP _ _ _ _ => Ok tt
    | NetDestroyTAP _ => Ok tt
    | NetRestoreConfig _ => Ok tt
    | NetSetupRouting _ _ => Ok tt
    | NetTeardownRouting => Ok tt
    | NetFlushDNS => Ok tt
    | Dial _ => Ok tt
    | NewControlClient _ => Ok tt
    | TorAuthenticate _ => Ok tt
    | TorClose => tt
    | TorBootstrapStatus => Ok {| Progress := 100; Tag := "done"; Summary := "Done" |}
    | TorSetConf _ => Ok tt
    | TorSignal _ => Ok tt
    | SetVerbose _ => tt
    end.
Definition calm_env : Env := calm (fun _ => None) (Ok tt).
Definition crash_env : Env := calm (fun _ => None) (Err (Errorf "signal: killed")).
(** The context is cancelled once the VM is up. *)
Definition cancel_env : Env := calm (fun t => if (8 <? Z.of_nat (length t)) then Some Canceled else None) (Ok tt).

Lemma slept_app (t t' : list event) : slept (t ++ t') = slept t + slept t'.
Proof. induction t as [|[T c] t IH]; [done|]. cbn [app slept foldr] in *. fold (slept (t ++ t')). rewrite IH.
  fold (slept t). lia. Qed.
Lemma slept_nonneg (t : list event) : 0 <= slept t.
Proof.
  induction t as [|[T c] t IH]; [done|]. cbn [slept foldr]. fold (slept t). destruct c; lia.
Qed.
Lemma calm_clock (ctx : list event -> option error) (w : result unit) : clock_ok (calm ctx w).
Proof.
  split.
  - intros t t'. change (slept t <= slept (t ++ t')). rewrite slept_app. pose proof (slept_nonneg t'). lia.
  - intros t d. change (slept t + d <= slept (t ++ [Ev (Sleep d)])). rewrite slept_app. cbn. lia.
Qed.
Lemma calm_never_done (w : result unit) : never_done (calm (fun _ => None) w).
Proof. by split. Qed.

(** ** Whole runs *)

(** The budget of the default policy: thirteen phases and eleven retries. *)
Lemma default_budget (cfg : Config) : measure (init cfg) = 24.
Proof. by vm_compute. Qed.

(** C3. Termination: in an environment whose clock behaves and whose context is
    never done, whatever else fails and however often, [Run] returns within
    24 iterations of its loop, and the two polling loops return within 11 and
    34 probes. *)
Theorem Run_terminates (env : Env) (U : UnicodeTables) (cfg : Config) :
  clock_ok env -> never_done env -> exists r s', Run 24 (init cfg) = (Returned r, s').
Proof.
  intros Hc Hn. apply Run_returns; [done|done|apply init_Inv|]. by rewrite default_budget.
Qed.
Lemma Run_terminates_witness :
  exists r s', @Run calm_env ascii_tables 24 (init (DefaultConfig linux)) = (Returned r, s').
Proof. exact (Run_terminates calm_env ascii_tables _ (calm_clock _ _) (calm_never_done _)). Defined.

Definition calm_final : st := (@Run calm_env ascii_tables 24 (init (DefaultConfig linux))).2.
Lemma calm_run :
  @Run calm_env ascii_tables 24 (init (DefaultConfig linux)) = (Returned (Ok tt), calm_final).
Proof. vm_compute. reflexivity. Qed.

(** C1. Safety: under any environment, when [Run] returns nil it has made every
    call that puts the host back, in order: the stop of the VM unless it was
    seen not to run, then the tear-down of routing, the restoring of the saved
    configuration and the destruction of the TAP, with no set-up call (TAP,
    machine, routing) after any of them; when it returns an error, no set-up
    call was ever made.  It says that the calls were made, not that they
    succeeded: the code logs their errors and returns nil all the same. *)
Theorem Run_restores (env : Env) (U : UnicodeTables) (cfg : Config) (fuel : nat) (r : result unit) (s' : st) :
  Run fuel (init cfg) = (Returned r, s') ->
  r = Ok tt /\ restore_called (Cfg (eng s')) (savedNet (eng s')) (tr s') \/
  is_ok r = false /\ untouched (tr s').
Proof. intros H. exact (Run_Inv fuel (init cfg) s' r (init_Inv cfg) H). Qed.
Lemma Run_restores_witness :
  @restore_called calm_env (Cfg (eng calm_final)) (savedNet (eng calm_final)) (tr calm_final).
Proof.
  destruct (Run_restores calm_env ascii_tables (DefaultConfig linux) 24 (Ok tt) calm_final calm_run)
    as [[_ H]|[H _]]; [exact H|discriminate H].
Defined.

(** The state machine: the transitions of any run, complete or not, cancelled
    or not, are a path from [Init] to the current state whose every edge is
    the next phase or shutdown. *)
Theorem Run_follows (env : Env) (U : UnicodeTables) (cfg : Config) (fuel : nat) (o : outcome) (s' : st) :
  Run fuel (init cfg) = (o, s') -> follow StateInit (trail (tr s')) = Some (state (eng s')).
Proof. intros H. exact (Run_trail fuel (init cfg) s' o (init_Inv cfg) H). Qed.
Lemma Run_follows_witness :
  follow StateInit (trail (tr calm_final)) = Some StateCleanup.
Proof.
  refine (eq_trans (Run_follows calm_env ascii_tables (DefaultConfig linux) 24 _ calm_final calm_run) _).
  vm_compute. reflexivity.
Defined.

(** ** Cancellation *)

(** The calls that put the network back. *)
Definition restores (e : event) : bool :=
  match e with Ev c =>
    match c with NetTeardownRouting | NetRestoreConfig _ | NetDestroyTAP _ => true | _ => false end end.
Definition shutdowns (l : list event) : nat :=
  length (List.filter (fun p => bool_decide (p.2 = StateShutdown)) (trail l)).

Section Cancelled.
Context `{env : Env} `{U : UnicodeTables}.

Lemma shutdown_quiet (e : event) : allowed StateShutdown e = true -> restores e = false.
Proof. destruct e as [T c]. destruct c; try done; simpl; by intros ?%bool_decide_eq_true. Qed.

(** Under a cancelled context every iteration shuts down once more. *)
Lemma iteration_cancelled (s : st) :
  answer (tr s) CtxErr <> None ->
  exists s' evs, iteration s = (None, s') /\ tr s' = tr s ++ evs /\
    Forall (fun e => restores e = false) evs /\ shutdowns evs = 1%nat.
Proof.
  intros Hc. rewrite iteration_unfold. cbv zeta.
  destruct (head_spec s) as (_ & _ & _ & [[_ Hn]|(_ & Hs & _ & Ht)]); [done|].
  rewrite Hs. destruct (handle StateShutdown (head s).2) as [h s2] eqn:Hh.
  destruct (shutdown_stops _ _ _ Hs Hh) as [-> _].
  pose proof (handle_ok _ _ _ _ Hs Hh) as [_ _ (evs & Htr & Hal & Hn) _ _ _ _ _]. cbn [moved] in Hn.
  exists s2, ([Ev CtxErr; Ev (Notify (state (eng s)) StateShutdown)] ++ evs). split; [done|].
  rewrite Htr, Ht, <- app_assoc. split; [done|]. split.
  - apply Forall_app. split; [by repeat constructor|]. eapply Forall_impl; [exact Hal|]. apply shutdown_quiet.
  - unfold shutdowns. rewrite trail_app, Hn. done.
Qed.

Lemma shutdowns_app (l1 l2 : list event) : shutdowns (l1 ++ l2) = (shutdowns l1 + shutdowns l2)%nat.
Proof. unfold shutdowns. by rewrite trail_app, List.filter_app, length_app. Qed.

Lemma Run_cancelled (fuel : nat) (s : st) :
  (forall evs, answer (tr s ++ evs) CtxErr <> None) ->
  exists s' evs, Run fuel s = (OutOfFuel, s') /\ tr s' = tr s ++ evs /\
    Forall (fun e => restores e = false) evs /\ shutdowns evs = fuel.
Proof.
  revert s. induction fuel as [|f IH]; intros s Hc.
  { exists s, []. by rewrite app_nil_r. }
  destruct (iteration_cancelled s) as (s1 & evs1 & Hi & Ht1 & Hq1 & Hs1).
  { rewrite <- (app_nil_r (tr s)). apply Hc. }
  destruct (IH s1) as (s2 & evs2 & Hr & Ht2 & Hq2 & Hs2).
  { intros evs. rewrite Ht1, <- app_assoc. apply Hc. }
  exists s2, (evs1 ++ evs2). cbn [Run]. unfold mbind, M_bind. rewrite Hi.
  rewrite Ht2, Ht1, <- app_assoc, shutdowns_app, Hs1, Hs2. split_and!; [done|done| |done].
  by apply Forall_app.
Qed.
End Cancelled.

(** C7. A cancelled run never ends: from any state of the engine, once the context
    is done, [Run] does not return however long it runs, re-enters [Shutdown]
    in every iteration, and never tears down routing, restores the saved
    configuration or destroys the TAP. *)
Theorem cancelled_run_never_restores (env : Env) (U : UnicodeTables) (s : st) :
  (forall evs, answer (tr s ++ evs) CtxErr <> None) ->
  forall fuel, exists s' evs, Run fuel s = (OutOfFuel, s') /\ tr s' = tr s ++ evs /\
    Forall (fun e => restores e = false) evs /\ shutdowns evs = fuel.
Proof. intros H fuel. by apply Run_cancelled. Qed.
Definition cancelled_env : Env := calm (fun _ => Some Canceled) (Ok tt).
Lemma cancelled_run_never_restores_witness :
  exists s' evs, @Run cancelled_env ascii_tables 1000 (init (DefaultConfig linux)) = (OutOfFuel, s') /\
    tr s' = [] ++ evs /\ Forall (fun e => restores e = false) evs /\ shutdowns evs = 1000%nat.
Proof.
  apply (cancelled_run_never_restores cancelled_env ascii_tables (init (DefaultConfig linux))).
  intros evs. discriminate.
Defined.

(** ** The failsafe *)

(** C25. The VM dies while Tor is running: routing is torn down at once, before
    the transition to [Shutdown], and the failsafe is active. *)
Theorem crash_activates_failsafe (env : Env) (U : UnicodeTables) (s : st) (e : error) :
  state (eng s) = StateRunning -> answer (tr s) VMWait = Err e ->
  answer (tr s ++ [Ev VMWait]) CtxErr = None ->
  let s' := (handle StateRunning s).2 in
  fs_active (eng s') = true /\
  tr s' = tr s ++ [Ev VMWait; Ev CtxErr; Ev NetTeardownRouting; Ev (Notify StateRunning StateShutdown)].
Proof.
  intros Hs Hw Hc. destruct s as [[cfg x sv ctl fs pol att] t]; cbn [eng tr state] in *; subst x.
  cbv [handle doRunning Deactivate Activate transition mbind M_bind mret M_ret fmap M_fmap do_call upd get
       set_state set_fs set_attempts eng tr fs_active state].
  destruct fs; rewrite Hw, Hc; cbn [snd fs_active eng tr]; rewrite <- !app_assoc; done.
Qed.
Definition running : st := {|
  eng := set_state StateRunning (NewEngine (DefaultConfig linux));
  tr := [] |}.
Lemma crash_activates_failsafe_witness :
  fs_active (eng (@handle crash_env ascii_tables StateRunning running).2) = true.
Proof.
  exact (proj1 (crash_activates_failsafe crash_env ascii_tables running (Errorf "signal: killed")
    eq_refl eq_refl eq_refl)).
Defined.

Section Ends.
Context `{env : Env} `{U : UnicodeTables}.

Lemma cleanup_deactivates (s s' : st) (r : result unit) :
  handle StateCleanup s = (Returns r, s') -> fs_active (eng s') = false.
Proof.
  destruct s as [[cfg x sv ctl fs pol att] t]. intros H. exec H. destruct fs; by simplify_eq.
Qed.

Lemma Run_ok_deactivated (fuel : nat) (s s' : st) :
  Inv s -> Run fuel s = (Returned (Ok tt), s') -> fs_active (eng s') = false /\ state (eng s') = StateCleanup.
Proof.
  revert s. induction fuel as [|f IH]; intros s HI H; [done|]. cbn [Run] in H. unfold mbind, M_bind in H.
  destruct (iteration s) as [o s1] eqn:Hi. destruct o as [r'|].
  - injection H as -> <-. rewrite iteration_unfold in Hi. cbv zeta in Hi.
    destruct (handle _ _) as [[r|[[]|e]|] s2] eqn:Hh; simplify_eq.
    pose proof (handle_ok _ _ _ _ eq_refl Hh) as [_ _ _ Hst _ _ Hret _]. cbn [moved] in Hst.
    destruct (Hret _ eq_refl) as [[_ ?]|[Hx _]]; [done|].
    rewrite Hst, Hx in *. split; [by eapply cleanup_deactivates|done].
  - apply IH with (s := s1); [|done]. exact (iteration_Inv _ _ _ HI Hi).
Qed.
End Ends.

(** A run that returns nil has the failsafe off, also when the VM crashed:
    the block it activated does not outlive the run. *)
Theorem Run_ends_without_failsafe (env : Env) (U : UnicodeTables) (cfg : Config) (fuel : nat) (s' : st) :
  Run fuel (init cfg) = (Returned (Ok tt), s') -> fs_active (eng s') = false /\ state (eng s') = StateCleanup.
Proof. apply Run_ok_deactivated, init_Inv. Qed.
Definition crash_final : st := (@Run crash_env ascii_tables 24 (init (DefaultConfig linux))).2.
Lemma Run_ends_without_failsafe_witness : fs_active (eng crash_final) = false.
Proof.
  refine (proj1 (Run_ends_without_failsafe crash_env ascii_tables (DefaultConfig linux) 24 crash_final _)).
  vm_compute. reflexivity.
Defined.

(** ** Reloading *)

Section Reload.
Context `{env : Env} `{U : UnicodeTables}.

Lemma push_config_eng (c : Config) (s : st) :
  eng (push_config c s).2 = eng s /\
  exists evs, tr (push_config c s).2 = tr s ++ evs /\
    (evs <> [] -> exists overlay, TorrcOverlay c = Ok overlay).
Proof.
  unfold push_config. destruct (TorrcOverlay c) as [overlay|e].
  - unfold mbind, M_bind, mret, M_ret, do_call. destruct (decide _).
    + cbn [eng tr snd]. split; [done|]. eexists. split; [done|]. by eexists.
    + destruct (answer _ (TorSetConf _)); cbn [eng tr snd]; (split; [done|]); rewrite <- ?app_assoc;
        (eexists; split; [done|by eexists]).
  - split; [done|]. exists []. by rewrite app_nil_r.
Qed.

Definition pushes (newCfg : Config) (e : Engine) : bool :=
  HasChanges (Diff (Cfg e) newCfg) && negb (bool_decide (HotReloadable (Diff (Cfg e) newCfg) = []))
  && TorControl e && bool_decide (state e = StateRunning).

Lemma ReloadConfig_eng (newCfg : Config) (s : st) :
  let '(r, s') := ReloadConfig newCfg s in
  eng s' = (if is_ok r && HasChanges (Diff (Cfg (eng s)) newCfg) then set_Cfg newCfg (eng s) else eng s) /\
  (pushes newCfg (eng s) = false -> r = Ok tt) /\
  (pushes newCfg (eng s) = true -> is_ok r = is_ok (push_config newCfg s).1).
Proof.
  unfold ReloadConfig, pushes. unfold mbind at 1, M_bind at 1, get at 1.
  destruct (HasChanges (Diff (Cfg (eng s)) newCfg)); cbn [negb andb]; [|by split_and!].
  unfold mbind, M_bind, get.
  destruct (negb _ && TorControl (eng s) && _).
  - pose proof (push_config_eng newCfg s) as [He _]. destruct (push_config newCfg s) as [[[]|e] s1];
      cbn [fst snd is_ok andb] in *; [|done].
    unfold mret, M_ret, upd, do_call. destruct (Bool.eqb _ _); cbn [eng]; by rewrite He.
  - unfold mret, M_ret, upd, do_call. by destruct (Bool.eqb _ _).
Qed.
End Reload.

(** A reload is all or nothing: the engine keeps its configuration when it
    reports an error or when nothing changed, and otherwise replaces the whole
    configuration and nothing else; Tor is contacted only in [Running], over a
    live control connection and for a hot-reloadable change, and only a failed
    overlay or SETCONF is an error. *)
Theorem ReloadConfig_atomic (env : Env) (U : UnicodeTables) (newCfg : Config) (s : st) :
  let '(r, s') := ReloadConfig newCfg s in
  eng s' = (if is_ok r && HasChanges (Diff (Cfg (eng s)) newCfg) then set_Cfg newCfg (eng s) else eng s) /\
  (pushes newCfg (eng s) = false -> r = Ok tt) /\
  (pushes newCfg (eng s) = true -> is_ok r = is_ok (push_config newCfg s).1).
Proof. apply ReloadConfig_eng. Qed.

(** A reload also replaces the settings that need a restart, and the engine
    then cleans up under the new ones: the TAP device it created under the old
    name is not the one it destroys. *)
Theorem reload_moves_tap (env : Env) (U : UnicodeTables) (newCfg : Config) (s : st) :
  (ReloadConfig newCfg s).1 = Ok tt -> HasChanges (Diff (Cfg (eng s)) newCfg) = true ->
  let s1 := (ReloadConfig newCfg s).2 in
  exists t, tr (doRestoreNetwork s1).2 = t ++ [Ev (NetDestroyTAP (TAPName newCfg));
    Ev (Notify (state (eng s)) StateCleanup)] /\
    forall name, Ev (NetDestroyTAP name) ∈ t -> Ev (NetDestroyTAP name) ∈ tr s1.
Proof.
  intros Hr Hch. pose proof (ReloadConfig_eng newCfg s) as H.
  destruct (ReloadConfig newCfg s) as [r s1]. cbn [fst snd] in *. subst r. destruct H as [He _].
  rewrite Hch in He. cbn [is_ok andb] in He.
  assert (Cfg (eng s1) = newCfg /\ state (eng s1) = state (eng s)) as [<- <-] by by rewrite He.
  clear. destruct s1 as [[cfg x sv ctl fs pol att] t].
  destruct (doRestoreNetwork _) as [r s2] eqn:H. unfold doRestoreNetwork in H. exec H.
  destruct sv as [c|], fs; loop_cases H; cbn [tr eng Cfg state snd]; rewrite <- ?app_assoc; cbn [app].
  all: match goal with |- context [?t ++ Ev NetTeardownRouting :: ?l] =>
      match l with
      | [?d; ?n] => exists (t ++ [Ev NetTeardownRouting])
      | [?m; ?d; ?n] => exists (t ++ [Ev NetTeardownRouting; m])
      | [?m; ?m'; ?d; ?n] => exists (t ++ [Ev NetTeardownRouting; m; m'])
      end end.
  all: split; [by rewrite <- app_assoc|]; intros name; rewrite elem_of_app, !elem_of_cons, elem_of_nil; naive_solver.
Qed.
(** The default configuration with another TAP device. *)
Definition retap (c : Config) (name : string) : Config := {|
  Version := Version c; TAPName := name; HostIP := HostIP c; VMIP := VMIP c;
  SubnetMask := SubnetMask c; DNS1 := DNS1 c; DNS2 := DNS2 c; SOCKSPort := SOCKSPort c;
  ControlPort := ControlPort c; TransPort := TransPort c; DNSPort := DNSPort c;
  VMMemoryMB := VMMemoryMB c; VMCPUs := VMCPUs c; KernelPath := KernelPath c;
  InitrdPath := InitrdPath c; StateDiskPath := StateDiskPath c;
  QMPSocketPath := QMPSocketPath c; Verbose := Verbose c; Accel := Accel c;
  Headless := Headless c; VhostNet := VhostNet c; IOMMUEnabled := IOMMUEnabled c;
  Bridge := Bridge c; Proxy := Proxy c; Service := Service c; Retry := Retry c;
  Entropy := Entropy c; Relays := Relays c; Browser := Browser c; FHE := FHE c; Vector := Vector c |}.
Lemma reload_moves_tap_witness :
  let s1 := (@ReloadConfig calm_env ascii_tables (retap (DefaultConfig linux) "torvm1") running).2 in
  exists t, tr (@doRestoreNetwork calm_env s1).2 = t ++ [Ev (NetDestroyTAP "torvm1");
    Ev (Notify StateRunning StateCleanup)] /\
    forall name, Ev (NetDestroyTAP name) ∈ t -> Ev (NetDestroyTAP name) ∈ tr s1.
Proof.
  apply (reload_moves_tap calm_env ascii_tables (retap (DefaultConfig linux) "torvm1") running);
    vm_compute; reflexivity.
Defined.
