(* ===== verification/HostRun.v ===== *)
(** * The engine on a host: packages [lifecycle] and [network] together

    [NewEngine] gives the engine the network manager of the platform.  Here the
    environment of [Lifecycle] answers the calls of [network.Manager] by running
    the manager of [Network] on the host; everything else the engine calls
    stays arbitrary.  What a run did to the host is then the trace of the
    commands of its whole history. *)

From S2P Require Import Prelude GoStrings NetIP Config Network Retry Lifecycle LifecycleFacts LifecycleTheorems.
Local Open Scope Z_scope.

(** ** The composition *)

Section Compose.
Context `{H : Host}.
Variables (mgr : Manager) (other : Env).

(** What a call makes the manager do, after the commands [tr]; [None] for the
    calls of other parts. *)
Definition net_call {T : Type} (c : call T) (tr : list effect) : option (T * list effect) :=
  match c in call T return option (T * list effect) with
  | NetSaveConfig => Some (SaveConfig mgr tr)
  | NetCreateTAP name hostIP vmIP mask => Some (CreateTAP mgr name hostIP vmIP mask tr)
  | NetDestroyTAP name => Some (DestroyTAP mgr name tr)
  | NetRestoreConfig cfg => Some (RestoreConfig mgr (Some cfg) tr)
  | NetSetupRouting tap vmIP => Some (SetupRouting mgr tap vmIP tr)
  | NetTeardownRouting => Some (TeardownRouting mgr tr)
  | NetFlushDNS => Some (FlushDNS mgr tr)
  | _ => None
  end.
Definition host_step (tr : list effect) (e : event) : list effect :=
  match e with Ev c => match net_call c tr with Some (_, tr') => tr' | None => tr end end.
(** The commands of a history. *)
Definition host_trace (h : list event) : list effect := foldl host_step [] h.
Definition host_env : Env := fun T h c =>
  match net_call c (host_trace h) with Some (r, _) => r | None => @answer other T h c end.

Lemma host_trace_app (h1 h2 : list event) : host_trace (h1 ++ h2) = foldl host_step (host_trace h1) h2.
Proof. apply foldl_app. Qed.
Lemma host_trace_snoc {T} (h : list event) (c : call T) (r : T) (tr' : list effect) :
  net_call c (host_trace h) = Some (r, tr') -> host_trace (h ++ [Ev c]) = tr' /\ @answer host_env T h c = r.
Proof. intros E. unfold answer, host_env. rewrite host_trace_app. cbn [foldl host_step]. by rewrite E. Qed.
End Compose.

(** ** The routes of the program

    The destinations a trace routes into the TAP: an add command that succeeded
    with no successful delete since. *)
Inductive route_command := Add (dest : string) | Del (dest : string) | Neither.

Definition linux_route (e : effect) : route_command :=
  match e with
  | Network.Run "ip" ["route"; "add"; d; "via"; _; "dev"; _; "metric"; "50"] => Add d
  | Network.Run "ip" ["route"; "del"; d; "metric"; "50"] => Del d
  | _ => Neither
  end.
Definition darwin_route (e : effect) : route_command :=
  match e with
  | Network.Run "route" ["-n"; "add"; "-net"; d; _] => Add d
  | Network.Run "route" ["-n"; "delete"; "-net"; d] => Del d
  | _ => Neither
  end.

Section Routes.
Context `{H : Host}.
Variable route_of : effect -> route_command.

Definition succeeds (tr : list effect) (e : effect) : bool := match (host tr e).2 with None => true | Some _ => false end.
Definition route_step (acc : list effect * gset string) (e : effect) : list effect * gset string :=
  (acc.1 ++ [e],
   if succeeds acc.1 e then match route_of e with Add d => {[d]} ∪ acc.2 | Del d => acc.2 ∖ {[d]} | Neither => acc.2 end
   else acc.2).
Definition routes (tr : list effect) : gset string := (foldl route_step ([], ∅) tr).2.

Lemma routes_snoc (tr : list effect) (e : effect) :
  routes (tr ++ [e]) =
  if succeeds tr e then match route_of e with Add d => {[d]} ∪ routes tr | Del d => routes tr ∖ {[d]} | Neither => routes tr end
  else routes tr.
Proof.
  unfold routes. rewrite foldl_app. cbn [foldl]. unfold route_step at 1. cbn [snd].
  assert (forall tr0 acc, (foldl route_step (tr0, acc) tr).1 = tr0 ++ tr) as Hf.
  { induction tr as [|x tr IH]; intros tr0 acc; [by rewrite app_nil_r|]. cbn [foldl]. unfold route_step at 2. by rewrite IH, <- app_assoc. }
  by rewrite Hf.
Qed.

(** Programs that add no route. *)
Definition adds_none {A} (m : net A) : Prop := forall tr, routes (m tr).2 ⊆ routes tr.
Definition plain (e : effect) : Prop := forall d, route_of e <> Add d.

Lemma adds_none_ret {A} (a : A) : adds_none (mret a).
Proof. intros tr. reflexivity. Qed.
Lemma adds_none_lift {A} (r : result A) : adds_none (net_lift r).
Proof. intros tr. reflexivity. Qed.
Lemma adds_none_bind {A B} (m : net A) (f : A -> net B) : adds_none m -> (forall a, adds_none (f a)) -> adds_none (m ≫= f).
Proof.
  intros Hm Hf tr. unfold mbind, net_bind. specialize (Hm tr). destruct (m tr) as [[a|e] tr1]; cbn in *; [|done].
  etransitivity; [apply Hf|done].
Qed.
Lemma adds_none_wrap {A} (p : string) (m : net A) : adds_none m -> adds_none (net_wrap p m).
Proof. intros Hm tr. unfold net_wrap. specialize (Hm tr). by destruct (m tr). Qed.
Lemma adds_none_ignore (m : net unit) : adds_none m -> adds_none (ignore m).
Proof. intros Hm tr. apply Hm. Qed.
Lemma adds_none_perform (e : effect) : plain e -> adds_none (perform e).
Proof.
  intros Hp tr. unfold perform. cbn [snd]. rewrite routes_snoc. destruct (succeeds tr e); [|done].
  specialize (Hp). unfold plain in Hp. destruct (route_of e) as [d|d|]; [by destruct (Hp d)|set_solver|done].
Qed.
Lemma adds_none_op {A} (e : effect) (k : string * option string -> result A) : plain e -> adds_none (r ← perform e; net_lift (k r)).
Proof. intros Hp. apply adds_none_bind; [by apply adds_none_perform|]. intros r. apply adds_none_lift. Qed.
Lemma adds_none_run (name : string) (args : list string) : plain (Network.Run name args) -> adds_none (run name args).
Proof. intros Hp. unfold run. apply adds_none_bind; [by apply adds_none_perform|]. intros r. destruct r.2; [apply adds_none_lift|apply adds_none_ret]. Qed.
Lemma adds_none_output (name : string) (args : list string) : plain (Output name args) -> adds_none (output name args).
Proof. intros Hp. unfold output. apply adds_none_bind; [by apply adds_none_perform|]. intros r. destruct r.2; [apply adds_none_lift|apply adds_none_ret]. Qed.

(** Deleting a route that is there succeeds. *)
Definition delete_works : Prop := forall tr e d, route_of e = Del d -> d ∈ routes tr -> succeeds tr e = true.

Lemma routes_del (tr : list effect) (e : effect) (d : string) : delete_works -> route_of e = Del d ->
  routes (tr ++ [e]) = routes tr ∖ {[d]}.
Proof.
  intros Hw He. rewrite routes_snoc, He. destruct (succeeds tr e) eqn:E; [done|].
  destruct (decide (d ∈ routes tr)) as [Hd|Hd]; [|set_solver]. by rewrite (Hw tr e d He Hd) in E.
Qed.
Lemma ignore_run_trace (name : string) (args : list string) (tr : list effect) :
  (ignore (run name args) tr).2 = tr ++ [Network.Run name args] /\ is_ok (ignore (run name args) tr).1 = true.
Proof. unfold ignore, run, mbind, net_bind, perform. cbn [snd fst]. by destruct (host tr _) as [o [e|]]. Qed.

(** A manager whose routes go to [dests]. *)
Record router (mgr : Manager) (dests : gset string) : Prop := {
  r_create : forall n h v m, adds_none (CreateTAP mgr n h v m);
  r_destroy : forall n, adds_none (DestroyTAP mgr n);
  r_save : adds_none (SaveConfig mgr);
  r_restore : forall c, adds_none (RestoreConfig mgr c);
  r_flush : adds_none (FlushDNS mgr);
  r_setup : forall t v tr, routes (SetupRouting mgr t v tr).2 ⊆ dests ∪ routes tr;
  r_teardown : forall tr, routes tr ⊆ dests -> routes (TeardownRouting mgr tr).2 = ∅
}.

Section Router.
Variables (mgr : Manager) (dests : gset string).
Context (Hr : router mgr dests).

Definition sets_up (e : event) : bool := match e with Ev c => match c with NetSetupRouting _ _ => true | _ => false end end.

Lemma step_adds_none (tr : list effect) (e : event) : sets_up e = false -> routes tr ⊆ dests ->
  routes (host_step mgr tr e) ⊆ routes tr.
Proof.
  intros He Hd. destruct Hr as [? ? ? ? ? _ Ht]. destruct e as [T c]. destruct c; try done; cbn [host_step net_call].
  all: try match goal with H : adds_none _ |- _ => apply H | H : forall _, adds_none _ |- _ => apply H end.
  - apply r_create0.
  - specialize (Ht tr Hd). destruct (TeardownRouting mgr tr). cbn in Ht. by rewrite Ht.
Qed.
Lemma step_dests (tr : list effect) (e : event) : routes tr ⊆ dests -> routes (host_step mgr tr e) ⊆ dests.
Proof.
  intros Hd. destruct (sets_up e) eqn:E; [|etransitivity; [by apply step_adds_none|done]].
  destruct e as [T c]. destruct c; try done. cbn [host_step net_call]. pose proof (r_setup _ _ Hr tap vmIP tr) as Hs.
  destruct (SetupRouting _ _ _ _). set_solver.
Qed.
Lemma trace_dests (h : list event) : routes (host_trace mgr h) ⊆ dests.
Proof.
  unfold host_trace. assert (routes [] ⊆ dests) as H0 by set_solver. revert H0. generalize (@nil effect).
  induction h as [|e h IH]; intros tr H0; [done|]. cbn [foldl]. by apply IH, step_dests.
Qed.
Lemma trace_adds_none (h1 h2 : list event) : Forall (fun e => sets_up e = false) h2 ->
  routes (host_trace mgr (h1 ++ h2)) ⊆ routes (host_trace mgr h1).
Proof.
  intros Hf. induction h2 as [|e h2 IH] using rev_ind; [by rewrite app_nil_r|].
  apply Forall_app in Hf as [Hf He%Forall_inv]. rewrite app_assoc, (host_trace_app _ (h1 ++ h2)). cbn [foldl].
  etransitivity; [apply step_adds_none; [done|apply trace_dests]|by apply IH].
Qed.
Lemma trace_teardown (h1 h2 : list event) : Forall (fun e => sets_up e = false) h2 ->
  routes (host_trace mgr (h1 ++ Ev NetTeardownRouting :: h2)) = ∅.
Proof.
  intros Hf. change (Ev NetTeardownRouting :: h2) with ([Ev NetTeardownRouting] ++ h2). rewrite app_assoc.
  assert (routes (host_trace mgr (h1 ++ [Ev NetTeardownRouting])) = ∅) as E.
  { rewrite host_trace_app. cbn [foldl host_step net_call]. pose proof (r_teardown _ _ Hr _ (trace_dests h1)) as Ht.
    by destruct (TeardownRouting _ _). }
  pose proof (trace_adds_none (h1 ++ [Ev NetTeardownRouting]) h2 Hf) as Hs. rewrite E in Hs. set_solver.
Qed.
End Router.
End Routes.

(** ** Linux and macOS *)

Definition linux_dests : gset string := {["default"]}.
Definition darwin_dests : gset string := {["0.0.0.0/1"; "128.0.0.0/1"]}.

Create HintDb routes.
#[export] Hint Resolve adds_none_ret adds_none_lift adds_none_bind adds_none_wrap adds_none_ignore adds_none_run adds_none_output : routes.
#[export] Hint Extern 1 (plain _ _) => (by intros ?) : routes.

Section Platforms.
Context `{H : Host} `{U : UnicodeTables}.
Variable key : option (list Z).

Lemma check_saved_adds_none (route_of : effect -> route_command) (p : string) (c : option SavedConfig) :
  adds_none route_of (check_saved key p c).
Proof. unfold check_saved. destruct c as [c|]; [destruct (decide _)|]; auto with routes. Qed.

Lemma setup_grows (route_of : effect -> route_command) (name : string) (args : list string) (d : string) (dests : gset string)
    (tr : list effect) :
  route_of (Network.Run name args) = Add d -> d ∈ dests ->
  routes route_of (run name args tr).2 ⊆ dests ∪ routes route_of tr.
Proof.
  intros Hd Hin. unfold run, mbind, net_bind, perform. cbn [fst snd].
  assert (routes route_of (tr ++ [Network.Run name args]) ⊆ dests ∪ routes route_of tr).
  { rewrite routes_snoc, Hd. destruct (succeeds tr _); set_solver. }
  by destruct (host tr _) as [o [e|]].
Qed.

Lemma linux_router : delete_works linux_route -> router linux_route (linuxManager key) linux_dests.
Proof.
  intros Hw. split; cbn [CreateTAP DestroyTAP SaveConfig RestoreConfig SetupRouting TeardownRouting FlushDNS linuxManager darwinManager].
  - intros n h v m. unfold linux_CreateTAP. eauto 10 with routes.
  - intros n. unfold linux_DestroyTAP. auto with routes.
  - unfold linux_SaveConfig. eauto with routes.
  - intros c. unfold linux_RestoreConfig. apply adds_none_bind; [apply check_saved_adds_none|auto with routes].
  - unfold linux_FlushDNS. auto with routes.
  - intros t v tr. unfold linux_SetupRouting, net_wrap.
    pose proof (setup_grows linux_route "ip" ["route"; "add"; "default"; "via"; IPString v; "dev"; t; "metric"; "50"] "default" linux_dests tr
      eq_refl ltac:(by apply elem_of_singleton)) as Hs. by destruct (run _ _ _).
  - intros tr Hd. unfold linux_TeardownRouting. destruct (ignore_run_trace "ip" ["route"; "del"; "default"; "metric"; "50"] tr) as [-> _].
    rewrite (routes_del _ _ _ "default") by done. unfold linux_dests in Hd. set_solver.
Qed.
Lemma darwin_router : delete_works darwin_route -> router darwin_route (darwinManager key) darwin_dests.
Proof.
  intros Hw. split; cbn [CreateTAP DestroyTAP SaveConfig RestoreConfig SetupRouting TeardownRouting FlushDNS linuxManager darwinManager].
  - intros n h v m. apply adds_none_ret.
  - intros n. apply adds_none_ret.
  - unfold darwin_SaveConfig. eauto with routes.
  - intros c. unfold darwin_RestoreConfig. apply adds_none_bind; [apply check_saved_adds_none|auto with routes].
  - unfold darwin_FlushDNS. apply adds_none_bind; [|intros _]; apply adds_none_ignore, adds_none_run; by intros ?.
  - intros t v tr. unfold darwin_SetupRouting, net_wrap, mbind, net_bind.
    pose proof (setup_grows darwin_route "route" ["-n"; "add"; "-net"; "0.0.0.0/1"; IPString v] "0.0.0.0/1" darwin_dests tr
      eq_refl ltac:(unfold darwin_dests; set_solver)) as H1. destruct (run _ _ tr) as [[[]|e] tr1]; [|done].
    pose proof (setup_grows darwin_route "route" ["-n"; "add"; "-net"; "128.0.0.0/1"; IPString v] "128.0.0.0/1" darwin_dests tr1
      eq_refl ltac:(unfold darwin_dests; set_solver)) as H2. destruct (run _ _ tr1). cbn in *. set_solver.
  - intros tr Hd. unfold darwin_TeardownRouting, mbind, net_bind.
    destruct (ignore_run_trace "route" ["-n"; "delete"; "-net"; "0.0.0.0/1"] tr) as [E1 O1]. destruct (ignore _ tr) as [[[]|] tr1]; [|done].
    cbn in E1. subst tr1. destruct (ignore_run_trace "route" ["-n"; "delete"; "-net"; "128.0.0.0/1"] (tr ++ [Network.Run "route" ["-n"; "delete"; "-net"; "0.0.0.0/1"]])) as [-> _].
    rewrite (routes_del _ _ _ "128.0.0.0/1"), (routes_del _ _ _ "0.0.0.0/1") by done. unfold darwin_dests in Hd. set_solver.
Qed.
(** Both managers swallow the errors of their delete commands. *)
Lemma linux_teardown_ok (tr : list effect) : (TeardownRouting (linuxManager key) tr).1 = Ok tt.
Proof. unfold TeardownRouting, linuxManager, linux_TeardownRouting, ignore. done. Qed.
Lemma darwin_teardown_ok (tr : list effect) : (TeardownRouting (darwinManager key) tr).1 = Ok tt.
Proof. done. Qed.
End Platforms.

(** ** A cancelled run *)

(** The calls of [doShutdown] and of the loop head. *)
Definition silent (e : event) : bool :=
  match e with Ev c => match c with CtxErr | Notify _ _ | TorClose | VMIsRunning | VMStop => true | _ => false end end.

Lemma host_trace_silent `{H : Host} (mgr : Manager) (h1 h2 : list event) : Forall (fun e => silent e = true) h2 ->
  host_trace mgr (h1 ++ h2) = host_trace mgr h1.
Proof.
  intros Hf. rewrite host_trace_app. generalize (host_trace mgr h1). induction Hf as [|[T c] h2 He _ IH]; intros tr; [done|].
  cbn [foldl]. rewrite IH. by destruct c.
Qed.

Section Cancelled.
Context `{env : Env} `{U : UnicodeTables}.

Lemma shutdown_silent (s s' : st) (h : handled) : state (eng s) = StateShutdown -> handle StateShutdown s = (h, s') ->
  exists evs, tr s' = tr s ++ evs /\ Forall (fun e => silent e = true) evs.
Proof.
  intros Hx Hh. destruct s as [[cfg x0 sv ctl fs pol att] t]; simpl in Hx; subst x0. exec Hh.
  destruct ctl; repeat case_match; simplify_eq; cbn [tr]; rewrite <- ?app_assoc; eexists; (split; [reflexivity|by repeat constructor]).
Qed.
Lemma iteration_silent (s : st) : answer (tr s) CtxErr <> None ->
  exists s' evs, iteration s = (None, s') /\ tr s' = tr s ++ evs /\ Forall (fun e => silent e = true) evs /\ stop_called (tr s').
Proof.
  intros Hc. rewrite iteration_unfold. cbv zeta.
  destruct (head_spec s) as (_ & _ & _ & [[_ Hn]|(_ & Hs & _ & Ht)]); [done|].
  rewrite Hs. destruct (handle StateShutdown (head s).2) as [h s2] eqn:Hh.
  destruct (shutdown_stops _ _ _ Hs Hh) as [-> Hv]. destruct (shutdown_silent _ _ _ Hs Hh) as (evs & E & Hf).
  exists s2, ([Ev CtxErr; Ev (Notify (state (eng s)) StateShutdown)] ++ evs). rewrite E, Ht, <- app_assoc in *.
  split_and!; [done|done| |done]. apply Forall_app. split; [by repeat constructor|done].
Qed.
Lemma Run_silent (fuel : nat) (s : st) : (forall evs, answer (tr s ++ evs) CtxErr <> None) ->
  exists s' evs, Run fuel s = (OutOfFuel, s') /\ tr s' = tr s ++ evs /\ Forall (fun e => silent e = true) evs /\
    (fuel <> 0%nat -> stop_called (tr s')).
Proof.
  revert s. induction fuel as [|f IH]; intros s Hc; [exists s, []; by rewrite app_nil_r|].
  destruct (iteration_silent s) as (s1 & evs1 & Hi & Ht1 & Hq1 & Hv1); [rewrite <- (app_nil_r (tr s)); apply Hc|].
  destruct (IH s1) as (s2 & evs2 & Hr & Ht2 & Hq2 & _); [intros evs; rewrite Ht1, <- app_assoc; apply Hc|].
  exists s2, (evs1 ++ evs2). cbn [Run]. unfold mbind, M_bind. rewrite Hi.
  split_and!; [done|by rewrite Ht2, Ht1, <- app_assoc|by apply Forall_app|]. intros _. rewrite Ht2.
  apply stop_called_app; [done|]. eapply Forall_impl; [exact Hq2|]. intros [T c]. by destruct c.
Qed.
End Cancelled.

(** ** What is restored was saved *)

Definition restores_config (e : event) : option SavedConfig :=
  match e with Ev c => match c with NetRestoreConfig cfg => Some cfg | _ => None end end.

Section Saved.
Context `{env : Env} `{U : UnicodeTables}.

(** [c] is an answer of [SaveConfig] earlier in the history. *)
Definition saved_by (c : SavedConfig) (t : list event) : Prop :=
  exists a b, t = a ++ Ev NetSaveConfig :: b /\ answer a NetSaveConfig = Ok c.
Definition restores_saved (t : list event) : Prop :=
  forall a e b c, t = a ++ e :: b -> restores_config e = Some c -> saved_by c a.
Definition saved_inv (s : st) : Prop :=
  (forall c, savedNet (eng s) = Some c -> saved_by c (tr s)) /\ restores_saved (tr s).

Lemma saved_by_app (c : SavedConfig) (t evs : list event) : saved_by c t -> saved_by c (t ++ evs).
Proof. intros (a & b & -> & Ha). exists a, (b ++ evs). by rewrite <- app_assoc. Qed.
Lemma restores_saved_app (t evs : list event) : restores_saved t ->
  Forall (fun e => forall c, restores_config e = Some c -> saved_by c t) evs -> restores_saved (t ++ evs).
Proof.
  intros Ht He a e b c E Hc. apply app_eq_app in E as (k & [[E1 E2]|[E1 E2]]).
  - destruct k as [|x k]; cbn in E2.
    + rewrite app_nil_r in E1. subst a evs. apply Forall_inv in He. by apply He.
    + injection E2 as -> E2. by apply (Ht a x k c).
  - subst a evs. apply Forall_app in He as [_ He%Forall_inv]. apply saved_by_app. by apply He.
Qed.
(** Events without a restore keep the invariant. *)
Lemma saved_inv_app (s s' : st) (evs : list event) : saved_inv s -> tr s' = tr s ++ evs -> savedNet (eng s') = savedNet (eng s) ->
  Forall (fun e => restores_config e = None) evs -> saved_inv s'.
Proof.
  intros [H1 H2] Et Es Hf. split; rewrite Et, ?Es.
  - intros c Hc. by apply saved_by_app, H1.
  - apply restores_saved_app; [done|]. eapply Forall_impl; [exact Hf|]. intros e E c. by rewrite E.
Qed.

Lemma handle_saved (s s' : st) (h : handled) : saved_inv s -> handle (state (eng s)) s = (h, s') -> saved_inv s'.
Proof.
  intros HI H. pose proof (handle_ok _ _ _ _ eq_refl H) as [_ _ (evs & Et & Hal & _) _ _ Hsv _ _].
  destruct (decide (state (eng s) = StateSaveNetwork)) as [Hx|Hx].
  { rewrite Hx in H. destruct HI as [H1 H2], s as [[cfg x sv ctl fs pol att] t]. cbn in Hx, H1, H2. subst x. exec H.
    destruct (answer t NetSaveConfig) as [c|e] eqn:E; simplify_eq; cbn.
    - split; cbn.
      + intros c' [= <-]. exists t, [Ev (Notify StateSaveNetwork StateCreateTAP)]. by rewrite <- app_assoc.
      + rewrite <- app_assoc. apply restores_saved_app; [done|]. by repeat constructor.
    - apply (saved_inv_app {| eng := Build_Engine cfg StateSaveNetwork sv ctl fs pol att; tr := t |} _ [Ev NetSaveConfig]); try done. by repeat constructor. }
  destruct (decide (state (eng s) = StateRestoreNetwork)) as [Hr|Hr].
  { rewrite Hr in *. destruct HI as [H1 H2]. split; [rewrite Hsv, Et by done; intros c Hc; by apply saved_by_app, H1|].
    rewrite Et. apply restores_saved_app; [done|]. destruct s as [[cfg x sv ctl fs pol att] t]. cbn in Hr, H1, H2, Et. subst x. exec H.
    clear Hal Hsv. destruct sv as [c|], fs; repeat case_match; simplify_eq; cbn [tr] in Et; rewrite <- ?app_assoc in Et;
      apply app_inv_head in Et; subst evs; repeat constructor; cbn; intros ? [= <-]; by apply H1. }
  eapply saved_inv_app; [exact HI|exact Et|by apply Hsv|]. eapply Forall_impl; [exact Hal|].
  intros [T c]. destruct c; try done. cbn. by intros ?%bool_decide_eq_true.
Qed.
Lemma on_error_saved (s s' : st) (e : error) (u : unit) : saved_inv s -> on_error e s = (u, s') -> saved_inv s'.
Proof.
  intros HI H. destruct s as [[cfg x sv ctl fs pol att] t]. unfold on_error in H. exec H.
  destruct (ShouldRetry _ _ _ _ _) as [[] delay]; exec H; repeat case_match; simplify_eq;
    (eapply saved_inv_app; [exact HI|cbn [tr]; rewrite <- ?app_assoc; reflexivity|done|by repeat constructor]).
Qed.
Lemma head_saved (s : st) : saved_inv s -> saved_inv (head s).2.
Proof.
  intros HI. destruct (head_spec s) as (_ & _ & Hs & [[E _]|(_ & _ & _ & E)]).
  - rewrite E. eapply saved_inv_app; [exact HI|done|done|by repeat constructor].
  - eapply saved_inv_app; [exact HI|exact E|exact Hs|by repeat constructor].
Qed.
Lemma Run_saved (fuel : nat) (s s' : st) (o : outcome) : saved_inv s -> Run fuel s = (o, s') -> saved_inv s'.
Proof.
  revert s. induction fuel as [|f IH]; intros s HI H; [by injection H as _ <-|].
  cbn [Run] in H. unfold mbind, M_bind in H. rewrite iteration_unfold in H. cbv zeta in H.
  apply head_saved in HI. destruct (handle _ _) as [h s2] eqn:Hh. apply (handle_saved _ _ _ HI) in Hh as HI2.
  destruct h as [r|[[]|e]|]; try (by injection H as _ <-); [by eapply IH|].
  destruct (on_error e s2) as [u s3] eqn:Ho. eapply IH; [|exact H]. by eapply on_error_saved.
Qed.
End Saved.

(** ** Theorems *)

(** The unix platforms: name, manager, reading of its route commands. *)
Definition unix `{H : Host} (key : option (list Z)) : list (string * Manager * (effect -> route_command)) :=
  [("linux", linuxManager key, linux_route); ("darwin", darwinManager key, darwin_route)].

Lemma unix_router `{H : Host} `{U : UnicodeTables} (key : option (list Z)) (name : string) (mgr : Manager) (route_of : effect -> route_command) :
  (name, mgr, route_of) ∈ unix key -> delete_works route_of -> exists dests, router route_of mgr dests.
Proof.
  intros [[= -> -> ->]|[[= -> -> ->]|[]%elem_of_nil]%elem_of_cons]%elem_of_cons Hw;
    [exists linux_dests; by apply linux_router|exists darwin_dests; by apply darwin_router].
Qed.
Lemma unix_teardown_ok `{H : Host} (key : option (list Z)) (name : string) (mgr : Manager) (route_of : effect -> route_command) (tr : list effect) :
  (name, mgr, route_of) ∈ unix key -> (TeardownRouting mgr tr).1 = Ok tt.
Proof. intros [[= -> -> ->]|[[= -> -> ->]|[]%elem_of_nil]%elem_of_cons]%elem_of_cons; done. Qed.

Lemma restored_no_setup (cfg : Config) (sv : option SavedConfig) `{env : Env} (t : list event) : restore_called cfg sv t ->
  exists pre post, t = pre ++ Ev NetTeardownRouting :: post /\ Forall (fun e => sets_up e = false) post.
Proof.
  intros (pre & mid & post & -> & _ & Hm & Hp & _). exists pre, (mid ++ Ev (NetDestroyTAP (TAPName cfg)) :: post). split; [done|].
  apply Forall_app. split; [|constructor; [done|]]; (eapply Forall_impl; [eassumption|]; intros [T c]; by destruct c).
Qed.

Lemma Run_no_route (H : Host) (U : UnicodeTables) (key : option (list Z)) (name : string) (mgr : Manager)
    (route_of : effect -> route_command) (other : Env) (cfg : Config) (fuel : nat) (r : result unit) (s' : st) :
  (name, mgr, route_of) ∈ unix key -> delete_works route_of ->
  @Run (host_env mgr other) U fuel (init cfg) = (Returned r, s') -> routes route_of (host_trace mgr (tr s')) = ∅.
Proof.
  intros Hin Hw Hr. destruct (unix_router _ _ _ _ Hin Hw) as [dests Hrt].
  destruct (@Run_Inv (host_env mgr other) U fuel (init cfg) s' r (init_Inv cfg) Hr) as [[_ Hres]|[_ Hu]].
  - destruct (restored_no_setup _ _ _ Hres) as (pre & post & -> & Hf). by eapply trace_teardown.
  - pose proof (trace_adds_none route_of mgr dests Hrt [] (tr s')) as Hs. cbn [app] in Hs.
    enough (routes route_of (host_trace mgr (tr s')) ⊆ ∅) by set_solver. apply Hs.
    eapply Forall_impl; [exact Hu|]. intros [T c]. by destruct c.
Qed.

(** C2. The engine on its host: on Linux and macOS, when [Run] returns, with an
    error or without, no route of the program is left, whatever commands failed
    on the way and in whatever order, as long as deleting a route that is there
    succeeds.  And the configuration handed back for restoring is always one
    the manager saved itself, so that its integrity check accepts it. *)
Theorem run_leaves_no_route (H : Host) (U : UnicodeTables) (key : option (list Z)) (name : string) (mgr : Manager)
    (route_of : effect -> route_command) (other : Env) (cfg : Config) (fuel : nat) (r : result unit) (s' : st) :
  (name, mgr, route_of) ∈ unix key -> delete_works route_of ->
  @Run (host_env mgr other) U fuel (init cfg) = (Returned r, s') ->
  routes route_of (host_trace mgr (tr s')) = ∅ /\
  forall a c b, tr s' = a ++ Ev (NetRestoreConfig c) :: b -> check_saved key name (Some c) (host_trace mgr a) = (Ok c, host_trace mgr a).
Proof.
  intros Hin Hw Hr. split; [by eapply Run_no_route|].
  intros a c b E. destruct (@Run_saved (host_env mgr other) U fuel (init cfg) s' _ ltac:(by split; [|intros [|] ???]) Hr) as [_ Hs].
  destruct (Hs a _ b c E eq_refl) as (a1 & b1 & -> & Ha). unfold answer, host_env in Ha. cbn [net_call] in Ha.
  assert ((SaveConfig mgr (host_trace mgr a1)).1 = Ok c) as Hc by by destruct (SaveConfig mgr (host_trace mgr a1)).
  destruct (saved_verifies key "" (host_trace mgr a1) name (SaveConfig mgr) c) as [Hp Hv]; [|done|by apply check_saved_ok].
  apply elem_of_cons in Hin as [[= -> -> _]|[[= -> -> _]|[]%elem_of_nil]%elem_of_cons]; [by left|by right; left].
Qed.
(** A host on which every command succeeds. *)
Definition willing_host : Host := fun _ _ => (EmptyString, None).
Definition willing_env : Env := host_env (@linuxManager willing_host None) calm_env.
Definition willing_final : st := (@Run willing_env ascii_tables 24 (init (DefaultConfig linux))).2.
Lemma willing_run : @Run willing_env ascii_tables 24 (init (DefaultConfig linux)) = (Returned (Ok tt), willing_final).
Proof. vm_compute. reflexivity. Qed.
Lemma run_leaves_no_route_witness :
  @routes willing_host linux_route (host_trace (@linuxManager willing_host None) (tr willing_final)) = ∅.
Proof.
  refine (proj1 (run_leaves_no_route willing_host ascii_tables None "linux" _ linux_route calm_env (DefaultConfig linux) 24 (Ok tt)
    willing_final _ _ willing_run)); [by left|]. by intros.
Defined.

(** The condition is needed: neither manager reports that a delete command
    failed, so the engine never sees a failed teardown, its fallback to the
    failsafe is never taken, and the run returns nil with the route in place. *)
Theorem failed_delete_unnoticed (H : Host) (U : UnicodeTables) (key : option (list Z)) (name : string) (mgr : Manager)
    (route_of : effect -> route_command) (other : Env) (h : list event) :
  (name, mgr, route_of) ∈ unix key -> @answer (host_env mgr other) _ h NetTeardownRouting = Ok tt.
Proof.
  intros Hin. unfold answer, host_env. cbn [net_call]. rewrite <- (unix_teardown_ok key name mgr route_of (host_trace mgr h) Hin).
  by destruct (TeardownRouting mgr (host_trace mgr h)).
Qed.
(** On this host no route can be deleted. *)
Definition sticky_host : Host := fun _ e => (EmptyString, match linux_route e with Del _ => Some "exit status 2" | _ => None end).
Definition sticky_mgr : Manager := @linuxManager sticky_host None.
Lemma failed_delete_unnoticed_witness :
  @answer (host_env sticky_mgr calm_env) _ [] NetTeardownRouting = Ok tt /\
  let '(r, s') := @Run (host_env sticky_mgr calm_env) ascii_tables 24 (init (DefaultConfig linux)) in
  r = Returned (Ok tt) /\ @routes sticky_host linux_route (host_trace sticky_mgr (tr s')) = {["default"]}.
Proof.
  split; [apply (failed_delete_unnoticed sticky_host ascii_tables None "linux" sticky_mgr linux_route calm_env []); by left|].
  vm_compute. by split.
Defined.

(** A cancelled run strands the host: whatever the manager, from any state, once
    the context is done the machine is stopped, and no command is run on the
    host any more, so that the routes into the machine stay. *)
Theorem cancelled_run_strands (H : Host) (U : UnicodeTables) (mgr : Manager) (route_of : effect -> route_command) (other : Env) (s : st) :
  (forall evs, @answer (host_env mgr other) _ (tr s ++ evs) CtxErr <> None) ->
  forall fuel, exists s', @Run (host_env mgr other) U fuel s = (OutOfFuel, s') /\
    host_trace mgr (tr s') = host_trace mgr (tr s) /\ routes route_of (host_trace mgr (tr s')) = routes route_of (host_trace mgr (tr s)) /\
    (fuel <> 0%nat -> @stop_called (host_env mgr other) (tr s')).
Proof.
  intros Hc fuel. destruct (@Run_silent (host_env mgr other) U fuel s Hc) as (s' & evs & Hr & E & Hf & Hv).
  exists s'. rewrite E in *. rewrite (host_trace_silent mgr _ _ Hf). by split_and!.
Qed.
(** A run in [Running] with its route installed, under a context that is done. *)
Definition stranded_env : Env := host_env (@linuxManager willing_host None) (calm (fun _ => Some Canceled) (Ok tt)).
Definition routed : st := {|
  eng := set_state StateRunning (NewEngine (DefaultConfig linux));
  tr := [Ev (NetSetupRouting "torvm0" [10; 10; 10; 1])] |}.
Lemma cancelled_run_strands_witness :
  exists s', @Run stranded_env ascii_tables 100 routed = (OutOfFuel, s') /\
    @routes willing_host linux_route (host_trace (@linuxManager willing_host None) (tr s')) = {["default"]}.
Proof.
  destruct (cancelled_run_strands willing_host ascii_tables (@linuxManager willing_host None) linux_route
    (calm (fun _ => Some Canceled) (Ok tt)) routed (fun _ => ltac:(discriminate)) 100) as (s' & H1 & _ & H2 & _).
  exists s'. split; [exact H1|]. refine (eq_trans H2 _). by vm_compute.
Defined.
