(* ===== verification/EngineLife.v ===== *)
(** * The life of an engine: one run after another, with requests between

    The graphical interface keeps one engine and starts a run of it per press
    of Start ([gui/app.go], [Engine.Start] of [lifecycle/lifecycle.go]);
    reloads and requests for a new identity come from other goroutines.  Here
    an engine's life is any sequence of runs, each started when the one before
    has returned, with reloads and requests between the iterations of their
    loops.  Every turn and request has an environment of its own, so a theorem
    over all lives is one over all contexts and all behaviours of the outside
    at any time.

    An iteration of [Run] holds no lock, so that it is one step only of a run
    that is alone: while one run is live there is no other here.  The interface
    also allows Start after Stop while the cancelled run still loops; two such
    runs interleave inside their iterations, and nothing here is claimed of
    them. *)

From S2P Require Import Prelude GoStrings NetIP Config Torrc Control Network Retry Lifecycle LifecycleFacts LifecycleTheorems.
Local Open Scope Z_scope.

(** ** Lives *)

(** The run that has not ended, if any, is in [live]; [results] has what the
    channels of [Start] were given. *)
Record life := { es : st; live : gset nat; next : nat; results : list (nat * result unit) }.
Definition fresh (cfg : Config) : life := {| es := init cfg; live := ∅; next := O; results := [] |}.

Inductive op :=
  | Start                            (* a run is started, when none is live *)
  | Turn (i : nat) (env : Env)       (* an iteration of the loop of a run *)
  | Reload (env : Env) (c : Config)
  | Identity (env : Env).

Section Life.
Context `{U : UnicodeTables}.

(** A turn that would poll for ever is no step of a life, nor is the start of a
    run beside another. *)
Definition exec (o : op) (l : life) : option life :=
  match o with
  | Start =>
      if decide (live l = ∅) then Some {| es := es l; live := {[next l]}; next := S (next l); results := results l |}
      else None
  | Turn i env =>
      if decide (i ∈ live l) then
        match @iteration env U (es l) with
        | (Some (Returned r), s) => Some {| es := s; live := live l ∖ {[i]}; next := next l; results := results l ++ [(i, r)] |}
        | (Some OutOfFuel, _) => None
        | (None, s) => Some {| es := s; live := live l; next := next l; results := results l |}
        end
      else None
  | Reload env c => Some {| es := (@ReloadConfig env U c (es l)).2; live := live l; next := next l; results := results l |}
  | Identity env => Some {| es := (@NewIdentity env (es l)).2; live := live l; next := next l; results := results l |}
  end.
Fixpoint lives (os : list op) (l : life) : option life :=
  match os with [] => Some l | o :: os' => match exec o l with Some l' => lives os' l' | None => None end end.

(** ** What one step adds to the history *)

(** The phases after which nothing is set up any more. *)
Definition winding (x : State) : bool :=
  match x with StateShutdown | StateRestoreNetwork | StateCleanup => true | _ => false end.

(** What a step of a life does to the state and the history. *)
Definition adds (s s' : st) : Prop := exists evs,
  tr s' = tr s ++ evs /\ follow (state (eng s)) (trail evs) = Some (state (eng s')) /\
  (winding (state (eng s)) = true -> winding (state (eng s')) = true /\ untouched evs) /\
  (state (eng s) <> StateFailed -> state (eng s') <> StateFailed).

Lemma adds_refl (s : st) : adds s s.
Proof. exists []. rewrite app_nil_r. split_and!; [done..| |done]. intros H. split; [done|constructor]. Qed.
Lemma adds_trans (s1 s2 s3 : st) : adds s1 s2 -> adds s2 s3 -> adds s1 s3.
Proof.
  intros (e1 & T1 & P1 & W1 & F1) (e2 & T2 & P2 & W2 & F2). exists (e1 ++ e2). split_and!.
  - by rewrite T2, T1, app_assoc.
  - by rewrite trail_app, follow_app, P1.
  - intros [H U1]%W1. apply W2 in H as [H U2]. by rewrite untouched_app.
  - auto.
Qed.
(** A step that leaves the state alone and only makes harmless calls. *)
Lemma adds_quiet (s s' : st) (evs : list event) :
  tr s' = tr s ++ evs -> trail evs = [] -> untouched evs -> state (eng s') = state (eng s) -> adds s s'.
Proof. intros T P Hu E. exists evs. rewrite P, E. split_and!; [done|done|done|done]. Qed.

Section Turns.
Context `{env : Env}.

Lemma head_adds (s : st) : adds s (head s).2.
Proof.
  destruct (head_spec s) as (_ & _ & _ & [[E _]|(_ & Hs & _ & Ht)]).
  - rewrite E. eapply adds_quiet; [done|done|by repeat constructor|done].
  - eexists. rewrite Hs. split_and!; [exact Ht| |by split; [|repeat constructor]|done].
    cbn. rewrite decide_True by done. unfold edge. by rewrite (bool_decide_eq_true_2 (StateShutdown = _)), orb_true_r.
Qed.
Lemma handle_adds (s s' : st) (h : handled) : handle (state (eng s)) s = (h, s') -> adds s s'.
Proof.
  intros H. pose proof (handle_ok _ _ _ _ eq_refl H) as [_ _ (evs & Ht & Ha & Hn) Hs _ _ _ _]. exists evs.
  assert (winding (state (eng s)) = true -> untouched evs) as Hu by (intros; by apply (allowed_untouched (state (eng s))); destruct (state (eng s))).
  assert (moved h = true -> state (eng s) <> StateCleanup /\ state (eng s) <> StateFailed) as Hm.
  { intros Hm. split; intros E; rewrite E in H; [|by injection H as <- _].
    cbn in H. unfold doCleanup, Deactivate, fmap, M_fmap, mbind, M_bind, get in H. destruct (fs_active _) in H; by injection H as <- _. }
  rewrite Hn, Hs. destruct (moved h).
  - destruct (Hm eq_refl) as [H1 H2]. split_and!; [done| | |].
    + cbn. by rewrite decide_True, next_edge.
    + intros Hw. split; [by destruct (state (eng s))|by apply Hu].
    + by destruct (state (eng s)).
  - split_and!; [done|done|auto|done].
Qed.
Lemma on_error_adds (e : error) (s : st) : state (eng s) ∈ failing -> adds s (on_error e s).2.
Proof.
  intros Hf. destruct (on_error e s) as [[] s'] eqn:H. destruct (failing_plain _ Hf) as (H1 & H2 & H3 & H4).
  destruct (on_error_spec _ _ _ _ eq_refl ltac:(done) H) as [_ _ _ (evs & Ht & Hu & Hn) Hx]. exists evs.
  rewrite Hn. assert (state (eng s') = state (eng s) \/ state (eng s') = StateShutdown) as Hs by by destruct Hx as [[? _]|[? _]]; [left|right].
  cbn [snd]. split_and!; [done| | |].
  - case_decide as E; [by rewrite E|]. cbn. rewrite decide_True by done. destruct Hs as [?| ->]; [done|].
    unfold edge. by rewrite (bool_decide_eq_true_2 (StateShutdown = _)), orb_true_r.
  - intros Hw. split; [|done]. destruct Hs as [-> | ->]; done.
  - intros _. by destruct Hs as [-> | ->].
Qed.
Lemma iteration_adds (s s' : st) (o : option outcome) : iteration s = (o, s') ->
  adds s s' /\ (o = Some (Returned (Ok tt)) -> state (eng s') = StateCleanup).
Proof.
  rewrite iteration_unfold. cbv zeta. pose proof (head_adds s) as A. set (s1 := (head s).2) in *.
  destruct (handle (state (eng s1)) s1) as [h s2] eqn:Hh. pose proof (handle_adds _ _ _ Hh) as A2.
  pose proof (handle_ok _ _ _ _ eq_refl Hh) as [_ _ _ Hs _ _ Hr He]. pose proof (adds_trans _ _ _ A A2) as A3.
  destruct h as [r|[[]|e]|]; intros [= <- <-]; (split; [try done|try done]).
  - intros [= ->]. destruct (Hr _ eq_refl) as [[_ ?]|[E _]]; [done|]. cbn in Hs. by rewrite Hs.
  - cbn [moved] in Hs. eapply adds_trans; [exact A3|]. apply on_error_adds. rewrite Hs. by eapply He.
Qed.
Lemma push_silent (c : Config) (s : st) : exists evs, tr (push_config c s).2 = tr s ++ evs /\ trail evs = [] /\ untouched evs.
Proof.
  unfold push_config. destruct (TorrcOverlay c) as [o|e]; [|by exists []; rewrite app_nil_r; repeat constructor].
  unfold mbind, M_bind, mret, M_ret, do_call. destruct (decide _); [|destruct (answer _ _)]; cbn [snd tr];
    eexists; rewrite <-?app_assoc; (split; [reflexivity|split; [done|by repeat constructor]]).
Qed.
Lemma Reload_adds (c : Config) (s : st) : adds s (ReloadConfig c s).2.
Proof.
  assert (exists evs, tr (ReloadConfig c s).2 = tr s ++ evs /\ trail evs = [] /\ untouched evs) as (evs & Ht & Hn & Hu).
  { unfold ReloadConfig. unfold mbind at 1, M_bind at 1, get at 1. destruct (HasChanges _); cbn [negb]; [|by exists []; rewrite app_nil_r; repeat constructor].
    unfold mbind, M_bind, get. destruct (push_silent c s) as (evs & Ht & Hn & Hu).
    destruct (negb _ && _ && _); [destruct (push_config c s) as [[[]|e] s1]; cbn [snd] in Ht; [|by exists evs]|];
      unfold mret, M_ret, upd, do_call; destruct (Bool.eqb _ _); cbn [snd tr].
    - by exists evs.
    - exists (evs ++ [Ev (SetVerbose (Verbose c))]). rewrite Ht, app_assoc, trail_app, untouched_app, Hn. by repeat constructor.
    - by exists []; rewrite app_nil_r; repeat constructor.
    - exists [Ev (SetVerbose (Verbose c))]. by repeat constructor. }
  pose proof (ReloadConfig_eng c s) as H. destruct (ReloadConfig c s) as [r s']. cbn [snd] in *. destruct H as [He _].
  eapply adds_quiet; [exact Ht|done|done|]. rewrite He. by destruct (_ && _).
Qed.
Lemma Identity_adds (s : st) : adds s (NewIdentity s).2.
Proof.
  unfold NewIdentity, mbind, M_bind, get. destruct (TorControl (eng s)); [|apply adds_refl].
  eapply adds_quiet; [reflexivity|done|by repeat constructor|done].
Qed.
End Turns.

(** ** Lives *)

Lemma exec_adds (o : op) (l l' : life) : exec o l = Some l' -> adds (es l) (es l').
Proof.
  destruct o as [|i env|env c|env]; cbn [exec].
  - case_decide; [|done]. intros [= <-]. apply adds_refl.
  - case_decide; [|done]. destruct (iteration (es l)) as [[[r|]|] s] eqn:E; try done; intros [= <-]; by apply iteration_adds in E as [? _].
  - intros [= <-]. apply Reload_adds.
  - intros [= <-]. apply Identity_adds.
Qed.
Lemma lives_adds (os : list op) (l l' : life) : lives os l = Some l' -> adds (es l) (es l').
Proof.
  revert l. induction os as [|o os IH]; intros l H; [injection H as <-; apply adds_refl|]. cbn in H.
  destruct (exec o l) as [l1|] eqn:E; [|done]. eapply adds_trans; [by eapply exec_adds|by apply IH].
Qed.
Lemma lives_app (os os' : list op) (l l' : life) : lives os l = Some l' -> lives (os ++ os') l = lives os' l'.
Proof. revert l. induction os as [|o os IH]; intros l H; [by injection H as ->|]. cbn in *. destruct (exec o l); [by apply IH|done]. Qed.
End Life.

(** ** Properties *)

(** C4. In the whole life of an engine, with any number of runs one after the
    other and reloads and requests between their iterations, the transitions
    are one path of the state diagram from [Init] to the present state, and the
    failed state is never entered. *)
Theorem life_follows (U : UnicodeTables) (cfg : Config) (os : list op) (l : life) :
  lives os (fresh cfg) = Some l ->
  follow StateInit (trail (tr (es l))) = Some (state (eng (es l))) /\ state (eng (es l)) <> StateFailed.
Proof.
  intros H. apply lives_adds in H as (evs & Ht & Hp & _ & Hf). cbn in Ht, Hp. rewrite Ht. split; [exact Hp|by apply Hf].
Qed.

Definition ended_well (l : life) : Prop := (exists i, (i, Ok tt) ∈ results l) -> winding (state (eng (es l))) = true.
Lemma exec_ended_well `{U : UnicodeTables} (o : op) (l l' : life) : ended_well l -> exec o l = Some l' -> ended_well l'.
Proof.
  intros Hw H. pose proof (exec_adds o l l' H) as (evs & _ & _ & Hk & _). intros [i Hi].
  assert ((exists i, (i, Ok tt) ∈ results l) -> winding (state (eng (es l'))) = true) as Hold by (intros He; by destruct (Hk (Hw He))).
  destruct o as [|j env|env c|env]; cbn [exec] in H; try (injection H as <-; apply Hold; by exists i);
    (case_decide; [|done]); [injection H as <-; apply Hold; by exists i|]. destruct (iteration (es l)) as [[[r|]|] s] eqn:E; try done; injection H as <-; cbn [results es] in *.
  - apply elem_of_app in Hi as [Hi|[= -> <-]%list_elem_of_singleton]; [apply Hold; by exists i|].
    by apply iteration_adds in E as [_ ->].
  - apply Hold. by exists i.
Qed.
Lemma lives_ended_well `{U : UnicodeTables} (os : list op) (l l' : life) : ended_well l -> lives os l = Some l' -> ended_well l'.
Proof.
  revert l. induction os as [|o os IH]; intros l Hw H; [by injection H as <-|]. cbn in H.
  destruct (exec o l) as [l1|] eqn:E; [|done]. eapply IH; [by eapply exec_ended_well|done].
Qed.

(** C5. An engine runs once.  Its runs come one after the other, with reloads and
    requests between their iterations.  When one of them has returned nil,
    nothing that follows starts a machine, creates a TAP device or sets up
    routing; and when the engine is at rest in [Cleanup], a further run with a
    context that is not done returns nil in its first iteration, its only call
    that of its context. *)
Theorem restart_does_nothing (U : UnicodeTables) (cfg : Config) (os os' : list op) (l l' : life) (i : nat) :
  lives os (fresh cfg) = Some l -> (i, Ok tt) ∈ results l -> lives os' l = Some l' ->
  (exists evs, tr (es l') = tr (es l) ++ evs /\ untouched evs) /\
  (state (eng (es l')) = StateCleanup -> live l' = ∅ -> forall env : Env, answer (tr (es l')) CtxErr = None ->
   exists l'', lives [Start; Turn (next l') env] l' = Some l'' /\
     results l'' = results l' ++ [(next l', Ok tt)] /\ tr (es l'') = tr (es l') ++ [Ev CtxErr]).
Proof.
  intros H Hi H'. split.
  - assert (winding (state (eng (es l))) = true) as Hw.
    { eapply (lives_ended_well os (fresh cfg) l); [|done|by exists i]. by intros [? ?%elem_of_nil]. }
    apply lives_adds in H' as (evs & Ht & _ & Hu & _). exists evs. split; [done|by apply Hu].
  - intros Hc Hl env Hn. cbn [lives exec live es next results]. rewrite (decide_True _ _ Hl). cbn [live es next results].
    rewrite decide_True by set_solver.
    destruct l' as [[[c x sv ctl fs pol att] t] lv nx rs]. cbn [es eng tr state next results] in *. subst x.
    unfold iteration, mbind, M_bind, do_call, get. cbn [tr eng]. rewrite Hn. cbn [mret M_ret state].
    unfold handle, doCleanup, Deactivate, fmap, M_fmap, mbind, M_bind, get. cbn [eng fs_active].
    destruct fs; eexists; (split; [reflexivity|by split]).
Qed.

(** Start, a whole run, Start again. *)
Definition turns (i n : nat) (env : Env) : list op := repeat (Turn i env) n.
Definition whole_run : list op := Start :: turns 0 13 calm_env.
Definition lived (os : list op) : life := default (fresh (DefaultConfig linux)) (@lives ascii_tables os (fresh (DefaultConfig linux))).
Lemma whole_run_lives : @lives ascii_tables whole_run (fresh (DefaultConfig linux)) = Some (lived whole_run).
Proof. vm_compute. reflexivity. Qed.
Lemma life_follows_witness :
  follow StateInit (trail (tr (es (lived whole_run)))) = Some StateCleanup /\ results (lived whole_run) = [(O, Ok tt)].
Proof.
  split; [|by vm_compute]. refine (eq_trans (proj1 (life_follows ascii_tables (DefaultConfig linux) whole_run _ whole_run_lives)) _).
  vm_compute. reflexivity.
Defined.
Lemma restart_does_nothing_witness :
  exists l'', @lives ascii_tables [Start; Turn 1 calm_env] (lived whole_run) = Some l'' /\
    results l'' = [(O, Ok tt); (1%nat, Ok tt)] /\ tr (es l'') = tr (es (lived whole_run)) ++ [Ev CtxErr].
Proof.
  assert (next (lived whole_run) = 1%nat) as E by by vm_compute.
  assert (results (lived whole_run) = [(O, Ok tt)]) as Er by by vm_compute.
  destruct (restart_does_nothing ascii_tables (DefaultConfig linux) whole_run [] (lived whole_run) (lived whole_run) 0 whole_run_lives)
    as [_ H]; [rewrite Er; by left|done|].
  specialize (H ltac:(by vm_compute) ltac:(by vm_compute) calm_env eq_refl). rewrite E, Er in H. exact H.
Defined.
