(* ===== verification/QemuArgs.v ===== *)
(** * Package [vm]: the QEMU command lines

    [qemu_args.go], [browser_args.go], [statedisk.go] and
    [security/entropy.go].  [runtime.GOOS] is a parameter, and so is the
    outcome of [rand.Read]. *)

From S2P Require Import Prelude GoStrings StringFacts NetIP Config Network.
Local Open Scope Z_scope.

(** ** Entropy *)

(** [rand.Read(buf)] for a buffer of [n] bytes. *)
Class Random := rand_read : nat -> result (list Z).

Section Args.
Context `{R : Random} `{U : UnicodeTables} (os : goos).

Definition EntropyHexString (n : Z) : result string :=
  buf ← wrap "entropy" (rand_read (Z.to_nat n));
  Ok (hex_encode buf).

(** ** The Tor VM *)

(** [accel], with the default. *)
Definition accel_of (cfg : Config) : string := if decide (Accel cfg = EmptyString) then "tcg" else Accel cfg.
Definition cpu_of (cfg : Config) : string :=
  if decide (accel_of cfg = "tcg") then
    if Entropy_ExposeRDRAND (Entropy cfg) then "qemu64,+rdrand" else "qemu64"
  else "host".

Definition machineArgs (cfg : Config) : string :=
  if decide (accel_of cfg = "kvm") then
    if IOMMUEnabled cfg then "q35,kernel-irqchip=split" else "q35,kernel-irqchip=on"
  else "q35".

(** The drive options of [blockArgs] and [browserBlockArgs]. *)
Definition drive_opts (accel path : string) : string :=
  let common := "file=" +:+ path +:+ ",id=drive0,if=none,format=raw" in
  if decide (accel = "kvm") then common +:+ ",cache=none,aio=native"
  else if decide (accel = "hvf" \/ accel = "whpx") then common +:+ ",cache=writeback,aio=threads"
  else common +:+ ",cache=writeback".
Definition blockArgs (cfg : Config) : list string :=
  ["-drive"; drive_opts (accel_of cfg) (StateDiskPath cfg); "-device"; "virtio-blk-pci,drive=drive0"].

Definition rngBackend : string :=
  if decide (os = windows) then "rng-builtin,id=rng0" else "rng-random,id=rng0,filename=/dev/urandom".
Definition rngArgs (cfg : Config) : list string :=
  let e := Entropy cfg in
  let maxBytes := if Entropy_VirtioRNGMaxBytes e =? 0 then 1024 else Entropy_VirtioRNGMaxBytes e in
  let period := if Entropy_VirtioRNGPeriod e =? 0 then 1000 else Entropy_VirtioRNGPeriod e in
  ["-object"; rngBackend; "-device";
   "virtio-rng-pci,rng=rng0,max-bytes=" +:+ itoa maxBytes +:+ ",period=" +:+ itoa period].

Definition serialEntropyArgs (cfg : Config) : list string :=
  let dev := Entropy_SerialEntropyDevice (Entropy cfg) in
  if decide (dev = EmptyString) then []
  else ["-chardev"; "serial,id=entropy_serial,path=" +:+ dev; "-device"; "isa-serial,chardev=entropy_serial"].

Definition tap_netdev (cfg : Config) : string :=
  "tap,id=net0,ifname=" +:+ TAPName cfg +:+ ",script=no,downscript=no"
  +:+ (if VhostNet cfg && bool_decide (os = linux) then ",vhost=on" else EmptyString).
Definition tapArgs (cfg : Config) : list string :=
  if decide (os = darwin) then
    ["-netdev"; "vmnet-shared,id=net0,start-address=" +:+ VMIP cfg +:+ ",end-address=" +:+ HostIP cfg
                +:+ ",subnet-mask=" +:+ SubnetMask cfg;
     "-device"; "virtio-net-pci,netdev=net0"]
  else ["-netdev"; tap_netdev cfg; "-device"; "virtio-net-pci,netdev=net0"].

Definition kernelAppend (cfg : Config) (entropy : string) : string :=
  "quiet IP=" +:+ HostIP cfg +:+ " MASK=" +:+ SubnetMask cfg +:+ " GW=" +:+ VMIP cfg
  +:+ " MTU=1500 PRIVIP=" +:+ VMIP cfg +:+ " CTLSOCK=" +:+ VMIP cfg +:+ ":" +:+ itoa (ControlPort cfg)
  +:+ " ENTROPY=" +:+ entropy
  +:+ (if Entropy_EnableHaveged (Entropy cfg) then " HAVEGED=1" else EmptyString)
  +:+ (if Entropy_EnableRngd (Entropy cfg) then " RNGD=1" else EmptyString)
  +:+ (if decide (Entropy_SerialEntropyDevice (Entropy cfg) = EmptyString) then EmptyString
       else " SERIAL_ENTROPY=1").

(** The loop that rejects NUL bytes. *)
Definition check_nul (pairs : list (string * string)) : result unit :=
  each (fun p => fail_if (Contains p.2 (str1 NUL)) (p.1 +:+ " contains null byte")) pairs.

Definition qmpArgs (path : string) : list string :=
  ["-qmp"; (if decide (os = windows) then "pipe:" else "unix:") +:+ path +:+ ",server,nowait"].

Definition BuildArgs (cfg : Config) : result (list string) :=
  check_nul [("KernelPath", KernelPath cfg); ("InitrdPath", InitrdPath cfg);
             ("StateDiskPath", StateDiskPath cfg); ("QMPSocketPath", QMPSocketPath cfg)] ;;
  let n := Entropy_KernelEntropyBytes (Entropy cfg) in
  entropy ← wrap "generate entropy" (EntropyHexString (if n =? 0 then 32 else n));
  Ok (["-name"; "TorVM"; "-machine"; machineArgs cfg; "-cpu"; cpu_of cfg; "-accel"; accel_of cfg;
       "-smp"; itoa (VMCPUs cfg); "-m"; itoa (VMMemoryMB cfg); "-kernel"; KernelPath cfg;
       "-initrd"; InitrdPath cfg; "-append"; kernelAppend cfg entropy]
      ++ blockArgs cfg
      ++ (if IOMMUEnabled cfg && bool_decide (accel_of cfg = "kvm")
          then ["-device"; "intel-iommu,intremap=on,caching-mode=on"] else [])
      ++ rngArgs cfg ++ serialEntropyArgs cfg ++ ["-device"; "virtio-balloon-pci"] ++ ["-nographic"]
      ++ tapArgs cfg ++ qmpArgs (QMPSocketPath cfg)).

(** ** The browser VM *)

Definition browserRngArgs : list string :=
  ["-object"; rngBackend; "-device"; "virtio-rng-pci,rng=rng0,max-bytes=1024,period=1000"].
Definition browserBlockArgs (bcfg : BrowserConfig) (accel : string) : list string :=
  ["-drive"; drive_opts accel (Browser_StateDiskPath bcfg); "-device"; "virtio-blk-pci,drive=drive0"].
Definition SecwatchSocketPath : string :=
  if decide (os = windows) then "\\.\pipe\torvm-secwatch" else "/run/torvm/secwatch.sock".
Definition browserSecwatchSocketPath (bcfg : BrowserConfig) : string := SecwatchSocketPath.

Definition browserAppend (cfg : Config) (entropy : string) : string :=
  let bcfg := Browser cfg in
  "quiet TORIP=" +:+ VMIP cfg +:+ " SOCKSPORT=" +:+ itoa (SOCKSPort cfg)
  +:+ " DNSPORT=" +:+ itoa (DNSPort cfg) +:+ " ENTROPY=" +:+ entropy
  +:+ " CANARY_INTERVAL=" +:+ itoa (Browser_CanaryIntervalSec bcfg)
  +:+ (if Browser_HoneyTokens bcfg then " HONEY_TOKENS=1" else EmptyString)
  +:+ (if Browser_AutoRemediate bcfg then " AUTO_REMEDIATE=1" else EmptyString).

Definition BuildBrowserArgs (cfg : Config) : result (list string) :=
  let bcfg := Browser cfg in
  check_nul [("Browser.KernelPath", Browser_KernelPath bcfg); ("Browser.InitrdPath", Browser_InitrdPath bcfg);
             ("Browser.StateDiskPath", Browser_StateDiskPath bcfg);
             ("Browser.QMPSocketPath", Browser_QMPSocketPath bcfg)] ;;
  entropy ← wrap "generate entropy" (EntropyHexString 64);
  let accel := accel_of cfg in
  Ok (["-name"; "BrowserVM"; "-nodefaults";
       "-machine"; (if decide (accel = "kvm") then "q35,kernel-irqchip=on" else "q35");
       "-cpu"; cpu_of cfg; "-accel"; accel; "-smp"; itoa (Browser_VMCPUs bcfg);
       "-m"; itoa (Browser_VMMemoryMB bcfg); "-kernel"; Browser_KernelPath bcfg;
       "-initrd"; Browser_InitrdPath bcfg; "-append"; browserAppend cfg entropy]
      ++ browserBlockArgs bcfg accel
      ++ ["-netdev"; "user,id=net0,restrict=on"; "-device"; "virtio-net-pci,netdev=net0"]
      ++ browserRngArgs ++ ["-device"; "virtio-balloon-pci"]
      ++ ["-device"; "virtio-serial-pci"; "-chardev";
          "socket,id=secwatch,path=" +:+ browserSecwatchSocketPath bcfg +:+ ",server=on,wait=off";
          "-device"; "virtserialport,chardev=secwatch,name=com.torvm.secwatch"]
      ++ (if 0 <? Browser_VNCDisplay bcfg then ["-vnc"; "127.0.0.1:" +:+ itoa (Browser_VNCDisplay bcfg)]
          else ["-nographic"])
      ++ qmpArgs (Browser_QMPSocketPath bcfg)).
End Args.

(** ** Writing into the state disk *)

Definition safe_char (c : ascii) : bool :=
  is_alnum c || Ascii.eqb c "/" || Ascii.eqb c "_" || Ascii.eqb c "." || Ascii.eqb c "-".
Definition safeHostPathRe (s : string) : bool := negb (bool_decide (s = EmptyString)) && str_forallb safe_char s.
Definition guestPathRe (s : string) : bool :=
  match s with String c t => is_alnum c && str_forallb safe_char t | EmptyString => false end.

Definition validateGuestPath `{U : UnicodeTables} (p : string) : result unit :=
  fail_if (bool_decide (p = EmptyString)) "guest path must not be empty" ;;
  fail_if (255 <? len p) ("guest path too long (" +:+ itoa (len p) +:+ " chars, max 255)") ;;
  fail_if (Contains p "..") "guest path must not contain '..'" ;;
  fail_if (negb (guestPathRe p)) ("guest path contains invalid characters: " +:+ Quote p).

(** The file system: absolute paths, the kind of a file, temporary files. *)
Class FileSys := {
  fs_abs : string -> result string;
  fs_dir : string -> string;
  fs_stat : string -> result bool;      (* is a regular file *)
  fs_tempdir : string;
  fs_create_temp : string -> result string
}.

(** [WriteStateDiskFile]: the temporary file is removed on every path once
    created. *)
Section StateDisk.
Context `{H : Host} `{F : FileSys} `{U : UnicodeTables}.

(** The writing, checking and running on the temporary file [tmpName]. *)
Definition debugfs_write (tmpName diskPath guestPath content : string) : net unit :=
  net_wrap "write temp file" (file_op (WriteFile tmpName content)) ;;
  net_lift (fail_if (negb (safeHostPathRe tmpName))
    ("temp file path contains unsafe characters: " +:+ Quote tmpName)) ;;
  net_lift (fail_if (negb (safeHostPathRe diskPath))
    ("disk path contains unsafe characters: " +:+ Quote diskPath)) ;;
  (r ← perform (Run "debugfs" ["-w"; "-R"; "write " +:+ dq +:+ tmpName +:+ dq +:+ " " +:+ guestPath; diskPath]);
   match r.2 with
   | Some err => net_lift (Err (Errorf ("debugfs write: " +:+ err +:+ ": " +:+ r.1)))
   | None => mret tt
   end).

(** [defer os.Remove(tmpName)]. *)
Definition with_temp (tmpName : string) (m : net unit) : net unit := fun tr =>
  let '(r, tr1) := m tr in (r, (ignore (file_op (Remove tmpName)) tr1).2).

Definition WriteStateDiskFile (diskPath0 guestPath content : string) : net unit :=
  net_lift (wrap "invalid guest path" (validateGuestPath guestPath)) ;;
  diskPath ← net_lift (wrap "resolve disk path" (fs_abs diskPath0));
  regular ← net_lift (wrap "stat disk image" (fs_stat diskPath));
  net_lift (fail_if (negb regular) ("disk path is not a regular file: " +:+ diskPath)) ;;
  let tmpDir := if is_ok (fs_stat (fs_dir diskPath)) then fs_dir diskPath else fs_tempdir in
  tmpName ← net_lift (wrap "create temp file" (fs_create_temp tmpDir));
  with_temp tmpName (debugfs_write tmpName diskPath guestPath content).
End StateDisk.

(** ** The kernel command line *)

(** The words of a command line built from settings. *)
Definition flag (b : bool) (w : string) : list string := if b then [w] else [].

Lemma Join_snoc (ws : list string) (w x : string) :
  Join ((ws ++ [w]) ++ [x]) " " = Join (ws ++ [w]) " " +:+ " " +:+ x.
Proof.
  induction ws as [|y ws IH]; [done|]. rewrite <- !app_comm_cons.
  destruct ((ws ++ [w]) ++ [x]) as [|z l] eqn:Hz; [by destruct ws|].
  destruct (ws ++ [w]) as [|z' l'] eqn:Hz'; [by destruct ws|].
  change (y +:+ " " +:+ Join (z :: l) " " = (y +:+ " " +:+ Join (z' :: l') " ") +:+ " " +:+ x).
  by rewrite IH, !str_app_assoc.
Qed.

Lemma word_app (a b : string) : str_forallb word_byte a = true -> str_forallb word_byte b = true ->
  a <> EmptyString -> is_word (a +:+ b).
Proof. intros Ha Hb Hn. split; [by destruct a|]. by rewrite forallb_app_str, Ha, Hb. Qed.
Lemma ip_words (s : string) : ParseIP s <> None -> str_forallb word_byte s = true.
Proof. intros H%ParseIP_bytes. revert H. apply forallb_impl. by apply ascii_impl. Qed.
Lemma itoa_words (z : Z) : str_forallb word_byte (itoa z) = true.
Proof. apply itoa_word. Qed.
Lemma hex_digit_word (d : Z) : 0 <= d < 16 -> word_byte (hex_digit d) = true.
Proof.
  intros H. assert (In d (map Z.of_nat (seq 0 16))) as Hin.
  { apply in_map_iff. exists (Z.to_nat d). split; [lia|]. apply in_seq. lia. }
  assert (forallb (fun x => word_byte (hex_digit x)) (map Z.of_nat (seq 0 16)) = true) as Ha by by vm_compute.
  rewrite forallb_forall in Ha. by apply Ha.
Qed.
Lemma hex_words (l : list Z) : str_forallb word_byte (hex_encode l) = true.
Proof.
  induction l as [|b l IH]; [done|]. cbn [hex_encode hex_fixed].
  rewrite forallb_app_str, IH, andb_true_r. cbn [str_forallb].
  rewrite !hex_digit_word; [done|..]; apply Z.mod_pos_bound; lia.
Qed.
#[export] Hint Resolve ip_words itoa_words hex_words word_app : torvm.

(** The command line as its intended words. *)
Definition append_words (cfg : Config) (entropy : string) : list string :=
  ["quiet"; "IP=" +:+ HostIP cfg; "MASK=" +:+ SubnetMask cfg; "GW=" +:+ VMIP cfg; "MTU=1500";
   "PRIVIP=" +:+ VMIP cfg; "CTLSOCK=" +:+ VMIP cfg +:+ ":" +:+ itoa (ControlPort cfg); "ENTROPY=" +:+ entropy]
  ++ flag (Entropy_EnableHaveged (Entropy cfg)) "HAVEGED=1"
  ++ flag (Entropy_EnableRngd (Entropy cfg)) "RNGD=1"
  ++ flag (negb (bool_decide (Entropy_SerialEntropyDevice (Entropy cfg) = EmptyString))) "SERIAL_ENTROPY=1".

Lemma kernelAppend_words (cfg : Config) (entropy : string) :
  kernelAppend cfg entropy = Join (append_words cfg entropy) " ".
Proof.
  unfold kernelAppend, append_words.
  destruct (decide (Entropy_SerialEntropyDevice (Entropy cfg) = EmptyString)) as [H|H];
    [rewrite (bool_decide_true _ H)|rewrite (bool_decide_false _ H)];
    destruct (Entropy_EnableHaveged _), (Entropy_EnableRngd _);
    cbn [flag app negb Join]; rewrite ?str_app_assoc, ?app_empty_r; done.
Qed.

Lemma Fields_join (ws : list string) : ws <> [] -> Forall is_word ws -> Fields (Join ws " ") = ws.
Proof.
  intros Hne. destruct (exists_last Hne) as (l & w & ->). apply Fields_words.
Qed.

(** What a validated configuration says about the pieces of the command lines. *)
Lemma valid_ips (os : goos) (cfg : Config) : valid_config os cfg ->
  ParseIP (HostIP cfg) <> None /\ ParseIP (VMIP cfg) <> None /\ ParseIP (SubnetMask cfg) <> None.
Proof. intros [Hi _ _ _ _ _ _ _ _ _ _]. rewrite !Forall_cons in Hi. tauto. Qed.

Lemma append_words_words (cfg : Config) (bytes : list Z) :
  ParseIP (HostIP cfg) <> None -> ParseIP (VMIP cfg) <> None -> ParseIP (SubnetMask cfg) <> None ->
  Forall is_word (append_words cfg (hex_encode bytes)).
Proof.
  intros Hh Hv Hm. unfold append_words. rewrite !Forall_app. split_and!.
  - repeat (apply Forall_cons; split); try done; try (by split); apply word_app; try done; auto with torvm.
    rewrite !forallb_app_str, itoa_words, ip_words by done. done.
  - destruct (Entropy_EnableHaveged _); repeat constructor; done.
  - destruct (Entropy_EnableRngd _); repeat constructor; done.
  - destruct (negb _); repeat constructor; done.
Qed.

(** C22. No injection into the guest's kernel command line: cut at white space, the
    line of a validated configuration is exactly the intended list of
    parameters, with the addresses and numbers of the configuration. *)
Theorem kernel_cmdline_words (U : UnicodeTables) (os : goos) (cfg : Config) (bytes : list Z) :
  Validate os cfg = Ok tt ->
  Fields (kernelAppend cfg (hex_encode bytes)) = append_words cfg (hex_encode bytes).
Proof.
  intros Hv%Validate_ok. destruct (valid_ips os cfg Hv) as (? & ? & ?).
  rewrite kernelAppend_words. apply Fields_join; [done|by apply append_words_words].
Qed.
Lemma kernel_cmdline_words_witness :
  Fields (kernelAppend (DefaultConfig linux) (hex_encode [171; 205])) =
  append_words (DefaultConfig linux) "abcd".
Proof. apply (kernel_cmdline_words ascii_tables linux (DefaultConfig linux) [171; 205]). vm_compute. reflexivity. Defined.

(** *** Options of the devices *)

Lemma alnum_no_comma (s : string) : str_forallb is_alnum s = true -> no_byte "," s = true.
Proof. apply forallb_impl. by apply ascii_impl. Qed.
Lemma tap_linux_alnum (s : string) : tap_name_ok linux s -> str_forallb is_alnum s = true.
Proof.
  intros (c & t & -> & Hc & _ & Ht). simpl. apply andb_true_iff. split; [|done].
  unfold is_alnum. by rewrite Hc.
Qed.

(** The network device of the VM has exactly the intended options: the TAP name
    of a validated configuration cannot add one. *)
Theorem netdev_options (U : UnicodeTables) (cfg : Config) :
  Validate linux cfg = Ok tt ->
  tapArgs linux cfg = ["-netdev"; tap_netdev linux cfg; "-device"; "virtio-net-pci,netdev=net0"] /\
  Split (tap_netdev linux cfg) "," =
    ["tap"; "id=net0"; "ifname=" +:+ TAPName cfg; "script=no"; "downscript=no"]
    ++ flag (VhostNet cfg) "vhost=on".
Proof.
  intros [_ _ _ _ Ht _ _ _ _ _ _]%Validate_ok. split; [done|].
  apply tap_linux_alnum, alnum_no_comma in Ht.
  assert (tap_netdev linux cfg = Join (["tap"; "id=net0"; "ifname=" +:+ TAPName cfg; "script=no"; "downscript=no"]
    ++ flag (VhostNet cfg) "vhost=on") (str1 ",")) as ->.
  { unfold tap_netdev. rewrite bool_decide_true, andb_true_r by done. cbn [flag app Join].
    destruct (VhostNet cfg); cbn [flag app Join]; by rewrite ?str_app_assoc, ?app_empty_r. }
  apply Split_Join; [done|]. repeat (apply Forall_cons; split); try done.
  by destruct (VhostNet cfg); repeat constructor.
Qed.
Lemma netdev_options_witness :
  Split (tap_netdev linux (DefaultConfig linux)) "," =
    ["tap"; "id=net0"; "ifname=" +:+ TAPName (DefaultConfig linux); "script=no"; "downscript=no"].
Proof. refine (proj2 (netdev_options ascii_tables (DefaultConfig linux) _)). vm_compute. reflexivity. Defined.

(** A validated configuration whose state disk path is [disk]. *)
Definition with_disk (c : Config) (disk : string) : Config := {|
  Version := Version c; TAPName := TAPName c; HostIP := HostIP c; VMIP := VMIP c;
  SubnetMask := SubnetMask c; DNS1 := DNS1 c; DNS2 := DNS2 c; SOCKSPort := SOCKSPort c;
  ControlPort := ControlPort c; TransPort := TransPort c; DNSPort := DNSPort c;
  VMMemoryMB := VMMemoryMB c; VMCPUs := VMCPUs c; KernelPath := KernelPath c;
  InitrdPath := InitrdPath c; StateDiskPath := disk;
  QMPSocketPath := QMPSocketPath c; Verbose := Verbose c; Accel := Accel c;
  Headless := Headless c; VhostNet := VhostNet c; IOMMUEnabled := IOMMUEnabled c;
  Bridge := Bridge c; Proxy := Proxy c; Service := Service c; Retry := Retry c;
  Entropy := Entropy c; Relays := Relays c; Browser := Browser c; FHE := FHE c; Vector := Vector c |}.

Lemma default_with_disk (U : UnicodeTables) (disk : string) :
  disk <> EmptyString -> Validate linux (with_disk (DefaultConfig linux) disk) = Ok tt.
Proof.
  intros Hd. assert (valid_config linux (DefaultConfig linux)) as Hv by apply (Validate_ok U), (DefaultConfig_ok U).
  apply Validate_ok. destruct Hv. split; try done. cbn in v_paths |- *. rewrite !Forall_cons in *. tauto.
Qed.

(** File paths are not checked against any character set: for every option
    text there is a validated configuration whose disk path carries it into
    the [-drive] option as an option of its own. *)
Theorem drive_option_injection (U : UnicodeTables) (option : string) :
  no_byte "," option = true ->
  exists cfg, Validate linux cfg = Ok tt /\
    option ∈ Split (drive_opts (accel_of cfg) (StateDiskPath cfg)) ",".
Proof.
  intros Ho. exists (with_disk (DefaultConfig linux) ("disk," +:+ option)). split; [by apply default_with_disk|].
  unfold drive_opts. cbn [StateDiskPath with_disk].
  assert (forall tail, option ∈ Split (("file=" +:+ ("disk," +:+ option) +:+ ",id=drive0,if=none,format=raw") +:+ tail) ",") as Ht.
  { intros tail. change (("file=" +:+ ("disk," +:+ option) +:+ ",id=drive0,if=none,format=raw") +:+ tail) with
      ("file=disk" +:+ String "," ((option +:+ String "," "id=drive0,if=none,format=raw") +:+ tail)).
    rewrite Split_app by done. rewrite str_app_assoc. change (String "," "id=drive0,if=none,format=raw" +:+ tail)
      with (String "," ("id=drive0,if=none,format=raw" +:+ tail)).
    rewrite Split_app by done. right. by left. }
  repeat case_decide; apply Ht.
Qed.
Lemma drive_option_injection_witness :
  exists cfg, Validate linux (U := ascii_tables) cfg = Ok tt /\
    "readonly=on" ∈ Split (drive_opts (accel_of cfg) (StateDiskPath cfg)) ",".
Proof. apply (drive_option_injection ascii_tables "readonly=on"). vm_compute. reflexivity. Defined.

(** *** The debugfs command *)

Lemma safe_words (s : string) : safeHostPathRe s = true -> is_word s.
Proof.
  intros [Hn Hs]%andb_true_iff. split; [by apply negb_true_iff, bool_decide_eq_false in Hn|].
  revert Hs. apply forallb_impl. by apply ascii_impl.
Qed.
Lemma guest_words `{U : UnicodeTables} (p : string) : validateGuestPath p = Ok tt -> is_word p.
Proof.
  unfold validateGuestPath. rewrite !seq_ok, !fail_if_ok, negb_false_iff. intros (_ & _ & _ & Hp).
  destruct p as [|c t]; [done|]. simpl in Hp. apply andb_true_iff in Hp as [Hc Ht]. split; [done|].
  simpl. apply andb_true_iff. split.
  - revert Hc. by apply (ascii_impl is_alnum word_byte).
  - revert Ht. apply forallb_impl. by apply ascii_impl.
Qed.

Section DebugfsFacts.
Context `{H : Host} `{F : FileSys} `{U : UnicodeTables}.

(** A run of debugfs with checked operands. *)
Definition debugfs_run (e : effect) : Prop :=
  exists tmp disk guest, e = Run "debugfs" ["-w"; "-R"; "write " +:+ dq +:+ tmp +:+ dq +:+ " " +:+ guest; disk] /\
    safeHostPathRe tmp = true /\ safeHostPathRe disk = true /\ is_word guest.

Lemma net_lift_fail (b : bool) (m : string) (k : net unit) (t : list effect) :
  (net_lift (fail_if b m) ;; k) t = if b then (Err (Errorf m), t) else k t.
Proof. by destruct b. Qed.

Lemma debugfs_write_trace (tmp disk guest content : string) (t : list effect) :
  is_word guest ->
  let t' := (debugfs_write tmp disk guest content t).2 in
  t' = t ++ [WriteFile tmp content] \/
  exists e, t' = t ++ [WriteFile tmp content; e] /\ debugfs_run e.
Proof.
  intros Hg. cbn zeta. unfold debugfs_write. rewrite net_bind_eq.
  pose proof (net_wrap_trace "write temp file" (file_op (WriteFile tmp content)) t) as Ht.
  rewrite file_op_trace in Ht. destruct (net_wrap _ _ t) as [[[]|e] t1]; cbn [snd] in *; subst; [|by left].
  rewrite net_lift_fail. destruct (safeHostPathRe tmp) eqn:Htmp; cbn [negb]; [|by left].
  rewrite net_lift_fail. destruct (safeHostPathRe disk) eqn:Hd; cbn [negb]; [|by left].
  right. exists (Run "debugfs" ["-w"; "-R"; "write " +:+ dq +:+ tmp +:+ dq +:+ " " +:+ guest; disk]).
  split; [|by exists tmp, disk, guest]. rewrite net_bind_eq. unfold perform. cbn [fst snd].
  destruct (host _ _) as [o [e|]]; cbn [snd fst net_lift mret net_ret]; by rewrite <- app_assoc.
Qed.

Lemma WriteStateDiskFile_trace (disk guest content : string) (t : list effect) :
  (WriteStateDiskFile disk guest content t).2 = t \/
  exists tmp, (WriteStateDiskFile disk guest content t).2 = t ++ [WriteFile tmp content; Remove tmp] \/
  exists e, (WriteStateDiskFile disk guest content t).2 = t ++ [WriteFile tmp content; e; Remove tmp] /\
    debugfs_run e.
Proof.
  remember (WriteStateDiskFile disk guest content t).2 as t' eqn:Et. unfold WriteStateDiskFile in Et.
  rewrite net_bind_eq in Et. unfold net_lift at 1 in Et.
  destruct (validateGuestPath guest) as [[]|] eqn:Hg; [|by left]. apply guest_words in Hg. cbn [wrap] in Et.
  rewrite net_bind_eq in Et. unfold net_lift at 1 in Et. destruct (fs_abs disk) as [d|]; [|by left].
  cbn [wrap] in Et. rewrite net_bind_eq in Et. unfold net_lift at 1 in Et.
  destruct (fs_stat d) as [reg|]; [|by left]. cbn [wrap] in Et.
  rewrite net_lift_fail in Et. destruct reg; cbn [negb] in Et; [|by left].
  rewrite net_bind_eq in Et. unfold net_lift at 1 in Et. destruct (fs_create_temp _) as [tmp|]; [|by left].
  cbn [wrap] in Et. right. exists tmp. unfold with_temp, ignore in Et.
  pose proof (debugfs_write_trace tmp d guest content t Hg) as Ht.
  destruct (debugfs_write tmp d guest content t) as [r t1]. cbn [snd] in *.
  rewrite file_op_trace in Et. subst t'.
  destruct Ht as [->|(e & -> & He)]; [left|right; exists e; split; [|done]]; by rewrite <- app_assoc.
Qed.
End DebugfsFacts.

Lemma debugfs_request_words (tmp guest : string) :
  safeHostPathRe tmp = true -> is_word guest ->
  Fields ("write " +:+ dq +:+ tmp +:+ dq +:+ " " +:+ guest) = ["write"; dq +:+ tmp +:+ dq; guest] /\
  no_byte DQ tmp = true.
Proof.
  intros Ht Hg. split.
  - pose proof (safe_words tmp Ht) as [_ Hw].
    assert ("write " +:+ dq +:+ tmp +:+ dq +:+ " " +:+ guest = Join (["write"; dq +:+ tmp +:+ dq] ++ [guest]) " ")
      as -> by (cbn [app Join]; by rewrite !str_app_assoc).
    apply Fields_words. repeat (apply Forall_cons; split); try done.
    apply word_app; [done| |done]. rewrite forallb_app_str, Hw. done.
  - apply andb_true_iff in Ht as [_ Ht]. revert Ht. apply forallb_impl. by apply ascii_impl.
Qed.

(** debugfs is only ever given the intended request: every effect of
    [WriteStateDiskFile] is the writing of a temporary file, its removal, or a
    run of debugfs whose request splits into exactly [write], the quoted
    temporary path, which holds no quote, and the guest path; a temporary file
    that was written is removed. *)
Theorem state_disk_no_injection (H : Host) (F : FileSys) (U : UnicodeTables)
    (disk guest content : string) (t : list effect) :
  let t' := (WriteStateDiskFile disk guest content t).2 in
  t' = t \/
  exists tmp mid, t' = t ++ WriteFile tmp content :: mid ++ [Remove tmp] /\
    forall e, e ∈ mid -> exists file target img,
      e = Run "debugfs" ["-w"; "-R"; "write " +:+ dq +:+ file +:+ dq +:+ " " +:+ target; img] /\
      Fields ("write " +:+ dq +:+ file +:+ dq +:+ " " +:+ target) = ["write"; dq +:+ file +:+ dq; target] /\
      no_byte DQ file = true.
Proof.
  cbn zeta. destruct (WriteStateDiskFile_trace disk guest content t) as [->|(tmp & [->|(e & -> & He)])].
  - by left.
  - right. exists tmp, []. split; [done|]. intros e He. by apply not_elem_of_nil in He.
  - right. exists tmp, [e]. split; [done|]. intros e' ->%list_elem_of_singleton.
    destruct He as (f & d & g & -> & Hf & _ & Hg). exists f, g, d. split; [done|].
    by apply debugfs_request_words.
Qed.
