(* ===== verification/Vm.v ===== *)
(** * Package [vm]: the QEMU process

    [qemu.go], [browser.go] and [monitor.go]: finding the binary, starting and
    stopping the process, and the two goroutines that touch an instance. *)

From S2P Require Import Prelude GoStrings StringFacts NetIP Config Torrc Network QemuArgs.
Local Open Scope Z_scope.

(** ** Finding the binary *)

Definition qemuAllowedDirs (os : goos) : list string :=
  match os with
  | linux => ["/usr/bin"; "/usr/local/bin"; "/usr/sbin"; "/usr/local/sbin"; "/snap/bin"]
  | darwin => ["/usr/bin"; "/usr/local/bin"; "/opt/homebrew/bin"; "/opt/local/bin"]
  | windows => ["C:\Program Files"; "C:\Program Files (x86)"]
  | other_os => []
  end.

(** [filepath.Separator]. *)
Definition separator (os : goos) : ascii := if decide (os = windows) then "\"%char else "/"%char.

(** [filepath.Dir] of a clean absolute path: everything before the last
    separator, or the root. *)
Definition path_Dir (os : goos) (p : string) : string :=
  match LastIndexByte p (separator os) with
  | None => "."
  | Some O => str1 (separator os)
  | Some i => if bool_decide (os = windows) && (i =? 2)%nat then str_take 3 p else str_take i p
  end.

(** The environment of the lookup: [exec.LookPath], [filepath.EvalSymlinks]
    and [filepath.Abs]. *)
Class Lookup := {
  look_path : string -> result string;
  eval_symlinks : string -> result string;
  abs_path : string -> result string
}.

Section Resolve.
Context `{L : Lookup} `{U : UnicodeTables} `{D : FoldTables} (os : goos).

(** The test of the loop for one allowed directory. *)
Definition under (resolvedDir dir : string) : bool :=
  if decide (os = windows) then
    EqualFold resolvedDir dir || HasPrefix (ToLower resolvedDir) (ToLower dir +:+ str1 (separator os))
  else bool_decide (resolvedDir = dir) || HasPrefix resolvedDir (dir +:+ str1 (separator os)).

Definition resolveQEMUBinary : result string :=
  path ← wrap "qemu-system-x86_64 not found in PATH" (look_path "qemu-system-x86_64");
  real ← wrap "resolve qemu binary path" (eval_symlinks path);
  resolved ← wrap "absolute qemu binary path" (abs_path real);
  let allowed := qemuAllowedDirs os in
  if (length allowed =? 0)%nat then Ok resolved
  else if List.existsb (under (path_Dir os resolved)) allowed then Ok resolved
  else Err (Errorf ("qemu binary " +:+ Quote resolved +:+ " is not under an allowed directory ["
                    +:+ Join allowed " " +:+ "]")).

(** [NewInstance]: an unresolved path is empty and reported by [Start]. *)
Definition instance_path : string :=
  match resolveQEMUBinary with Ok p => p | Err _ => EmptyString end.
End Resolve.

(** ** Starting *)

Section Start.
Context `{H : Host} `{F : FileSys} `{U : UnicodeTables} `{R : Random} (os : goos).

Fixpoint net_each {A} (f : A -> net unit) (l : list A) : net unit :=
  match l with [] => mret tt | x :: l' => f x ;; net_each f l' end.

(** [Instance.Start] between the drain of [waitErr] and [running = true]. *)
Definition start_process (qemuPath : string) (cfg : Config) : net unit :=
  overlay ← net_lift (wrap "vm: torrc overlay" (TorrcOverlay cfg));
  (if decide (overlay = EmptyString) then mret tt
   else net_wrap "vm: write torrc overlay" (WriteStateDiskFile (StateDiskPath cfg) "torrc.override" overlay)) ;;
  net_each (fun p => net_wrap ("vm: " +:+ p.1 +:+ " file not found") (file_op (Stat p.2)))
    [("kernel", KernelPath cfg); ("initrd", InitrdPath cfg); ("state disk", StateDiskPath cfg)] ;;
  (if decide (os = windows) then mret tt
   else net_wrap "vm: create QMP socket dir" (file_op (MkdirAll (fs_dir (QMPSocketPath cfg))))) ;;
  args ← net_lift (wrap "vm: build args" (BuildArgs os cfg));
  net_lift (fail_if (bool_decide (qemuPath = EmptyString)) "vm: QEMU binary not resolved; cannot start") ;;
  net_wrap "vm: start qemu" (file_op (StartProcess qemuPath args)).

(** [BrowserInstance.Start]; the binary is resolved at every start. *)
Definition start_browser `{L : Lookup} `{D : FoldTables} (cfg : Config) : net unit :=
  let b := Browser cfg in
  net_each (fun p => net_wrap (p.1 +:+ " not found") (file_op (Stat p.2)))
    [("BrowserKernel", Browser_KernelPath b); ("BrowserInitrd", Browser_InitrdPath b);
     ("BrowserStateDisk", Browser_StateDiskPath b)] ;;
  qemuPath ← net_lift (resolveQEMUBinary os);
  args ← net_lift (wrap "build browser QEMU args" (BuildBrowserArgs os cfg));
  net_wrap "create QMP socket dir" (file_op (MkdirAll (fs_dir (Browser_QMPSocketPath b)))) ;;
  net_wrap "start browser QEMU" (file_op (StartProcess qemuPath args)).
End Start.

(** ** The process and its goroutine

    The instance's [running] flag and [waitErr] channel (capacity one), the
    processes that are alive, and for each exited one where its goroutine is:
    before [running = false], or before [waitErr <- err].  Processes are
    numbered in the order they are started. *)

Definition exit : Type := nat * option error.

Record proc := {
  running : bool;
  waitErr : option exit;
  started : nat;
  alive : list nat;
  exited : list exit;
  sending : list exit
}.
Definition NewInstance : proc :=
  {| running := false; waitErr := None; started := 0; alive := []; exited := []; sending := [] |}.

Inductive proc_step :=
  | PStart (ok : bool)   (* [Start], with the outcome of [start_process] *)
  | PExit (g : nat) (err : option error)  (* [Process.Wait] returns *)
  | PMark (g : nat)      (* the goroutine sets [running = false] *)
  | PSend (g : nat)      (* the goroutine sends on [waitErr] *)
  | PWait (e : exit).    (* [Wait], or the receive of [Stop] *)

Definition proc_exec (s : proc_step) (p : proc) : option proc :=
  match s with
  | PStart ok =>
      if running p then Some p
      else if ok then
        Some {| running := true; waitErr := None; started := S (started p);
                alive := started p :: alive p; exited := exited p; sending := sending p |}
      else Some {| running := false; waitErr := None; started := started p; alive := alive p;
                   exited := exited p; sending := sending p |}
  | PExit g err =>
      if decide (g ∈ alive p) then
        Some {| running := running p; waitErr := waitErr p; started := started p;
                alive := List.filter (fun x => negb (x =? g)%nat) (alive p);
                exited := (g, err) :: exited p; sending := sending p |}
      else None
  | PMark g =>
      match List.find (fun e => (e.1 =? g)%nat) (exited p) with
      | Some e =>
          Some {| running := false; waitErr := waitErr p; started := started p; alive := alive p;
                  exited := List.filter (fun x => negb (x.1 =? g)%nat) (exited p);
                  sending := e :: sending p |}
      | None => None
      end
  | PSend g =>
      match List.find (fun e => (e.1 =? g)%nat) (sending p), waitErr p with
      | Some e, None =>
          Some {| running := running p; waitErr := Some e; started := started p; alive := alive p;
                  exited := exited p; sending := List.filter (fun x => negb (x.1 =? g)%nat) (sending p) |}
      | _, _ => None
      end
  | PWait e =>
      if decide (waitErr p = Some e) then
        Some {| running := running p; waitErr := None; started := started p; alive := alive p;
                exited := exited p; sending := sending p |}
      else None
  end.
Fixpoint proc_run (h : list proc_step) (p : proc) : option proc :=
  match h with
  | [] => Some p
  | s :: h' => match proc_exec s p with Some p' => proc_run h' p' | None => None end
  end.

(** ** QMP *)

Record qmpError := { Class_ : string; Desc : string }.
Record qmpResponse := { Return_ : string; Error_ : option qmpError }.

(** The connection: what [Encode] and the next [Decode] give, by the commands
    sent before; the decoding of a status result is [encoding/json]'s. *)
Class QMPConn := {
  qmp_dial : string -> option error;
  qmp_greeting : option error;
  qmp_send : list string -> string -> option error;
  qmp_recv : list string -> result qmpResponse;
  qmp_status : string -> result (string * bool)
}.

Section Qmp.
Context `{Q : QMPConn}.

Definition qmp_reply (sent : list string) : result qmpResponse :=
  resp ← wrap "qmp: read response" (qmp_recv sent);
  match Error_ resp with
  | Some e => Err (Errorf ("qmp: " +:+ Class_ e +:+ ": " +:+ Desc e))
  | None => Ok resp
  end.
(** [execute], on the commands sent so far. *)
Definition execute (sent : list string) (command : string) : result unit * list string :=
  match qmp_send sent command with
  | Some e => (Err (Errorf ("qmp: send " +:+ command +:+ ": " +:+ Error e)), sent)
  | None =>
      let sent' := sent ++ [command] in
      (match qmp_reply sent' with Ok _ => Ok tt | Err e => Err e end, sent')
  end.
Definition NewQMPClient (socketPath : string) : result (list string) :=
  match qmp_dial socketPath with
  | Some e => Err (Errorf ("qmp: dial " +:+ socketPath +:+ ": " +:+ Error e))
  | None =>
      match qmp_greeting with
      | Some e => Err (Errorf ("qmp: read greeting: " +:+ Error e))
      | None =>
          match execute [] "qmp_capabilities" with
          | (Ok _, sent) => Ok sent
          | (Err e, _) => Err (Errorf ("qmp: negotiate capabilities: " +:+ Error e))
          end
      end
  end.
Definition SystemPowerdown (sent : list string) : result unit * list string := execute sent "system_powerdown".
Definition QueryStatus (sent : list string) : result (string * bool) :=
  match qmp_send sent "query-status" with
  | Some e => Err (Errorf ("qmp: send query-status: " +:+ Error e))
  | None =>
      resp ← qmp_reply (sent ++ ["query-status"]);
      wrap "qmp: parse status" (qmp_status (Return_ resp))
  end.

(** *** Stopping

    What [Stop] finds: whether the process runs, whether the context ends
    before the exit is received, whether it still runs after that, and what
    [Kill] answers.  The result, the QMP commands sent, and whether the
    process was killed. *)
Definition Stop (socketPath : string) (is_running : bool) (exit_or_done : option (option error))
    (running_after : bool) (kill : option error) : option error * list string * bool :=
  let fallback (sent : list string) :=
    if running_after then (kill, sent, true) else (None, sent, false) in
  if negb is_running then (None, [], false)
  else
    match NewQMPClient socketPath with
    | Err _ => fallback []
    | Ok sent =>
        let sent' := (SystemPowerdown sent).2 in
        match exit_or_done with
        | Some err => (err, sent', false)
        | None => fallback sent'
        end
    end.

(** [BrowserInstance.Stop]: [exited] tells which case the [select] takes,
    [ctxErr] is the context's error. *)
Definition browser_Stop (socketPath : string) (is_running exited : bool) (ctxErr : error)
  : option error * list string * bool :=
  if negb is_running then (None, [], false)
  else
    let sent' := match NewQMPClient socketPath with Ok sent => (SystemPowerdown sent).2 | Err _ => [] end in
    if exited then (None, sent', false) else (Some ctxErr, sent', true).
End Qmp.

(** ** The binary is an allowed one *)

Lemma LastIndexByte_some (s : string) (c : ascii) (i : nat) :
  LastIndexByte s c = Some i -> s = str_take i s +:+ String c (str_drop (S i) s).
Proof.
  revert i. induction s as [|a s IH]; intros i; [done|]. cbn [LastIndexByte].
  destruct (LastIndexByte s c) as [j|] eqn:Hj.
  - intros [= <-]. cbn [str_take str_drop]. rewrite app_cons. f_equal. by apply IH.
  - destruct (Ascii.eqb a c) eqn:Ha; [|done]. intros [= <-]. apply Ascii.eqb_eq in Ha as ->. done.
Qed.

(** A path below a directory. *)
Definition below (dir p : string) : Prop := exists rest, p = dir +:+ "/" +:+ rest.

Lemma under_below (os : goos) (L : Lookup) (U : UnicodeTables) (D : FoldTables) (p dir : string) :
  os <> windows -> (2 <= String.length dir)%nat -> under os (path_Dir os p) dir = true -> below dir p.
Proof.
  intros Hos Hlen. unfold under, path_Dir, separator. rewrite !decide_False by done.
  rewrite (bool_decide_eq_false_2 (os = windows)) by done. cbn [andb].
  assert (forall d, bool_decide (d = dir) || HasPrefix d (dir +:+ str1 "/") = true ->
    d = dir \/ exists t, d = dir +:+ "/" +:+ t) as Hor.
  { intros d [He%bool_decide_eq_true|He%HasPrefix_spec]%orb_true_iff; [by left|]. right.
    destruct He as [t ->]. exists t. by rewrite str_app_assoc. }
  assert (forall d, (String.length d < 2)%nat -> bool_decide (d = dir) || HasPrefix d (dir +:+ str1 "/") = true -> False)
    as Hshort.
  { intros d Hd [->|[t ->]]%Hor; [lia|]. rewrite length_app_str in Hd. lia. }
  destruct (LastIndexByte p "/") as [[|i]|] eqn:Hi;
    [intros H; exfalso; eapply Hshort; [|exact H]; simpl; lia| |intros H; exfalso; eapply Hshort; [|exact H]; simpl; lia].
  pose proof (LastIndexByte_some _ _ _ Hi) as Hs. intros [He|[t He]]%Hor; rewrite He in Hs.
  - exists (str_drop (S (S i)) p). exact Hs.
  - exists (t +:+ "/" +:+ str_drop (S (S i)) p). rewrite Hs at 1. by rewrite !str_app_assoc.
Qed.

(** On Linux and macOS a resolved binary is a file below one of the allowed
    directories, whatever PATH and the symbolic links say. *)
Theorem resolved_binary_allowed (L : Lookup) (U : UnicodeTables) (D : FoldTables) (os : goos) (p : string) :
  os = linux \/ os = darwin -> resolveQEMUBinary os = Ok p ->
  exists dir, dir ∈ qemuAllowedDirs os /\ below dir p.
Proof.
  intros Hos. unfold resolveQEMUBinary.
  destruct (look_path _) as [p0|]; simpl; [|done]. destruct (eval_symlinks p0) as [p1|]; simpl; [|done].
  destruct (abs_path p1) as [p2|]; simpl; [|done].
  destruct (List.existsb (under os (path_Dir os p2)) (qemuAllowedDirs os)) eqn:He;
    [|destruct Hos as [-> | ->]; done].
  assert ((if (length (qemuAllowedDirs os) =? 0)%nat then Ok p2 else Ok p2) = Ok p2) as -> by by case_match.
  intros [= <-]. apply existsb_exists in He as (dir & Hin & Hu). exists dir.
  assert (Hd : os <> windows /\ Forall (fun d => (2 <= String.length d)%nat) (qemuAllowedDirs os)).
  { destruct Hos as [-> | ->]; (split; [done|]); repeat constructor; simpl; lia. }
  destruct Hd as [Hw Hl]. rewrite Forall_forall in Hl. apply list_elem_of_In in Hin.
  split; [done|]. eapply under_below; eauto.
Qed.
Definition usr_bin : Lookup := {|
  look_path := fun n => Ok ("/usr/bin/" +:+ n); eval_symlinks := fun p => Ok p; abs_path := fun p => Ok p |}.
Lemma resolved_binary_allowed_witness :
  exists dir, dir ∈ qemuAllowedDirs linux /\ below dir "/usr/bin/qemu-system-x86_64".
Proof.
  apply (resolved_binary_allowed usr_bin ascii_tables ascii_folding linux); [by left|]. vm_compute. reflexivity.
Defined.

(** ** Interleavings of the callers with the goroutine *)

Record proc_inv (p : proc) : Prop := {
  pi_running : (length (alive p) + length (exited p) = if running p then 1 else 0)%nat;
  pi_numbers : forall g, g ∈ alive p ++ map fst (exited p) -> S g = started p;
  pi_past : Forall (fun e => (e.1 < started p)%nat) (sending p ++ option_list (waitErr p))
}.

Lemma proc_exec_inv (s : proc_step) (p p' : proc) : proc_inv p -> proc_exec s p = Some p' -> proc_inv p'.
Proof.
  intros [Hr Hn Hp] H. pose proof Hp as [Hs Hw]%Forall_app. destruct s as [ok|g err|g|g|e]; cbn [proc_exec] in H.
  - destruct (running p) eqn:Hrun; [injection H as <-; by split; rewrite ?Hrun|].
    destruct (alive p) as [|? ?] eqn:Ha; [|done]. destruct (exited p) as [|? ?] eqn:Hx; [|done].
    destruct ok; injection H as <-; (split; cbn [running waitErr started alive exited sending app map]).
    + done.
    + by intros g ->%list_elem_of_singleton.
    + rewrite app_nil_r. eapply Forall_impl; [exact Hs|]. intros e He. simpl in *. lia.
    + done.
    + intros g Hg. by apply not_elem_of_nil in Hg.
    + by rewrite app_nil_r.
  - destruct (decide _) as [Hg|]; [|done]. injection H as <-.
    destruct (running p) eqn:Hrun; [|destruct (alive p); [by apply not_elem_of_nil in Hg|done]].
    destruct (alive p) as [|g' [|? ?]] eqn:Ha; [by apply not_elem_of_nil in Hg| |simpl in Hr; lia].
    apply list_elem_of_singleton in Hg as <-. destruct (exited p) as [|? ?] eqn:Hx; [|simpl in Hr; lia].
    split; cbn [running waitErr started alive exited sending]; simpl; rewrite ?Nat.eqb_refl; simpl; [done|exact Hn|exact Hp].
  - destruct (exited p) as [|e0 l] eqn:Hx; [done|]. destruct (running p); simpl in Hr; [|lia].
    destruct (alive p) as [|? ?] eqn:Ha; [|simpl in Hr; lia]. destruct l as [|? ?]; [|simpl in Hr; lia].
    cbn [List.find List.filter] in H. destruct (e0.1 =? g)%nat eqn:Hg; [|done]. injection H as <-.
    split; cbn [running waitErr started alive exited sending List.filter negb].
    { done. }
    { intros y Hy. by apply not_elem_of_nil in Hy. }
    rewrite <- app_comm_cons. constructor; [|done].
    assert (S e0.1 = started p) as <- by (apply Hn; by left). lia.
  - case_match eqn:Hf; [|done]. destruct (waitErr p) eqn:Hwe; [done|].
    injection H as <-. split; cbn [running waitErr started alive exited sending]; try done.
    rewrite Forall_forall in Hs. apply Forall_app. split.
    + apply Forall_forall. intros x Hx. apply list_elem_of_In, filter_In in Hx as [Hx _].
      by apply Hs, list_elem_of_In.
    + constructor; [|done]. apply find_some in Hf as [Hin _]. by apply Hs, list_elem_of_In.
  - destruct (decide _); [|done]. injection H as <-.
    split; cbn [running waitErr started alive exited sending option_list]; try done. by rewrite app_nil_r.
Qed.

Lemma proc_run_inv (h : list proc_step) (p p' : proc) : proc_inv p -> proc_run h p = Some p' -> proc_inv p'.
Proof.
  revert p. induction h as [|s h IH]; intros p Hp H; [by injection H as <-|]. cbn [proc_run] in H.
  destruct (proc_exec s p) as [p1|] eqn:He; [|done]. eapply IH; [|exact H]. by eapply proc_exec_inv.
Qed.
Lemma NewInstance_inv : proc_inv NewInstance.
Proof. split; [done| |constructor]. intros g Hg. by apply not_elem_of_nil in Hg. Qed.

(** C23. At most one QEMU: in every interleaving of starts, exits and waits there is
    never more than one process that has not been accounted for, [running] is
    set exactly while there is one, and that one is the last started. *)
Theorem one_process (h : list proc_step) (p : proc) :
  proc_run h NewInstance = Some p ->
  (length (alive p) + length (exited p) = if running p then 1 else 0)%nat /\
  forall g, g ∈ alive p -> S g = started p.
Proof.
  intros H. destruct (proc_run_inv h _ _ NewInstance_inv H) as [Hr Hn _]. split; [done|].
  intros g Hg. apply Hn, elem_of_app. by left.
Qed.
Lemma one_process_witness :
  exists p, proc_run [PStart true; PExit 0 None; PMark 0; PStart true; PSend 0] NewInstance = Some p /\
    (length (alive p) + length (exited p) = 1)%nat.
Proof.
  eexists. split; [vm_compute; reflexivity|]. refine (proj1 (one_process
    [PStart true; PExit 0 None; PMark 0; PStart true; PSend 0] _ _)). vm_compute. reflexivity.
Defined.

(** The drain at the start of [Start] does not prevent a stale exit: there is
    an interleaving after which process 1 is alive and running, and [Wait]
    returns the exit of process 0. *)
Theorem stale_exit_reaches_wait (err : option error) :
  exists h p p', proc_run h NewInstance = Some p /\ running p = true /\ alive p = [1%nat] /\
    proc_exec (PWait (0%nat, err)) p = Some p' /\ running p' = true /\ alive p' = [1%nat].
Proof.
  exists [PStart true; PExit 0 err; PMark 0; PStart true; PSend 0].
  do 2 eexists. split; [reflexivity|]. split; [done|]. split; [done|].
  cbn [proc_exec waitErr]. by rewrite decide_True.
Qed.

(** ** Starting and stopping *)

Section StartFacts.
Context `{H : Host} `{F : FileSys} `{U : UnicodeTables} `{R : Random} (os : goos).

Definition starts (e : effect) : bool := match e with StartProcess _ _ => true | _ => false end.
(** What [m] adds to the trace satisfies [P]. *)
Definition adds {A} (P : effect -> Prop) (m : net A) : Prop :=
  forall t, exists evs, (m t).2 = t ++ evs /\ Forall P evs.

Lemma adds_lift {A} (P : effect -> Prop) (r : result A) : adds P (net_lift r).
Proof. intros t. exists []. by rewrite app_nil_r. Qed.
Lemma adds_bind {A B} (P : effect -> Prop) (m : net A) (k : A -> net B) :
  adds P m -> (forall a, adds P (k a)) -> adds P (m ≫= k).
Proof.
  intros Hm Hk t. rewrite net_bind_eq. destruct (Hm t) as (e1 & He1 & Hp1).
  destruct (m t) as [[a|e] t1]; cbn [snd] in He1; subst t1.
  - destruct (Hk a (t ++ e1)) as (e2 & -> & Hp2). exists (e1 ++ e2).
    rewrite app_assoc. split; [done|by apply Forall_app].
  - by exists e1.
Qed.
Lemma adds_with {A B} (P : effect -> Prop) (r : result A) (k : A -> net B) :
  (forall a, r = Ok a -> adds P (k a)) -> adds P (net_lift r ≫= k).
Proof.
  intros Hk t. rewrite net_bind_eq. unfold net_lift. destruct r as [a|e].
  - by apply Hk.
  - exists []. by rewrite app_nil_r.
Qed.
Lemma adds_wrap {A} (P : effect -> Prop) (p : string) (m : net A) : adds P m -> adds P (net_wrap p m).
Proof. intros Hm t. rewrite net_wrap_trace. apply Hm. Qed.
Lemma adds_file_op (P : effect -> Prop) (e : effect) : P e -> adds P (file_op e).
Proof. intros He t. exists [e]. rewrite file_op_trace. split; [done|by constructor]. Qed.
Lemma adds_each {A} (P : effect -> Prop) (f : A -> net unit) (l : list A) :
  (forall x, adds P (f x)) -> adds P (net_each f l).
Proof.
  intros Hf. induction l as [|x l IH]; [by apply (adds_lift P (Ok tt))|]. by apply adds_bind; [|intros _].
Qed.
Lemma adds_if (P : effect -> Prop) (Q : Prop) (d : {Q} + {~ Q}) (m1 m2 : net unit) :
  adds P m1 -> adds P m2 -> adds P (if d then m1 else m2).
Proof. by destruct d. Qed.
Lemma adds_state_disk (disk guest content : string) :
  adds (fun e => starts e = false) (WriteStateDiskFile disk guest content).
Proof.
  intros t. destruct (WriteStateDiskFile_trace disk guest content t) as [->|(tmp & [->|(e & -> & He)])].
  - exists []. by rewrite app_nil_r.
  - eexists. split; [done|by repeat constructor].
  - destruct He as (? & ? & ? & -> & _). eexists. split; [done|by repeat constructor].
Qed.
End StartFacts.

(** What is executed is the resolved binary on the built command line: every
    process [Start] launches has a non-empty resolved path and exactly the
    arguments of [BuildArgs]. *)
Theorem start_runs_built_args (H : Host) (F : FileSys) (U : UnicodeTables) (R : Random) (os : goos)
    (qemuPath : string) (cfg : Config) (t : list effect) :
  exists evs, (start_process os qemuPath cfg t).2 = t ++ evs /\
    Forall (fun e => forall path args, e = StartProcess path args ->
      path = qemuPath /\ path <> EmptyString /\ BuildArgs os cfg = Ok args) evs.
Proof.
  assert (forall e, starts e = false -> forall path args, e = StartProcess path args ->
      path = qemuPath /\ path <> EmptyString /\ BuildArgs os cfg = Ok args) as Hq by by intros e Hs p a ->.
  set (P := fun e => forall path args, e = StartProcess path args ->
      path = qemuPath /\ path <> EmptyString /\ BuildArgs os cfg = Ok args) in *.
  revert t. change (adds P (start_process os qemuPath cfg)). unfold start_process.
  apply adds_bind; [apply adds_lift|intros overlay].
  apply adds_bind; [|intros _].
  { apply adds_if; [by apply (adds_lift P (Ok tt))|]. apply adds_wrap. intros t.
    destruct (adds_state_disk (StateDiskPath cfg) "torrc.override" overlay t) as (evs & He & Hf).
    exists evs. split; [done|]. eapply Forall_impl; [exact Hf|exact Hq]. }
  apply adds_bind; [apply adds_each; intros x; by apply adds_wrap, adds_file_op|intros _].
  apply adds_bind; [|intros _].
  { apply adds_if; [by apply (adds_lift P (Ok tt))|]. by apply adds_wrap, adds_file_op. }
  apply adds_with. intros args Hb%wrap_ok. apply adds_with. intros [] Hq'%fail_if_ok.
  apply adds_wrap, adds_file_op. intros path args' [= <- <-]. by apply bool_decide_eq_false in Hq'.
Qed.
