(* ===== verification/Logging.v ===== *)
(** * Package [logging]: the logger and its writers

    [logging.go], [ringwriter.go] and [json.go]: the level filter, the ring of
    recent lines behind the GUI's log tab, and the writer that turns log lines
    into JSON objects. *)

From S2P Require Import Prelude GoStrings StringFacts.
Local Open Scope nat_scope.

(** ** Lines of a stream

    The loop both writers run: cut [data] at each line feed, give the line to
    [step], stop when [step] does, and keep the unfinished rest.  The fuel is
    the length of the data: every turn removes at least the line feed. *)

Fixpoint line_loop {S E} (step : string -> S -> S * option E) (fuel : nat) (data : string) (s : S)
  : option (S * (E + string)) :=
  match IndexByte data LF with
  | None => Some (s, inr data)
  | Some i =>
      match fuel with
      | O => None
      | Datatypes.S f =>
          match step (str_take i data) s with
          | (s', None) => line_loop step f (str_drop (Datatypes.S i) data) s'
          | (s', Some e) => Some (s', inl e)
          end
      end
  end.

(** ** The ring of lines *)

Record RingWriter := {
  lines : list string;
  capacity : nat;
  pos : nat;
  full : bool;
  partial : string
}.
Definition NewRingWriter (cap : nat) : RingWriter :=
  {| lines := replicate cap EmptyString; capacity := cap; pos := 0; full := false; partial := EmptyString |}.

(** One turn of the loop of [Write]: [r.lines[r.pos] = line] panics out of
    range.  The state carries the lines for the callback. *)
Inductive panic := IndexOutOfRange.
Definition store (line : string) (s : RingWriter * list string) : (RingWriter * list string) * option panic :=
  let r := s.1 in
  if pos r <? length (lines r) then
    let wrap := capacity r <=? S (pos r) in
    (({| lines := <[pos r := line]> (lines r); capacity := capacity r;
         pos := if wrap then 0 else S (pos r); full := full r || wrap; partial := partial r |},
      s.2 ++ [line]), None)
  else (s, Some IndexOutOfRange).

Definition set_partial (p : string) (r : RingWriter) : RingWriter :=
  {| lines := lines r; capacity := capacity r; pos := pos r; full := full r; partial := p |}.

(** [Write]: the new state and the lines the callback is given; [None] is a panic. *)
Definition Write (p : string) (r : RingWriter) : option (RingWriter * list string) :=
  let data := partial r +:+ p in
  match line_loop store (String.length data) data (set_partial EmptyString r, []) with
  | Some (r', ls, inr rest) => Some (set_partial rest r', ls)
  | _ => None
  end.

Definition Lines (r : RingWriter) : list string :=
  if full r then drop (pos r) (lines r) ++ take (pos r) (lines r) else take (pos r) (lines r).

(** A sequence of writes, with everything the callback was given. *)
Fixpoint writes (ps : list string) (r : RingWriter) : option (RingWriter * list string) :=
  match ps with
  | [] => Some (r, [])
  | p :: ps' =>
      match Write p r with
      | Some (r', ls) => match writes ps' r' with Some (r'', ls') => Some (r'', ls ++ ls') | None => None end
      | None => None
      end
  end.

(** ** JSON lines *)

Record jsonEntry := { Ts : string; Level_ : string; Msg : string }.

(** [encoding/json] on a string: quotes, backslashes, control characters, the
    three HTML characters, the two line separators and invalid UTF-8 are
    escaped. *)
Definition json_rune (c : Z * string) : string :=
  let r := c.1 in
  (if r =? 34 then "\" +:+ dq else if r =? 92 then "\\" else if r =? 8 then "\b" else if r =? 12 then "\f"
   else if r =? 10 then "\n" else if r =? 13 then "\r" else if r =? 9 then "\t"
   else if (r <? 32) || (r =? 60) || (r =? 62) || (r =? 38) then "\u" +:+ hex_fixed 4 r
   else if (r =? RuneError) && (String.length c.2 =? 1)%nat then "\ufffd"
   else if (r =? 8232) || (r =? 8233) then "\u" +:+ hex_fixed 4 r
   else c.2)%Z.
Definition json_string (s : string) : string := dq +:+ concat_str (map json_rune (runes s)) +:+ dq.
Definition json_key (k : string) : string := dq +:+ k +:+ dq +:+ ":".
Definition Marshal (e : jsonEntry) : string :=
  "{" +:+ json_key "ts" +:+ json_string (Ts e) +:+ "," +:+ json_key "level" +:+ json_string (Level_ e)
      +:+ "," +:+ json_key "msg" +:+ json_string (Msg e) +:+ "}".

(** [now]: the current time, formatted, for a line without a timestamp. *)
Definition parseLine (now line0 : string) : jsonEntry :=
  let line := TrimSpace line0 in
  let fallback := {| Ts := now; Level_ := "INFO"; Msg := line |} in
  if (0 <? String.length line) && bool_decide (str_get 0 line = Some "["%char) then
    match Index line "]" with
    | Some (S e as e1) =>
        let ts := TrimSpace (str_take e (str_drop 1 line)) in
        let rest := TrimSpace (str_drop (S e1) line) in
        match Index rest ": " with
        | Some (S c as c1) =>
            {| Ts := ts; Level_ := str_take c1 rest; Msg := str_drop (c1 + 2) rest |}
        | _ => {| Ts := ts; Level_ := "INFO"; Msg := rest |}
        end
    | _ => fallback
    end
  else fallback.

(** The underlying writer: its answer to a chunk, by the chunks before it. *)
Class Out := out_write : list string -> string -> option error.

Record JSONWriter := { written : list string; json_partial : string }.
Definition NewJSONWriter : JSONWriter := {| written := []; json_partial := EmptyString |}.

Section JSON.
Context `{O : Out} (now : string).

(** The chunks that reached the underlying writer, also the one it failed on. *)
Definition emit (line : string) (w : list string) : list string * option error :=
  let b := Marshal (parseLine now line) +:+ nl in
  (w ++ [b], out_write w b).

(** [Write]: on an error of the underlying writer the unread data is dropped. *)
Definition JSON_Write (p : string) (j : JSONWriter) : option (JSONWriter * option error) :=
  let data := json_partial j +:+ p in
  match line_loop emit (String.length data) data (written j) with
  | Some (w, inr rest) => Some ({| written := w; json_partial := rest |}, None)
  | Some (w, inl e) => Some ({| written := w; json_partial := EmptyString |}, Some e)
  | None => None
  end.
Fixpoint JSON_writes (ps : list string) (j : JSONWriter) : option (JSONWriter * option error) :=
  match ps with
  | [] => Some (j, None)
  | p :: ps' =>
      match JSON_Write p j with
      | Some (j', None) => JSON_writes ps' j'
      | r => r
      end
  end.
End JSON.

(** ** The logger *)

Inductive Level := LevelError | LevelInfo | LevelDebug.
Definition Level_iota (l : Level) : nat :=
  match l with LevelError => 0 | LevelInfo => 1 | LevelDebug => 2 end.
Definition Level_String (l : Level) : string :=
  match l with LevelError => "ERROR" | LevelInfo => "INFO" | LevelDebug => "DEBUG" end.

(** The verbosity [NewLogger] and [SetVerbose] choose. *)
Definition verbose_level (verbose : bool) : Level := if verbose then LevelDebug else LevelInfo.

(** [log]: the line given to every writer, if the level passes; [ts] is the
    formatted time and [msg] the formatted message. *)
Definition log_line (ts : string) (lvl : Level) (msg : string) : string :=
  "[" +:+ ts +:+ " UTC] " +:+ Level_String lvl +:+ ": " +:+ msg +:+ nl.
Definition log (level : Level) (ts : string) (lvl : Level) (msg : string) : option string :=
  if Level_iota level <? Level_iota lvl then None else Some (log_line ts lvl msg).

(** A logger with a ring as one of its writers. *)
Record entry := { e_ts : string; e_level : Level; e_msg : string }.
Definition log_entry (level : Level) (e : entry) : option string := log level (e_ts e) (e_level e) (e_msg e).

(** ** Cutting a stream *)

Section Loop.
Context {S E : Type} (step : string -> S -> S * option E).

Fixpoint run_lines (ls : list string) (s : S) : S * option E :=
  match ls with
  | [] => (s, None)
  | l :: ls' => match step l s with (s', None) => run_lines ls' s' | r => r end
  end.

Lemma line_loop_run (ls : list string) (rest data : string) (fuel : nat) (s : S) :
  Split data LF = ls ++ [rest] -> String.length data <= fuel ->
  line_loop step fuel data s =
    Some (match run_lines ls s with (s', None) => (s', inr rest) | (s', Some e) => (s', inl e) end).
Proof.
  revert data fuel s. induction ls as [|l ls IH]; intros data fuel s Hs Hf.
  - assert (IndexByte data LF = None) as Hi.
    { apply IndexByte_none. pose proof (Split_no_byte data LF) as H. rewrite Hs in H. apply Forall_inv in H.
      rewrite <- (Join_Split data LF), Hs. exact H. }
    rewrite <- (Join_Split data LF), Hs in Hi |- *. cbn [Join app] in *. destruct fuel; cbn [line_loop]; by rewrite Hi.
  - destruct (IndexByte data LF) as [i|] eqn:Hi.
    + destruct (IndexByte_some _ _ _ Hi) as [Hd Hn].
      rewrite Hd, (Split_app _ _ _ Hn) in Hs. injection Hs as Hl Hs.
      assert (String.length (str_drop (Datatypes.S i) data) < String.length data).
      { rewrite Hd at 2. rewrite length_app_str. simpl. lia. }
      destruct fuel as [|f]; [lia|]. cbn [line_loop]. rewrite Hi, Hl. cbn [run_lines].
      destruct (step l s) as [s' [e|]]; [done|]. apply IH; [done|lia].
    + apply IndexByte_none in Hi. rewrite (Split_single _ _ Hi) in Hs. by destruct ls.
Qed.

Lemma run_lines_app (l1 l2 : list string) (s : S) :
  run_lines (l1 ++ l2) s = match run_lines l1 s with (s', None) => run_lines l2 s' | r => r end.
Proof.
  revert s. induction l1 as [|x l1 IH]; intros s; [done|]. cbn [run_lines app].
  destruct (step x s) as [s' [e|]]; [done|]. apply IH.
Qed.
End Loop.

(** Cutting [a +:+ b]: all but the last piece of [a], then the last piece
    continued by [b]. *)
Lemma Split_concat (a b : string) (l : list string) (r : string) :
  Split a LF = l ++ [r] -> Split (a +:+ b) LF = l ++ Split (r +:+ b) LF.
Proof.
  revert a. induction l as [|x l IH]; intros a Ha.
  - assert (a = r) as -> by (rewrite <- (Join_Split a LF), Ha; done). done.
  - destruct (IndexByte a LF) as [i|] eqn:Hi.
    + destruct (IndexByte_some _ _ _ Hi) as [Hd Hn]. rewrite Hd, (Split_app _ _ _ Hn) in Ha.
      injection Ha as Hx Ha. rewrite Hd, str_app_assoc, app_cons, (Split_app _ _ _ Hn), Hx. cbn [app].
      f_equal. by apply IH.
    + apply IndexByte_none in Hi. rewrite (Split_single _ _ Hi) in Ha. by destruct l.
Qed.

Lemma Split_snoc (s : string) : exists l r, Split s LF = l ++ [r].
Proof.
  destruct (Split s LF) as [|x l] eqn:Hs using rev_ind; [by destruct (Split_nonempty s LF)|]. by eexists _, _.
Qed.

(** The complete lines of a stream and what follows the last line feed. *)
Definition cut (data : string) : list string * string :=
  let ps := Split data LF in (removelast ps, List.last ps EmptyString).
Lemma cut_spec (data : string) (l : list string) (r : string) : Split data LF = l ++ [r] -> cut data = (l, r).
Proof. unfold cut. intros ->. by rewrite removelast_last, last_last. Qed.
Lemma cut_Split (data : string) : Split data LF = (cut data).1 ++ [(cut data).2].
Proof. destruct (Split_snoc data) as (l & r & H). by rewrite (cut_spec _ _ _ H). Qed.
Lemma cut_app (a b : string) :
  cut (a +:+ b) = ((cut a).1 ++ (cut ((cut a).2 +:+ b)).1, (cut ((cut a).2 +:+ b)).2).
Proof.
  apply cut_spec. rewrite (Split_concat a b _ _ (cut_Split a)), (cut_Split ((cut a).2 +:+ b)).
  by rewrite app_assoc.
Qed.

(** ** The ring refines the last [capacity] lines *)

(** The ring after the lines [h]. *)
Record ring_after (h : list string) (r : RingWriter) : Prop := {
  ra_cap : length (lines r) = capacity r;
  ra_pos : pos r < capacity r;
  ra_full : full r = (capacity r <=? length h);
  ra_lines : Lines r = last_n (capacity r) h
}.

Lemma store_ok (h : list string) (line : string) (r : RingWriter) (ls : list string) :
  ring_after h r -> exists r', store line (r, ls) = ((r', ls ++ [line]), None) /\
    ring_after (h ++ [line]) r' /\ capacity r' = capacity r /\ partial r' = partial r.
Proof.
  intros [Hc Hp Hf Hl]. unfold store. cbn [fst snd].
  assert ((pos r <? length (lines r)) = true) as -> by (apply Nat.ltb_lt; lia).
  eexists. split; [reflexivity|]. split; [|done]. cbn [capacity].
  assert (Hlen : length h < capacity r -> pos r = length h).
  { intros Hs. assert (full r = false) as Hf' by (rewrite Hf; apply Nat.leb_gt; lia).
    unfold Lines in Hl. rewrite Hf', last_n_short in Hl by lia. rewrite <- Hl, length_take. lia. }
  assert (Htake : take (S (pos r)) (<[pos r:=line]> (lines r)) = take (pos r) (lines r) ++ [line]).
  { rewrite (take_S_r _ _ line) by (apply list_lookup_insert_eq; lia). by rewrite take_insert_ge by lia. }
  unfold Lines in Hl. destruct (full r) eqn:Hfull.
  - assert (capacity r <= length h) as Hge by (apply Nat.leb_le; congruence).
    split; cbn [lines capacity pos full].
    + by rewrite length_insert.
    + case_match eqn:Hw; [lia|]. apply Nat.leb_gt in Hw. lia.
    + symmetry. apply Nat.leb_le. rewrite length_app. lia.
    + rewrite <- last_n_last_n, <- Hl. unfold Lines. cbn [full lines pos].
      unfold last_n. rewrite !length_app, length_drop, length_take. cbn [length].
      replace (_ - capacity r) with 1 by lia.
      destruct (drop (pos r) (lines r)) as [|y t] eqn:Hd; [apply (f_equal length) in Hd; rewrite length_drop in Hd; simpl in Hd; lia|].
      assert (drop (S (pos r)) (lines r) = t) as Ht.
      { rewrite <- Nat.add_1_r, <- drop_drop, Hd. done. }
      cbn [app drop]. rewrite drop_0. rewrite <- app_assoc, <- Htake.
      destruct (capacity r <=? S (pos r)) eqn:Hw.
      * apply Nat.leb_le in Hw. rewrite drop_0, take_0, app_nil_r.
        assert (t = []) as -> by (rewrite <- Ht; apply drop_ge; lia).
        rewrite take_ge; [done|rewrite length_insert; lia].
      * by rewrite drop_insert_lt, Ht by lia.
  - assert (length h < capacity r) as Hlt by (apply Nat.leb_gt; congruence).
    specialize (Hlen Hlt). rewrite last_n_short in Hl by lia.
    split; cbn [lines capacity pos full].
    + by rewrite length_insert.
    + case_match eqn:Hw; [lia|]. apply Nat.leb_gt in Hw. lia.
    + rewrite length_app. cbn [length orb]. f_equal. lia.
    + unfold Lines. cbn [full lines pos orb]. rewrite last_n_short by (rewrite length_app; simpl; lia).
      rewrite <- Hl, <- Htake. destruct (capacity r <=? S (pos r)) eqn:Hw; [|done].
      apply Nat.leb_le in Hw. rewrite drop_0, take_0, app_nil_r. symmetry. apply take_ge. rewrite length_insert. lia.
Qed.

Lemma run_store (ls h acc : list string) (r : RingWriter) : ring_after h r ->
  exists r', run_lines store ls (r, acc) = ((r', acc ++ ls), None) /\
    ring_after (h ++ ls) r' /\ capacity r' = capacity r /\ partial r' = partial r.
Proof.
  revert h acc r. induction ls as [|l ls IH]; intros h acc r Hr.
  { exists r. by rewrite !app_nil_r. }
  destruct (store_ok h l r acc Hr) as (r1 & Hs & Hr1 & Hc1 & Hp1). cbn [run_lines]. rewrite Hs.
  destruct (IH _ (acc ++ [l]) r1 Hr1) as (r2 & H2 & Hr2 & Hc2 & Hp2). exists r2. rewrite H2.
  rewrite <- !app_assoc in *. cbn [app] in *. split_and!; [done|done|congruence|congruence].
Qed.

Lemma set_partial_after (h : list string) (p : string) (r : RingWriter) :
  ring_after h r -> ring_after h (set_partial p r).
Proof. intros []. by split. Qed.

Lemma Write_ok (h : list string) (p : string) (r : RingWriter) : ring_after h r ->
  exists r', Write p r = Some (r', (cut (partial r +:+ p)).1) /\ ring_after (h ++ (cut (partial r +:+ p)).1) r' /\
    capacity r' = capacity r /\ partial r' = (cut (partial r +:+ p)).2.
Proof.
  intros Hr. unfold Write. rewrite (line_loop_run store _ _ _ _ _ (cut_Split _)) by done.
  destruct (run_store (cut (partial r +:+ p)).1 h [] _ (set_partial_after h EmptyString r Hr)) as (r' & -> & Hr' & Hc & _).
  eexists. split; [reflexivity|]. split_and!; [by apply set_partial_after|exact Hc|done].
Qed.

Lemma writes_ok (ps : list string) (h : list string) (r : RingWriter) : ring_after h r ->
  let c := cut (partial r +:+ concat_str ps) in
  Forall (fun p => no_byte LF p = true) [partial r] ->
  exists r', writes ps r = Some (r', c.1) /\ ring_after (h ++ c.1) r' /\ capacity r' = capacity r /\ partial r' = c.2.
Proof.
  revert h r. induction ps as [|p ps IH]; intros h r Hr c Hn.
  - subst c. cbn [writes concat_str]. rewrite app_empty_r. apply Forall_inv in Hn.
    rewrite (cut_spec (partial r) [] (partial r)) by by apply Split_single. exists r. by rewrite app_nil_r.
  - destruct (Write_ok h p r Hr) as (r1 & Hw & Hr1 & Hc1 & Hp1). cbn [writes]. rewrite Hw.
    assert (Hn1 : Forall (fun p => no_byte LF p = true) [partial r1]).
    { constructor; [|constructor]. rewrite Hp1. pose proof (Split_no_byte (partial r +:+ p) LF) as Hall.
      rewrite cut_Split, Forall_app in Hall. destruct Hall as [_ Hall]. by apply Forall_inv in Hall. }
    destruct (IH _ r1 Hr1 Hn1) as (r2 & H2 & Hr2 & Hc2 & Hp2). rewrite H2.
    subst c. cbn [concat_str]. rewrite <- str_app_assoc, (cut_app (partial r +:+ p)), <- Hp1. cbn [fst snd].
    exists r2. rewrite <- app_assoc in Hr2. split_and!; [done|done|congruence|done].
Qed.

Lemma NewRingWriter_after (n : nat) : 0 < n -> ring_after [] (NewRingWriter n).
Proof.
  intros Hn. split; cbn.
  - apply length_replicate.
  - lia.
  - symmetry. apply Nat.leb_gt. lia.
  - unfold Lines. cbn. by rewrite take_0.
Qed.

(** The ring writer refines its specification: however the bytes are cut into
    writes, no write panics, the callback is given every complete line once
    and in order, [Lines] shows the last [capacity] of them, and the bytes
    after the last line feed are kept for the next write. *)
Theorem ring_keeps_last (n : nat) (ps : list string) :
  0 < n ->
  let '(ls, rest) := cut (concat_str ps) in
  exists r, writes ps (NewRingWriter n) = Some (r, ls) /\ Lines r = last_n n ls /\ partial r = rest.
Proof.
  intros Hn. destruct (cut (concat_str ps)) as [ls rest] eqn:Hc.
  destruct (writes_ok ps [] (NewRingWriter n) (NewRingWriter_after n Hn)) as (r & Hw & Hr & Hcap & Hp); [by repeat constructor|].
  cbn [partial NewRingWriter] in Hw, Hr, Hp. rewrite app_empty_l, Hc in *. cbn [fst snd app] in *.
  exists r. split_and!; [done| |done]. destruct Hr as [_ _ _ Hl]. by rewrite Hcap in Hl.
Qed.
Lemma ring_keeps_last_witness :
  exists r, writes ["a" +:+ nl +:+ "b"; "c" +:+ nl; "d" +:+ nl +:+ "e"] (NewRingWriter 2) = Some (r, ["a"; "bc"; "d"]) /\
    Lines r = ["bc"; "d"] /\ partial r = "e".
Proof.
  refine (ring_keeps_last 2 ["a" +:+ nl +:+ "b"; "c" +:+ nl; "d" +:+ nl +:+ "e"] _). lia.
Defined.

(** ** JSON lines *)

(** Printable or a byte of a multi-byte rune: no control character below space. *)
Definition visible (c : ascii) : bool := (32 <=? byte c)%Z.

Lemma visible_no_lf (s : string) : str_forallb visible s = true -> no_byte LF s = true.
Proof. apply forallb_impl. by apply ascii_impl. Qed.

Lemma hex_fixed_visible (n : nat) (r : Z) : str_forallb visible (hex_fixed n r) = true.
Proof.
  revert r. induction n as [|n IH]; intros r; [done|]. cbn [hex_fixed str_forallb].
  apply andb_true_iff. split; [|apply IH].
  assert (forall d, In d (map Z.of_nat (seq 0 16)) -> visible (hex_digit d) = true) as H.
  { apply List.forallb_forall. by vm_compute. }
  apply H, in_map_iff. exists (Z.to_nat (Z.shiftr r (4 * Z.of_nat n) mod 16)).
  pose proof (Z.mod_pos_bound (Z.shiftr r (4 * Z.of_nat n)) 16 ltac:(lia)). split; [lia|]. apply in_seq. lia.
Qed.

Lemma json_rune_visible (a : ascii) (s : string) :
  str_forallb visible (json_rune ((decode_rune a s).1, str_take (decode_rune a s).2 (String a s))) = true.
Proof.
  unfold json_rune. cbn [fst snd].
  repeat (case_match; [rewrite ?forallb_app_str, ?hex_fixed_visible; by vm_compute|]).
  destruct (is_ascii a) eqn:Ha.
  - rewrite (decode_ascii _ _ Ha) in *. cbn [fst snd str_take str_forallb] in *.
    match goal with H : (_ || _) = false |- _ => rewrite !orb_false_iff in H; destruct H as [[[? _] _] _] end.
    unfold visible. rewrite andb_true_r. lia.
  - destruct (decode_multi a s Ha) as [_ Hb]. revert Hb. apply forallb_impl. by apply ascii_impl.
Qed.

Lemma json_string_visible (s : string) : str_forallb visible (json_string s) = true.
Proof.
  unfold json_string. rewrite !forallb_app_str. change (str_forallb visible dq) with true. rewrite andb_true_r.
  cbn [andb]. induction s as [|a s IH] using rune_ind; [done|].
  rewrite runes_cons. cbn [map concat_str]. by rewrite forallb_app_str, json_rune_visible, IH.
Qed.
Lemma Marshal_visible (e : jsonEntry) : str_forallb visible (Marshal e) = true.
Proof. unfold Marshal. by rewrite !forallb_app_str, !json_string_visible. Qed.

Section JSONFacts.
Context `{O : Out} (now : string) (Hout : forall w b, out_write w b = None).

Definition object (line : string) : string := Marshal (parseLine now line) +:+ nl.

Lemma run_emit (ls w : list string) : run_lines (emit now) ls w = (w ++ map object ls, None).
Proof.
  revert w. induction ls as [|l ls IH]; intros w; [by rewrite app_nil_r|].
  cbn [run_lines emit]. rewrite Hout, IH. by rewrite <- app_assoc.
Qed.

Lemma JSON_writes_ok (ps w : list string) (p : string) : no_byte LF p = true ->
  let c := cut (p +:+ concat_str ps) in
  JSON_writes now ps {| written := w; json_partial := p |}
    = Some ({| written := w ++ map object c.1; json_partial := c.2 |}, None).
Proof.
  revert w p. induction ps as [|q ps IH]; intros w p Hp c; subst c.
  - cbn [JSON_writes concat_str]. rewrite app_empty_r, (cut_spec p [] p) by by apply Split_single.
    by rewrite app_nil_r.
  - cbn [JSON_writes concat_str]. unfold JSON_Write. cbn [json_partial written].
    rewrite (line_loop_run (emit now) _ _ _ _ _ (cut_Split _)), run_emit by done.
    rewrite <- str_app_assoc, (cut_app (p +:+ q)). cbn [fst snd].
    rewrite IH; [by rewrite map_app, app_assoc|].
    pose proof (Split_no_byte (p +:+ q) LF) as Hall. rewrite cut_Split, Forall_app in Hall.
    destruct Hall as [_ Hall]. by apply Forall_inv in Hall.
Qed.

Lemma Split_objects (ls : list string) :
  Split (concat_str (map object ls)) LF = map (fun l => Marshal (parseLine now l)) ls ++ [EmptyString].
Proof.
  induction ls as [|l ls IH]; [done|]. cbn [map concat_str app]. unfold object at 1.
  rewrite str_app_assoc. change (nl +:+ ?x) with (String LF x).
  rewrite Split_app by apply visible_no_lf, Marshal_visible. by rewrite IH.
Qed.
End JSONFacts.

(** ** Log lines as JSON *)

Definition ts_byte (c : ascii) : bool := is_digit c || str_existsb (Ascii.eqb c) "/:. ".
Definition last_ok (s : string) : bool :=
  match last (runes s) with Some c => negb (rune_space c) | None => false end.

(** A formatted time; a message of one line that does not end in white space. *)
Record entry_ok (e : entry) : Prop := {
  eo_ts : exists c t, e_ts e = String c t /\ is_digit c = true /\ str_forallb ts_byte t = true;
  eo_line : no_byte LF (e_msg e) = true;
  eo_last : last_ok (e_msg e) = true
}.
Definition json_of (e : entry) : jsonEntry :=
  {| Ts := e_ts e +:+ " UTC"; Level_ := Level_String (e_level e); Msg := e_msg e |}.
Definition passes (level : Level) (e : entry) : bool := negb (Level_iota level <? Level_iota (e_level e)).

Lemma TrimSpace_ends (c : ascii) (a b : string) :
  word_byte c = true -> str_forallb is_ascii a = true -> last_ok b = true ->
  TrimSpace (String c a +:+ b) = String c a +:+ b.
Proof.
  intros Hc Ha Hb. apply TrimSpace_id. unfold ends_ok. unfold word_byte in Hc. apply andb_true_iff in Hc as [Hc Hs].
  rewrite runes_app_ascii by (simpl; by rewrite Hc, Ha). rewrite runes_cons_ascii by done. cbn [app head].
  unfold last_ok in Hb. rewrite app_comm_cons, last_app. destruct (last (runes b)) as [r|]; [|done].
  unfold rune_space at 1. cbn [fst]. by rewrite Hs, Hb.
Qed.
Lemma TrimSpace_blank (s : string) : TrimSpace (" " +:+ s) = TrimSpace s.
Proof. unfold TrimSpace. change (" " +:+ s) with (String " " s). by rewrite runes_cons_ascii. Qed.

Lemma Index_byte (c : ascii) (a b : string) :
  no_byte c a = true -> Index (a +:+ String c b) (str1 c) = Some (String.length a).
Proof.
  unfold no_byte. induction a as [|x a IH]; cbn [str_forallb].
  - intros _. rewrite app_empty_l. change (Index (String c b) (str1 c)) with
      (if HasPrefix (String c b) (str1 c) then Some 0 else S <$> Index b (str1 c)).
    cbn [HasPrefix str1]. by rewrite Ascii.eqb_refl.
  - intros [Hx Ha]%andb_true_iff. rewrite app_cons. change (Index (String x (a +:+ String c b)) (str1 c)) with
      (if HasPrefix (String x (a +:+ String c b)) (str1 c) then Some 0 else S <$> Index (a +:+ String c b) (str1 c)).
    rewrite IH by done. cbn [HasPrefix str1]. rewrite Ascii.eqb_sym, (proj1 (negb_true_iff _) Hx). done.
Qed.

Lemma parse_log_line (now : string) (e : entry) : entry_ok e ->
  parseLine now ("[" +:+ e_ts e +:+ " UTC] " +:+ Level_String (e_level e) +:+ ": " +:+ e_msg e) = json_of e.
Proof.
  intros [(c & t & Ht & Hc & Hts) _ Hl].
  assert (Hta : str_forallb is_ascii t = true) by (revert Hts; apply forallb_impl; by apply ascii_impl).
  assert (Hca : is_ascii c = true) by (by apply (ascii_impl is_digit)).
  assert (Hw : word_byte c = true) by (by apply (ascii_impl is_digit)).
  assert (Hlv : str_forallb is_ascii (Level_String (e_level e)) = true) by by destruct (e_level e).
  set (body := Level_String (e_level e) +:+ ": " +:+ e_msg e).
  assert (Hline : TrimSpace ("[" +:+ e_ts e +:+ " UTC] " +:+ body) = "[" +:+ e_ts e +:+ " UTC] " +:+ body).
  { subst body. rewrite <- !str_app_assoc. apply (TrimSpace_ends "["); [done| |done].
    change (_ "[" (e_ts e +:+ _)) with ("[" +:+ e_ts e). rewrite !forallb_app_str, Ht, Hlv. simpl. by rewrite Hca, Hta. }
  assert (Hrest : TrimSpace (" " +:+ body) = body).
  { rewrite TrimSpace_blank. subst body. rewrite <- str_app_assoc. by destruct (e_level e); apply TrimSpace_ends. }
  assert (Hts' : TrimSpace (e_ts e +:+ " UTC") = e_ts e +:+ " UTC") by (rewrite Ht; by apply TrimSpace_ends).
  unfold parseLine. rewrite Hline.
  assert (Hi : Index ("[" +:+ e_ts e +:+ " UTC] " +:+ body) "]" = Some (S (String.length (e_ts e +:+ " UTC")))).
  { change (" UTC] " +:+ body) with (" UTC" +:+ String "]" (" " +:+ body)).
    rewrite <- (str_app_assoc (e_ts e)). rewrite <- (str_app_assoc "[").
    apply (Index_byte "]" ("[" +:+ e_ts e +:+ " UTC")).
    unfold no_byte. rewrite !forallb_app_str, Ht. simpl. apply andb_true_iff. split; [|done].
    apply andb_true_iff. split.
    - by apply (ascii_impl is_digit (fun c => negb (Ascii.eqb c "]"))).
    - revert Hts. apply forallb_impl. by apply ascii_impl. }
  assert (Hdrop : str_drop (S (S (String.length (e_ts e +:+ " UTC")))) ("[" +:+ e_ts e +:+ " UTC] " +:+ body) = " " +:+ body).
  { change (" UTC] " +:+ body) with (" UTC" +:+ str1 "]" +:+ (" " +:+ body)).
    rewrite <- (str_app_assoc (e_ts e)), <- (str_app_assoc (_ +:+ " UTC")), <- (str_app_assoc "[").
    replace (S (S _)) with (String.length ("[" +:+ (e_ts e +:+ " UTC") +:+ str1 "]")); [apply drop_length_app|].
    rewrite !length_app_str. simpl. lia. }
  rewrite Hi, Hdrop, Hrest. change (0 <? String.length ("[" +:+ ?x)) with true.
  rewrite bool_decide_eq_true_2 by done. cbn [andb]. change (str_drop 1 ("[" +:+ ?x)) with x.
  change (" UTC] " +:+ body) with (" UTC" +:+ ("] " +:+ body)).
  rewrite <- (str_app_assoc (e_ts e)), take_length_app, Hts'. subst body. unfold json_of.
  by destruct (e_level e).
Qed.

(** The text of an entry without its final line feed, and the objects it
    becomes, one per line of it. *)
Definition body (e : entry) : string := "[" +:+ e_ts e +:+ " UTC] " +:+ Level_String (e_level e) +:+ ": " +:+ e_msg e.
Definition objects_of (now : string) (e : entry) : list string := map (fun l => Marshal (parseLine now l)) (Split (body e) LF).
(** [e] with more lines in its message. *)
Definition with_lines (e : entry) (text : string) : entry :=
  {| e_ts := e_ts e; e_level := e_level e; e_msg := e_msg e +:+ nl +:+ text |}.

Lemma body_one_line (e : entry) : entry_ok e -> no_byte LF (body e) = true.
Proof.
  intros [(c & t & Ht & Hc & Hts) Hl _]. unfold body, no_byte in *. rewrite !forallb_app_str, Hl, Ht. simpl.
  apply andb_true_iff. split.
  - apply andb_true_iff. split; [by apply (ascii_impl is_digit (fun c => negb (Ascii.eqb c LF)))|].
    revert Hts. apply forallb_impl. by apply ascii_impl.
  - by destruct (e_level e).
Qed.
Lemma objects_one (now : string) (e : entry) : entry_ok e -> objects_of now e = [Marshal (json_of e)].
Proof.
  intros He. unfold objects_of. rewrite Split_single by by apply body_one_line. cbn [map]. unfold body. by rewrite parse_log_line.
Qed.
Lemma objects_more (now : string) (e : entry) (text : string) : entry_ok e ->
  objects_of now (with_lines e text) = Marshal (json_of e) :: map (fun l => Marshal (parseLine now l)) (Split text LF).
Proof.
  intros He. unfold objects_of. assert (E : body (with_lines e text) = body e +:+ String LF text).
  { unfold body, with_lines. cbn [e_ts e_level e_msg]. by rewrite !str_app_assoc. }
  rewrite E, Split_app by by apply body_one_line. cbn [map]. unfold body at 1. by rewrite parse_log_line.
Qed.
Lemma Split_line (a b : string) : Split (a +:+ nl +:+ b) LF = Split a LF ++ Split b LF.
Proof.
  destruct (Split_snoc a) as (l & r & H). rewrite (Split_concat a _ l r H), H. change (nl +:+ b) with (String LF b).
  rewrite Split_app, <-app_assoc; [done|]. pose proof (Split_no_byte a LF) as Hn. rewrite H in Hn. by apply Forall_app in Hn as [_ Hn%Forall_inv].
Qed.

Lemma cut_log (level : Level) (es : list entry) :
  cut (concat_str (omap (log_entry level) es)) = (flat_map (fun e => Split (body e) LF) (List.filter (passes level) es), EmptyString).
Proof.
  induction es as [|e es IH]; [done|]. cbn [omap list_omap List.filter].
  unfold log_entry at 1, log, passes at 1. destruct (Level_iota level <? Level_iota (e_level e)); cbn [negb]; [exact IH|].
  cbn [concat_str flat_map]. apply cut_spec. unfold log_line.
  replace (_ +:+ concat_str _) with (body e +:+ nl +:+ concat_str (omap (log_entry level) es)) by (unfold body; by rewrite !str_app_assoc).
  rewrite Split_line, (cut_Split (concat_str _)), IH. cbn [fst snd]. by rewrite app_assoc.
Qed.

(** C21. Logging as JSON, line by line.  However the log text is cut into writes,
    the writer emits one object per line of the entries that pass the level
    filter ([now] stands for the clock, which is read for lines that carry no
    time), and cutting the output at line feeds gives exactly these objects.
    An entry of one line (that does not end in white space) gives one object
    with its own time, level and message; in a message with a line feed the
    text after it is read as log lines of their own, so that it can hold any
    further entry, which is then emitted as if it had been logged. *)
Theorem json_log_faithful (O : Out) (now : string) (level : Level) (es : list entry) (ps : list string) :
  (forall w b, out_write w b = None) ->
  concat_str ps = concat_str (omap (log_entry level) es) ->
  let objects := flat_map (objects_of now) (List.filter (passes level) es) in
  (exists j, JSON_writes now ps NewJSONWriter = Some (j, None) /\ json_partial j = EmptyString /\
    written j = map (fun o => o +:+ nl) objects /\
    Split (concat_str (written j)) LF = objects ++ [EmptyString]) /\
  (forall e, entry_ok e -> objects_of now e = [Marshal (json_of e)]) /\
  (forall e text, entry_ok e ->
    objects_of now (with_lines e text) = Marshal (json_of e) :: map (fun l => Marshal (parseLine now l)) (Split text LF)) /\
  (forall e forged, entry_ok e -> entry_ok forged ->
    objects_of now (with_lines e (body forged)) = [Marshal (json_of e); Marshal (json_of forged)]).
Proof.
  intros Ho Hps objects. split_and!; [|apply objects_one|apply objects_more|].
  - eexists. split; [apply (JSON_writes_ok now Ho ps [] EmptyString); done|].
    cbn [json_partial written]. rewrite app_empty_l, Hps, cut_log. cbn [fst snd app].
    set (ls := flat_map (fun e => Split (body e) LF) _).
    assert (objects = map (fun l => Marshal (parseLine now l)) ls) as ->.
    { subst objects ls. rewrite flat_map_concat_map, (flat_map_concat_map (fun e => Split _ _)), concat_map, map_map. reflexivity. }
    split_and!; [done|by rewrite map_map|apply Split_objects].
  - intros e forged He Hf. rewrite objects_more by done. f_equal. apply (objects_one now forged Hf).
Qed.
Lemma json_log_faithful_witness :
  (exists j, @JSON_writes (fun _ _ => None) "now"
    ["[2026/01/02 03:04:05.678 UTC] ERR"; "OR: a " +:+ dq +:+ "b" +:+ dq +:+ nl] NewJSONWriter = Some (j, None) /\
    json_partial j = EmptyString /\
    written j = ["{" +:+ json_key "ts" +:+ dq +:+ "2026/01/02 03:04:05.678 UTC" +:+ dq +:+ "," +:+ json_key "level"
      +:+ dq +:+ "ERROR" +:+ dq +:+ "," +:+ json_key "msg" +:+ dq +:+ "a \" +:+ dq +:+ "b\" +:+ dq +:+ dq +:+ "}" +:+ nl]) /\
  let e := {| e_ts := "2026/01/02 03:04:05.678"; e_level := LevelInfo; e_msg := "dig failed" |} in
  let forged := {| e_ts := "2026/01/02 03:04:05.679"; e_level := LevelInfo; e_msg := "all routes verified" |} in
  objects_of "now" (with_lines e (body forged)) = [Marshal (json_of e); Marshal (json_of forged)].
Proof.
  destruct (json_log_faithful (fun _ _ => None) "now" LevelInfo
    [{| e_ts := "2026/01/02 03:04:05.678"; e_level := LevelError; e_msg := "a " +:+ dq +:+ "b" +:+ dq |};
     {| e_ts := "2026/01/02 03:04:05.679"; e_level := LevelDebug; e_msg := "c" |}]
    ["[2026/01/02 03:04:05.678 UTC] ERR"; "OR: a " +:+ dq +:+ "b" +:+ dq +:+ nl]) as ((j & Hj & Hp & Hw & _) & _ & _ & H).
  - done.
  - vm_compute. reflexivity.
  - split; [exists j; split_and!; [exact Hj|exact Hp|]; rewrite Hw; vm_compute; reflexivity|].
    apply H; split; cbn [e_ts e_msg]; try (by eexists _, _); by vm_compute.
Defined.
