(* ===== verification/Index.v ===== *)
(** * Package [index]: the keyword index

    [tokenizer.go], [inverted.go], [query.go], [metadata.go] and [document.go],
    with [HashTerm] of package [fhe].  Paths are those of Linux and macOS;
    times are nanoseconds since the zero time of Go. *)

From S2P Require Import Prelude GoStrings StringFacts Sha256.
Local Open Scope Z_scope.

(** Unicode NFD normalisation ([golang.org/x/text]). *)
Class Normalizer := NFD : string -> string.

(** ** Tokens *)

Definition commonStopWords : list string := [
  "a"; "an"; "and"; "are"; "as"; "at"; "be"; "by"; "for"; "from"; "has"; "he"; "in"; "is"; "it"; "its"; "of";
  "on"; "or"; "she"; "that"; "the"; "to"; "was"; "were"; "will"; "with"; "this"; "but"; "not"; "you"; "all";
  "can"; "had"; "her"; "one"; "our"; "out"; "do"; "if"; "me"; "my"; "no"; "so"; "up"; "we"].

Section Tokens.
Context `{U : UnicodeTables} `{L : LetterTables} `{N : Normalizer}.

Definition separator_rune (r : Z) : bool := negb (IsLetter r) && negb (IsDigit r).

(** The normalisation of one word of the split text. *)
Definition normal_word (w : string) : string := TrimFunc (ToLower w) separator_rune.
Definition indexable (w : string) : bool := negb (len w <? 3) && negb (bool_decide (w ∈ commonStopWords)).

(** The loop, from the set of words seen. *)
Fixpoint token_loop (seen : gset string) (words : list string) : list string :=
  match words with
  | [] => []
  | w0 :: ws =>
      let w := normal_word w0 in
      if len w <? 3 then token_loop seen ws
      else if bool_decide (w ∈ commonStopWords) then token_loop seen ws
      else if bool_decide (w ∈ seen) then token_loop seen ws
      else w :: token_loop ({[w]} ∪ seen) ws
  end.
Definition Tokenize (text : string) : list string := token_loop ∅ (FieldsFunc (NFD text) separator_rune).

(** [binary.LittleEndian.Uint64] of the first eight bytes. *)
Definition le_uint64 (bs : list Z) : Z := foldr (fun b acc => b + 256 * acc) 0 (take 8 bs).
Definition DefaultPlaintextModulus : Z := 65537.
Definition HashTerm (term : string) : Z :=
  le_uint64 (sha256 (map byte (String.list_ascii_of_string (ToLower (TrimSpace term))))) mod DefaultPlaintextModulus.
End Tokens.

(** ** Paths and times *)

(** The suffix from the last dot of the last path element. *)
Fixpoint ext_go (s : string) : option string :=
  match s with
  | EmptyString => None
  | String c s' =>
      match ext_go s' with
      | Some e => Some e
      | None => if Ascii.eqb c "." && str_forallb (fun a => negb (Ascii.eqb a "/")) s' then Some s else None
      end
  end.
Definition Ext (path : string) : string := default EmptyString (ext_go path).
Definition Base (path : string) : string :=
  if decide (path = EmptyString) then "."
  else
    let p := TrimRight path "/" in
    if decide (p = EmptyString) then "/"
    else match LastIndexByte p "/" with Some i => str_drop (S i) p | None => p end.

Definition Time : Type := Z.
Definition IsZero (t : Time) : bool := t =? 0.
(** Seconds since 1970: the zero time is the start of year 1. *)
Definition Unix (t : Time) : Z := t / 1000000000 - 62135596800.

(** ** Documents *)

Record DocMeta := {
  ID : Z; Path : string; Title : string; Size : Z; IndexedAt : Time; FileType : string; MimeType : string;
  CreatedAt : Time; ModifiedAt : Time; Tags : list string; WordCount : Z
}.

Section Types.
Context `{U : UnicodeTables}.

Definition DetectFileType (ext0 : string) : string :=
  let ext := ToLower ext0 in
  let among l := bool_decide (ext ∈ l) in
  if among [".txt"] then "text" else if among [".md"; ".markdown"] then "markdown"
  else if among [".json"] then "json" else if among [".xml"] then "xml"
  else if among [".html"; ".htm"] then "html" else if among [".yaml"; ".yml"] then "yaml"
  else if among [".toml"] then "toml" else if among [".cfg"; ".conf"; ".ini"] then "config"
  else if among [".log"] then "log" else if among [".csv"] then "data" else "unknown".
Definition DetectMimeType (ext0 : string) : string :=
  let ext := ToLower ext0 in
  let among l := bool_decide (ext ∈ l) in
  if among [".txt"] then "text/plain" else if among [".md"; ".markdown"] then "text/markdown"
  else if among [".json"] then "application/json" else if among [".xml"] then "application/xml"
  else if among [".html"; ".htm"] then "text/html" else if among [".yaml"; ".yml"] then "text/yaml"
  else if among [".toml"] then "text/toml" else if among [".csv"] then "text/csv"
  else if among [".log"; ".cfg"; ".conf"; ".ini"] then "text/plain" else "application/octet-stream".
End Types.

(** ** The inverted index *)

Record InvertedIndex := { Terms : gmap Z (list Z); Documents : gmap Z DocMeta; nextDocID : Z }.
Definition NewInvertedIndex : InvertedIndex := {| Terms := ∅; Documents := ∅; nextDocID := 0 |}.

Definition appendUnique (l : list Z) (v : Z) : list Z := if List.existsb (Z.eqb v) l then l else l ++ [v].

(** What the file system and the clock say of a document: [os.Stat] may fail. *)
Record source := { s_path : string; s_content : string; s_stat : option (Z * Time); s_now : Time }.

Section Inverted.
Context `{U : UnicodeTables} `{L : LetterTables} `{N : Normalizer}.

Definition doc_meta (docID : Z) (d : source) : DocMeta :=
  let size := match s_stat d with Some (n, _) => n | None => 0 end in
  let mod_time := match s_stat d with Some (_, t) => t | None => 0 end in
  let ext := Ext (s_path d) in
  {| ID := docID; Path := s_path d; Title := Base (s_path d); Size := size; IndexedAt := s_now d;
     FileType := DetectFileType ext; MimeType := DetectMimeType ext; CreatedAt := mod_time;
     ModifiedAt := mod_time; Tags := []; WordCount := Z.of_nat (length (Tokenize (s_content d))) |}.

(** The loop over the terms of a document. *)
Definition post (docID : Z) (terms : gmap Z (list Z)) (term : string) : gmap Z (list Z) :=
  let h := HashTerm term in <[h := appendUnique (default [] (terms !! h)) docID]> terms.
Definition AddDocument (d : source) (idx : InvertedIndex) : Z * InvertedIndex :=
  let docID := nextDocID idx in
  (docID, {| Terms := foldl (post docID) (Terms idx) (Tokenize (s_content d));
             Documents := <[docID := doc_meta docID d]> (Documents idx);
             nextDocID := (docID + 1) mod 2 ^ 32 |}).

Definition Query (idx : InvertedIndex) (term : string) : list Z := default [] (Terms idx !! HashTerm term).
Definition TermCount (idx : InvertedIndex) : nat := size (Terms idx).
Definition DocCount (idx : InvertedIndex) : nat := size (Documents idx).
Definition GetDoc (idx : InvertedIndex) (id : Z) : option DocMeta := Documents idx !! id.
Definition LocalQuery (idx : InvertedIndex) (term : string) : list DocMeta := omap (GetDoc idx) (Query idx term).

(** [IndexDirectory]: what the walk finds, in its order; an unreadable entry
    has no data. *)
Record walked := { w_dir : bool; w_err : bool; w_size : option Z; w_read : bool; w_doc : source }.
Definition SupportedExtensions : list string :=
  [".txt"; ".md"; ".log"; ".csv"; ".json"; ".xml"; ".html"; ".htm"; ".yaml"; ".yml"; ".toml"; ".cfg"; ".conf"; ".ini"].
Definition selected (w : walked) : bool :=
  negb (w_err w) && negb (w_dir w) && bool_decide (ToLower (Ext (s_path (w_doc w))) ∈ SupportedExtensions)
  && match w_size w with Some n => negb (10 * 1024 * 1024 <? n) | None => false end && w_read w.
Definition visit (acc : InvertedIndex * nat) (w : walked) : InvertedIndex * nat :=
  if selected w then ((AddDocument (w_doc w) acc.1).2, S acc.2) else acc.
Definition IndexDirectory (idx : InvertedIndex) (walk : list walked) : InvertedIndex * nat := foldl visit (idx, 0%nat) walk.
End Inverted.

(** ** Filters *)

Record MetadataFilter := {
  FileTypes : list string; MinSize : Z; MaxSize : Z;
  CreatedAfter : Time; CreatedBefore : Time; ModifiedAfter : Time; ModifiedBefore : Time; F_Tags : list string
}.
Record ReplicaDocInfo := { R_FileType : string; R_Size : Z; R_CreatedAt : Z; R_ModifiedAt : Z; R_WordCount : Z }.
Definition DocMetaToReplicaInfo (d : DocMeta) : ReplicaDocInfo :=
  {| R_FileType := FileType d; R_Size := Size d; R_CreatedAt := Unix (CreatedAt d);
     R_ModifiedAt := Unix (ModifiedAt d); R_WordCount := WordCount d |}.

Section Filters.
Context `{U : UnicodeTables} `{D : FoldTables}.

Definition IsEmpty (f : option MetadataFilter) : bool :=
  match f with
  | None => true
  | Some f => (length (FileTypes f) =? 0)%nat && (MinSize f =? 0) && (MaxSize f =? 0)
      && IsZero (CreatedAfter f) && IsZero (CreatedBefore f) && IsZero (ModifiedAfter f)
      && IsZero (ModifiedBefore f) && (length (F_Tags f) =? 0)%nat
  end.

Definition type_ok (f : MetadataFilter) (ty : string) : bool :=
  (length (FileTypes f) =? 0)%nat || List.existsb (fun ft => EqualFold ft ty) (FileTypes f).
Definition size_ok (f : MetadataFilter) (n : Z) : bool :=
  negb ((0 <? MinSize f) && (n <? MinSize f)) && negb ((0 <? MaxSize f) && (MaxSize f <? n)).
Definition after_ok (bound t : Time) : bool := negb (negb (IsZero bound) && negb (IsZero t) && (t <? bound)).
Definition before_ok (bound t : Time) : bool := negb (negb (IsZero bound) && negb (IsZero t) && (bound <? t)).
Definition tags_ok (f : MetadataFilter) (tags : list string) : bool :=
  forallb (fun r => bool_decide (ToLower r ∈ map ToLower tags)) (F_Tags f).

Definition Matches (f : option MetadataFilter) (doc : DocMeta) : bool :=
  match f with
  | None => true
  | Some f => type_ok f (FileType doc) && size_ok f (Size doc)
      && after_ok (CreatedAfter f) (CreatedAt doc) && before_ok (CreatedBefore f) (CreatedAt doc)
      && after_ok (ModifiedAfter f) (ModifiedAt doc) && before_ok (ModifiedBefore f) (ModifiedAt doc)
      && tags_ok f (Tags doc)
  end.

Definition MatchesReplicaInfo (f : option MetadataFilter) (info : ReplicaDocInfo) : bool :=
  match f with
  | None => true
  | Some f => type_ok f (R_FileType info) && size_ok f (R_Size info)
      && negb (negb (IsZero (CreatedAfter f)) && (R_CreatedAt info <? Unix (CreatedAfter f)))
      && negb (negb (IsZero (CreatedBefore f)) && (Unix (CreatedBefore f) <? R_CreatedAt info))
      && negb (negb (IsZero (ModifiedAfter f)) && (R_ModifiedAt info <? Unix (ModifiedAfter f)))
      && negb (negb (IsZero (ModifiedBefore f)) && (Unix (ModifiedBefore f) <? R_ModifiedAt info))
  end.
End Filters.

(** ** Tokens *)

Section TokenFacts.
Context `{U : UnicodeTables} `{L : LetterTables} `{N : Normalizer}.

Lemma token_loop_spec (seen : gset string) (ws : list string) :
  (forall t, t ∈ token_loop seen ws <-> (t ∉ seen) /\ exists w, w ∈ ws /\ t = normal_word w /\ indexable t = true) /\
  NoDup (token_loop seen ws).
Proof.
  revert seen. induction ws as [|w ws IH]; intros seen; cbn [token_loop].
  { split; [|constructor]. intros t. split; [by intros ?%not_elem_of_nil|].
    intros (_ & w & Hw & _). by apply not_elem_of_nil in Hw. }
  assert (Hskip : indexable (normal_word w) = false \/ normal_word w ∈ seen -> forall t,
    ((t ∉ seen) /\ exists w0, w0 ∈ ws /\ t = normal_word w0 /\ indexable t = true) <->
    ((t ∉ seen) /\ exists w0, w0 ∈ w :: ws /\ t = normal_word w0 /\ indexable t = true)).
  { intros Hs t. setoid_rewrite elem_of_cons. split; [naive_solver|].
    intros (Hn & w0 & [->|Hw] & -> & Hi); [|naive_solver]. destruct Hs as [Hs|Hs]; [by rewrite Hi in Hs|done]. }
  unfold indexable in Hskip at 1.
  destruct (len (normal_word w) <? 3) eqn:Hlen; [|destruct (bool_decide (normal_word w ∈ commonStopWords)) eqn:Hstop;
    [|destruct (bool_decide (normal_word w ∈ seen)) eqn:Hseen]].
  1-3: destruct (IH seen) as [Ht Hd]; split; [|exact Hd]; intros t; rewrite Ht; apply Hskip; auto;
    right; by apply bool_decide_eq_true in Hseen.
  apply bool_decide_eq_false in Hseen. destruct (IH ({[normal_word w]} ∪ seen)) as [Ht Hd]. split.
  - intros t. rewrite elem_of_cons, Ht. setoid_rewrite elem_of_cons. split.
    + intros [->|(Hn & w0 & ? & ? & ?)]; [|set_solver]. split; [done|]. exists w. split_and!; [by left|done|].
      unfold indexable. by rewrite Hlen, Hstop.
    + intros (Hn & w0 & [->|Hw] & -> & Hi); [by left|].
      destruct (decide (normal_word w0 = normal_word w)) as [->|Hne]; [by left|]. right. set_solver.
  - constructor; [|done]. rewrite Ht. set_solver.
Qed.
End TokenFacts.

(** The tokens of a text are the normalised words of its decomposed form that
    have three bytes or more and are not stop words, each one once. *)
Theorem Tokenize_spec (U : UnicodeTables) (L : LetterTables) (N : Normalizer) (text : string) :
  NoDup (Tokenize text) /\
  forall t, t ∈ Tokenize text <->
    exists w, w ∈ FieldsFunc (NFD text) separator_rune /\ t = normal_word w /\ 3 <= len t /\ t ∉ commonStopWords.
Proof.
  unfold Tokenize. destruct (token_loop_spec ∅ (FieldsFunc (NFD text) separator_rune)) as [Ht Hd].
  split; [done|]. intros t. rewrite Ht. unfold indexable.
  setoid_rewrite andb_true_iff. setoid_rewrite negb_true_iff. setoid_rewrite Z.ltb_ge.
  setoid_rewrite bool_decide_eq_false. set_solver.
Qed.

(** ** Postings *)

Section Postings.
Context `{U : UnicodeTables} `{L : LetterTables} `{N : Normalizer}.

(** The index of a sequence of documents. *)
Definition indexed (ds : list source) : InvertedIndex := foldl (fun idx d => (AddDocument d idx).2) NewInvertedIndex ds.

(** A document has a token with this hash. *)
Definition has_hash (h : Z) (d : source) : bool := bool_decide (h ∈ map HashTerm (Tokenize (s_content d))).

(** The numbers of the documents that have, from number [n]. *)
Fixpoint hits (n : Z) (h : Z) (ds : list source) : list Z :=
  match ds with
  | [] => []
  | d :: ds' => if has_hash h d then n :: hits (n + 1) h ds' else hits (n + 1) h ds'
  end.

Lemma existsb_Zeqb (v : Z) (l : list Z) : List.existsb (Z.eqb v) l = bool_decide (v ∈ l).
Proof.
  induction l as [|x l IH]; [done|]. cbn [List.existsb]. rewrite IH.
  destruct (Z.eqb_spec v x) as [->|Hne]; cbn [orb].
  - symmetry. apply bool_decide_eq_true. by left.
  - apply bool_decide_ext. rewrite elem_of_cons. naive_solver.
Qed.

Lemma appendUnique_twice (l : list Z) (v : Z) : appendUnique (appendUnique l v) v = appendUnique l v.
Proof.
  unfold appendUnique. rewrite !existsb_Zeqb. destruct (decide (v ∈ l)) as [Hin|Hin].
  - by rewrite !(bool_decide_eq_true_2 (v ∈ l)).
  - rewrite (bool_decide_eq_false_2 (v ∈ l)) by done.
    by rewrite bool_decide_eq_true_2 by (apply elem_of_app; right; by left).
Qed.
Lemma post_lookup (docID h : Z) (terms : list string) (m : gmap Z (list Z)) :
  default [] (foldl (post docID) m terms !! h) =
  if bool_decide (h ∈ map HashTerm terms) then appendUnique (default [] (m !! h)) docID else default [] (m !! h).
Proof.
  revert m. induction terms as [|t terms IH]; intros m; [done|]. cbn [foldl map]. rewrite IH. unfold post.
  destruct (decide (HashTerm t = h)) as [->|Hne].
  - rewrite lookup_insert_eq. cbn [default]. rewrite (bool_decide_eq_true_2 (h ∈ h :: _)) by by left.
    by destruct (bool_decide (h ∈ map HashTerm terms)); [apply appendUnique_twice|].
  - rewrite lookup_insert_ne by done. erewrite bool_decide_ext; [reflexivity|]. rewrite elem_of_cons. naive_solver.
Qed.

Lemma hits_bounds (n h : Z) (ds : list source) : Forall (fun i => n <= i < n + Z.of_nat (length ds)) (hits n h ds).
Proof.
  revert n. induction ds as [|d ds IH]; intros n; [constructor|]. cbn [hits length].
  assert (Forall (fun i => n <= i < n + Z.of_nat (S (length ds))) (hits (n + 1) h ds)) as H.
  { eapply Forall_impl; [apply IH|]. intros i Hi. simpl in Hi. lia. }
  destruct (has_hash h d); [constructor; [lia|]|]; exact H.
Qed.
Lemma hits_snoc (n h : Z) (ds : list source) (d : source) :
  hits n h (ds ++ [d]) = hits n h ds ++ (if has_hash h d then [n + Z.of_nat (length ds)] else []).
Proof.
  revert n. induction ds as [|d0 ds IH]; intros n; cbn [app hits length].
  - rewrite Z.add_0_r. by destruct (has_hash h d).
  - rewrite IH. replace (n + 1 + Z.of_nat (length ds)) with (n + Z.of_nat (S (length ds))) by lia.
    by destruct (has_hash h d0).
Qed.

Lemma has_hash_spec (h : Z) (d : source) :
  has_hash h d = true <-> exists t, t ∈ Tokenize (s_content d) /\ HashTerm t = h.
Proof. unfold has_hash. rewrite bool_decide_eq_true, list_elem_of_fmap. naive_solver. Qed.
Lemma hits_spec (n h : Z) (ds : list source) (id : Z) :
  id ∈ hits n h ds <-> exists i d, id = n + Z.of_nat i /\ ds !! i = Some d /\
    exists t, t ∈ Tokenize (s_content d) /\ HashTerm t = h.
Proof.
  revert n. induction ds as [|d ds IH]; intros n; cbn [hits].
  { split; [by intros ?%not_elem_of_nil|]. by intros (i & d & _ & Hi & _). }
  assert (id ∈ (if has_hash h d then n :: hits (n + 1) h ds else hits (n + 1) h ds) <->
    (id = n /\ has_hash h d = true) \/ id ∈ hits (n + 1) h ds) as ->.
  { destruct (has_hash h d); rewrite ?elem_of_cons; naive_solver. }
  rewrite IH, has_hash_spec. split.
  - intros [[-> Hx]|(i & d' & -> & Hi & Hx)]; [exists 0%nat, d|exists (S i), d']; split_and!; try done; lia.
  - intros ([|i] & d' & -> & Hi & Hx); cbn in Hi.
    + left. injection Hi as ->. split; [lia|done].
    + right. exists i, d'. split_and!; [lia|done|done].
Qed.

Lemma indexed_spec (ds : list source) : Z.of_nat (length ds) <= 2 ^ 32 ->
  (forall h, default [] (Terms (indexed ds) !! h) = hits 0 h ds) /\
  (forall i d, ds !! i = Some d -> GetDoc (indexed ds) (Z.of_nat i) = Some (doc_meta (Z.of_nat i) d)) /\
  nextDocID (indexed ds) = Z.of_nat (length ds) mod 2 ^ 32.
Proof.
  induction ds as [|d ds IH] using rev_ind; intros Hlen; [by split_and!; [|intros i d ?|]|].
  rewrite length_app in Hlen. cbn [length] in Hlen. destruct IH as (Ht & Hd & Hn); [lia|].
  rewrite Z.mod_small in Hn by lia.
  assert (indexed (ds ++ [d]) = (AddDocument d (indexed ds)).2) as -> by (unfold indexed; by rewrite foldl_app).
  unfold AddDocument. cbn [snd Terms nextDocID]. rewrite Hn.
  split_and!.
  - intros h. rewrite post_lookup, Ht, hits_snoc. unfold has_hash. rewrite Z.add_0_l.
    case_bool_decide; [|by rewrite app_nil_r]. unfold appendUnique. rewrite existsb_Zeqb, bool_decide_eq_false_2; [done|].
    intros Hin. pose proof (hits_bounds 0 h ds) as Hb. rewrite Forall_forall in Hb. apply Hb in Hin. lia.
  - intros i d' Hi. unfold GetDoc in *. cbn [Documents]. apply lookup_app_Some in Hi as [Hi|[Hge Hi]].
    + rewrite lookup_insert_ne by (apply lookup_lt_Some in Hi; lia). by apply Hd.
    + apply list_lookup_singleton_Some in Hi as [Hz <-]. assert (i = length ds) as -> by lia.
      by rewrite lookup_insert_eq.
  - rewrite length_app. cbn [length]. f_equal. lia.
Qed.
End Postings.

(** C18. Search is exact up to hash collisions: after indexing any sequence of at
    most 2^32 documents, the query for a term returns, in the order they were
    added, the numbers of exactly the documents with a token of the same hash,
    and [LocalQuery] returns the metadata of exactly these. *)
Theorem query_exact (U : UnicodeTables) (L : LetterTables) (N : Normalizer) (ds : list source) (term : string) :
  Z.of_nat (length ds) <= 2 ^ 32 ->
  Query (indexed ds) term = hits 0 (HashTerm term) ds /\
  (forall id, id ∈ Query (indexed ds) term <->
    exists i d, id = 0 + Z.of_nat i /\ ds !! i = Some d /\ exists t, t ∈ Tokenize (s_content d) /\ HashTerm t = HashTerm term) /\
  (forall m, m ∈ LocalQuery (indexed ds) term <->
    exists i d, ds !! i = Some d /\ m = doc_meta (Z.of_nat i) d /\
      exists t, t ∈ Tokenize (s_content d) /\ HashTerm t = HashTerm term).
Proof.
  intros Hlen. destruct (indexed_spec ds Hlen) as (Ht & Hd & _).
  assert (Hq : Query (indexed ds) term = hits 0 (HashTerm term) ds) by apply Ht.
  split_and!; [done|intros id; rewrite Hq; apply hits_spec|].
  intros m. unfold LocalQuery. rewrite list_elem_of_omap. setoid_rewrite Hq. split.
  - intros (id & (i & d & -> & Hi & Hx)%hits_spec & Hm). rewrite Z.add_0_l, (Hd _ _ Hi) in Hm.
    injection Hm as <-. by exists i, d.
  - intros (i & d & Hi & -> & Hx). exists (Z.of_nat i). split; [|by apply Hd]. apply hits_spec. by exists i, d.
Qed.
Definition two_docs : list source := [
  {| s_path := "/tmp/doc1.txt"; s_content := "encryption and Privacy"; s_stat := None; s_now := 0 |};
  {| s_path := "/tmp/doc2.txt"; s_content := "tuning, privacy"; s_stat := None; s_now := 0 |};
  {| s_path := "/tmp/doc3.txt"; s_content := "tuning"; s_stat := None; s_now := 0 |}].
Lemma query_exact_witness :
  @Query ascii_tables (@indexed ascii_tables ascii_letters (fun s => s) two_docs) " PRIVACY" = [0; 1].
Proof.
  refine (eq_trans (proj1 (query_exact ascii_tables ascii_letters (fun s => s) two_docs " PRIVACY" _)) _);
    by vm_compute.
Defined.

(** [IndexDirectory] adds the selected files and counts them. *)
Lemma IndexDirectory_selected (U : UnicodeTables) (L : LetterTables) (N : Normalizer) (walk : list walked) :
  let ds := map w_doc (List.filter selected walk) in
  IndexDirectory NewInvertedIndex walk = (indexed ds, length ds).
Proof.
  unfold IndexDirectory. induction walk as [|w walk IH] using rev_ind; [done|].
  rewrite foldl_app, List.filter_app, map_app. cbn [foldl]. rewrite IH. unfold visit. cbn [List.filter].
  destruct (selected w); cbn [map fst snd]; rewrite ?app_nil_r; [|done].
  unfold indexed. rewrite foldl_app, length_app. cbn [foldl length]. f_equal. lia.
Qed.

(** ** Filters on shared metadata *)

Lemma Unix_mono (a b : Time) : a <= b -> Unix a <= Unix b.
Proof. intros H. unfold Unix. pose proof (Z.div_le_mono a b 1000000000 ltac:(lia) H). lia. Qed.
(** A time on a second boundary. *)
Definition whole (t : Time) : Prop := t mod 1000000000 = 0.
Lemma Unix_whole (a b : Time) : whole a -> whole b -> Unix a < Unix b <-> a < b.
Proof.
  unfold whole, Unix. intros Ha Hb. pose proof (Z.div_mod a 1000000000 ltac:(lia)).
  pose proof (Z.div_mod b 1000000000 ltac:(lia)). lia.
Qed.

Section FilterFacts.
Context `{U : UnicodeTables} `{D : FoldTables}.

Lemma after_unix (b t : Time) : t <> 0 -> after_ok b t = true ->
  negb (negb (IsZero b) && (Unix t <? Unix b)) = true.
Proof.
  unfold after_ok, IsZero. intros Ht. rewrite (proj2 (Z.eqb_neq t 0) Ht). destruct (b =? 0); [done|]. cbn.
  rewrite !negb_true_iff, !Z.ltb_ge. apply Unix_mono.
Qed.
Lemma before_unix (b t : Time) : t <> 0 -> before_ok b t = true ->
  negb (negb (IsZero b) && (Unix b <? Unix t)) = true.
Proof.
  unfold before_ok, IsZero. intros Ht. rewrite (proj2 (Z.eqb_neq t 0) Ht). destruct (b =? 0); [done|]. cbn.
  rewrite !negb_true_iff, !Z.ltb_ge. apply Unix_mono.
Qed.
Lemma unix_after (b t : Time) : whole b -> whole t -> negb (negb (IsZero b) && (Unix t <? Unix b)) = true ->
  after_ok b t = true.
Proof.
  unfold after_ok. intros Hb Ht. destruct (IsZero b), (IsZero t); try done. cbn.
  rewrite !negb_true_iff, !Z.ltb_ge. pose proof (Unix_whole t b Ht Hb). lia.
Qed.
Lemma unix_before (b t : Time) : whole b -> whole t -> negb (negb (IsZero b) && (Unix b <? Unix t)) = true ->
  before_ok b t = true.
Proof.
  unfold before_ok. intros Hb Ht. destruct (IsZero b), (IsZero t); try done. cbn.
  rewrite !negb_true_iff, !Z.ltb_ge. pose proof (Unix_whole b t Hb Ht). lia.
Qed.
End FilterFacts.

(** A peer that filters on the shared metadata never drops a document its owner
    would keep, as long as the times are known; and it keeps no other one, up
    to the tags, which are not shared, and to fractions of a second. *)
Theorem replica_filter (U : UnicodeTables) (D : FoldTables) (f : MetadataFilter) (doc : DocMeta) :
  CreatedAt doc <> 0 -> ModifiedAt doc <> 0 ->
  (Matches (Some f) doc = true -> MatchesReplicaInfo (Some f) (DocMetaToReplicaInfo doc) = true) /\
  (Forall whole [CreatedAfter f; CreatedBefore f; ModifiedAfter f; ModifiedBefore f; CreatedAt doc; ModifiedAt doc] ->
   Matches (Some f) doc = MatchesReplicaInfo (Some f) (DocMetaToReplicaInfo doc) && tags_ok f (Tags doc)).
Proof.
  intros Hc Hm. cbn [Matches MatchesReplicaInfo DocMetaToReplicaInfo R_FileType R_Size R_CreatedAt R_ModifiedAt].
  assert (Hmono : Matches (Some f) doc = true -> MatchesReplicaInfo (Some f) (DocMetaToReplicaInfo doc) = true).
  { cbn. rewrite !andb_true_iff. intuition; by first [apply after_unix|apply before_unix]. }
  split; [exact Hmono|]. intros Hw. apply eq_true_iff_eq. split.
  - intros H. apply andb_true_iff. split; [by apply Hmono|]. by apply andb_true_iff in H as [_ H].
  - rewrite !Forall_cons in Hw. rewrite !andb_true_iff. intuition; by first [apply unix_after|apply unix_before].
Qed.
Definition old_doc : DocMeta := {|
  ID := 0; Path := "/a.txt"; Title := "a.txt"; Size := 10; IndexedAt := 5000000000; FileType := "text";
  MimeType := "text/plain"; CreatedAt := 1000000000; ModifiedAt := 2000000000; Tags := []; WordCount := 2 |}.
Definition text_after (t : Time) : MetadataFilter := {|
  FileTypes := ["TEXT"]; MinSize := 0; MaxSize := 0; CreatedAfter := t; CreatedBefore := 0; ModifiedAfter := 0;
  ModifiedBefore := 0; F_Tags := [] |}.
Lemma replica_filter_witness :
  @MatchesReplicaInfo ascii_tables ascii_folding (Some (text_after 1000000000)) (DocMetaToReplicaInfo old_doc) = true.
Proof.
  refine (proj1 (replica_filter ascii_tables ascii_folding (text_after 1000000000) old_doc _ _) _); by vm_compute.
Defined.

(** A document of unknown creation time passes its owner's filter and not the peer's. *)
Example replica_filter_unknown_time :
  let doc := {| ID := 0; Path := "/a.txt"; Title := "a.txt"; Size := 0; IndexedAt := 0; FileType := "text";
    MimeType := "text/plain"; CreatedAt := 0; ModifiedAt := 0; Tags := []; WordCount := 2 |} in
  @Matches ascii_tables ascii_folding (Some (text_after 1000000000)) doc = true /\
  @MatchesReplicaInfo ascii_tables ascii_folding (Some (text_after 1000000000)) (DocMetaToReplicaInfo doc) = false.
Proof. by vm_compute. Qed.
