(* ===== verification/EncryptedIndex.v ===== *)
(** * Encrypted search: [index/encrypted.go], [index/query.go] and package [fhe]

    The homomorphic library is an interface: its operations, and as laws what
    its documentation promises of a fresh ciphertext and of the difference of
    two.  The code between (paging, padding, slot counts, offsets) is here. *)

From S2P Require Import Prelude GoStrings StringFacts Sha256 Index.
Local Open Scope Z_scope.

(** ** The scheme *)

Class BGV := {
  params : Type; public_key : Type; secret_key : Type; plaintext : Type; ciphertext : Type;
  par_N : params -> nat;
  Encode : params -> list Z -> result plaintext;
  EncryptNew : params -> public_key -> plaintext -> result ciphertext;
  SubNew : params -> ciphertext -> ciphertext -> result ciphertext;
  DecryptNew : params -> secret_key -> ciphertext -> plaintext;
  Decode : params -> plaintext -> result (list Z);
  MarshalBinary : ciphertext -> result (list Z)
}.

Record KeySet `{B : BGV} := { Params : params; PublicKey : public_key; SecretKey : secret_key }.

(** [c] is a fresh encryption of the slots [v]. *)
Definition fresh `{B : BGV} (k : KeySet) (v : list Z) (c : ciphertext) : Prop :=
  length v = par_N (Params k) /\ Forall (fun x => 0 <= x < DefaultPlaintextModulus) v /\
  exists pt, Encode (Params k) v = Ok pt /\ EncryptNew (Params k) (PublicKey k) pt = Ok c.

(** What the library promises for a key pair: the difference of two fresh
    ciphertexts decrypts to the difference of their slots. *)
Class BGVLaws `{B : BGV} (k : KeySet) : Prop := {
  slots_pos : (0 < par_N (Params k))%nat;
  sub_fresh : forall x y a b c, fresh k x a -> fresh k y b -> SubNew (Params k) a b = Ok c ->
    Decode (Params k) (DecryptNew (Params k) (SecretKey k) c)
      = Ok (zip_with (fun u v => (u - v) mod DefaultPlaintextModulus) x y)
}.

(** ** Package [fhe] *)

Section Fhe.
Context `{B : BGV}.

Definition encrypt_slots (slots : list Z) (p : params) (pk : public_key) : result ciphertext :=
  pt ← Encode p slots; EncryptNew p pk pt.
Definition EncryptTermPage (hashes : list Z) (p : params) (pk : public_key) : result ciphertext :=
  let n := par_N p in encrypt_slots (take n hashes ++ replicate (n - length hashes) 0) p pk.
Definition EncryptSingleTerm (hash : Z) (p : params) (pk : public_key) : result ciphertext :=
  encrypt_slots (replicate (par_N p) hash) p pk.
Definition DecryptSlots (ct : ciphertext) (p : params) (sk : secret_key) : result (list Z) :=
  Decode p (DecryptNew p sk ct).
Definition EvaluateMatch (encQuery encTermPage : ciphertext) (p : params) : result ciphertext :=
  wrap "homomorphic subtraction" (SubNew p encQuery encTermPage).
Definition DecryptMatchVector (res : ciphertext) (p : params) (sk : secret_key) (activeSlots : nat) : result (list bool) :=
  slots ← DecryptSlots res p sk;
  Ok (map (Z.eqb 0) (take activeSlots slots) ++ replicate (activeSlots - length slots) false).
End Fhe.

(** ** The encrypted index *)

Record EncryptedPage `{B : BGV} := { Ciphertext : ciphertext; SlotCount : nat }.
Record EncryptedIndex `{B : BGV} := {
  E_Params : params; E_PublicKey : public_key; TermPages : list EncryptedPage; PageCount : nat;
  E_TermCount : nat; E_DocCount : nat; Checksum : list Z
}.

Section Encrypted.
Context `{B : BGV} `{U : UnicodeTables}.

(** The paging loop: the pages, and the bytes the checksum is taken of.  Every
    page takes at least one hash, so their number is enough fuel. *)
Fixpoint pages_loop (fuel : nat) (keys : KeySet) (hashes : list Z) : result (list EncryptedPage * list Z) :=
  match hashes, fuel with
  | [], _ | _, O => Ok ([], [])
  | _, S f =>
      let n := par_N (Params keys) in
      let page := take n hashes in
      ct ← EncryptTermPage page (Params keys) (PublicKey keys);
      bytes ← MarshalBinary ct;
      rest ← pages_loop f keys (drop n hashes);
      Ok ({| Ciphertext := ct; SlotCount := length page |} :: rest.1, bytes ++ rest.2)
  end.

(** [hashes]: the keys of the term map in the order the iteration gives. *)
Definition BuildEncryptedIndex (idx : InvertedIndex) (hashes : list Z) (keys : KeySet) : result EncryptedIndex :=
  pages ← pages_loop (length hashes) keys hashes;
  Ok {| E_Params := Params keys; E_PublicKey := PublicKey keys; TermPages := pages.1; PageCount := length pages.1;
        E_TermCount := TermCount idx; E_DocCount := DocCount idx; Checksum := sha256 pages.2 |}.

Definition EncryptedQuery (term : string) (encIdx : EncryptedIndex) : result ciphertext :=
  EncryptSingleTerm (HashTerm term) (E_Params encIdx) (E_PublicKey encIdx).

Fixpoint evaluate_loop (encQuery : ciphertext) (p : params) (pages : list EncryptedPage) : result (list ciphertext) :=
  match pages with
  | [] => Ok []
  | page :: rest =>
      r ← EvaluateMatch encQuery (Ciphertext page) p;
      rs ← evaluate_loop encQuery p rest;
      Ok (r :: rs)
  end.
Definition DelegatedEvaluate (encQuery : ciphertext) (encIdx : EncryptedIndex) : result (list ciphertext) :=
  evaluate_loop encQuery (E_Params encIdx) (TermPages encIdx).

(** The numbers of the matching slots of one page, from [offset]. *)
Fixpoint matched (offset : nat) (matches : list bool) : list nat :=
  match matches with
  | [] => []
  | m :: ms => if m then offset :: matched (S offset) ms else matched (S offset) ms
  end.
(** [None]: more results than pages, an index out of range. *)
Fixpoint decrypt_loop (offset : nat) (results : list ciphertext) (pages : list EncryptedPage) (keys : KeySet)
  : option (result (list nat)) :=
  match results with
  | [] => Some (Ok [])
  | r :: rs =>
      match pages with
      | [] => None
      | page :: ps =>
          match DecryptMatchVector r (Params keys) (SecretKey keys) (SlotCount page) with
          | Err e => Some (Err e)
          | Ok matches =>
              match decrypt_loop (offset + SlotCount page) rs ps keys with
              | Some (Ok rest) => Some (Ok (matched offset matches ++ rest))
              | o => o
              end
          end
      end
  end.
Definition DecryptResults (results : list ciphertext) (encIdx : EncryptedIndex) (keys : KeySet) : option (result (list nat)) :=
  decrypt_loop 0 results (TermPages encIdx) keys.
End Encrypted.

(** ** Homomorphic search is plaintext search *)

(** The positions of [h] in [hashes], from [n]. *)
Fixpoint positions (n : nat) (h : Z) (hashes : list Z) : list nat :=
  match hashes with
  | [] => []
  | x :: l => if x =? h then n :: positions (S n) h l else positions (S n) h l
  end.

Lemma positions_spec (n : nat) (h : Z) (l : list Z) (i : nat) :
  i ∈ positions n h l <-> exists j, i = (n + j)%nat /\ l !! j = Some h.
Proof.
  revert n. induction l as [|x l IH]; intros n; cbn [positions].
  { split; [by intros ?%not_elem_of_nil|]. by intros (j & _ & Hj). }
  assert (i ∈ (if x =? h then n :: positions (S n) h l else positions (S n) h l) <->
    (i = n /\ x = h) \/ i ∈ positions (S n) h l) as ->.
  { destruct (Z.eqb_spec x h); rewrite ?elem_of_cons; naive_solver. }
  rewrite IH. split.
  - intros [[-> ->]|(j & -> & Hj)]; [exists 0%nat|exists (S j)]; split; try done; lia.
  - intros ([|j] & -> & Hj); cbn in Hj.
    + injection Hj as ->. left. split; [lia|done].
    + right. exists j. split; [lia|done].
Qed.
Lemma positions_app (n : nat) (h : Z) (l l' : list Z) :
  positions n h (l ++ l') = positions n h l ++ positions (n + length l) h l'.
Proof.
  revert n. induction l as [|x l IH]; intros n; cbn [app positions length]; [by rewrite Nat.add_0_r|].
  rewrite IH, Nat.add_succ_r. by destruct (x =? h).
Qed.

Lemma matched_slots (n : nat) (h : Z) (l : list Z) :
  0 <= h < DefaultPlaintextModulus -> Forall (fun x => 0 <= x < DefaultPlaintextModulus) l ->
  matched n (map (Z.eqb 0) (zip_with (fun u v => (u - v) mod DefaultPlaintextModulus) (replicate (length l) h) l))
    = positions n h l.
Proof.
  intros Hh Hl. revert n. induction Hl as [|x l Hx _ IH]; intros n; [done|].
  cbn [length replicate zip_with map matched positions]. rewrite IH.
  assert ((0 =? (h - x) mod DefaultPlaintextModulus) = (x =? h)) as ->; [|done].
  apply eq_true_iff_eq. rewrite !Z.eqb_eq. split.
  - intros H0. symmetry in H0. apply Z.mod_divide in H0 as [q Hq]; [|done]. unfold DefaultPlaintextModulus in *. lia.
  - intros ->. by rewrite Z.sub_diag.
Qed.

Section EncryptedFacts.
Context `{B : BGV} `{U : UnicodeTables} (k : KeySet) `{HL : !BGVLaws k}.

Lemma encrypt_fresh (slots : list Z) (c : ciphertext) :
  length slots = par_N (Params k) -> Forall (fun x => 0 <= x < DefaultPlaintextModulus) slots ->
  encrypt_slots slots (Params k) (PublicKey k) = Ok c -> fresh k slots c.
Proof.
  unfold encrypt_slots. intros Hlen Hr. destruct (Encode _ _) as [pt|] eqn:He; [|done]. intros H. split_and!; [done|done|].
  by exists pt.
Qed.

Lemma HashTerm_range (term : string) : 0 <= HashTerm term < DefaultPlaintextModulus.
Proof. by apply Z.mod_pos_bound. Qed.

(** One page: the slots found are the positions of the hash in the page. *)
Lemma page_match (term : string) (page : list Z) (q ct r : ciphertext) (ms : list bool) (off : nat) :
  (length page <= par_N (Params k))%nat -> Forall (fun x => 0 <= x < DefaultPlaintextModulus) page ->
  EncryptSingleTerm (HashTerm term) (Params k) (PublicKey k) = Ok q ->
  EncryptTermPage page (Params k) (PublicKey k) = Ok ct ->
  EvaluateMatch q ct (Params k) = Ok r ->
  DecryptMatchVector r (Params k) (SecretKey k) (length page) = Ok ms ->
  matched off ms = positions off (HashTerm term) page.
Proof.
  intros Hlen Hr Hq Hct Hev Hd. unfold EvaluateMatch in Hev. apply wrap_ok in Hev.
  assert (Hfq : fresh k (replicate (par_N (Params k)) (HashTerm term)) q).
  { apply encrypt_fresh; [by rewrite length_replicate|apply Forall_replicate, HashTerm_range|done]. }
  unfold EncryptTermPage in Hct. rewrite take_ge in Hct by done.
  set (pad := replicate (par_N (Params k) - length page) 0) in *.
  assert (Hfp : fresh k (page ++ pad) ct).
  { apply encrypt_fresh; [rewrite length_app; subst pad; rewrite length_replicate; lia| |done].
    apply Forall_app. split; [done|]. by apply Forall_replicate. }
  pose proof (sub_fresh _ _ _ _ _ Hfq Hfp Hev) as Hdec. unfold DecryptMatchVector, DecryptSlots in Hd.
  rewrite Hdec in Hd. injection Hd as <-.
  replace (par_N (Params k)) with (length page + (par_N (Params k) - length page))%nat at 1 2 by lia.
  rewrite replicate_add, zip_with_app by by rewrite length_replicate.
  rewrite take_app_length' by (rewrite length_zip_with, length_replicate; lia).
  rewrite length_app, length_zip_with, length_replicate.
  replace (length page - _)%nat with 0%nat by lia. rewrite app_nil_r. apply matched_slots; [apply HashTerm_range|done].
Qed.

Lemma search_pages (term : string) (fuel : nat) (hashes bytes : list Z) (pages : list EncryptedPage)
    (q : ciphertext) (rs : list ciphertext) (off : nat) (o : list nat) :
  (length hashes <= fuel)%nat -> Forall (fun x => 0 <= x < DefaultPlaintextModulus) hashes ->
  pages_loop fuel k hashes = Ok (pages, bytes) ->
  EncryptSingleTerm (HashTerm term) (Params k) (PublicKey k) = Ok q ->
  evaluate_loop q (Params k) pages = Ok rs ->
  decrypt_loop off rs pages k = Some (Ok o) -> o = positions off (HashTerm term) hashes.
Proof.
  intros Hfuel Hr Hp Hq. revert hashes bytes pages rs off o Hfuel Hr Hp.
  induction fuel as [|f IH]; intros hashes bytes pages rs off o Hfuel Hr Hp Hev Hd.
  { destruct hashes; [|simpl in Hfuel; lia]. injection Hp as <- <-. injection Hev as <-. by injection Hd as <-. }
  destruct hashes as [|h0 hs]; [injection Hp as <- <-; injection Hev as <-; by injection Hd as <-|].
  pose proof slots_pos as Hpos. set (hashes := h0 :: hs) in *. cbn [pages_loop] in Hp. fold hashes in Hp.
  change (match hashes with [] => _ | _ => ?x end) with x in Hp.
  destruct (EncryptTermPage _ _ _) as [ct|] eqn:Hct; [|done]. cbn in Hp.
  destruct (MarshalBinary ct) as [bs|]; [|done]. cbn in Hp.
  destruct (pages_loop f k (drop _ hashes)) as [[ps bs']|] eqn:Hrest; [|done]. injection Hp as <- <-.
  cbn [evaluate_loop Ciphertext] in Hev. destruct (EvaluateMatch q ct (Params k)) as [r|] eqn:Hm; [|done]. cbn in Hev.
  destruct (evaluate_loop q (Params k) ps) as [rs'|] eqn:Hevr; [|done]. injection Hev as <-.
  cbn [decrypt_loop SlotCount] in Hd. destruct (DecryptMatchVector _ _ _ _) as [ms|] eqn:Hdm; [|done].
  destruct (decrypt_loop _ rs' ps k) as [[rest|]|] eqn:Hdr; try done. injection Hd as <-.
  apply IH with (hashes := drop (par_N (Params k)) hashes) (bytes := bs') in Hdr; try done.
  - rewrite <- (list.take_drop (par_N (Params k)) hashes). rewrite positions_app. f_equal; [|exact Hdr].
    eapply page_match; eauto; [rewrite length_take; lia|by apply Forall_take].
  - rewrite length_drop. subst hashes. cbn [length] in *. lia.
  - by apply Forall_drop.
Qed.
End EncryptedFacts.

(** Every key of the term map is a hash. *)
Lemma indexed_hashes (U : UnicodeTables) (L : LetterTables) (N : Normalizer) (ds : list source) (h : Z) :
  is_Some (Terms (indexed ds) !! h) -> 0 <= h < DefaultPlaintextModulus.
Proof.
  induction ds as [|d ds IH] using rev_ind; [by intros [? ?]|].
  assert (indexed (ds ++ [d]) = (AddDocument d (indexed ds)).2) as -> by (unfold indexed; by rewrite foldl_app).
  unfold AddDocument. cbn [snd Terms]. generalize dependent (Terms (indexed ds)). generalize (nextDocID (indexed ds)).
  intros id m. revert m. induction (Tokenize (s_content d)) as [|t ts IHt]; intros m Hm; [done|]. cbn [foldl].
  apply IHt. intros [l Hl]. unfold post in Hl. destruct (decide (HashTerm t = h)) as [<-|Hne]; [by apply Z.mod_pos_bound|].
  rewrite lookup_insert_ne in Hl by done. apply Hm. by exists l.
Qed.

(** C17. Delegated search finds what plaintext search finds: for every enumeration
    [hashes] of the index's term hashes, when no step reports an error, the
    decrypted slots are exactly the positions of the query's hash, whatever the
    page size, with no match in the padding; so some slot matches exactly when
    the plaintext query has a posting list. *)
Theorem encrypted_search (B : BGV) (U : UnicodeTables) (L : LetterTables) (N : Normalizer) (k : KeySet)
    (HL : BGVLaws k) (ds : list source) (hashes : list Z) (enc : EncryptedIndex) (term : string)
    (q : ciphertext) (rs : list ciphertext) (slots : list nat) :
  let idx := indexed ds in
  Permutation hashes (map fst (map_to_list (Terms idx))) ->
  BuildEncryptedIndex idx hashes k = Ok enc -> EncryptedQuery term enc = Ok q ->
  DelegatedEvaluate q enc = Ok rs -> DecryptResults rs enc k = Some (Ok slots) ->
  slots = positions 0 (HashTerm term) hashes /\ (slots <> [] <-> is_Some (Terms idx !! HashTerm term)).
Proof.
  intros idx Hperm Hb Hq He Hd. unfold BuildEncryptedIndex in Hb.
  destruct (pages_loop _ k hashes) as [[pages bytes]|] eqn:Hp; [|done]. injection Hb as <-.
  assert (Hdom : forall h, h ∈ hashes <-> is_Some (Terms idx !! h)).
  { intros h. rewrite Hperm, list_elem_of_fmap. split.
    - intros ([h' l] & -> & Hin). apply elem_of_map_to_list in Hin. by exists l.
    - intros [l Hl]. exists (h, l). split; [done|]. by apply elem_of_map_to_list. }
  assert (Hs : slots = positions 0 (HashTerm term) hashes).
  { eapply (search_pages k term (length hashes)); try done. apply Forall_forall. intros h Hh.
    apply Hdom in Hh. by eapply indexed_hashes. }
  split; [done|]. rewrite <- Hdom, Hs. split.
  - intros Hne. destruct (positions _ _ _) as [|i l] eqn:Hpos; [done|].
    assert (i ∈ positions 0 (HashTerm term) hashes) as (j & _ & Hj)%positions_spec by (rewrite Hpos; by left).
    by eapply list_elem_of_lookup_2.
  - intros (j & Hj)%list_elem_of_lookup_1 Hnil.
    assert (j ∈ positions 0 (HashTerm term) hashes) as Hin by (apply positions_spec; by exists j).
    rewrite Hnil in Hin. by apply not_elem_of_nil in Hin.
Qed.

(** A scheme without secrecy: ciphertexts are their slots, four to a page. *)
Definition plain_scheme : BGV := {|
  params := unit; public_key := unit; secret_key := unit; plaintext := list Z; ciphertext := list Z;
  par_N := fun _ => 4%nat; Encode := fun _ v => Ok v; EncryptNew := fun _ _ v => Ok v;
  SubNew := fun _ x y => Ok (zip_with (fun u v => (u - v) mod DefaultPlaintextModulus) x y);
  DecryptNew := fun _ _ c => c; Decode := fun _ v => Ok v; MarshalBinary := fun c => Ok (map (fun x => x mod 256) c) |}.
Definition plain_keys : @KeySet plain_scheme := @Build_KeySet plain_scheme tt tt tt.
#[export] Instance plain_laws : @BGVLaws plain_scheme plain_keys.
Proof.
  split; [cbn; lia|]. intros x y a b c (_ & _ & p1 & [= ->] & [= ->]) (_ & _ & p2 & [= ->] & [= ->]) [= <-]. done.
Qed.
Definition five_terms : list source :=
  [{| s_path := "/tmp/a.txt"; s_content := "alpha beta gamma delta epsilon"; s_stat := None; s_now := 0 |}].
Definition five_index : InvertedIndex := @indexed ascii_tables ascii_letters (fun s => s) five_terms.
(** The hashes of alpha, delta, epsilon, beta and gamma. *)
Definition five_hashes : list Z := [57964; 29122; 41; 47017; 357].
Lemma five_permutation : Permutation five_hashes (map fst (map_to_list (Terms five_index))).
Proof.
  assert (map fst (map_to_list (Terms five_index)) = rev five_hashes) as -> by (vm_compute; reflexivity).
  apply Permutation_rev.
Qed.
Definition five_enc : result (@EncryptedIndex plain_scheme) := BuildEncryptedIndex five_index five_hashes plain_keys.
(** The whole search: the number of pages and the slots found. *)
Definition five_search (term : string) : option (nat * list nat) :=
  match five_enc with
  | Err _ => None
  | Ok enc =>
      match @EncryptedQuery plain_scheme ascii_tables term enc with
      | Err _ => None
      | Ok q =>
          match DelegatedEvaluate q enc with
          | Err _ => None
          | Ok rs => match DecryptResults rs enc plain_keys with Some (Ok slots) => Some (length rs, slots) | _ => None end
          end
      end
  end.
Lemma encrypted_search_witness : exists pages, five_search "Gamma " = Some (pages, [4%nat]).
Proof.
  assert (Hs : bool_decide (five_search "Gamma " = None) = false) by (vm_compute; reflexivity).
  apply bool_decide_eq_false in Hs. unfold five_search in *.
  destruct five_enc as [enc|] eqn:He; [|destruct (Hs eq_refl)].
  destruct (@EncryptedQuery plain_scheme ascii_tables "Gamma " enc) as [q|] eqn:Hq; [|destruct (Hs eq_refl)].
  destruct (DelegatedEvaluate q enc) as [rs|] eqn:Hr; [|destruct (Hs eq_refl)].
  destruct (DecryptResults rs enc plain_keys) as [[slots|]|] eqn:Hd; [|destruct (Hs eq_refl)..].
  exists (length rs). do 2 f_equal.
  refine (eq_trans (proj1 (encrypted_search plain_scheme ascii_tables ascii_letters (fun s => s) plain_keys
    plain_laws five_terms five_hashes enc "Gamma " q rs slots five_permutation He Hq Hr Hd)) _).
  vm_compute. reflexivity.
Defined.
