(* ===== verification/Keys.v ===== *)
(** * Package [fhe], [params.go] and [keys.go]: homomorphic keys

    The homomorphic library and the cipher are interfaces, with the round
    trips their documentation promises as laws.  The disk is a map from paths
    to contents; an operation on it may fail, and a failed write may leave
    anything behind. *)

From S2P Require Import Prelude GoStrings StringFacts Sha256 Index EncryptedIndex.
Local Open Scope Z_scope.

Definition DefaultLogN : Z := 12.
Definition SlotsPerCiphertext (logN : Z) : Z := 2 ^ logN.

Record ParametersLiteral := { LogN : Z; LogQ : list Z; LogP : list Z; PlaintextModulus : Z }.

(** What [keys.go] uses of the homomorphic library. *)
Class KeyLib `{B : BGV} := {
  eval_key : Type;
  NewParametersFromLiteral : ParametersLiteral -> result params;
  GenKeyPairNew : params -> list Z -> secret_key * public_key;
  GenEvaluationKey : params -> secret_key -> eval_key;
  marshal_pk : public_key -> result (list Z);
  marshal_sk : secret_key -> result (list Z);
  marshal_params : params -> result (list Z);
  unmarshal_pk : params -> list Z -> result public_key;
  unmarshal_sk : params -> list Z -> result secret_key;
  unmarshal_params : list Z -> result params
}.
Class KeyLibLaws `{B : BGV} (K : KeyLib) : Prop := {
  pk_roundtrip : forall p pk b, marshal_pk pk = Ok b -> unmarshal_pk p b = Ok pk;
  sk_roundtrip : forall p sk b, marshal_sk sk = Ok b -> unmarshal_sk p b = Ok sk;
  params_roundtrip : forall p b, marshal_params p = Ok b -> unmarshal_params b = Ok p
}.

(** Argon2id and AES-256-GCM. *)
Class Cipher := {
  (** Password, salt, time, memory in KiB, threads, key length. *)
  IDKey : list Z -> list Z -> Z -> Z -> Z -> Z -> list Z;
  aes_gcm_error : list Z -> option error;
  Seal : list Z -> list Z -> list Z -> list Z;
  Open : list Z -> list Z -> list Z -> result (list Z)
}.
Definition NonceSize : nat := 12.
Class CipherLaws (C : Cipher) : Prop := {
  open_seal : forall key nonce data, length nonce = NonceSize -> Open key nonce (Seal key nonce data) = Ok data
}.

(** ** Parameters *)

Section Params.
Context `{B : BGV} `{K : !KeyLib}.

Definition NewParams (logN : Z) : result params :=
  if (logN <? 10) || (15 <? logN) then Err (Errorf ("logN must be 10-15, got " +:+ itoa logN))
  else
    let '(logQ, logP) :=
      if 14 <=? logN then ([56; 55; 55; 54; 54], [55; 55])
      else if 12 <=? logN then ([40; 40; 40], [40])
      else ([30; 30], [30]) in
    wrap "create BFV params" (NewParametersFromLiteral
      {| LogN := logN; LogQ := logQ; LogP := logP; PlaintextModulus := DefaultPlaintextModulus |}).

(** The keys, with the evaluation key that [EncryptedIndex.KeySet] has no use for. *)
Record VectorKeys := { base : KeySet; EvaluationKey : option eval_key }.
Definition GenerateKeys (p : params) (draw : list Z) : VectorKeys :=
  let '(sk, pk) := GenKeyPairNew p draw in
  {| base := {| Params := p; PublicKey := pk; SecretKey := sk |}; EvaluationKey := Some (GenEvaluationKey p sk) |}.
End Params.

(** ** Passphrases *)

Section Passphrase.
Context `{C : Cipher}.

Definition bytes_of (s : string) : list Z := map byte (String.list_ascii_of_string s).
Definition HashPassphrase (passphrase : string) : string := hex_encode (sha256 (bytes_of passphrase)).

(** The two draws of [rand.Reader] are arguments. *)
Definition encryptWithPassphrase (data : list Z) (passphrase : string) (draw_salt draw_nonce : result (list Z)) : result (list Z) :=
  salt ← draw_salt;
  let key := IDKey (bytes_of passphrase) salt 3 (64 * 1024) 4 32 in
  match aes_gcm_error key with
  | Some e => Err e
  | None => nonce ← draw_nonce; Ok (salt ++ nonce ++ Seal key nonce data)
  end.
Definition decryptWithPassphrase (data : list Z) (passphrase : string) : result (list Z) :=
  if (length data <? 28)%nat then Err (Errorf "encrypted data too short")
  else
    let salt := take 16 data in
    let key := IDKey (bytes_of passphrase) salt 3 (64 * 1024) 4 32 in
    match aes_gcm_error key with
    | Some e => Err e
    | None =>
        if (length data <? 16 + NonceSize)%nat then Err (Errorf "encrypted data too short for nonce")
        else Open key (take NonceSize (drop 16 data)) (drop (16 + NonceSize) data)
    end.
End Passphrase.

(** ** The disk *)

(** Which operations fail, and what a failed write leaves. *)
Class Faults := {
  mkdir_error : string -> option error;
  write_error : string -> option (error * option (list Z));
  read_error : string -> option error
}.
Section Disk.
Context `{F : Faults}.

Definition write_file (path : string) (data : list Z) (d : gmap string (list Z)) : result unit * gmap string (list Z) :=
  match write_error path with
  | None => (Ok tt, <[path := data]> d)
  | Some (e, Some left_behind) => (Err e, <[path := left_behind]> d)
  | Some (e, None) => (Err e, d)
  end.
Definition read_file (path : string) (d : gmap string (list Z)) : result (list Z) :=
  match read_error path with
  | Some e => Err e
  | None => match d !! path with Some data => Ok data | None => Err (Errorf ("open " +:+ path +:+ ": no such file or directory")) end
  end.
End Disk.

Section Store.
Context `{B : BGV} `{K : !KeyLib} `{C : Cipher} `{F : Faults}.

(** [bytes, err := m; if err != nil ...; if err := os.WriteFile(path, bytes, ..) ...], then the rest. *)
Definition save_part (marshal_msg write_msg path : string) (m : result (list Z)) (rest : gmap string (list Z) -> result unit * gmap string (list Z)) (d : gmap string (list Z))
  : result unit * gmap string (list Z) :=
  match wrap marshal_msg m with
  | Err e => (Err e, d)
  | Ok bytes =>
      match write_file path bytes d with
      | (Err e, d') => (wrap write_msg (Err e), d')
      | (Ok _, d') => rest d'
      end
  end.
Definition encrypted_sk (ks : VectorKeys) (passphrase : string) (salt nonce : result (list Z)) : result (list Z) :=
  skBytes ← wrap "marshal secret key" (marshal_sk (SecretKey (base ks)));
  wrap "encrypt secret key" (encryptWithPassphrase skBytes passphrase salt nonce).
Definition SaveKeys (ks : VectorKeys) (dir passphrase : string) (salt nonce : result (list Z)) (d : gmap string (list Z)) : result unit * gmap string (list Z) :=
  match mkdir_error dir with
  | Some e => (wrap "create key dir" (Err e), d)
  | None =>
      save_part "marshal public key" "write public key" (dir +:+ "/pubkey.bin") (marshal_pk (PublicKey (base ks)))
        (fun d =>
           match encrypted_sk ks passphrase salt nonce with
           | Err e => (Err e, d)
           | Ok encrypted =>
               match write_file (dir +:+ "/seckey.enc") encrypted d with
               | (Err e, d') => (wrap "write secret key" (Err e), d')
               | (Ok _, d') =>
                   save_part "marshal params" "write params" (dir +:+ "/params.bin") (marshal_params (Params (base ks)))
                     (fun d => (Ok tt, d)) d'
               end
           end) d
  end.
Definition LoadKeys (dir passphrase : string) (d : gmap string (list Z)) : result VectorKeys :=
  paramsBytes ← wrap "read params" (read_file (dir +:+ "/params.bin") d);
  p ← wrap "unmarshal params" (unmarshal_params paramsBytes);
  pkBytes ← wrap "read public key" (read_file (dir +:+ "/pubkey.bin") d);
  pk ← wrap "unmarshal public key" (unmarshal_pk p pkBytes);
  encBytes ← wrap "read secret key" (read_file (dir +:+ "/seckey.enc") d);
  skBytes ← wrap "decrypt secret key" (decryptWithPassphrase encBytes passphrase);
  sk ← wrap "unmarshal secret key" (unmarshal_sk p skBytes);
  Ok {| base := {| Params := p; PublicKey := pk; SecretKey := sk |}; EvaluationKey := None |}.
End Store.

Lemma LoadKeys_evaluation `{B : BGV} `{K : !KeyLib} `{C : Cipher} `{F : Faults} (dir passphrase : string)
    (d : gmap string (list Z)) (ks : VectorKeys) : LoadKeys dir passphrase d = Ok ks -> EvaluationKey ks = None.
Proof.
  unfold LoadKeys. intros H.
  repeat match type of H with (wrap ?m ?x ≫= _) = _ => destruct (wrap m x); [cbn [mbind result_bind] in H|done] end.
  by injection H as <-.
Qed.

(** ** Theorems *)

Section Facts.
Context `{B : BGV} `{K : !KeyLib} `{KL : !KeyLibLaws K} `{C : Cipher} `{CL : !CipherLaws C}.

Lemma passphrase_roundtrip (data salt nonce enc : list Z) (passphrase : string) :
  length salt = 16%nat -> length nonce = NonceSize ->
  encryptWithPassphrase data passphrase (Ok salt) (Ok nonce) = Ok enc -> decryptWithPassphrase enc passphrase = Ok data.
Proof.
  intros Hs Hn. unfold encryptWithPassphrase. cbn [mbind result_bind].
  destruct (aes_gcm_error _) as [e|] eqn:He; [done|]. intros [= <-]. unfold decryptWithPassphrase.
  rewrite !length_app, Hs, Hn. change (16 + (NonceSize + ?n) <? 28)%nat with false. change (16 + NonceSize)%nat with 28%nat.
  rewrite take_app_length' by done. rewrite He.
  destruct (Nat.ltb_spec (16 + (NonceSize + length (Seal (IDKey (bytes_of passphrase) salt 3 (64 * 1024) 4 32) nonce data))) 28) as [Hlt|_];
    [unfold NonceSize in Hlt; lia|].
  rewrite drop_app_length', take_app_length' by done.
  replace (drop 28 (salt ++ nonce ++ _)) with (Seal (IDKey (bytes_of passphrase) salt 3 (64 * 1024) 4 32) nonce data).
  - by apply open_seal.
  - rewrite app_assoc, drop_app_length'; [done|]. by rewrite length_app, Hs, Hn.
Qed.
End Facts.

(** C32. Saved keys can be loaded again: when [SaveKeys] succeeds, [LoadKeys] with
    the same passphrase gives back the parameters and both keys.  The
    evaluation key is not among what is saved: it comes back absent. *)
Theorem keys_roundtrip (B : BGV) (K : KeyLib) (KL : KeyLibLaws K) (C : Cipher) (CL : CipherLaws C) (F : Faults)
    (ks : VectorKeys) (dir passphrase : string) (salt nonce : list Z) (d d' : gmap string (list Z)) :
  length salt = 16%nat -> length nonce = NonceSize -> (forall path, read_error path = None) ->
  SaveKeys ks dir passphrase (Ok salt) (Ok nonce) d = (Ok tt, d') ->
  LoadKeys dir passphrase d' = Ok {| base := base ks; EvaluationKey := None |}.
Proof.
  intros Hs Hn Hr. unfold SaveKeys, save_part, write_file, LoadKeys, read_file.
  destruct (mkdir_error dir); [done|]. destruct (marshal_pk _) as [pkb|] eqn:Hpk; [|done]. cbn [wrap].
  destruct (write_error (dir +:+ "/pubkey.bin")) as [[e [l|]]|]; [done|done|].
  unfold encrypted_sk. destruct (marshal_sk _) as [skb|] eqn:Hsk; [|done]. cbn [wrap mbind result_bind].
  destruct (encryptWithPassphrase skb _ _ _) as [enc|] eqn:He; [|done]. cbn [wrap].
  destruct (write_error (dir +:+ "/seckey.enc")) as [[e [l|]]|]; [done|done|].
  destruct (marshal_params _) as [pb|] eqn:Hp; [|done]. cbn [wrap].
  destruct (write_error (dir +:+ "/params.bin")) as [[e [l|]]|]; [done|done|].
  intros [= <-]. rewrite !Hr, lookup_insert_eq. cbn [wrap mbind result_bind].
  rewrite (params_roundtrip _ _ Hp). cbn [wrap mbind result_bind].
  rewrite (lookup_insert_ne _ (dir +:+ "/params.bin") (dir +:+ "/pubkey.bin")) by by intros ?%(inj (String.app dir)).
  rewrite (lookup_insert_ne _ (dir +:+ "/seckey.enc") (dir +:+ "/pubkey.bin")), lookup_insert_eq by by intros ?%(inj (String.app dir)).
  cbn [wrap mbind result_bind]. rewrite (pk_roundtrip _ _ _ Hpk). cbn [wrap mbind result_bind].
  rewrite (lookup_insert_ne _ (dir +:+ "/params.bin") (dir +:+ "/seckey.enc")), lookup_insert_eq by by intros ?%(inj (String.app dir)).
  cbn [wrap mbind result_bind]. rewrite (passphrase_roundtrip _ _ _ _ _ Hs Hn He). cbn [wrap mbind result_bind].
  rewrite (sk_roundtrip _ _ _ Hsk). cbn. by destruct ks as [[] ?].
Qed.

(** A library and a cipher without secrecy, and a disk without faults. *)
Definition plain_keylib : @KeyLib plain_scheme := @Build_KeyLib plain_scheme unit
  (fun _ => Ok tt) (fun _ _ => (tt, tt)) (fun _ _ => tt)
  (fun _ => Ok [1]) (fun _ => Ok [2]) (fun _ => Ok [3]) (fun _ _ => Ok tt) (fun _ _ => Ok tt) (fun _ => Ok tt).
Lemma plain_keylib_laws : @KeyLibLaws plain_scheme plain_keylib.
Proof. split; [intros p [] b _|intros p [] b _|intros [] b _]; reflexivity. Qed.
Definition plain_cipher : Cipher := {|
  IDKey := fun pw salt _ _ _ _ => pw ++ salt; aes_gcm_error := fun _ => None;
  Seal := fun key nonce data => key ++ data;
  Open := fun key nonce ct => if decide (take (length key) ct = key) then Ok (drop (length key) ct) else Err (Errorf "cipher: message authentication failed") |}.
Lemma plain_cipher_laws : CipherLaws plain_cipher.
Proof. split. intros key nonce data _. cbn. rewrite take_app_length, drop_app_length. by rewrite decide_True. Qed.
Definition no_faults : Faults := {| mkdir_error := fun _ => None; write_error := fun _ => None; read_error := fun _ => None |}.
Definition plain_vector_keys : @VectorKeys plain_scheme plain_keylib :=
  @GenerateKeys plain_scheme plain_keylib tt [].
Definition saved : result unit * gmap string (list Z) :=
  @SaveKeys plain_scheme plain_keylib plain_cipher no_faults plain_vector_keys "/k" "secret"
    (Ok (replicate 16 7)) (Ok (replicate 12 9)) ∅.
Lemma saved_loads : @LoadKeys plain_scheme plain_keylib plain_cipher no_faults "/k" "secret" saved.2 =
  Ok {| base := base plain_vector_keys; EvaluationKey := None |}.
Proof.
  assert (Ho : is_ok (@LoadKeys plain_scheme plain_keylib plain_cipher no_faults "/k" "secret" saved.2) = true) by (vm_compute; reflexivity).
  destruct (@LoadKeys plain_scheme plain_keylib plain_cipher no_faults "/k" "secret" saved.2) as [[[[] [] []] evk]|] eqn:Hl; [|discriminate].
  apply (@LoadKeys_evaluation plain_scheme plain_keylib plain_cipher no_faults) in Hl. cbn in Hl. by subst evk.
Qed.
Lemma keys_roundtrip_witness : saved.1 = Ok tt /\
  @LoadKeys plain_scheme plain_keylib plain_cipher no_faults "/k" "secret" saved.2 =
    Ok {| base := base plain_vector_keys; EvaluationKey := None |}.
Proof.
  assert (H : saved = (Ok tt, saved.2)) by (vm_compute; reflexivity). split; [by rewrite H|].
  apply (keys_roundtrip plain_scheme plain_keylib plain_keylib_laws plain_cipher plain_cipher_laws no_faults
    plain_vector_keys "/k" "secret" (replicate 16 7) (replicate 12 9) ∅ saved.2); [reflexivity|reflexivity|reflexivity|exact H].
Defined.
Example wrong_passphrase :
  match @LoadKeys plain_scheme plain_keylib plain_cipher no_faults "/k" "guess" saved.2 with
  | Err (Errorf m) => m | _ => EmptyString end = "decrypt secret key: cipher: message authentication failed".
Proof. vm_compute. reflexivity. Qed.
