(* ===== verification/Stopping.v ===== *)
(** * Goroutines that are stopped through a channel

    [secwatch/monitor.go] and [update/checker.go] end their goroutines the same
    way: [Stop] looks whether [done] is closed and closes it if not, without a
    lock.  Here are the interleavings of moves ([run]), the calls of [Stop] up
    to the close ([signal], [stop_move]), and what holds of any machine that
    embeds them.  Client files: [MonitorRun], [CheckerRun]. *)

From S2P Require Import Prelude.

(** ** Interleavings *)

(** A move is made, cannot be made now, or panics. *)
Inductive moved (A : Type) := Next (a : A) | Blocked | Crash.
Arguments Next {A}. Arguments Blocked {A}. Arguments Crash {A}.
Definition moved_map {A B : Type} (f : A -> B) (m : moved A) : moved B :=
  match m with Next a => Next (f a) | Blocked => Blocked | Crash => Crash end.

Section Runs.
Context {M A : Type} (exec : M -> A -> moved A).
Fixpoint run (ms : list M) (s : A) : moved A :=
  match ms with
  | [] => Next s
  | m :: ms' => match exec m s with Next s' => run ms' s' | r => r end
  end.

Lemma moves_app (ms ms' : list M) (s s' : A) : run ms s = Next s' -> run (ms ++ ms') s = run ms' s'.
Proof. revert s. induction ms as [|m ms IH]; intros s H; [by injection H as ->|]. cbn in *. destruct (exec m s); try done. by apply IH. Qed.
Lemma run_keeps_if (f : M -> bool) (P : A -> Prop) :
  (forall m s s', P s -> f m = true -> exec m s = Next s' -> P s') ->
  forall ms s s', P s -> forallb f ms = true -> run ms s = Next s' -> P s'.
Proof.
  intros HP ms. induction ms as [|m ms IH]; intros s s' Hs Hf H; [by injection H as <-|]. cbn in H, Hf.
  apply andb_true_iff in Hf as [Hf1 Hf2]. destruct (exec m s) as [t| |] eqn:E; try done.
  eapply IH; [|exact Hf2|exact H]. by eapply HP.
Qed.
Lemma run_keeps (P : A -> Prop) : (forall m s s', P s -> exec m s = Next s' -> P s') ->
  forall ms s s', P s -> run ms s = Next s' -> P s'.
Proof.
  intros HP ms s s' Hs. apply (run_keeps_if (fun _ => true)); [eauto|done|]. by induction ms.
Qed.
(** A measure that every move changes by at most its own weight. *)
Lemma run_measure (P : A -> Prop) (f : A -> nat) (cost gain : M -> nat) :
  (forall m s s', P s -> exec m s = Next s' -> P s' /\ cost m + f s' <= gain m + f s) ->
  forall ms s s', P s -> run ms s = Next s' -> sum_list (map cost ms) + f s' <= sum_list (map gain ms) + f s.
Proof.
  intros HP ms. induction ms as [|m ms IH]; intros s s' Hs H; [by injection H as <-|]. cbn in H.
  destruct (exec m s) as [t| |] eqn:E; try done. destruct (HP _ _ _ Hs E) as [Ht Hm].
  specialize (IH _ _ Ht H). cbn in *. lia.
Qed.
End Runs.

(** ** What goroutines still owe *)

(** Of a list of calls [due], each goroutine [l] has [f l] left to make and
    [made] are made. *)
Section Owed.
Context {A B : Type} (f : A -> list B).
Implicit Types (ls : list A) (l : A) (made due : list B).

Lemma concat_insert ls (j : nat) l l' : ls !! j = Some l ->
  concat (map f (<[j := l']> ls)) ++ f l ≡ₚ concat (map f ls) ++ f l'.
Proof.
  revert j. induction ls as [|x ls IH]; intros [|j] H; [done..| |]; cbn in *.
  - injection H as ->. rewrite <-!app_assoc, Permutation_app_comm, (Permutation_app_comm (concat _) (f l)). by rewrite <-app_assoc.
  - specialize (IH j H). rewrite <-!app_assoc. by rewrite IH.
Qed.
Lemma owed_same made due ls (j : nat) l l' : ls !! j = Some l -> f l' = f l ->
  made ++ concat (map f ls) ≡ₚ due -> made ++ concat (map f (<[j := l']> ls)) ≡ₚ due.
Proof.
  intros H E <-. apply Permutation_app_head, (Permutation_app_inv_r (f l)). by rewrite (concat_insert _ _ _ l' H), E.
Qed.
Lemma owed_new made due ls (j : nat) l l' : ls !! j = Some l -> f l = [] ->
  made ++ concat (map f ls) ≡ₚ due -> made ++ concat (map f (<[j := l']> ls)) ≡ₚ due ++ f l'.
Proof.
  intros H E <-. rewrite <-app_assoc. apply Permutation_app_head. pose proof (concat_insert _ _ _ l' H) as P.
  by rewrite E, app_nil_r in P.
Qed.
Lemma owed_made made due ls (j : nat) l l' (x : B) : ls !! j = Some l -> f l = x :: f l' ->
  made ++ concat (map f ls) ≡ₚ due -> (made ++ [x]) ++ concat (map f (<[j := l']> ls)) ≡ₚ due.
Proof.
  intros H E <-. rewrite <-app_assoc. apply Permutation_app_head, (Permutation_app_inv_r (f l')).
  rewrite <-(concat_insert _ _ _ l' H), E, <-app_assoc. cbn [app]. by rewrite (Permutation_middle (concat _)).
Qed.
End Owed.

(** ** Stop *)

(** A call of [Stop]: before its test of [done], past the test, past the close,
    over. *)
Inductive stop_pc := Called | Passed | Shut | Returned.
#[global] Instance stop_pc_eq_dec : EqDecision stop_pc.
Proof. solve_decision. Defined.

Record signal := { done : bool; stops : list stop_pc }.
Definition quiet_signal : signal := {| done := false; stops := [] |}.
Definition call_stop (s : signal) : signal := {| done := done s; stops := stops s ++ [Called] |}.

(** The next step of the [i]-th call: a close of a closed channel panics. *)
Definition stop_move (i : nat) (s : signal) : moved signal :=
  match stops s !! i with
  | Some Called => Next {| done := done s; stops := <[i := if done s then Returned else Passed]> (stops s) |}
  | Some Passed => if done s then Crash else Next {| done := true; stops := <[i := Shut]> (stops s) |}
  | _ => Blocked
  end.
Definition stop_returns (i : nat) (s : signal) : signal := {| done := done s; stops := <[i := Returned]> (stops s) |}.

(** How many calls are at a point. *)
Definition at_pc (p : stop_pc) (s : signal) : nat := length (List.filter (fun q => bool_decide (q = p)) (stops s)).

Lemma at_pc_insert (l : list stop_pc) (i : nat) (p q r : stop_pc) (d d' : bool) : l !! i = Some q -> q <> p ->
  at_pc p {| done := d; stops := <[i := r]> l |} = (if bool_decide (r = p) then 1 else 0) + at_pc p {| done := d'; stops := l |}.
Proof.
  intros Hi Hq. unfold at_pc. cbn [stops]. revert i Hi. induction l as [|a l IH]; intros [|i] Hi; try done; cbn in *.
  - injection Hi as ->. rewrite (bool_decide_eq_false_2 (q = p)) by done. by destruct (bool_decide (r = p)).
  - specialize (IH i Hi). destruct (bool_decide (a = p)); cbn; [|exact IH]. rewrite Nat.add_succ_r. by apply f_equal.
Qed.
Lemma at_pc_leave (l : list stop_pc) (i : nat) (p r : stop_pc) (d d' : bool) : l !! i = Some p -> r <> p ->
  S (at_pc p {| done := d; stops := <[i := r]> l |}) = at_pc p {| done := d'; stops := l |}.
Proof.
  intros Hi Hr. unfold at_pc. cbn [stops]. revert i Hi. induction l as [|a l IH]; intros [|i] Hi; try done; cbn in *.
  - injection Hi as ->. rewrite (bool_decide_eq_false_2 (r = p)), bool_decide_eq_true_2 by done. done.
  - specialize (IH i Hi). destruct (bool_decide (a = p)); cbn; [by apply f_equal|exact IH].
Qed.
Lemma at_pc_call (p : stop_pc) (s : signal) : p <> Called -> at_pc p (call_stop s) = at_pc p s.
Proof. intros Hp. unfold at_pc. cbn. rewrite List.filter_app. cbn. rewrite bool_decide_eq_false_2 by done. by rewrite app_nil_r. Qed.
Lemma at_pc_pos (p : stop_pc) (s : signal) (i : nat) : stops s !! i = Some p -> 0 < at_pc p s.
Proof.
  intros H. unfold at_pc. apply list_elem_of_lookup_2 in H. rewrite list_elem_of_In in H.
  destruct (List.filter _ _) as [|x l] eqn:E; [|cbn; lia].
  exfalso. eapply in_nil. rewrite <- E. apply filter_In. split; [exact H|by apply bool_decide_eq_true].
Qed.

(** ** Two calls at once *)

(** What any step of the machine may do to the channel and the calls. *)
Definition sig_next (a b : signal) : Prop :=
  (done a = true -> done b = true /\ at_pc Passed b <= at_pc Passed a) /\
  (done a = false -> done b = true -> at_pc Passed a = S (at_pc Passed b)).

Lemma sig_next_refl (a : signal) : sig_next a a.
Proof. split; [intros; split; [done|lia]|congruence]. Qed.
Lemma sig_next_call (a : signal) : sig_next a (call_stop a).
Proof. split; [intros; split; [done|by rewrite at_pc_call]|cbn; congruence]. Qed.
Lemma sig_next_returns (i : nat) (a : signal) : stops a !! i = Some Shut -> sig_next a (stop_returns i a).
Proof.
  intros H. destruct a as [d l]. split; [|cbn; congruence].
  intros Hd; split; [done|]. unfold stop_returns. cbn [done stops]. by rewrite (at_pc_insert l i Passed Shut Returned d d).
Qed.
Lemma stop_move_next (i : nat) (a b : signal) : stop_move i a = Next b -> sig_next a b.
Proof.
  destruct a as [d l]. unfold stop_move. cbn [done stops]. destruct (l !! i) as [[]|] eqn:E; try done.
  - intros [= <-]. destruct d; (split; cbn [done stops]; [|congruence]); [|congruence].
    intros _. split; [done|]. by rewrite (at_pc_insert l i Passed Called Returned true true).
  - destruct d; [done|]. intros [= <-]. split; [done|]. intros _ _. by rewrite (at_pc_leave l i Passed Shut true false).
Qed.
Lemma stop_move_crash (i : nat) (a : signal) : stop_move i a = Crash -> done a = true /\ 0 < at_pc Passed a.
Proof.
  unfold stop_move. destruct (stops a !! i) as [[]|] eqn:E; try done. destruct (done a) eqn:Ed; [|done].
  intros _. split; [done|by eapply at_pc_pos].
Qed.

Section Race.
Context {M A : Type} (exec : M -> A -> moved A) (sig : A -> signal).
Context (Hnext : forall m s s', exec m s = Next s' -> sig_next (sig s) (sig s')).
Context (Hcrash : forall m s, exec m s = Crash -> done (sig s) = true /\ 0 < at_pc Passed (sig s)).

(** A panic means that two calls of [Stop] had passed their test before either
    closed the channel. *)
Lemma crash_from_race (ms : list M) (s : A) :
  (done (sig s) = true -> at_pc Passed (sig s) = 0) -> run exec ms s = Crash ->
  exists ms1 ms2 s1, ms = ms1 ++ ms2 /\ run exec ms1 s = Next s1 /\ done (sig s1) = false /\ 2 <= at_pc Passed (sig s1).
Proof.
  revert s. induction ms as [|m ms IH]; intros s Hs H; [done|]. cbn in H. destruct (exec m s) as [t| |] eqn:E; [|done|].
  - destruct (decide (done (sig t) = true /\ at_pc Passed (sig t) <> 0)) as [[Hd Hp]|Hn].
    + apply Hnext in E as [H1 H2]. exists [], (m :: ms), s. destruct (done (sig s)) eqn:Ed.
      * destruct (H1 eq_refl) as [_ H3]. specialize (Hs eq_refl). lia.
      * specialize (H2 eq_refl Hd). split_and!; [done|done|done|lia].
    + destruct (IH t) as (ms1 & ms2 & s1 & -> & Hr & Hd); [|done|].
      * intros Hd. destruct (decide (at_pc Passed (sig t) = 0)) as [?|?]; [done|by destruct Hn].
      * exists (m :: ms1), ms2, s1. cbn. by rewrite E.
  - apply Hcrash in E as [Hd Hp]. specialize (Hs Hd). lia.
Qed.
End Race.
