(* ===== verification/Update.v ===== *)
(** * Package [update]: the release checker

    [checker.go]: the version order, one check against the release API, and
    the notification of observers. *)

From S2P Require Import Prelude GoStrings StringFacts.
Local Open Scope Z_scope.

(** ** Versions *)

(** [fmt.Sscanf(s, "%d", &v)] into a zero variable: white space is skipped, a
    newline in it is an error; then an optional sign and the longest run of
    digits; on any error [v] keeps its zero. *)
Fixpoint digits_prefix (s : string) : string :=
  match s with
  | String c s' => if is_digit c then String c (digits_prefix s') else EmptyString
  | EmptyString => EmptyString
  end.
Definition scan_token (s : string) : string :=
  match s with
  | String c s' =>
      if Ascii.eqb c "-" || Ascii.eqb c "+" then String c (digits_prefix s') else digits_prefix s
  | EmptyString => EmptyString
  end.
Definition Sscanf_d (s : string) : Z :=
  let rs := runes s in
  let rest := drop_while rune_space rs in
  let skipped := take (length rs - length rest) rs in
  if List.existsb (fun c => c.1 =? 10) skipped then 0
  else match parse_int (scan_token (unrunes rest)) with inr v => v | inl _ => 0 end.

(** The [i]-th part of a version, zero when it is missing. *)
Definition part (parts : list string) (i : nat) : Z :=
  match parts !! i with Some p => Sscanf_d p | None => 0 end.

Fixpoint compare_loop (n i : nat) (aParts bParts : list string) : Z :=
  match n with
  | O => 0
  | S n' =>
      let av := part aParts i in let bv := part bParts i in
      if av <? bv then -1 else if bv <? av then 1 else compare_loop n' (S i) aParts bParts
  end.
Definition compareVersions (a b : string) : Z :=
  compare_loop 3 0 (Split (TrimPrefix a "v") ".") (Split (TrimPrefix b "v") ".").

(** ** One check *)

Record GitHubRelease := { TagName : string; HTMLURL : string }.
Record UpdateInfo := { Available : bool; NewVersion : string; ReleaseURL : string; DownloadURL : string }.
Definition no_info : UpdateInfo :=
  {| Available := false; NewVersion := EmptyString; ReleaseURL := EmptyString; DownloadURL := EmptyString |}.

(** The HTTP client and the JSON decoder: the response to the [GET], its
    status, and its decoded body. *)
Record response := { StatusCode : Z; release : result GitHubRelease }.

Section Checker.
Context (Version : string).

Definition fetchLatest (get : result response) : result UpdateInfo :=
  resp ← wrap "fetch release" get;
  if negb (StatusCode resp =? 200) then Err (Errorf ("github API status " +:+ itoa (StatusCode resp)))
  else
    rel ← wrap "decode release" (release resp);
    let tag := TrimPrefix (TagName rel) "v" in
    if decide (tag = EmptyString) then Err (Errorf "empty release tag")
    else Ok {| Available := compareVersions Version tag <? 0; NewVersion := tag; ReleaseURL := HTMLURL rel;
               DownloadURL := EmptyString |}.

(** [check]: the new latest value, and what the observers are given. *)
Definition check (get : result response) (latest : UpdateInfo) : UpdateInfo * option UpdateInfo :=
  match fetchLatest get with
  | Err _ => (latest, None)
  | Ok info =>
      let changed := negb (Bool.eqb (Available info) (Available latest))
                     || negb (bool_decide (NewVersion info = NewVersion latest)) in
      (info, if changed then Some info else None)
  end.

(** [loop]: the checks until the ticker or the caller ends them; the
    notifications in order. *)
Fixpoint loop (gets : list (result response)) (latest : UpdateInfo) : list UpdateInfo * UpdateInfo :=
  match gets with
  | [] => ([], latest)
  | g :: gs =>
      let '(latest', n) := check g latest in
      let '(ns, final) := loop gs latest' in (option_list n ++ ns, final)
  end.
End Checker.

(** ** The version order *)

(** A version as the checker reads it. *)
Definition triple (v : string) : Z * Z * Z :=
  let ps := Split (TrimPrefix v "v") "." in (part ps 0, part ps 1, part ps 2).
Definition lex (a b : Z * Z * Z) : comparison :=
  match a.1.1 ?= b.1.1 with
  | Eq => match a.1.2 ?= b.1.2 with Eq => a.2 ?= b.2 | c => c end
  | c => c
  end.
Definition sign (c : comparison) : Z := match c with Lt => -1 | Eq => 0 | Gt => 1 end.

Lemma compare_step (a b k : Z) : (if a <? b then -1 else if b <? a then 1 else k) = match a ?= b with Lt => -1 | Eq => k | Gt => 1 end.
Proof. destruct (Z.compare_spec a b); repeat case_match; lia. Qed.
Lemma compareVersions_lex (a b : string) : compareVersions a b = sign (lex (triple a) (triple b)).
Proof.
  unfold compareVersions, lex, triple. cbn [compare_loop fst snd]. rewrite !compare_step.
  by repeat (case_match; try done).
Qed.

(** The text of a version. *)
Definition print_version (v : Z * Z * Z) (suffix : string) : string :=
  itoa v.1.1 +:+ "." +:+ itoa v.1.2 +:+ "." +:+ itoa v.2 +:+ suffix.
Definition version_ok (v : Z * Z * Z) : Prop :=
  0 <= v.1.1 <= MaxInt64 /\ 0 <= v.1.2 <= MaxInt64 /\ 0 <= v.2 <= MaxInt64.
(** A suffix that does not continue the number, such as "-rc1". *)
Definition suffix_ok (s : string) : bool :=
  no_byte "." s && match s with String c _ => negb (is_digit c) | EmptyString => true end.

Lemma digits_prefix_app (d s : string) : str_forallb is_digit d = true ->
  match s with String c _ => negb (is_digit c) | EmptyString => true end = true -> digits_prefix (d +:+ s) = d.
Proof.
  intros Hd Hs. induction d as [|c d IH].
  - rewrite app_empty_l. destruct s as [|x s]; [done|]. cbn [digits_prefix]. by destruct (is_digit x).
  - cbn [str_forallb] in Hd. apply andb_true_iff in Hd as [Hc Hd]. rewrite app_cons. cbn [digits_prefix].
    by rewrite Hc, IH.
Qed.
Lemma itoa_utoa (n : Z) : 0 <= n -> itoa n = utoa n.
Proof. intros H. unfold itoa. by destruct (n <? 0) eqn:Hn; [lia|]. Qed.

Lemma Sscanf_itoa (n : Z) (s : string) : 0 <= n <= MaxInt64 ->
  match s with String c _ => negb (is_digit c) | EmptyString => true end = true -> Sscanf_d (itoa n +:+ s) = n.
Proof.
  intros Hn Hs. rewrite itoa_utoa by lia. destruct (utoa_digits n ltac:(lia)) as [Hne Hd].
  destruct (utoa n) as [|c t] eqn:Hu; [done|]. cbn [str_forallb] in Hd. apply andb_true_iff in Hd as [Hc Hd].
  assert (Hca : is_ascii c = true) by (by apply (ascii_impl is_digit)).
  unfold Sscanf_d. rewrite app_cons, runes_cons_ascii by done. cbn [drop_while].
  assert (rune_space (byte c, str1 c) = false) as ->.
  { apply negb_true_iff. by apply (ascii_impl is_digit (fun c => negb (rune_space (byte c, str1 c)))). }
  rewrite Nat.sub_diag. cbn [take List.existsb]. rewrite <- runes_cons_ascii, unrunes_runes by done.
  assert (scan_token (String c (t +:+ s)) = String c t) as ->.
  { unfold scan_token. assert (Ascii.eqb c "-" || Ascii.eqb c "+" = false) as ->.
    { apply negb_true_iff. by apply (ascii_impl is_digit (fun c => negb (Ascii.eqb c "-" || Ascii.eqb c "+"))). }
    rewrite <- app_cons. apply digits_prefix_app; [cbn; by rewrite Hc|done]. }
  rewrite <- Hu, <- itoa_utoa by lia. rewrite parse_int_itoa; [done|]. unfold MinInt64, MaxInt64 in *. lia.
Qed.

Lemma triple_print (v : Z * Z * Z) (s : string) (pre : bool) : version_ok v -> suffix_ok s = true ->
  triple ((if pre then "v" else "") +:+ print_version v s) = v.
Proof.
  intros (H1 & H2 & H3) [Hs Hd]%andb_true_iff. unfold triple.
  assert (TrimPrefix ((if pre then "v" else "") +:+ print_version v s) "v" = print_version v s) as ->.
  { destruct pre; [apply TrimPrefix_app|]. rewrite app_empty_l. unfold TrimPrefix.
    destruct (HasPrefix _ "v") eqn:Hp; [|done]. apply HasPrefix_spec in Hp as [t Ht].
    unfold print_version in Ht. rewrite itoa_utoa in Ht by lia. destruct (utoa_digits v.1.1 ltac:(lia)) as [Hne Hdig].
    destruct (utoa v.1.1) as [|c u]; [done|]. injection Ht as -> _. cbn in Hdig. done. }
  unfold print_version. change ("." +:+ itoa v.1.2 +:+ "." +:+ itoa v.2 +:+ s) with
    (String "." (itoa v.1.2 +:+ String "." (itoa v.2 +:+ s))).
  rewrite !Split_app by by apply itoa_no_byte. rewrite Split_single.
  2: { unfold no_byte. rewrite forallb_app_str. apply andb_true_iff. split; [by apply itoa_no_byte|done]. }
  unfold part. cbn [lookup list_lookup]. rewrite Sscanf_itoa by done.
  rewrite <- (app_empty_r (itoa v.1.1)), <- (app_empty_r (itoa v.1.2)), !Sscanf_itoa by done.
  by destruct v as [[? ?] ?].
Qed.

Lemma lex_opp (a b : Z * Z * Z) : lex b a = CompOpp (lex a b).
Proof.
  unfold lex. rewrite (Z.compare_antisym a.1.1), (Z.compare_antisym a.1.2), (Z.compare_antisym a.2).
  destruct (a.1.1 ?= b.1.1), (a.1.2 ?= b.1.2); done.
Qed.
Lemma lex_trans (a b c : Z * Z * Z) : sign (lex a b) <= 0 -> sign (lex b c) <= 0 -> sign (lex a c) <= 0.
Proof.
  unfold lex. destruct (Z.compare_spec a.1.1 b.1.1), (Z.compare_spec b.1.1 c.1.1),
    (Z.compare_spec a.1.2 b.1.2), (Z.compare_spec b.1.2 c.1.2), (Z.compare_spec a.2 b.2), (Z.compare_spec b.2 c.2);
    cbn [sign]; try lia; intros _ _;
    destruct (Z.compare_spec a.1.1 c.1.1), (Z.compare_spec a.1.2 c.1.2), (Z.compare_spec a.2 c.2); cbn [sign]; lia.
Qed.

(** Versions are compared as numbers: on printed versions, with or without a
    leading v and whatever suffix follows the third number, the result is the
    lexicographic order of the three numbers; on any texts the comparison is a
    total preorder. *)
Theorem compareVersions_order (a b c : string) :
  (forall v w s t p q, version_ok v -> version_ok w -> suffix_ok s = true -> suffix_ok t = true ->
    a = (if p : bool then "v" else "") +:+ print_version v s -> b = (if q : bool then "v" else "") +:+ print_version w t ->
    compareVersions a b = sign (lex v w)) /\
  compareVersions b a = - compareVersions a b /\
  (compareVersions a b <= 0 -> compareVersions b c <= 0 -> compareVersions a c <= 0).
Proof.
  split_and!.
  - intros v w s t p q Hv Hw Hs Ht -> ->. by rewrite compareVersions_lex, !triple_print.
  - rewrite !compareVersions_lex, (lex_opp (triple a)). by destruct (lex (triple a) (triple b)).
  - rewrite !compareVersions_lex. apply lex_trans.
Qed.

Lemma compareVersions_order_witness : compareVersions "v1.10.0-rc1" "1.9.3" = 1 /\ compareVersions "1.9.3" "v1.10.0-rc1" = -1.
Proof.
  split.
  - refine (proj1 (compareVersions_order "v1.10.0-rc1" "1.9.3" "") (1, 10, 0) (1, 9, 3) "-rc1" "" true false _ _ _ _ _ _);
      by vm_compute.
  - refine (eq_trans (proj1 (proj2 (compareVersions_order "v1.10.0-rc1" "1.9.3" ""))) _). vm_compute. reflexivity.
Defined.

(** No observer is told the same thing twice in a row, and what it is told is
    newer than the running version exactly when it says so. *)
Lemma loop_notifies (Version : string) (gets : list (result response)) (latest : UpdateInfo) :
  let ns := (loop Version gets latest).1 in
  Forall (fun n => Available n = (compareVersions Version (NewVersion n) <? 0)) ns /\
  forall i a b, (latest :: ns) !! i = Some a -> (latest :: ns) !! S i = Some b ->
    Available a <> Available b \/ NewVersion a <> NewVersion b.
Proof.
  revert latest. induction gets as [|g gs IH]; intros latest; cbn [loop].
  { split; [constructor|]. by intros [|i] a b _ Hb. }
  unfold check. destruct (fetchLatest Version g) as [info|] eqn:Hf.
  2: { specialize (IH latest). destruct (loop Version gs latest). exact IH. }
  specialize (IH info). destruct (loop Version gs info) as [ns final]. cbn [fst] in *. destruct IH as [Hall Hadj].
  destruct (negb _ || negb _) eqn:Hch; cbn [option_list app].
  - split.
    + constructor; [|done]. unfold fetchLatest in Hf. destruct (wrap _ g) as [r|]; [|done]. cbn in Hf.
      destruct (negb _); [done|]. destruct (wrap _ (release r)) as [rel|]; [|done]. cbn in Hf.
      destruct (decide _); [done|]. by injection Hf as <-.
    + intros [|i] a b Ha Hb; [|by apply (Hadj i)]. cbn in Ha, Hb. simplify_eq.
      apply orb_true_iff in Hch as [Hch|Hch]; apply negb_true_iff in Hch; [left|right].
      * intros He. by rewrite He, eqb_reflx in Hch.
      * apply bool_decide_eq_false in Hch. congruence.
  - apply orb_false_iff in Hch as [Ha%negb_false_iff Hn%negb_false_iff].
    apply eqb_prop in Ha. apply bool_decide_eq_true in Hn. split; [done|].
    intros [|i] a b H1 H2; [|by apply (Hadj (S i))]. cbn in H1. simplify_eq. rewrite <- Ha, <- Hn. by apply (Hadj 0%nat).
Qed.
