(* ===== verification/CheckerRun.v ===== *)
(** * Package [update]: the checker's goroutines

    [checker.go] whole: any number of loops ([Start]), of calls of [Stop], of
    registrations, as moves of one interleaving over the checker's fields.
    [Update] has one check; here is when checks run and whom they tell. *)

From S2P Require Import Prelude GoStrings StringFacts Stopping Update.

(** ** The checker *)

(** Where a loop is: in [fetchLatest], calling observers, in the [select] of
    the ticker and [done], over. *)
Inductive place := Fetching | Telling (info : UpdateInfo) (snap : list nat) | Selecting | Ended.

(** [answers] has the responses in the order the loops took the lock with
    them, [changes] the changes found with the observers copied for each,
    [told] the calls of observers. *)
Record Checker := {
  sig : signal; observers : list nat; latest : UpdateInfo; loops : list place;
  answers : list (result response); changes : list (UpdateInfo * list nat); told : list (nat * UpdateInfo)
}.
Definition NewChecker : Checker :=
  {| sig := quiet_signal; observers := []; latest := no_info; loops := []; answers := []; changes := []; told := [] |}.
Definition set_sig (s : signal) (c : Checker) : Checker :=
  {| sig := s; observers := observers c; latest := latest c; loops := loops c; answers := answers c;
     changes := changes c; told := told c |}.
Definition set_loops (ls : list place) (c : Checker) : Checker :=
  {| sig := sig c; observers := observers c; latest := latest c; loops := ls; answers := answers c;
     changes := changes c; told := told c |}.
Definition OnUpdate (fn : nat) (c : Checker) : Checker :=
  {| sig := sig c; observers := observers c ++ [fn]; latest := latest c; loops := loops c; answers := answers c;
     changes := changes c; told := told c |}.
Definition Latest (c : Checker) : UpdateInfo := latest c.
Definition Start (c : Checker) : Checker := set_loops (loops c ++ [Fetching]) c.

(** [check] once the response is there: under the lock the new value is kept
    and, on a change, the observers are copied. *)
Definition take_answer (Version : string) (j : nat) (get : result response) (c : Checker) : Checker :=
  let '(latest', n) := check Version get (latest c) in
  {| sig := sig c; observers := observers c; latest := latest';
     loops := <[j := match n with Some info => Telling info (observers c) | None => Selecting end]> (loops c);
     answers := answers c ++ [get];
     changes := changes c ++ match n with Some info => [(info, observers c)] | None => [] end; told := told c |}.
Definition tell (j fn : nat) (info : UpdateInfo) (rest : list nat) (c : Checker) : Checker :=
  {| sig := sig c; observers := observers c; latest := latest c; loops := <[j := Telling info rest]> (loops c);
     answers := answers c; changes := changes c; told := told c ++ [(fn, info)] |}.

(** ** Moves *)

Inductive loop_move := Answer (get : result response) | Tell | Tick | SeeDone.
Inductive move := Register (fn : nat) | CallStart | CallStop | StopStep (i : nat) | Loop (j : nat) (x : loop_move).

Definition loop_exec (Version : string) (j : nat) (p : place) (x : loop_move) (c : Checker) : moved Checker :=
  let to p := Next (set_loops (<[j := p]> (loops c)) c) in
  match p, x with
  | Fetching, Answer get => Next (take_answer Version j get c)
  | Telling info (fn :: rest), Tell => Next (tell j fn info rest c)
  | Telling info [], Tell => to Selecting
  | Selecting, Tick => to Fetching
  | Selecting, SeeDone => if done (sig c) then to Ended else Blocked
  | _, _ => Blocked
  end.
(** [Stop] has nothing to do after the close. *)
Definition exec (Version : string) (x : move) (c : Checker) : moved Checker :=
  match x with
  | Register fn => Next (OnUpdate fn c)
  | CallStart => Next (Start c)
  | CallStop => Next (set_sig (call_stop (sig c)) c)
  | StopStep i => match stops (sig c) !! i with
                  | Some Shut => Next (set_sig (stop_returns i (sig c)) c)
                  | _ => moved_map (fun s => set_sig s c) (stop_move i (sig c))
                  end
  | Loop j y => match loops c !! j with Some p => loop_exec Version j p y c | None => Blocked end
  end.

(** ** Invariant *)

Definition calls_of (e : UpdateInfo * list nat) : list (nat * UpdateInfo) := map (fun fn => (fn, e.1)) e.2.
Definition pending (p : place) : list (nat * UpdateInfo) :=
  match p with Telling info rest => calls_of (info, rest) | _ => [] end.

Record checker_ok (Version : string) (c : Checker) : Prop := {
  ok_loop : Update.loop Version (answers c) no_info = (map fst (changes c), latest c);
  ok_told : told c ++ concat (map pending (loops c)) ≡ₚ flat_map calls_of (changes c)
}.

Lemma loop_snoc (Version : string) (gs : list (result response)) (g : result response) (u : UpdateInfo) :
  let '(ns, final) := Update.loop Version gs u in
  Update.loop Version (gs ++ [g]) u = (ns ++ option_list (check Version g final).2, (check Version g final).1).
Proof.
  revert u. induction gs as [|x gs IH]; intros u; cbn.
  - destruct (check Version g u) as [u' n]. cbn. by rewrite app_nil_r.
  - destruct (check Version x u) as [u' n]. specialize (IH u'). destruct (Update.loop Version gs u') as [ns final].
    rewrite IH. by rewrite app_assoc.
Qed.

Section Invariant.
Context (Version : string).

Lemma NewChecker_ok : checker_ok Version NewChecker.
Proof. by split. Qed.

Lemma checker_exec_ok (x : move) (c c' : Checker) : checker_ok Version c -> exec Version x c = Next c' -> checker_ok Version c'.
Proof.
  intros [H1 H2] H. destruct x as [fn| | |i|j x]; cbn [exec] in H.
  - by injection H as <-.
  - injection H as <-. split; [done|]. cbn. by rewrite map_app, concat_app, app_nil_r.
  - by injection H as <-.
  - unfold moved_map in H. by repeat case_match; simplify_eq.
  - destruct (loops c !! j) as [p|] eqn:E; [|done]. unfold loop_exec in H.
    destruct p as [|info [|fn rest]| |], x; try done; [..|destruct (done _); [|done]]; injection H as <-.
    2, 4, 5: split; [done|]; by apply (owed_same pending _ _ _ _ _ _ E).
    + unfold take_answer. pose proof (loop_snoc Version (answers c) get no_info) as Hs. rewrite H1 in Hs.
      destruct (check Version get (latest c)) as [u' [info|]]; cbn [fst snd option_list] in Hs; split; cbn.
      * by rewrite Hs, map_app.
      * rewrite flat_map_app. cbn [flat_map]. rewrite app_nil_r. by apply (owed_new pending _ _ _ _ _ (Telling info (observers c)) E).
      * by rewrite Hs, !app_nil_r.
      * rewrite app_nil_r. by apply (owed_same pending _ _ _ _ _ Selecting E).
    + split; [done|]. by apply (owed_made pending _ _ _ _ _ (Telling info rest) _ E).
Qed.
Lemma checker_reachable (ms : list move) (c : Checker) : run (exec Version) ms NewChecker = Next c -> checker_ok Version c.
Proof. apply (run_keeps (exec Version) (checker_ok Version) checker_exec_ok), NewChecker_ok. Qed.
Lemma checker_exec_sig (x : move) (c c' : Checker) : exec Version x c = Next c' -> sig_next (sig c) (sig c').
Proof.
  destruct x as [fn| | |i|j x]; cbn [exec].
  - intros [= <-]. apply sig_next_refl.
  - intros [= <-]. apply sig_next_refl.
  - intros [= <-]. apply sig_next_call.
  - destruct (stops (sig c) !! i) as [[]|] eqn:E.
    4: by unfold stop_move; rewrite E.
    3: intros [= <-]; by apply sig_next_returns.
    all: destruct (stop_move i (sig c)) as [s| |] eqn:Em; try done; intros [= <-]; by eapply stop_move_next.
  - destruct (loops c !! j) as [p|]; [|done]. unfold loop_exec, take_answer.
    destruct p as [|info [|fn rest]| |], x; try done; repeat case_match; try done; intros [= <-]; apply sig_next_refl.
Qed.
Lemma checker_exec_crash (x : move) (c : Checker) : exec Version x c = Crash -> done (sig c) = true /\ 0 < at_pc Passed (sig c).
Proof.
  destruct x as [fn| | |i|j x]; cbn [exec]; try done.
  - destruct (stop_move i (sig c)) as [s| |] eqn:Em; repeat case_match; try done; intros _; by eapply stop_move_crash.
  - destruct (loops c !! j) as [p|]; [|done]. unfold loop_exec.
    destruct p as [|info [|fn rest]| |], x; try done; repeat case_match; done.
Qed.

(** A loop that is telling its observers ends if it is let go on. *)
Lemma telling_ends (j : nat) (info : UpdateInfo) (snap : list nat) (c : Checker) : done (sig c) = true ->
  loops c !! j = Some (Telling info snap) ->
  exists c', run (exec Version) (map (Loop j) (repeat Tell (S (length snap)) ++ [SeeDone])) c = Next c' /\ loops c' !! j = Some Ended.
Proof.
  revert c. induction snap as [|fn rest IH]; intros c Hd H; cbn [repeat length app map run exec]; rewrite H; cbn [loop_exec].
  - cbn [run exec loops set_loops]. rewrite list_lookup_insert_eq by (by eapply lookup_lt_Some). cbn. rewrite Hd. eexists. split; [done|].
    cbn. apply list_lookup_insert_eq. rewrite length_insert. by eapply lookup_lt_Some.
  - apply IH; [done|]. cbn. apply list_lookup_insert_eq. by eapply lookup_lt_Some.
Qed.
Lemma selecting_ends (j : nat) (c : Checker) : done (sig c) = true -> loops c !! j = Some Selecting ->
  exists c', run (exec Version) (map (Loop j) [SeeDone]) c = Next c' /\ loops c' !! j = Some Ended.
Proof.
  intros Hd H. cbn. rewrite H. cbn. rewrite Hd. eexists. split; [done|]. cbn. apply list_lookup_insert_eq. by eapply lookup_lt_Some.
Qed.
End Invariant.

(** ** Properties *)

(** However loops, registrations and calls of Stop interleave, the checker
    refines one loop over the responses in the order they were taken: the same
    latest value, the same changes; every change is told exactly once to each
    observer registered when it was found, up to the calls still due; and no
    change repeats the one before it. *)
Theorem checker_refines_loop (Version : string) (ms : list move) (c : Checker) :
  run (exec Version) ms NewChecker = Next c ->
  Update.loop Version (answers c) no_info = (map fst (changes c), Latest c) /\
  told c ++ concat (map pending (loops c)) ≡ₚ flat_map calls_of (changes c) /\
  forall i a b, (no_info :: map fst (changes c)) !! i = Some a -> (no_info :: map fst (changes c)) !! S i = Some b ->
    Available a <> Available b \/ NewVersion a <> NewVersion b.
Proof.
  intros [H1 H2]%checker_reachable. split_and!; [done|done|].
  pose proof (loop_notifies Version (answers c) no_info) as [_ H]. by rewrite H1 in H.
Qed.

(** Once Stop has closed [done], every loop can end within one request, the
    calls it still owes and one turn of its [select], whatever the response. *)
Theorem checker_can_stop (Version : string) (c : Checker) (j : nat) (p : place) (get : result response) :
  done (sig c) = true -> loops c !! j = Some p -> p <> Ended ->
  exists xs c', run (exec Version) (map (Loop j) xs) c = Next c' /\ loops c' !! j = Some Ended /\
    Forall (fun x => x ∈ [Answer get; Tell; SeeDone]) xs /\ length xs <= 3 + Nat.max (length (pending p)) (length (observers c)).
Proof.
  intros Hd H Hp. assert (forall n, Forall (fun x => x ∈ [Answer get; Tell; SeeDone]) (repeat Tell n ++ [SeeDone])) as Ht.
  { intros n. apply Forall_app. split; [|repeat constructor; set_solver]. induction n; constructor; [set_solver|done]. }
  destruct p as [|info snap| |]; [| | |done].
  - assert (exec Version (Loop j (Answer get)) c = Next (take_answer Version j get c)) as He by (cbn [exec]; by rewrite H).
    assert (done (sig (take_answer Version j get c)) = true) as Hd' by (unfold take_answer; by case_match).
    assert (exists p', loops (take_answer Version j get c) !! j = Some p' /\
      (p' = Selecting \/ exists info, p' = Telling info (observers c))) as (p' & Hl & Hor).
    { unfold take_answer. destruct (check _ _ _) as [u n]. cbn. eexists. split; [apply list_lookup_insert_eq; by eapply lookup_lt_Some|].
      destruct n as [info|]; [right; by eexists|by left]. }
    destruct Hor as [->|[info ->]].
    + destruct (selecting_ends Version j _ Hd' Hl) as (c' & Hr & He'). exists [Answer get; SeeDone], c'. cbn [map run].
      rewrite He. split_and!; [exact Hr|done|repeat constructor; set_solver|cbn; lia].
    + destruct (telling_ends Version j _ _ _ Hd' Hl) as (c' & Hr & He').
      exists (Answer get :: repeat Tell (S (length (observers c))) ++ [SeeDone]), c'. cbn [map run].
      rewrite He. split_and!; [exact Hr|done|constructor; [set_solver|apply Ht]|]. cbn [length]. rewrite length_app, repeat_length. cbn. lia.
  - destruct (telling_ends Version j _ _ _ Hd H) as (c' & Hr & He'). exists (repeat Tell (S (length snap)) ++ [SeeDone]), c'.
    split_and!; [exact Hr|done|apply Ht|]. rewrite length_app, repeat_length. cbn. unfold calls_of. rewrite length_map. cbn. lia.
  - destruct (selecting_ends Version j _ Hd H) as (c' & Hr & He'). exists [SeeDone], c'.
    split_and!; [exact Hr|done|repeat constructor; set_solver|cbn; lia].
Qed.

(** The checker panics only when two calls of Stop have passed their test of
    [done] and neither has closed it yet. *)
Theorem checker_panics_by_race (Version : string) (ms : list move) :
  run (exec Version) ms NewChecker = Crash ->
  exists ms1 ms2 c, ms = ms1 ++ ms2 /\ run (exec Version) ms1 NewChecker = Next c /\ done (sig c) = false /\ 2 <= at_pc Passed (sig c).
Proof. intros H. eapply (crash_from_race (exec Version) sig (checker_exec_sig Version) (checker_exec_crash Version)); [|exact H]. done. Qed.

(** ** Witnesses *)

Definition after (ms : list move) : Checker := match run (exec "0.1.0") ms NewChecker with Next c => c | _ => NewChecker end.
Definition released (tag : string) : result response :=
  Ok {| StatusCode := 200; release := Ok {| TagName := tag; HTMLURL := "https://example.org" |} |}.

(** An observer is told of a response that came after Stop had returned. *)
Definition late : list move :=
  [Register 4; CallStart; CallStop; StopStep 0; StopStep 0; StopStep 0; Loop 0 (Answer (released "v0.2.0")); Loop 0 Tell].
Example told_after_stop : map fst (told (after late)) = [4] /\ stops (sig (after late)) = [Returned] /\
  NewVersion (Latest (after late)) = "0.2.0".
Proof. by vm_compute. Qed.

Lemma checker_refines_loop_witness :
  Update.loop "0.1.0" [released "v0.2.0"] no_info = (map fst (changes (after late)), Latest (after late)) /\
  Available (Latest (after late)) = true.
Proof.
  split; [|by vm_compute]. apply (checker_refines_loop "0.1.0" late (after late)). by vm_compute.
Defined.
Lemma checker_can_stop_witness :
  exists xs c', run (exec "0.1.0") (map (Loop 0) xs) (after (take 6 late)) = Next c' /\ loops c' !! 0 = Some Ended.
Proof.
  destruct (checker_can_stop "0.1.0" (after (take 6 late)) 0 Fetching (released "v0.2.0")) as (xs & c' & H1 & H2 & _).
  1, 2: by vm_compute.
  - done.
  - by exists xs, c'.
Defined.
Lemma checker_panics_by_race_witness :
  exists ms1 ms2 c, [CallStop; CallStop; StopStep 0; StopStep 1; StopStep 0; StopStep 1] = ms1 ++ ms2 /\
    run (exec "0.1.0") ms1 NewChecker = Next c /\ done (sig c) = false /\ 2 <= at_pc Passed (sig c).
Proof. by apply checker_panics_by_race. Defined.
