(* ===== verification/Secwatch.v ===== *)
(** * Package [secwatch]: the security event monitor

    [events.go] and [monitor.go]: the history of recent events, the reading of
    one connection, and the reconnecting loop with its back-off. *)

From S2P Require Import Prelude GoStrings StringFacts.
Local Open Scope Z_scope.

Record SecurityEvent := {
  Type_ : string; Severity : string; Detail : string; PID : Z; Remediation : string; Timestamp : Z
}.
Definition IsCritical (e : SecurityEvent) : bool := bool_decide (Severity e = "critical").

Definition maxEventHistory : nat := 100.

(** [m.events = append(m.events, ev)], cut to the last hundred. *)
Definition record_event (events : list SecurityEvent) (ev : SecurityEvent) : list SecurityEvent :=
  let l := events ++ [ev] in
  if (maxEventHistory <? length l)%nat then drop (length l - maxEventHistory) l else l.

(** [encoding/json] into a zero event. *)
Class EventCodec := json_event : string -> option SecurityEvent.

(** One line the scanner yields, and whether [done] is closed when it is tested. *)
Record scanned := { line : string; done_closed : bool }.

Section Monitor.
Context `{C : EventCodec}.

(** [processConnection]: the history, and the events every observer is given. *)
Fixpoint processConnection (ls : list scanned) (events : list SecurityEvent) : list SecurityEvent * list SecurityEvent :=
  match ls with
  | [] => (events, [])
  | l :: ls' =>
      if done_closed l then (events, [])
      else match json_event (line l) with
           | None => processConnection ls' events
           | Some ev => let '(events', given) := processConnection ls' (record_event events ev) in (events', ev :: given)
           end
  end.

Definition Second : Z := 1000000000.
Definition maxBackoff : Z := 10 * Second.
Definition next_backoff (b : Z) : Z := if maxBackoff <? b * 2 then maxBackoff else b * 2.

(** One turn of [readLoop]: [done] closed at its head; a failed dial and
    whether [done] closes during the pause; or a connection. *)
Inductive turn := Closed | DialFails (closed_in_pause : bool) | Connected (ls : list scanned).

(** The pauses started, the history and the events given. *)
Fixpoint readLoop (ts : list turn) (backoff : Z) (events : list SecurityEvent)
  : list Z * list SecurityEvent * list SecurityEvent :=
  match ts with
  | [] | Closed :: _ => ([], events, [])
  | DialFails true :: _ => ([backoff], events, [])
  | DialFails false :: ts' =>
      let '(ps, ev, given) := readLoop ts' (next_backoff backoff) events in (backoff :: ps, ev, given)
  | Connected ls :: ts' =>
      let '(ev, given) := processConnection ls events in
      let '(ps, ev', given') := readLoop ts' Second ev in (ps, ev', given ++ given')
  end.
End Monitor.

(** ** The history *)

Lemma record_event_last (h : list SecurityEvent) (ev : SecurityEvent) :
  record_event (last_n maxEventHistory h) ev = last_n maxEventHistory (h ++ [ev]).
Proof.
  rewrite <- last_n_last_n. unfold record_event. destruct (_ <? _)%nat eqn:Hc; [done|].
  apply Nat.ltb_ge in Hc. by rewrite (last_n_short _ (_ ++ [ev])).
Qed.

Section MonitorFacts.
Context `{C : EventCodec}.

Lemma processConnection_last (ls : list scanned) (h : list SecurityEvent) :
  (processConnection ls (last_n maxEventHistory h)).1
    = last_n maxEventHistory (h ++ (processConnection ls (last_n maxEventHistory h)).2).
Proof.
  revert h. induction ls as [|l ls IH]; intros h; cbn [processConnection]; [by rewrite app_nil_r|].
  destruct (done_closed l); [by rewrite app_nil_r|]. destruct (json_event (line l)) as [ev|]; [|apply IH].
  rewrite record_event_last. specialize (IH (h ++ [ev])).
  destruct (processConnection ls _) as [ev' given]. cbn [fst snd] in *. by rewrite <- app_assoc in IH.
Qed.

Lemma readLoop_last (ts : list turn) (b : Z) (h : list SecurityEvent) :
  let '(_, ev, given) := readLoop ts b (last_n maxEventHistory h) in ev = last_n maxEventHistory (h ++ given).
Proof.
  revert b h. induction ts as [|[|[]|ls] ts IH]; intros b h; cbn [readLoop]; try by rewrite app_nil_r.
  - specialize (IH (next_backoff b) h). by destruct (readLoop _ _ _) as [[ps ev] given].
  - pose proof (processConnection_last ls h) as Hp. destruct (processConnection ls _) as [ev given]. cbn [fst snd] in Hp.
    subst ev. specialize (IH Second (h ++ given)). destruct (readLoop ts _ _) as [[ps ev'] given'].
    by rewrite app_assoc.
Qed.

Lemma readLoop_pauses (ts : list turn) (b : Z) (events : list SecurityEvent) :
  0 < b <= maxBackoff -> Forall (fun p => 0 < p <= maxBackoff) (readLoop ts b events).1.1.
Proof.
  assert (Hn : forall x, 0 < x <= maxBackoff -> 0 < next_backoff x <= maxBackoff).
  { intros x Hx. unfold next_backoff. destruct (maxBackoff <? x * 2) eqn:?; unfold maxBackoff, Second in *; lia. }
  revert b events. induction ts as [|[|[]|ls] ts IH]; intros b events Hb; cbn [readLoop]; cbn [fst]; try by repeat first [exact Hb|constructor].
  - specialize (IH (next_backoff b) events (Hn b Hb)). destruct (readLoop _ _ _) as [[ps ev] given]. by constructor.
  - destruct (processConnection ls events) as [ev given]. specialize (IH Second ev).
    destruct (readLoop ts _ _) as [[ps ev'] given']. apply IH. unfold maxBackoff, Second. lia.
Qed.
End MonitorFacts.

(** Whatever connections come and go, the history holds the last hundred of
    the events the observers were given, in order, and no pause between two
    attempts is longer than ten seconds. *)
Theorem history_recent (C : EventCodec) (ts : list turn) :
  let '(ps, ev, given) := readLoop ts Second [] in
  ev = last_n maxEventHistory given /\ (length ev <= maxEventHistory)%nat /\ Forall (fun p => 0 < p <= maxBackoff) ps.
Proof.
  pose proof (readLoop_last ts Second []) as Hl. pose proof (readLoop_pauses ts Second []) as Hp.
  change (last_n maxEventHistory []) with (@nil SecurityEvent) in Hl.
  destruct (readLoop ts Second []) as [[ps ev] given]. cbn [app fst] in *. subst ev.
  split_and!; [done|rewrite last_n_length; lia|]. apply Hp. unfold maxBackoff, Second. lia.
Qed.
