(* ===== verification/MonitorRun.v ===== *)
(** * Package [secwatch]: the monitor's goroutines

    [monitor.go] whole: any number of read loops ([Start]), of calls of [Stop]
    and of registrations, as moves of one interleaving over the monitor's
    fields.  [Secwatch] has the data one loop computes; here is when it runs,
    what it does with connections, and how it ends. *)

From S2P Require Import Prelude GoStrings StringFacts Stopping Secwatch.

(** ** The monitor *)

(** Where a read loop is: before the test of [done] at its head, in the dial,
    in the pause after a failed one, before the lock that installs the
    connection, in [scanner.Scan], before the test of [done] for a line it
    scanned, calling observers, over. *)
Inductive place :=
  | Top | Dialling | Pausing | Install (c : nat)
  | Scanning (c : nat) | Testing (c : nat) (line : string)
  | Giving (c : nat) (ev : SecurityEvent) (snap : list nat)
  | Ended.
Record loop := { pc : place; backoff : Z }.
Definition goto (p : place) (l : loop) : loop := {| pc := p; backoff := backoff l |}.

(** Connections are numbered in the order of their dials; [closed] has those
    the monitor closed, [scanned] the events with the observers copied for
    each, [given] the calls of observers. *)
Record Monitor := {
  sig : signal; observers : list nat; conn : option nat; events : list SecurityEvent;
  loops : list loop; dialled : nat; closed : gset nat; scanned : list (SecurityEvent * list nat); given : list (nat * SecurityEvent)
}.
Definition set_sig (s : signal) (m : Monitor) : Monitor :=
  {| sig := s; observers := observers m; conn := conn m; events := events m; loops := loops m; dialled := dialled m;
     closed := closed m; scanned := scanned m; given := given m |}.
Definition set_loop (j : nat) (l : loop) (m : Monitor) : Monitor :=
  {| sig := sig m; observers := observers m; conn := conn m; events := events m; loops := <[j := l]> (loops m);
     dialled := dialled m; closed := closed m; scanned := scanned m; given := given m |}.

Definition NewMonitor : Monitor :=
  {| sig := quiet_signal; observers := []; conn := None; events := []; loops := []; dialled := 0; closed := ∅;
     scanned := []; given := [] |}.
Definition OnEvent (fn : nat) (m : Monitor) : Monitor :=
  {| sig := sig m; observers := observers m ++ [fn]; conn := conn m; events := events m; loops := loops m;
     dialled := dialled m; closed := closed m; scanned := scanned m; given := given m |}.
Definition Events (m : Monitor) : list SecurityEvent := events m.
Definition Start (m : Monitor) : Monitor :=
  {| sig := sig m; observers := observers m; conn := conn m; events := events m;
     loops := loops m ++ [{| pc := Top; backoff := Second |}]; dialled := dialled m; closed := closed m;
     scanned := scanned m; given := given m |}.
(** The end of [Stop], under the lock: the installed connection is closed. *)
Definition close_conn (i : nat) (m : Monitor) : Monitor :=
  {| sig := stop_returns i (sig m); observers := observers m; conn := conn m; events := events m; loops := loops m;
     dialled := dialled m; closed := (match conn m with Some c => {[c]} | None => ∅ end) ∪ closed m;
     scanned := scanned m; given := given m |}.

(** A loop's dial succeeds. *)
Definition dial_ok (j : nat) (l : loop) (m : Monitor) : Monitor :=
  {| sig := sig m; observers := observers m; conn := conn m; events := events m;
     loops := <[j := goto (Install (dialled m)) l]> (loops m); dialled := S (dialled m); closed := closed m;
     scanned := scanned m; given := given m |}.
Definition install (j c : nat) (m : Monitor) : Monitor :=
  {| sig := sig m; observers := observers m; conn := Some c; events := events m;
     loops := <[j := {| pc := Scanning c; backoff := Second |}]> (loops m); dialled := dialled m; closed := closed m;
     scanned := scanned m; given := given m |}.
(** Under the lock: the event enters the history, the observers are copied. *)
Definition take_event (j c : nat) (ev : SecurityEvent) (l : loop) (m : Monitor) : Monitor :=
  {| sig := sig m; observers := observers m; conn := conn m; events := record_event (events m) ev;
     loops := <[j := goto (Giving c ev (observers m)) l]> (loops m); dialled := dialled m; closed := closed m;
     scanned := scanned m ++ [(ev, observers m)]; given := given m |}.
Definition give (j c fn : nat) (ev : SecurityEvent) (rest : list nat) (l : loop) (m : Monitor) : Monitor :=
  {| sig := sig m; observers := observers m; conn := conn m; events := events m;
     loops := <[j := goto (Giving c ev rest) l]> (loops m); dialled := dialled m; closed := closed m;
     scanned := scanned m; given := given m ++ [(fn, ev)] |}.

(** ** Moves *)

(** What the outside decides about a loop: how a dial ends, that the pause is
    over, that it sees [done] in its pause, that the scanner yields a line or
    reaches an end; [Step] is everything else. *)
Inductive loop_move := Step | DialErr | DialOk | PauseOver | PauseDone | Scan (line : string) | ScanEnd.
Inductive move := Register (fn : nat) | CallStart | CallStop | StopStep (i : nat) | Loop (j : nat) (m : loop_move).

Section Moves.
Context `{C : EventCodec}.

(** [readLoop] and [processConnection]. *)
Definition loop_exec (j : nat) (l : loop) (x : loop_move) (m : Monitor) : moved Monitor :=
  let to p := Next (set_loop j (goto p l) m) in
  match pc l, x with
  | Top, Step => to (if done (sig m) then Ended else Dialling)
  | Dialling, DialErr => to Pausing
  | Dialling, DialOk => Next (dial_ok j l m)
  | Pausing, PauseOver => Next (set_loop j {| pc := Top; backoff := next_backoff (backoff l) |} m)
  | Pausing, PauseDone => if done (sig m) then to Ended else Blocked
  | Install c, Step => Next (install j c m)
  | Scanning c, Scan line => to (Testing c line)
  | Scanning c, ScanEnd => to Top
  | Testing c line, Step =>
      if done (sig m) then to Top
      else match json_event line with None => to (Scanning c) | Some ev => Next (take_event j c ev l m) end
  | Giving c ev (fn :: rest), Step => Next (give j c fn ev rest l m)
  | Giving c ev [], Step => to (Scanning c)
  | _, _ => Blocked
  end.

Definition exec (x : move) (m : Monitor) : moved Monitor :=
  match x with
  | Register fn => Next (OnEvent fn m)
  | CallStart => Next (Start m)
  | CallStop => Next (set_sig (call_stop (sig m)) m)
  | StopStep i => match stops (sig m) !! i with
                  | Some Shut => Next (close_conn i m)
                  | _ => moved_map (fun s => set_sig s m) (stop_move i (sig m))
                  end
  | Loop j y => match loops m !! j with Some l => loop_exec j l y m | None => Blocked end
  end.
End Moves.

(** ** Invariants *)

(** The connection a loop is reading, or about to read. *)
Definition conn_of (p : place) : option nat :=
  match p with Install c | Scanning c | Testing c _ | Giving c _ _ => Some c | _ => None end.
(** The calls an event is due, and those a loop has still to make. *)
Definition calls_of (e : SecurityEvent * list nat) : list (nat * SecurityEvent) := map (fun fn => (fn, e.1)) e.2.
Definition pending (l : loop) : list (nat * SecurityEvent) :=
  match pc l with Giving _ ev rest => calls_of (ev, rest) | _ => [] end.
(** The connections that were dialled and not closed. *)
Definition open_conns (m : Monitor) : gset nat := set_seq 0 (dialled m) ∖ closed m.

Record mon_ok (m : Monitor) : Prop := {
  ok_loops : Forall (fun l => forall c, conn_of (pc l) = Some c -> c < dialled m) (loops m);
  ok_conn : forall c, conn m = Some c -> c < dialled m;
  ok_closed : forall c, c ∈ closed m -> c < dialled m;
  ok_once : at_pc Shut (sig m) + size (closed m) <= 1;
  ok_before : done (sig m) = false -> at_pc Shut (sig m) = 0 /\ closed m = ∅;
  ok_events : events m = last_n maxEventHistory (map fst (scanned m));
  ok_given : given m ++ concat (map pending (loops m)) ≡ₚ flat_map calls_of (scanned m)
}.

Lemma NewMonitor_ok : mon_ok NewMonitor.
Proof. split; cbn; try done. set_solver. Qed.

Lemma loops_insert (m : Monitor) (j n : nat) (l' : loop) : Forall (fun l => forall c, conn_of (pc l) = Some c -> c < dialled m) (loops m) ->
  dialled m <= n -> (forall c, conn_of (pc l') = Some c -> c < n) ->
  Forall (fun l => forall c, conn_of (pc l) = Some c -> c < n) (<[j := l']> (loops m)).
Proof.
  intros H Hn Hl. apply Forall_insert; [|exact Hl]. eapply Forall_impl; [exact H|]. intros l H' c E. specialize (H' c E). lia.
Qed.
Lemma set_loop_ok (m : Monitor) (j : nat) (l l' : loop) : mon_ok m -> loops m !! j = Some l -> pending l' = pending l ->
  (forall c, conn_of (pc l') = Some c -> c < dialled m) -> mon_ok (set_loop j l' m).
Proof.
  intros [H1 H2 H3 H4 H5 H6 H7] H Hp Hc. split; try done; cbn [set_loop loops dialled given scanned].
  - by apply loops_insert.
  - by eapply owed_same.
Qed.

Section Invariant.
Context `{C : EventCodec}.

Lemma loop_ok (j : nat) (l : loop) (x : loop_move) (m m' : Monitor) :
  mon_ok m -> loops m !! j = Some l -> loop_exec j l x m = Next m' -> mon_ok m'.
Proof.
  intros Hm H. assert (forall c, conn_of (pc l) = Some c -> c < dialled m) as Hc.
  { intros c. by apply (Forall_lookup_1 _ _ _ _ (ok_loops m Hm) H). }
  destruct (Hm) as [H1 H2 H3 H4 H5 H6 H7]. destruct l as [p b]. unfold loop_exec. cbn [pc backoff] in *.
  destruct p as [| | |c|c|c line|c ev [|fn rest]|], x; try done.
  - destruct (done (sig m)); intros [= <-]; by eapply set_loop_ok.
  - intros [= <-]. by eapply set_loop_ok.
  - intros [= <-]. split; try done; cbn [dial_ok loops dialled given scanned conn closed].
    + apply loops_insert; [done|lia|]. cbn. intros c [= <-]. lia.
    + intros c E. specialize (H2 c E). lia.
    + intros c E. specialize (H3 c E). lia.
    + by eapply owed_same.
  - intros [= <-]. by eapply set_loop_ok.
  - destruct (done _); [|done]. intros [= <-]. by eapply set_loop_ok.
  - intros [= <-]. split; try done; cbn [install loops dialled given scanned conn].
    + by apply loops_insert.
    + by eapply owed_same.
  - intros [= <-]. by eapply set_loop_ok.
  - intros [= <-]. by eapply set_loop_ok.
  - destruct (done (sig m)); [intros [= <-]; by eapply set_loop_ok|].
    destruct (json_event line) as [ev|]; intros [= <-]; [|by eapply set_loop_ok].
    split; try first [done|intros _; exact (H5 eq_refl)]; cbn [take_event loops dialled given scanned events].
    + by apply loops_insert.
    + by rewrite map_app, H6, record_event_last.
    + rewrite flat_map_app. cbn [flat_map]. rewrite app_nil_r. by apply (owed_new pending _ _ _ _ _ (goto (Giving c ev (observers m)) _) H).
  - intros [= <-]. by eapply set_loop_ok.
  - intros [= <-]. split; try done; cbn [give loops dialled given scanned].
    + by apply loops_insert.
    + by eapply (owed_made pending _ _ _ _ _ (goto (Giving c ev rest) _) _ H).
Qed.

Lemma monitor_exec_ok (x : move) (m m' : Monitor) : mon_ok m -> exec x m = Next m' -> mon_ok m'.
Proof.
  intros Hm. destruct x as [fn| | |i|j x]; cbn [exec].
  - intros [= <-]. by destruct Hm.
  - intros [= <-]. destruct Hm as [H1 H2 H3 H4 H5 H6 H7]. split; try done; cbn [Start loops given scanned dialled].
    + apply Forall_app. split; [done|]. by constructor.
    + by rewrite map_app, concat_app, app_nil_r.
  - intros [= <-]. destruct Hm as [H1 H2 H3 H4 H5 H6 H7]. split; try done; cbn [set_sig sig]; by rewrite at_pc_call.
  - destruct Hm as [H1 H2 H3 H4 H5 H6 H7]. destruct m as [[d l] os cn es ls n cl sc gv]. cbn [sig stops done conn closed dialled] in *.
    unfold stop_move. cbn [stops done sig]. destruct (l !! i) as [[]|] eqn:E; cbn; try done.
    + intros [= <-]. split; try done; cbn [set_sig sig closed done].
      all: rewrite (at_pc_insert l i Shut Called _ d d) by done; destruct d; rewrite bool_decide_eq_false_2 by done; done.
    + destruct d; [done|]. intros [= <-]. destruct (H5 eq_refl) as [Hz ->]. split; try done; cbn [set_sig sig closed].
      rewrite (at_pc_insert l i Shut Passed _ true false) by done. rewrite Hz, size_empty, bool_decide_eq_true_2 by done. lia.
    + intros [= <-]. pose proof (at_pc_leave l i Shut Returned d d E ltac:(done)) as Hl. rewrite <-Hl in H4, H5.
      assert (at_pc Shut {| done := d; stops := <[i:=Returned]> l |} = 0) as Hz by lia.
      assert (size cl = 0) as Hs by lia. apply size_empty_iff in Hs. apply leibniz_equiv in Hs as ->.
      split; try done; unfold close_conn, stop_returns; cbn [ sig conn closed dialled stop_returns done stops].
      * destruct cn as [c|]; [|set_solver]. intros c' Hc'. specialize (H2 c eq_refl). set_solver.
      * rewrite Hz. destruct cn; rewrite union_empty_r_L; [by rewrite size_singleton|rewrite size_empty; lia].
      * intros ->. destruct (H5 eq_refl) as [H _]. lia.
  - destruct (loops m !! j) as [l|] eqn:E; [|done]. by apply loop_ok.
Qed.
Lemma monitor_reachable (ms : list move) (m : Monitor) : run exec ms NewMonitor = Next m -> mon_ok m.
Proof. apply (run_keeps exec mon_ok monitor_exec_ok), NewMonitor_ok. Qed.
Lemma monitor_exec_sig (x : move) (m m' : Monitor) : exec x m = Next m' -> sig_next (sig m) (sig m').
Proof.
  destruct x as [fn| | |i|j x]; cbn [exec].
  - intros [= <-]. apply sig_next_refl.
  - intros [= <-]. apply sig_next_refl.
  - intros [= <-]. apply sig_next_call.
  - destruct (stops (sig m) !! i) as [[]|] eqn:E.
    4: by unfold stop_move; rewrite E.
    3: intros [= <-]; by apply sig_next_returns.
    all: destruct (stop_move i (sig m)) as [s| |] eqn:Em; try done; intros [= <-]; by eapply stop_move_next.
  - destruct (loops m !! j) as [[p b]|]; [|done]. unfold loop_exec. cbn [pc backoff].
    destruct p as [| | |c|c|c line|c ev [|fn rest]|], x; try done; repeat case_match; try done; intros [= <-]; apply sig_next_refl.
Qed.
Lemma monitor_exec_crash (x : move) (m : Monitor) : exec x m = Crash -> done (sig m) = true /\ 0 < at_pc Passed (sig m).
Proof.
  destruct x as [fn| | |i|j x]; cbn [exec]; try done.
  - destruct (stop_move i (sig m)) as [s| |] eqn:Em; repeat case_match; try done; intros _; by eapply stop_move_crash.
  - destruct (loops m !! j) as [[p b]|]; [|done]. unfold loop_exec. cbn [pc backoff].
    destruct p as [| | |c|c|c line|c ev [|fn rest]|], x; try done; repeat case_match; done.
Qed.
End Invariant.

(** ** Properties *)

(** C26. Whatever the interleaving of loops, registrations and calls of Stop, the
    history is the last hundred of the scanned events; every event is given
    exactly once to each observer that was registered when it was scanned, up
    to the calls still due; and the monitor closes at most one of all the
    connections it dialled, so every reconnection leaves one open. *)
Theorem monitor_delivers (C : EventCodec) (ms : list move) (m : Monitor) :
  run exec ms NewMonitor = Next m ->
  Events m = last_n maxEventHistory (map fst (scanned m)) /\
  given m ++ concat (map pending (loops m)) ≡ₚ flat_map calls_of (scanned m) /\
  dialled m - 1 <= size (open_conns m).
Proof.
  intros H. apply monitor_reachable in H as [H1 H2 H3 H4 H5 H6 H7]. split_and!; [done|done|].
  unfold open_conns. rewrite size_difference by (intros c Hc; apply elem_of_set_seq; specialize (H3 c Hc); lia).
  rewrite size_set_seq. lia.
Qed.

(** How many moves a loop can still make once [done] is closed. *)
Definition left (p : place) : nat :=
  match p with
  | Ended => 0 | Top => 1 | Pausing | Testing _ _ => 2 | Scanning _ => 3 | Install _ => 4 | Dialling => 5
  | Giving _ _ rest => 4 + length rest
  end.
Definition work (m : Monitor) : nat := sum_list (map (fun l => left (pc l)) (loops m)).
Definition is_loop (x : move) : bool := match x with Loop _ _ => true | _ => false end.
Definition is_start (x : move) : bool := match x with CallStart => true | _ => false end.
Definition count (f : move -> bool) (ms : list move) : nat := sum_list (map (fun x => if f x then 1 else 0) ms).

(** A loop that is past its dial: the connection it reads is the installed one. *)
Definition settled (cn : option nat) (l : loop) : Prop :=
  match pc l with Dialling | Install _ => False | p => forall c, conn_of p = Some c -> cn = Some c end.

Section Stopped.
Context `{C : EventCodec}.

Lemma loop_work (j : nat) (l : loop) (x : loop_move) (m m' : Monitor) :
  done (sig m) = true -> loops m !! j = Some l -> loop_exec j l x m = Next m' -> done (sig m') = true /\ S (work m') <= work m.
Proof.
  intros Hd H. assert (forall l', left (pc l') < left (pc l) ->
    S (sum_list (map (fun l => left (pc l)) (<[j := l']> (loops m)))) <= work m) as Hw.
  { intros l' Hl. pose proof (sum_insert (fun l => left (pc l)) _ j l l' H). unfold work. cbn beta in *. lia. }
  destruct l as [p b]. unfold loop_exec. cbn [pc backoff] in *. rewrite Hd.
  destruct p as [| | |c|c|c line|c ev [|fn rest]|], x; try done; intros [= <-]; (split; [done|]).
  all: apply Hw; cbn; lia.
Qed.
Lemma done_work (x : move) (m m' : Monitor) : done (sig m) = true -> exec x m = Next m' ->
  done (sig m') = true /\ (if is_loop x then 1 else 0) + work m' <= (if is_start x then 1 else 0) + work m.
Proof.
  intros Hd H. assert (done (sig m') = true) as Hd' by by apply monitor_exec_sig in H as [H _]; destruct (H Hd).
  split; [done|]. destruct x as [fn| | |i|j x]; cbn [exec is_loop is_start] in *.
  - by injection H as <-.
  - injection H as <-. unfold work. cbn [Start loops]. rewrite sum_snoc. cbn. lia.
  - by injection H as <-.
  - unfold moved_map in H. by repeat case_match; simplify_eq.
  - destruct (loops m !! j) as [l|] eqn:E; [|done]. apply (loop_work j l) in H as [_ H]; [lia|done..].
Qed.
Lemma stopped_bound (ms : list move) (m m' : Monitor) : done (sig m) = true -> run exec ms m = Next m' ->
  count is_loop ms + work m' <= count is_start ms + work m.
Proof. intros Hd H. by apply (run_measure exec (fun m => done (sig m) = true) work _ _ done_work ms m m'). Qed.

(** With [done] closed, no loop that is past its dial dials again. *)
Lemma settled_exec (x : move) (m m' : Monitor) : done (sig m) = true -> Forall (settled (conn m)) (loops m) -> exec x m = Next m' ->
  conn m' = conn m /\ Forall (settled (conn m)) (loops m').
Proof.
  intros Hd Hs H. destruct x as [fn| | |i|j x]; cbn [exec] in H.
  - by injection H as <-.
  - injection H as <-. split; [done|]. apply Forall_app. split; [done|]. by constructor.
  - by injection H as <-.
  - unfold moved_map in H. by repeat case_match; simplify_eq.
  - destruct (loops m !! j) as [[p b]|] eqn:E; [|done]. pose proof (Forall_lookup_1 _ _ _ _ Hs E) as Hl.
    unfold loop_exec, settled in *. cbn [pc backoff] in *. rewrite Hd in H.
    destruct p as [| | |c|c|c line|c ev [|fn rest]|], x; try done; injection H as <-.
    all: split; [done|]; apply Forall_insert; [done|]; first [exact Hl|done].
Qed.

(** The installed connection is closed as soon as no call is between the close
    of [done] and its end. *)
Definition shut_ok (m : Monitor) : Prop := at_pc Shut (sig m) = 0 -> forall c, conn m = Some c -> c ∈ closed m.
Lemma shut_exec (x : move) (m m' : Monitor) : done (sig m) = true -> Forall (settled (conn m)) (loops m) -> shut_ok m ->
  exec x m = Next m' -> shut_ok m'.
Proof.
  intros Hd Hs Hk H. destruct (settled_exec x m m' Hd Hs H) as [Hc _]. unfold shut_ok. rewrite Hc.
  destruct x as [fn| | |i|j x]; cbn [exec] in H.
  - by injection H as <-.
  - by injection H as <-.
  - injection H as <-. cbn [set_sig sig closed]. by rewrite at_pc_call.
  - destruct m as [[d l] os cn es ls n cl sc gv]. cbn [sig stops done conn] in *. subst d.
    unfold stop_move in H. cbn [stops done] in H. destruct (l !! i) as [[]|] eqn:E; try done; injection H as <-.
    + cbn [set_sig sig closed]. rewrite (at_pc_insert l i Shut Called _ true true), bool_decide_eq_false_2 by done. exact Hk.
    + intros _ c ->. cbn. set_solver.
  - destruct (loops m !! j) as [[p b]|] eqn:E; [|done]. pose proof (Forall_lookup_1 _ _ _ _ Hs E) as Hl.
    unfold loop_exec, settled in *. cbn [pc backoff] in *. rewrite Hd in H.
    destruct p as [| | |c|c|c line|c ev [|fn rest]|], x; try done; injection H as <-; exact Hk.
Qed.
Lemma stopped_run (ms : list move) (m m' : Monitor) :
  done (sig m) = true -> Forall (settled (conn m)) (loops m) -> shut_ok m -> run exec ms m = Next m' ->
  done (sig m') = true /\ Forall (settled (conn m')) (loops m') /\ shut_ok m'.
Proof.
  intros Hd Hs Hk.
  apply (run_keeps exec (fun m => done (sig m) = true /\ Forall (settled (conn m)) (loops m) /\ shut_ok m)); [|done].
  intros x t t' (Td & Ts & Tk) H. destruct (settled_exec x t t' Td Ts H) as [Hc Hl]. split_and!.
  - by destruct (done_work x t t' Td H).
  - by rewrite Hc.
  - by apply (shut_exec x t t').
Qed.

(** While there is one loop, it reads the connection it installed. *)
Definition reads_installed (m : Monitor) : Prop :=
  length (loops m) <= 1 -> forall l, l ∈ loops m -> (forall c, pc l <> Install c) -> forall c, conn_of (pc l) = Some c -> conn m = Some c.
Lemma reads_exec (x : move) (m m' : Monitor) : reads_installed m -> exec x m = Next m' -> reads_installed m'.
Proof.
  intros Hr H. destruct x as [fn| | |i|j x]; cbn [exec] in H.
  - by injection H as <-.
  - injection H as <-. unfold reads_installed. cbn [Start loops conn]. rewrite length_app. cbn. intros Hn.
    destruct (loops m); [|cbn in *; lia]. by intros l [->|[]%elem_of_nil]%elem_of_cons.
  - by injection H as <-.
  - unfold moved_map in H. by repeat case_match; simplify_eq.
  - destruct (loops m !! j) as [l|] eqn:E; [|done].
    assert (length (loops m) <= 1 -> loops m = [l] /\ j = 0) as Hone.
    { intros Hn. destruct (loops m) as [|a [|b ls]]; [done| |cbn in Hn; lia]. destruct j; [|done]. by injection E as ->. }
    unfold reads_installed in *. destruct l as [p b].
    unfold loop_exec in H. cbn [pc backoff] in H.
    destruct p as [| | |c|c|c line|c ev [|fn rest]|], x; try done; repeat case_match; try done; injection H as <-;
      unfold set_loop, dial_ok, install, take_event, give; cbn [loops conn]; rewrite length_insert;
      intros Hn; destruct (Hone Hn) as [-> ->]; cbn; intros l [->|[]%elem_of_nil]%elem_of_cons Hi c'; cbn in *; try done.
    all: first [by destruct (Hi _ eq_refl)|intros [= <-]; by eapply (Hr Hn _ (list_elem_of_lookup_2 _ _ _ E))].
Qed.
End Stopped.

(** C27. Stop ends the monitor, unless its loop is dialling: from the close of
    [done] by a call of Stop on, the loops make a bounded number of moves (plus
    one for each later Start), and once no call of Stop is between its two
    halves every loop is over, can go on without waiting for anything, or is in
    the scanner of a connection the monitor has closed. *)
Theorem stop_ends_monitor (C : EventCodec) (ms ms' : list move) (m m1 m' : Monitor) (i : nat) :
  run exec ms NewMonitor = Next m -> length (loops m) <= 1 ->
  (forall l, l ∈ loops m -> pc l <> Dialling /\ forall c, pc l <> Install c) ->
  done (sig m) = false -> exec (StopStep i) m = Next m1 -> done (sig m1) = true -> run exec ms' m1 = Next m' ->
  count is_loop ms' + work m' <= count is_start ms' + work m /\
  (at_pc Shut (sig m') = 0 -> forall j l, loops m' !! j = Some l ->
    pc l = Ended \/ (exists x m'', x ∈ [Step; PauseDone] /\ exec (Loop j x) m' = Next m'') \/
    exists c, pc l = Scanning c /\ c ∈ closed m').
Proof.
  intros H Hn Hq Hd H1 Hd1 H'.
  assert (reads_installed m) as Hr.
  { apply (run_keeps exec reads_installed reads_exec ms NewMonitor); [|done]. by intros _ l []%elem_of_nil. }
  assert (loops m1 = loops m /\ conn m1 = conn m /\ 0 < at_pc Shut (sig m1)) as (El & Ec & Hs).
  { destruct m as [[d l] os cn es ls n cl sc gv]. cbn [sig stops done exec] in *. subst d.
    unfold stop_move in H1. cbn [stops done] in H1. destruct (l !! i) as [[]|] eqn:E; try done; injection H1 as <-; try done.
    split_and!; [done..|]. eapply (at_pc_pos _ _ i). cbn. apply list_lookup_insert_eq. by eapply lookup_lt_Some. }
  assert (Forall (settled (conn m1)) (loops m1)) as Hl.
  { rewrite El, Ec. apply Forall_forall. intros [p b] Hin. destruct (Hq _ Hin) as [Hq1 Hq2]. specialize (Hr Hn _ Hin Hq2).
    unfold settled. cbn [pc] in *. destruct p; try done. by destruct (Hq2 c). }
  assert (shut_ok m1) as Hk by (intros Hz; lia). split.
  - assert (work m1 = work m) as <- by by unfold work; rewrite El. by apply stopped_bound.
  - destruct (stopped_run ms' m1 m' Hd1 Hl Hk H') as (Hd' & Hl' & Hk'). intros Hz j [p b] E.
    pose proof (Forall_lookup_1 _ _ _ _ Hl' E) as Hp. specialize (Hk' Hz). unfold settled in Hp. cbn [pc exec] in *.
    destruct p as [| | |c|c|c line|c ev [|fn rest]|]; try done; [..|by left].
    all: right; try (right; exists c; split; [done|by apply Hk', Hp]); left.
    2: exists PauseDone. 1,3,4,5: exists Step. all: rewrite E; cbn; rewrite ?Hd'; eexists; split; [set_solver|reflexivity].
Qed.

(** A guest whose every line is an event. *)
Definition plain_event (l : string) : SecurityEvent :=
  {| Type_ := l; Severity := "critical"; Detail := EmptyString; PID := 0; Remediation := EmptyString; Timestamp := 0 |}.
Definition plain_codec : EventCodec := fun l => Some (plain_event l).
Definition connects (j : nat) : list move := [Loop j Step; Loop j DialOk; Loop j Step].
Definition one_line (j : nat) (l : string) : list move := [Loop j (Scan l); Loop j Step; Loop j Step; Loop j Step].
Definition after (ms : list move) : Monitor := match @run _ _ (@exec plain_codec) ms NewMonitor with Next m => m | _ => NewMonitor end.

Lemma monitor_delivers_witness :
  let m := after (Register 7 :: CallStart :: connects 0 ++ one_line 0 "canary" ++ [Loop 0 ScanEnd] ++ connects 0) in
  Events m = [plain_event "canary"] /\ given m = [(7, plain_event "canary")] /\ dialled m = 2 /\ dialled m - 1 <= size (open_conns m).
Proof.
  intros m. split_and!; [reflexivity..|].
  refine (proj2 (proj2 (monitor_delivers plain_codec
    (Register 7 :: CallStart :: connects 0 ++ one_line 0 "canary" ++ [Loop 0 ScanEnd] ++ connects 0) m _))).
  vm_compute. reflexivity.
Defined.

Lemma stop_ends_monitor_witness :
  let ms := CallStart :: connects 0 ++ [CallStop; StopStep 0] in
  let m := after ms in let m1 := after (ms ++ [StopStep 0]) in
  let m' := after (ms ++ [StopStep 0; StopStep 0; Loop 0 ScanEnd]) in
  done (sig m) = false /\ done (sig m1) = true /\
  count is_loop [StopStep 0; Loop 0 ScanEnd] + work m' <= work m /\
  forall j l, loops m' !! j = Some l ->
    pc l = Ended \/ (exists x m'', x ∈ [Step; PauseDone] /\ @exec plain_codec (Loop j x) m' = Next m'') \/
    exists c, pc l = Scanning c /\ c ∈ closed m'.
Proof.
  intros ms m m1 m'.
  destruct (stop_ends_monitor plain_codec ms [StopStep 0; Loop 0 ScanEnd] m m1 m' 0) as [H1 H2].
  1, 2, 4, 5, 6, 7: by vm_compute.
  - intros l [->|[]%elem_of_nil]%elem_of_cons; by split.
  - split_and!; [by vm_compute..|exact H1|]. apply H2. by vm_compute.
Defined.

Section Misses.
Context `{C : EventCodec}.

(** A move that brings the loop [j] nothing from the guest. *)
Definition unheard (j : nat) (x : move) : bool :=
  match x with Loop k (Scan _ | ScanEnd) => negb (bool_decide (k = j)) | _ => true end.
Definition waits (j c : nat) (m : Monitor) : Prop :=
  done (sig m) = true /\ at_pc Passed (sig m) = 0 /\ at_pc Shut (sig m) = 0 /\ c ∉ closed m /\ c < dialled m /\
  exists b, loops m !! j = Some {| pc := Scanning c; backoff := b |}.
Lemma waits_exec (j c : nat) (x : move) (m m' : Monitor) : waits j c m -> unheard j x = true -> exec x m = Next m' -> waits j c m'.
Proof.
  intros (Hd & Hp & Hs & Hc & Hn & b & Hl) Hu H. destruct x as [fn| | |i|k x]; cbn [exec] in H.
  - injection H as <-. split_and!; [done..|by exists b].
  - injection H as <-. split_and!; [done..|]. exists b. cbn. by rewrite lookup_app_l by (by eapply lookup_lt_Some).
  - injection H as <-. split_and!; cbn [set_sig sig closed]; [done|by rewrite at_pc_call..|done|done|by exists b].
  - destruct m as [[d l] os cn es ls n cl sc gv]. cbn [sig stops done closed loops] in *. subst d.
    unfold stop_move in H. cbn [stops done] in H. destruct (l !! i) as [[]|] eqn:E; try done; injection H as <-.
    + split_and!; cbn [set_sig sig closed loops]; [done|..|done|done|by exists b].
      all: by rewrite (at_pc_insert l i _ Called _ true true), bool_decide_eq_false_2 by done.
    + pose proof (at_pc_pos Shut {| done := true; stops := l |} i E). lia.
  - destruct (loops m !! k) as [[p b']|] eqn:E; [|done]. destruct (decide (k = j)) as [->|Hk].
    + rewrite E in Hl. injection Hl as -> ->. unfold loop_exec in H. cbn [pc] in H. destruct x; try done; cbn in Hu; by rewrite bool_decide_eq_true_2 in Hu.
    + unfold loop_exec in H. cbn [pc backoff] in H. rewrite Hd in H.
      destruct p as [| | |c'|c'|c' line|c' ev [|fn rest]|], x; try done; injection H as <-.
      all: split_and!; cbn; [done..|lia|]; exists b; by rewrite list_lookup_insert_ne.
Qed.
End Misses.

(** Stop misses a loop that is dialling: when every call of Stop is over and
    the dial then succeeds, the loop waits in the scanner of a connection the
    monitor does not close, whatever else is called (Stop again included), for
    as long as the guest neither sends a line nor hangs up. *)
Theorem stop_misses_dial (C : EventCodec) (ms : list move) (m : Monitor) (j : nat) (l : loop) :
  run exec ms NewMonitor = Next m -> loops m !! j = Some l -> pc l = Dialling ->
  done (sig m) = true -> at_pc Passed (sig m) = 0 -> at_pc Shut (sig m) = 0 ->
  exists m1, run exec [Loop j DialOk; Loop j Step] m = Next m1 /\
    forall ms' m', forallb (unheard j) ms' = true -> run exec ms' m1 = Next m' ->
      (exists b, loops m' !! j = Some {| pc := Scanning (dialled m); backoff := b |}) /\ dialled m ∈ open_conns m'.
Proof.
  intros H Hl Hp Hd Hps Hs. pose proof (monitor_reachable ms m H) as Hm. destruct l as [p b]. cbn in Hp. subst p.
  eexists. split; [|intros ms' m' Hu H'].
  { cbn. rewrite Hl. cbn. rewrite list_lookup_insert_eq by (by eapply lookup_lt_Some). reflexivity. }
  cbn [pc] in H'. match type of H' with run _ _ ?x = _ => assert (waits j (dialled m) x) as Hw end.
  { split_and!; cbn [install dial_ok closed loops dialled]; [done..| |lia|].
    - intros Hc. pose proof (ok_closed m Hm _ Hc). lia.
    - eexists. apply list_lookup_insert_eq. rewrite length_insert. by eapply lookup_lt_Some. }
  apply (run_keeps_if exec (unheard j) (waits j (dialled m)) (fun x t t' W => waits_exec j _ x t t' W)) in H' as (_ & _ & _ & Hc & Hlt & Hl'); [|done..].
  split; [done|]. apply elem_of_difference. split; [apply elem_of_set_seq; lia|done].
Qed.
Lemma stop_misses_dial_witness :
  let ms := [CallStart; Loop 0 Step; CallStop; StopStep 0; StopStep 0; StopStep 0] in
  let m := after ms in let ms' := [CallStop; StopStep 1; Register 3] in
  let m' := after (ms ++ [Loop 0 DialOk; Loop 0 Step] ++ ms') in
  (exists b, loops m' !! 0 = Some {| pc := Scanning (dialled m); backoff := b |}) /\ dialled m ∈ open_conns m'.
Proof.
  intros ms m ms' m'.
  destruct (stop_misses_dial plain_codec ms m 0 {| pc := Dialling; backoff := Second |}) as (m1 & H1 & H).
  1, 2, 3, 4, 5, 6: by vm_compute.
  apply (H ms' m'); [done|]. vm_compute in H1. injection H1 as <-. by vm_compute.
Defined.

(** The monitor panics only when two calls of Stop have passed their test of
    [done] and neither has closed it yet, and it does then. *)
Theorem monitor_panics_by_race (C : EventCodec) (ms : list move) :
  run exec ms NewMonitor = Crash ->
  exists ms1 ms2 m, ms = ms1 ++ ms2 /\ run exec ms1 NewMonitor = Next m /\ done (sig m) = false /\ 2 <= at_pc Passed (sig m).
Proof.
  intros H. eapply (crash_from_race exec sig monitor_exec_sig monitor_exec_crash); [|exact H]. done.
Qed.
Lemma monitor_panics_by_race_witness :
  exists ms1 ms2 m, [CallStop; CallStop; StopStep 0; StopStep 1; StopStep 0; StopStep 1] = ms1 ++ ms2 /\
    @run _ _ (@exec plain_codec) ms1 NewMonitor = Next m /\ done (sig m) = false /\ 2 <= at_pc Passed (sig m).
Proof. by apply monitor_panics_by_race. Defined.
