(* ===== verification/Browser.v ===== *)
(** * The browser engine: [lifecycle/browser.go] over [vm/browser.go]

    The goroutines of the engine as one executable step function: the run
    goroutine, the handler of a critical event (which runs in the monitor's
    read loop), and the goroutine that waits for the process.  Every step is
    what happens between two points where another goroutine can run; a step
    writes the state at most once, at its end, so that the observers of the
    state are told between it and the next step of its goroutine
    ([BrowserPanel]).  One critical event is handled at a time, and [Start] is
    not called while a run is in progress. *)

From S2P Require Import Prelude GoStrings StringFacts.
Local Open Scope nat_scope.

Inductive BrowserState := Idle | WaitingForTor | Starting | Running | Compromised | Stopping.
#[export] Instance BrowserState_eq_dec : EqDecision BrowserState.
Proof. solve_decision. Defined.
Definition BrowserState_names : list string :=
  ["Idle"; "WaitingForTor"; "Starting"; "Running"; "Compromised"; "Stopping"].

(** The error of an exit: [None] is nil. *)
Definition exit : Type := option error.

(** Where the run goroutine is: a channel number is the channel its [select]
    evaluated. *)
Inductive run_pc :=
  | RNone                  (* no run *)
  | RPoll                  (* waiting for Tor *)
  | RStart                 (* before [VM.Start] *)
  | RMonitor               (* before [OnEvent] and [SecMonitor.Start] *)
  | RToReport              (* before the transition to [Running] *)
  | RToWait                (* before [VM.Wait] *)
  | RWait (ch : nat)       (* in [VM.Wait] *)
  | RAfter (err : exit)    (* before [SecMonitor.Stop] and the transition to [Stopping] *)
  | RToCheck (err : exit)  (* before [VM.IsRunning] *)
  | RStop (ch : nat) (err : exit)  (* in the [select] of [VM.Stop] *)
  | RDone (err : exit).
(** Where the handler is. *)
Inductive handler_pc :=
  | HIdle
  | HGot          (* a critical event was read, the observers are about to be called *)
  | HToCheck      (* before [VM.IsRunning] *)
  | HStop (ch : nat) | HSleep | HRestart
  | HToObserve    (* before [SecMonitor.Start] *)
  | HToReport.    (* before the transition to [Running] *)

Record sys := {
  state : BrowserState;
  tor : bool;                    (* the Tor engine is in [Running] *)
  cancelled : bool;              (* the context of the run *)
  over : bool;                   (* the run whose context the handlers hold is over *)
  running : bool;                (* [BrowserInstance.running] *)
  cur : nat;                     (* the channel the field [waitErr] holds; also the last process *)
  chans : gmap nat exit;         (* what is buffered, by channel *)
  alive : list nat;
  exited : list (nat * exit);    (* [cmd.Wait] returned, [running] not yet cleared *)
  sending : list (nat * exit);   (* [running] cleared, exit not yet sent *)
  rpc : run_pc;
  hpc : handler_pc;
  mon_done : bool;               (* the monitor's [done] is closed *)
  loops : nat;                   (* read loops of the monitor *)
  observers : nat                (* handlers registered with [OnEvent] *)
}.
Definition NewBrowserEngine : sys := {|
  state := Idle; tor := false; cancelled := false; over := false; running := false; cur := 0; chans := ∅; alive := [];
  exited := []; sending := []; rpc := RNone; hpc := HIdle; mon_done := false; loops := 0; observers := 0 |}.

Definition set_state (x : BrowserState) (s : sys) : sys := {|
  state := x; tor := tor s; cancelled := cancelled s; over := over s; running := running s; cur := cur s; chans := chans s;
  alive := alive s; exited := exited s; sending := sending s; rpc := rpc s; hpc := hpc s; mon_done := mon_done s;
  loops := loops s; observers := observers s |}.
Definition set_env (t c : bool) (s : sys) : sys := {|
  state := state s; tor := t; cancelled := c; over := over s; running := running s; cur := cur s; chans := chans s;
  alive := alive s; exited := exited s; sending := sending s; rpc := rpc s; hpc := hpc s; mon_done := mon_done s;
  loops := loops s; observers := observers s |}.
Definition set_over (o : bool) (s : sys) : sys := {|
  state := state s; tor := tor s; cancelled := cancelled s; over := o; running := running s; cur := cur s;
  chans := chans s; alive := alive s; exited := exited s; sending := sending s; rpc := rpc s; hpc := hpc s;
  mon_done := mon_done s; loops := loops s; observers := observers s |}.
Definition set_pc (r : run_pc) (h : handler_pc) (s : sys) : sys := {|
  state := state s; tor := tor s; cancelled := cancelled s; over := over s; running := running s; cur := cur s; chans := chans s;
  alive := alive s; exited := exited s; sending := sending s; rpc := r; hpc := h; mon_done := mon_done s;
  loops := loops s; observers := observers s |}.
Definition set_monitor (d : bool) (n o : nat) (s : sys) : sys := {|
  state := state s; tor := tor s; cancelled := cancelled s; over := over s; running := running s; cur := cur s; chans := chans s;
  alive := alive s; exited := exited s; sending := sending s; rpc := rpc s; hpc := hpc s; mon_done := d;
  loops := n; observers := o |}.
Definition set_vm (r : bool) (c : nat) (m : gmap nat exit) (a : list nat) (e g : list (nat * exit)) (s : sys) : sys := {|
  state := state s; tor := tor s; cancelled := cancelled s; over := over s; running := r; cur := c; chans := m; alive := a;
  exited := e; sending := g; rpc := rpc s; hpc := hpc s; mon_done := mon_done s; loops := loops s;
  observers := observers s |}.
Definition at_run (r : run_pc) (s : sys) : sys := set_pc r (hpc s) s.
Definition at_handler (h : handler_pc) (s : sys) : sys := set_pc (rpc s) h s.

(** [BrowserInstance.Start], with the outcome of its checks and of the launch;
    a new channel replaces the field. *)
Definition vm_Start (ok : bool) (s : sys) : option sys :=
  if running s then None
  else if ok then Some (set_vm true (S (cur s)) (chans s) (S (cur s) :: alive s) (exited s) (sending s) s)
  else None.
(** Receiving from a channel. *)
Definition receive (ch : nat) (s : sys) : option (exit * sys) :=
  match chans s !! ch with
  | Some e => Some (e, set_vm (running s) (cur s) (delete ch (chans s)) (alive s) (exited s) (sending s) s)
  | None => None
  end.
(** [SecMonitor.Start]: a loop that finds [done] closed returns at once. *)
Definition mon_Start (s : sys) : sys := set_monitor (mon_done s) (if mon_done s then loops s else S (loops s)) (observers s) s.
Definition mon_Stop (s : sys) : sys := set_monitor true 0 (observers s) s.
Definition take_exited (n : nat) (l : list (nat * exit)) : option ((nat * exit) * list (nat * exit)) :=
  match List.find (fun e => e.1 =? n) l with
  | Some e => Some (e, List.filter (fun x => negb (x.1 =? n)) l)
  | None => None
  end.

Inductive step :=
  | SetTor (b : bool) | Cancel
  | RBegin | RTor | RCancelPoll | RLaunch (ok : bool) | RObserve | RReport | REnter | RRecv | RCancelWait
  | RShut | RCheck | RStopRecv | RStopTimeout
  | HRead | HEvent | HCheck | HStopRecv | HStopTimeout | HCancel | HWake | HLaunch (ok : bool) | HObserve | HReport
  | PExit (n : nat) (e : exit) | PMark (n : nat) | PSend (n : nat).

Section Exec.
Context (AutoRemediate : bool) (ctxErr : exit).

(** The handler after the compromised machine was stopped. *)
Definition after_stop (s : sys) : sys := at_handler (if AutoRemediate then HSleep else HIdle) s.

Definition exec (a : step) (s : sys) : option sys :=
  match a with
  | SetTor b => Some (set_env b (cancelled s) s)
  | Cancel => Some (set_env (tor s) true s)
  (* the run goroutine *)
  | RBegin =>
      match rpc s with
      | RNone | RDone _ =>
          let s' := set_over (mon_done s) (set_env (tor s) false s) in
          Some (if tor s then at_run RStart (set_state Starting s') else at_run RPoll (set_state WaitingForTor s'))
      | _ => None
      end
  | RTor =>
      match rpc s with
      | RPoll => if tor s then Some (at_run RStart (set_state Starting s)) else None
      | _ => None
      end
  | RCancelPoll =>
      match rpc s with RPoll => if cancelled s then Some (at_run (RDone ctxErr) s) else None | _ => None end
  | RLaunch ok =>
      match rpc s with
      | RStart =>
          match vm_Start ok s with
          | Some s' => Some (at_run RMonitor s')
          | None => Some (set_env (tor s) true (at_run (RDone (Some (Errorf "browser VM start"))) (set_state Idle s)))
          end
      | _ => None
      end
  | RObserve =>
      match rpc s with
      | RMonitor =>
          Some (at_run RToReport (mon_Start (set_monitor (mon_done s) (loops s) (S (observers s)) s)))
      | _ => None
      end
  | RReport => match rpc s with RToReport => Some (at_run RToWait (set_state Running s)) | _ => None end
  | REnter => match rpc s with RToWait => Some (at_run (RWait (cur s)) s) | _ => None end
  | RRecv =>
      match rpc s with
      | RWait ch => match receive ch s with Some (e, s') => Some (at_run (RAfter e) s') | None => None end
      | _ => None
      end
  | RCancelWait =>
      match rpc s with RWait _ => if cancelled s then Some (at_run (RAfter ctxErr) s) else None | _ => None end
  | RShut =>
      match rpc s with
      | RAfter e => Some (at_run (RToCheck e) (set_state Stopping (mon_Stop s)))
      | _ => None
      end
  | RCheck =>
      match rpc s with
      | RToCheck e =>
          Some (if running s then at_run (RStop (cur s) e) s
                else set_env (tor s) true (at_run (RDone e) (set_state Idle s)))
      | _ => None
      end
  | RStopRecv =>
      match rpc s with
      | RStop ch e =>
          match receive ch s with
          | Some (_, s') => Some (set_env (tor s) true (at_run (RDone e) (set_state Idle s')))
          | None => None
          end
      | _ => None
      end
  | RStopTimeout =>
      match rpc s with
      | RStop _ e => Some (set_env (tor s) true (at_run (RDone e) (set_state Idle s)))
      | _ => None
      end
  (* a loop of the monitor reads a critical event: [done] was tested and the observers were copied *)
  | HRead =>
      match hpc s with
      | HIdle => if (0 <? loops s) && negb (mon_done s) && (0 <? observers s) then Some (at_handler HGot s) else None
      | _ => None
      end
  (* [handleCompromise] *)
  | HEvent =>
      match hpc s with
      | HGot => Some (at_handler HToCheck (set_state Compromised s))
      | _ => None
      end
  | HCheck =>
      match hpc s with
      | HToCheck => Some (if running s then at_handler (HStop (cur s)) s else after_stop s)
      | _ => None
      end
  | HStopRecv =>
      match hpc s with
      | HStop ch => match receive ch s with Some (_, s') => Some (after_stop s') | None => None end
      | _ => None
      end
  | HStopTimeout => match hpc s with HStop _ => Some (after_stop s) | _ => None end
  | HCancel => match hpc s with HSleep => if cancelled s || over s then Some (at_handler HIdle s) else None | _ => None end
  | HWake =>
      match hpc s with
      | HSleep => Some (if tor s then at_handler HRestart (set_state Starting s) else at_handler HIdle s)
      | _ => None
      end
  | HLaunch ok =>
      match hpc s with
      | HRestart =>
          match vm_Start ok s with
          | Some s' => Some (at_handler HToObserve s')
          | None => Some (at_handler HIdle (set_state Idle s))
          end
      | _ => None
      end
  | HObserve => match hpc s with HToObserve => Some (at_handler HToReport (mon_Start s)) | _ => None end
  | HReport => match hpc s with HToReport => Some (at_handler HIdle (set_state Running s)) | _ => None end
  (* the process and its goroutine *)
  | PExit n e =>
      if decide (n ∈ alive s) then
        Some (set_vm (running s) (cur s) (chans s) (List.filter (fun x => negb (x =? n)) (alive s))
                ((n, e) :: exited s) (sending s) s)
      else None
  | PMark n =>
      match take_exited n (exited s) with
      | Some (e, l) => Some (set_vm false (cur s) (chans s) (alive s) l (e :: sending s) s)
      | None => None
      end
  | PSend n =>
      match take_exited n (sending s), chans s !! cur s with
      | Some (e, l), None => Some (set_vm (running s) (cur s) (<[cur s := e.2]> (chans s)) (alive s) (exited s) l s)
      | _, _ => None
      end
  end.
Fixpoint run (h : list step) (s : sys) : option sys :=
  match h with [] => Some s | a :: h' => match exec a s with Some s' => run h' s' | None => None end end.

(** ** At most one machine *)

Record vm_inv (s : sys) : Prop := {
  vi_one : length (alive s) + length (exited s) = if running s then 1 else 0;
  vi_cur : forall n, n ∈ alive s ++ map fst (exited s) -> n = cur s
}.

(** The fields the invariant does not mention. *)
Create HintDb browser.
Lemma vm_inv_state (x : BrowserState) (s : sys) : vm_inv s -> vm_inv (set_state x s).
Proof. intros []. by split. Qed.
Lemma vm_inv_env (t c : bool) (s : sys) : vm_inv s -> vm_inv (set_env t c s).
Proof. intros []. by split. Qed.
Lemma vm_inv_over (o : bool) (s : sys) : vm_inv s -> vm_inv (set_over o s).
Proof. intros []. by split. Qed.
Lemma vm_inv_pc (r : run_pc) (h : handler_pc) (s : sys) : vm_inv s -> vm_inv (set_pc r h s).
Proof. intros []. by split. Qed.
Lemma vm_inv_monitor (d : bool) (n o : nat) (s : sys) : vm_inv s -> vm_inv (set_monitor d n o s).
Proof. intros []. by split. Qed.
#[local] Hint Resolve vm_inv_state vm_inv_env vm_inv_over vm_inv_pc vm_inv_monitor : browser.

Lemma take_exited_one (n : nat) (l : list (nat * exit)) (e : nat * exit) (l' : list (nat * exit)) :
  length l <= 1 -> take_exited n l = Some (e, l') -> l = [e] /\ l' = [].
Proof.
  unfold take_exited. destruct l as [|e0 [|? ?]]; cbn; [done| |lia]. intros _.
  destruct (e0.1 =? n); [|done]. by intros [= <- <-].
Qed.

Lemma vm_Start_inv (ok : bool) (s s' : sys) : vm_inv s -> vm_Start ok s = Some s' -> vm_inv s'.
Proof.
  intros [H1 H2]. unfold vm_Start. destruct (running s) eqn:Hr; [done|]. destruct ok; [|done]. intros [= <-].
  destruct (alive s) eqn:Ha; [|done]. destruct (exited s) eqn:Hx; [|done].
  split; cbn; rewrite ?Ha, ?Hx; [done|]. by intros n ->%list_elem_of_singleton.
Qed.
Lemma receive_inv (ch : nat) (s : sys) (e : exit) (s' : sys) : vm_inv s -> receive ch s = Some (e, s') -> vm_inv s'.
Proof. unfold receive. intros [H1 H2]. destruct (chans s !! ch); [|done]. intros [= <- <-]. by split. Qed.

Lemma exec_vm_inv (a : step) (s s' : sys) : vm_inv s -> exec a s = Some s' -> vm_inv s'.
Proof.
  intros Hi H.
  assert (Hlen : length (exited s) <= 1) by (destruct Hi as [H1 _]; destruct (running s); lia).
  destruct a; cbn [exec] in H; unfold after_stop, at_run, at_handler, mon_Start, mon_Stop in H;
    repeat match type of H with
    | match vm_Start ?o ?x with _ => _ end = _ => destruct (vm_Start o x) as [y|] eqn:Hv; [apply vm_Start_inv in Hv; [|done]|]
    | match receive ?c ?x with _ => _ end = _ => destruct (receive c x) as [[? y]|] eqn:Hv; [apply receive_inv in Hv; [|done]|]
    | match take_exited _ _ with _ => _ end = _ => fail 1
    | (if decide _ then _ else _) = _ => fail 1
    | match ?x with _ => _ end = _ => destruct x
    | Some (if ?x then _ else _) = _ => destruct x
    end; simplify_eq; auto 8 with browser.
  - destruct (decide _) as [Hn|]; [|done]. injection H as <-. destruct Hi as [H1 H2].
    destruct (alive s) as [|n' [|? ?]] eqn:Ha; [by apply not_elem_of_nil in Hn| |destruct (running s); simpl in H1; lia].
    apply list_elem_of_singleton in Hn as ->. destruct (exited s) eqn:Hx; [|destruct (running s); simpl in H1; lia].
    split; cbn; rewrite ?Nat.eqb_refl; cbn; [done|]. intros m ->%list_elem_of_singleton. apply H2. by left.
  - destruct (take_exited n (exited s)) as [[e l]|] eqn:Ht; [|done]. injection H as <-.
    destruct (take_exited_one _ _ _ _ Hlen Ht) as [He ->]. destruct Hi as [H1 H2]. rewrite He in *.
    destruct (running s); [|simpl in H1; lia]. destruct (alive s); [|simpl in H1; lia].
    split; cbn; [done|]. by intros m ?%not_elem_of_nil.
  - destruct (take_exited n (sending s)) as [[e' l]|]; [|done]. destruct (chans s !! cur s); [done|].
    injection H as <-. destruct Hi. by split.
Qed.

(** ** What remediation and the end of a run leave behind *)

(** The run goroutine waits on a channel the machine has left. *)
Definition left_behind (g : nat) (s : sys) : Prop :=
  rpc s = RWait g /\ g < cur s /\ chans s !! g = None /\ cancelled s = false.

Lemma left_state (g : nat) (x : BrowserState) (s : sys) : left_behind g s -> left_behind g (set_state x s).
Proof. done. Qed.
Lemma left_env (g : nat) (t : bool) (s : sys) : left_behind g s -> left_behind g (set_env t (cancelled s) s).
Proof. done. Qed.
Lemma left_pc (g : nat) (h : handler_pc) (s : sys) : left_behind g s -> left_behind g (set_pc (rpc s) h s).
Proof. done. Qed.
Lemma left_monitor (g : nat) (d : bool) (n o : nat) (s : sys) : left_behind g s -> left_behind g (set_monitor d n o s).
Proof. done. Qed.
#[local] Hint Resolve left_state left_env left_pc left_monitor : browser.

Lemma vm_Start_left (g : nat) (ok : bool) (s s' : sys) : left_behind g s -> vm_Start ok s = Some s' -> left_behind g s'.
Proof.
  unfold vm_Start, left_behind. intros (H1 & H2 & H3 & H4). destruct (running s), ok; try done. intros [= <-].
  cbn. split_and!; [done|lia|done|done].
Qed.
Lemma receive_left (g ch : nat) (s : sys) (e : exit) (s' : sys) :
  left_behind g s -> receive ch s = Some (e, s') -> left_behind g s' /\ ch <> g.
Proof.
  unfold receive, left_behind. intros (H1 & H2 & H3 & H4). destruct (chans s !! ch) eqn:Hc; [|done]. intros [= <- <-].
  cbn. assert (ch <> g) by congruence. by rewrite lookup_delete_ne.
Qed.

Lemma exec_left (g : nat) (a : step) (s s' : sys) :
  a <> Cancel -> left_behind g s -> exec a s = Some s' -> left_behind g s'.
Proof.
  intros Hc Hl H. pose proof Hl as (H1 & H2 & H3 & H4).
  destruct a; try done; cbn [exec] in H; unfold after_stop, at_handler, mon_Start in H; rewrite ?H1, ?H4 in H; try done;
    repeat match type of H with
    | match vm_Start ?o ?x with _ => _ end = _ => destruct (vm_Start o x) as [y|] eqn:Hv; [apply (vm_Start_left g) in Hv; [|done]|]
    | match receive ?c ?x with _ => _ end = _ => destruct (receive c x) as [[? y]|] eqn:Hv; [apply (receive_left g) in Hv as [Hv ?]; [|done]|]
    | match take_exited _ _ with _ => _ end = _ => fail 1
    | (if decide _ then _ else _) = _ => fail 1
    | match ?x with _ => _ end = _ => destruct x eqn:?
    | Some (if ?x then _ else _) = _ => destruct x
    end; simplify_eq; try done; auto 8 with browser.
  - destruct (decide _); [|done]. by injection H as <-.
  - destruct (take_exited _ _) as [[e l]|]; [|done]. by injection H as <-.
  - destruct (take_exited _ _) as [[e' l]|]; [|done]. destruct (chans s !! cur s); [done|]. injection H as <-.
    split_and!; try done. cbn. rewrite lookup_insert_ne by lia. done.
Qed.

Definition is_event (a : step) : bool := match a with HEvent => true | _ => false end.
(** Events read and not yet handled. *)
Definition in_flight (s : sys) : nat := match hpc s with HGot => 1 | _ => 0 end.
Lemma exec_mon_done (a : step) (s s' : sys) : mon_done s = true -> exec a s = Some s' -> mon_done s' = true /\ a <> HRead.
Proof.
  intros Hm H. split.
  - destruct a; cbn [exec] in H; unfold after_stop, vm_Start, receive in H; repeat (case_match; try done); by simplify_eq.
  - intros ->. cbn [exec] in H. rewrite Hm, andb_false_r in H. by destruct (hpc s).
Qed.
Lemma exec_in_flight (a : step) (s s' : sys) : a <> HRead -> exec a s = Some s' ->
  (if is_event a then 1 else 0) + in_flight s' <= in_flight s.
Proof.
  intros Ha H. remember ((if is_event a then 1 else 0) + in_flight s') as n eqn:Hn. remember (in_flight s) as m eqn:Hm.
  destruct a; try done; cbn [exec] in H;
    unfold after_stop, vm_Start, receive, at_run, at_handler, mon_Start, mon_Stop in H; repeat (case_match; try done);
    simplify_eq; unfold in_flight; cbn;
    repeat match goal with H : hpc _ = _ |- _ => rewrite H end; destruct (hpc s); lia.
Qed.

Lemma run_app (h1 h2 : list step) (s : sys) :
  run (h1 ++ h2) s = match run h1 s with Some s' => run h2 s' | None => None end.
Proof. revert s. induction h1 as [|a h1 IH]; intros s; [done|]. cbn [run app]. destruct (exec a s); [apply IH|done]. Qed.
End Exec.

(** C28. At most one browser machine: in every interleaving of the run goroutine,
    the handler and the process goroutine there is never more than one process
    that has not been accounted for, it is the last one started, and [running]
    is set exactly while there is one. *)
Theorem one_browser (auto : bool) (ctxErr : exit) (h : list step) (s : sys) :
  run auto ctxErr h NewBrowserEngine = Some s ->
  length (alive s) + length (exited s) = (if running s then 1 else 0) /\ forall n, n ∈ alive s -> n = cur s.
Proof.
  assert (forall s0, vm_inv s0 -> run auto ctxErr h s0 = Some s -> vm_inv s) as Hrun.
  { induction h as [|a h IH]; intros s0 H0 H; [by injection H as <-|]. cbn [run] in H.
    destruct (exec auto ctxErr a s0) as [s1|] eqn:He; [|done]. eapply IH; [|exact H]. by eapply exec_vm_inv. }
  intros H. destruct (Hrun NewBrowserEngine) as [H1 H2]; [|done|].
  - split; [done|]. by intros n ?%not_elem_of_nil.
  - split; [done|]. intros n Hn. apply H2, elem_of_app. by left.
Qed.
(** Tor runs, the engine starts the machine, a critical event is handled. *)
Definition start_and_event : list step :=
  [SetTor true; RBegin; RLaunch true; RObserve; RReport; REnter; HRead; HEvent; HCheck; PExit 1 None; PMark 1; PSend 1].
(** It restarts the machine. *)
Definition restarted : list step := start_and_event ++ [HStopRecv; HWake; HLaunch true; HObserve; HReport].
Lemma one_browser_witness : exists s,
  run true None restarted NewBrowserEngine = Some s /\
  length (alive s) + length (exited s) = 1.
Proof.
  eexists. split; [vm_compute; reflexivity|].
  refine (proj1 (one_browser true None restarted _ _)).
  vm_compute. reflexivity.
Defined.

(** The exit of a remediated machine is lost: when the handler receives the
    exit of the compromised machine, it restarts the machine, but the run
    goroutine still waits on the first machine's channel; without a
    cancellation it never moves again, whatever happens to the new machine. *)
Theorem remediation_blocks_run (ctxErr : exit) :
  exists h s, run true ctxErr h NewBrowserEngine = Some s /\ state s = Running /\ alive s = [2] /\
    forall h' s', Cancel ∉ h' -> run true ctxErr h' s = Some s' -> rpc s' = RWait 1 /\ cancelled s' = false.
Proof.
  exists restarted. eexists. split; [vm_compute; reflexivity|].
  split; [reflexivity|]. split; [reflexivity|]. intros h'. match goal with |- forall s', _ -> run _ _ h' ?s = _ -> _ => set (s0 := s) end.
  assert (left_behind 1 s0) as Hl by (subst s0; split; [reflexivity|split; [cbn; lia|split; reflexivity]]). clearbody s0. revert s0 Hl.
  induction h' as [|a h' IH]; intros s0 Hl s' Hn H; [injection H as <-; by destruct Hl as (? & _ & _ & ?)|].
  apply not_elem_of_cons in Hn as [Ha Hn]. cbn [run] in H.
  destruct (exec true ctxErr a s0) as [s1|] eqn:He; [|done]. eapply (IH s1); [|done|done].
  by eapply exec_left.
Qed.

(** Nothing watches a second run: once a run has stopped the monitor, no
    critical event is read in any continuation, although the engine starts
    machines and reports [Running] again; at most the one event already in
    flight is still handled. *)
Theorem second_run_unwatched (auto : bool) (ctxErr : exit) (h1 h2 : list step) (s : sys) :
  run auto ctxErr (h1 ++ RShut :: h2) NewBrowserEngine = Some s ->
  HRead ∉ h2 /\ length (List.filter is_event h2) <= 1.
Proof.
  rewrite run_app. destruct (run auto ctxErr h1 NewBrowserEngine) as [s1|]; [|done]. cbn [run].
  destruct (exec auto ctxErr RShut s1) as [s2|] eqn:He; [|done].
  assert (mon_done s2 = true) as Hm.
  { cbn [exec] in He. destruct (rpc s1); try done. by injection He as <-. }
  clear He. intros H. enough (HRead ∉ h2 /\ length (List.filter is_event h2) <= in_flight s2) as [? Hl].
  { split; [done|]. unfold in_flight in Hl. destruct (hpc s2); lia. }
  revert s2 Hm H. induction h2 as [|a h2 IH]; intros s2 Hm H; [split; [by apply not_elem_of_nil|cbn; lia]|]. cbn [run] in H.
  destruct (exec auto ctxErr a s2) as [s3|] eqn:He; [|done].
  destruct (exec_mon_done auto ctxErr a s2 s3 Hm He) as [Hm3 Ha]. destruct (IH s3 Hm3 H) as [IH1 IH2].
  pose proof (exec_in_flight auto ctxErr a s2 s3 Ha He). split; [apply not_elem_of_cons; by split|].
  cbn. destruct (is_event a); cbn; lia.
Qed.
Definition first_run : list step := [SetTor true; RBegin; RLaunch true; RObserve; RReport; REnter; PExit 1 None; PMark 1; PSend 1; RRecv].
Lemma second_run_unwatched_witness :
  (exists s, run true None (first_run ++ RShut :: [RCheck; RBegin; RLaunch true; RObserve; RReport]) NewBrowserEngine = Some s /\
    state s = Running /\ alive s = [2]) /\ HRead ∉ [RCheck; RBegin; RLaunch true; RObserve; RReport].
Proof.
  split.
  - eexists. split; [vm_compute; reflexivity|]. done.
  - eapply proj1, (second_run_unwatched true None first_run [RCheck; RBegin; RLaunch true; RObserve; RReport]). vm_compute. reflexivity.
Defined.
