(* ===== verification/Hnsw.v ===== *)
(** * Package [vectorindex], [hnsw.go]: the nearest-neighbour graph

    The layered graph with its greedy descent, beam search, insertion with
    pruning, and search.  Identifiers, levels and sizes are naturals, the
    entry point [-1] of an empty index is [None].  The level a node draws
    ([randomLevel]) is an argument of [Insert].  A slice that ends beyond the
    length of [vectors] counts as a panic. *)

From Stdlib Require Import SpecFloat.
From stdpp Require Import sorting.
From S2P Require Import Prelude GoStrings GoFloats Heap Exchange.
Local Open Scope nat_scope.

Record SearchHit := { ID : nat; Score : spec_float }.
Record hnswNode := { connections : list (list nat); level : nat }.
Record HNSWIndex := {
  dimension : nat;
  m : nat;
  mMax0 : nat;
  efConstruct : nat;
  efSearch : nat;
  maxLevel : nat;
  entryPoint : option nat;
  nodes : list hnswNode;
  vectors : list spec_float
}.
Definition NewHNSWIndex (dimension m efConstruct : nat) : HNSWIndex := {|
  dimension := dimension; m := m; mMax0 := 2 * m; efConstruct := efConstruct; efSearch := 50;
  maxLevel := 0; entryPoint := None; nodes := []; vectors := [] |}.
Definition Len (h : HNSWIndex) : nat := length (nodes h).

Definition set_nodes (ns : list hnswNode) (h : HNSWIndex) : HNSWIndex := {|
  dimension := dimension h; m := m h; mMax0 := mMax0 h; efConstruct := efConstruct h; efSearch := efSearch h;
  maxLevel := maxLevel h; entryPoint := entryPoint h; nodes := ns; vectors := vectors h |}.
Definition set_vectors (vs : list spec_float) (h : HNSWIndex) : HNSWIndex := {|
  dimension := dimension h; m := m h; mMax0 := mMax0 h; efConstruct := efConstruct h; efSearch := efSearch h;
  maxLevel := maxLevel h; entryPoint := entryPoint h; nodes := nodes h; vectors := vs |}.
Definition set_entry (lv id : nat) (h : HNSWIndex) : HNSWIndex := {|
  dimension := dimension h; m := m h; mMax0 := mMax0 h; efConstruct := efConstruct h; efSearch := efSearch h;
  maxLevel := lv; entryPoint := Some id; nodes := nodes h; vectors := vectors h |}.

(** ** Distances *)

(** [h.vectors[a:b]]. *)
Definition slice (l : list spec_float) (a b : nat) : outcome (list spec_float) :=
  if b <=? length l then Ret (take (b - a) (drop a l)) else Panic.
(** The three sums of the loop over the first [n] components. *)
Fixpoint sums (n : nat) (q v : list spec_float) (acc : spec_float * spec_float * spec_float)
  : outcome (spec_float * spec_float * spec_float) :=
  match n with
  | O => Ret acc
  | S n' =>
      match q, v with
      | x :: q', y :: v' =>
          sums n' q' v' (f32_add acc.1.1 (f32_mul x y), f32_add acc.1.2 (f32_mul x x), f32_add acc.2 (f32_mul y y))
      | _, _ => Panic
      end
  end.

Section Index.
Variable h : HNSWIndex.

Definition cosineSimilarity (query : list spec_float) (id : nat) : outcome spec_float :=
  vec ← slice (vectors h) (id * dimension h) (id * dimension h + dimension h);
  s ← sums (dimension h) query vec (zero32, zero32, zero32);
  let denom := float32 (f64_sqrt (float64 (f32_mul s.1.2 s.2))) in
  Ret (if feq denom zero32 then zero32 else f32_div s.1.1 denom).
Definition distance (query : list spec_float) (id : nat) : outcome spec_float :=
  c ← cosineSimilarity query id; Ret (f32_sub one32 c).

(** [distHeap.Less]: closest first, or farthest first. *)
Definition min_less (query : list spec_float) (a b : nat) : outcome bool :=
  da ← distance query a; db ← distance query b; Ret (flt da db).
Definition max_less (query : list spec_float) (a b : nat) : outcome bool :=
  da ← distance query a; db ← distance query b; Ret (flt db da).

(** The neighbours of a node at a level; none above its own level. *)
Definition neighbours (id lv : nat) : outcome (list nat) :=
  node ← at_ (nodes h) id; Ret (default [] (connections node !! lv)).

(** ** Searching one layer *)

(** [Peek] is [-1] on an empty heap, and the distance of that panics. *)
Definition Peek (l : list nat) : option nat := l !! 0.
Definition peek_distance (query : list spec_float) (o : option nat) : outcome spec_float :=
  match o with Some id => distance query id | None => Panic end.

(** A neighbour enters both heaps; the farthest result leaves when there are too many. *)
Definition take_neighbor (query : list spec_float) (ef neighbor : nat) (candidates results : list nat)
  : outcome (list nat * list nat) :=
  candidates' ← Push (min_less query) neighbor candidates;
  results' ← Push (max_less query) neighbor results;
  if ef <? length results' then p ← Pop (max_less query) results'; Ret (candidates', p.2)
  else Ret (candidates', results').

(** The loop over the neighbours of the nearest candidate. *)
Fixpoint explore (query : list spec_float) (ef : nat) (ns : list nat) (visited : gset nat)
    (candidates results : list nat) : outcome (gset nat * list nat * list nat) :=
  match ns with
  | [] => Ret (visited, candidates, results)
  | neighbor :: ns' =>
      if decide (neighbor ∈ visited) then explore query ef ns' visited candidates results
      else
        let visited' := {[neighbor]} ∪ visited in
        let farthestResult := Peek results in
        closer ← (if length results <? ef then Ret true
                  else d ← distance query neighbor; f ← peek_distance query farthestResult; Ret (flt d f));
        if (closer : bool) then
          s ← take_neighbor query ef neighbor candidates results;
          explore query ef ns' visited' s.1 s.2
        else explore query ef ns' visited' candidates results
  end.

(** The beam; every turn takes one candidate, so the fuel is the number of nodes and one. *)
Fixpoint beam (fuel : nat) (query : list spec_float) (ef lv : nat) (visited : gset nat)
    (candidates results : list nat) : outcome (list nat) :=
  match candidates with
  | [] => Ret results
  | _ =>
      match fuel with
      | O => NoFuel
      | S fuel' =>
          p ← Pop (min_less query) candidates;
          stop ← (if ef <=? length results then
                    d ← distance query p.1; f ← peek_distance query (Peek results); Ret (flt f d)
                  else Ret false);
          if (stop : bool) then Ret results
          else
            ns ← neighbours p.1 lv;
            s ← explore query ef ns visited p.2 results;
            beam fuel' query ef lv s.1.1 s.1.2 s.2
      end
  end.

(** The results are popped farthest first into the end of the output. *)
Fixpoint drain (fuel : nat) (query : list spec_float) (results out : list nat) : outcome (list nat) :=
  match fuel with
  | O => Ret out
  | S fuel' => p ← Pop (max_less query) results; drain fuel' query p.2 (p.1 :: out)
  end.

Definition searchLayer (query : list spec_float) (entryID ef lv : nat) : outcome (list nat) :=
  candidates ← Push (min_less query) entryID [];
  results ← Push (max_less query) entryID [];
  results' ← beam (S (length (nodes h))) query ef lv {[entryID]} candidates results;
  drain (length results') query results' [].

(** ** Greedy descent *)

Fixpoint closest (query : list spec_float) (ns : list nat) (cur : nat) (curDist : spec_float) (changed : bool)
  : outcome (nat * spec_float * bool) :=
  match ns with
  | [] => Ret (cur, curDist, changed)
  | neighbor :: ns' =>
      d ← distance query neighbor;
      if flt d curDist then closest query ns' neighbor d true else closest query ns' cur curDist changed
  end.
(** Every turn that changes moves to a closer node: as many turns as nodes, and one. *)
Fixpoint greedy (fuel : nat) (query : list spec_float) (cur : nat) (curDist : spec_float) (lv : nat) : outcome nat :=
  match fuel with
  | O => NoFuel
  | S fuel' =>
      ns ← neighbours cur lv;
      '(next, d, changed) ← closest query ns cur curDist false;
      if (changed : bool) then greedy fuel' query next d lv else Ret next
  end.
Definition greedyClosest (query : list spec_float) (ep lv : nat) : outcome nat :=
  d ← distance query ep; greedy (S (length (nodes h))) query ep d lv.

(** [for lc := from; lc > to; lc-- { ep = h.greedyClosest(query, ep, lc) }] for [n] levels. *)
Fixpoint descend (n : nat) (query : list spec_float) (ep to_ : nat) : outcome nat :=
  match n with
  | O => Ret ep
  | S n' => ep' ← greedyClosest query ep (to_ + n); descend n' query ep' to_
  end.

(** ** Neighbours to keep *)

Definition selectNeighborsSimple (candidates : list nat) (k : nat) : list nat :=
  if length candidates <=? k then candidates else take k candidates.
Fixpoint scores (nodeVec : list spec_float) (candidates : list nat) : outcome (list (nat * spec_float)) :=
  match candidates with
  | [] => Ret []
  | c :: cs => d ← distance nodeVec c; rest ← scores nodeVec cs; Ret ((c, d) :: rest)
  end.
Definition selectNeighborsForNode (nodeID : nat) (candidates : list nat) (k : nat) : outcome (list nat) :=
  if length candidates <=? k then Ret candidates
  else
    nodeVec ← slice (vectors h) (nodeID * dimension h) (S nodeID * dimension h);
    sc ← scores nodeVec candidates;
    Ret (map fst (take k (exchange_sort (fun a b => flt a.2 b.2) sc))).

(** ** Search *)

Fixpoint hits (query : list spec_float) (candidates : list nat) : outcome (list SearchHit) :=
  match candidates with
  | [] => Ret []
  | c :: cs => s ← cosineSimilarity query c; rest ← hits query cs; Ret ({| ID := c; Score := s |} :: rest)
  end.
Definition SearchKNN (query : list spec_float) (k : Z) : outcome (list SearchHit) :=
  match entryPoint h with
  | None => Ret []
  | Some e =>
      ep ← descend (maxLevel h) query e 0;
      let ef := Nat.max (efSearch h) (Z.to_nat k) in
      candidates ← searchLayer query ep ef 0;
      candidates' ← (if (k <? Z.of_nat (length candidates))%Z then
                       if (k <? 0)%Z then Panic else Ret (take (Z.to_nat k) candidates)
                     else Ret candidates);
      hits query candidates'
  end.
End Index.

(** ** Insertion *)

(** [h.nodes[id].connections[lc]] and its assignment. *)
Definition get_conn (h : HNSWIndex) (id lc : nat) : outcome (list nat) :=
  node ← at_ (nodes h) id; at_ (connections node) lc.
Definition set_conn (id lc : nat) (ns : list nat) (h : HNSWIndex) : outcome HNSWIndex :=
  node ← at_ (nodes h) id;
  conns ← set_at (connections node) lc ns;
  nodes' ← set_at (nodes h) id {| connections := conns; level := level node |};
  Ret (set_nodes nodes' h).

(** The reverse connections of a new node. *)
Fixpoint link_back (id lc maxConn : nat) (neighbors : list nat) (h : HNSWIndex) : outcome HNSWIndex :=
  match neighbors with
  | [] => Ret h
  | n :: ns =>
      old ← get_conn h n lc;
      h1 ← set_conn n lc (old ++ [id]) h;
      cur ← get_conn h1 n lc;
      h2 ← (if maxConn <? length cur then
              kept ← selectNeighborsForNode h1 n cur maxConn; set_conn n lc kept h1
            else Ret h1);
      link_back id lc maxConn ns h2
  end.

(** The levels [n - 1] down to [0]. *)
Fixpoint connect (n : nat) (vector : list spec_float) (id ep : nat) (h : HNSWIndex) : outcome HNSWIndex :=
  match n with
  | O => Ret h
  | S lc =>
      candidates ← searchLayer h vector ep (efConstruct h) lc;
      let maxConn := if lc =? 0 then mMax0 h else m h in
      let neighbors := selectNeighborsSimple candidates maxConn in
      h1 ← set_conn id lc neighbors h;
      h2 ← link_back id lc maxConn neighbors h1;
      connect lc vector id (match candidates with c :: _ => c | [] => ep end) h2
  end.

Definition Insert (vector : list spec_float) (lv : nat) (h : HNSWIndex) : outcome (nat * HNSWIndex) :=
  let id := length (nodes h) in
  let node := {| connections := replicate (S lv) []; level := lv |} in
  let h1 := set_vectors (vectors h ++ vector) (set_nodes (nodes h ++ [node]) h) in
  match entryPoint h with
  | None => Ret (id, set_entry lv id h1)
  | Some e =>
      ep ← descend h1 (maxLevel h - lv) vector e lv;
      h2 ← connect (S (Nat.min lv (maxLevel h))) vector id ep h1;
      Ret (id, if maxLevel h <? lv then set_entry lv id h2 else h2)
  end.

(** ** Examples *)

Definition vec2 (x y : Z) : list spec_float := [f32_of_Z x; f32_of_Z y].
Fixpoint inserts (vs : list (list spec_float * nat)) (h : HNSWIndex) : outcome HNSWIndex :=
  match vs with [] => Ret h | (v, lv) :: vs' => r ← Insert v lv h; inserts vs' r.2 end.
Definition five_vectors : list (list spec_float * nat) :=
  [(vec2 1 0, 0); (vec2 0 1, 1); (vec2 1 1, 0); (vec2 (-1) 0, 2); (vec2 3 1, 0)].
Definition search_ids (k : Z) (q : list spec_float) (i : outcome HNSWIndex) : outcome (list nat) :=
  h ← i; r ← SearchKNN h q k; Ret (map ID r).
Example search_five : search_ids 3 (vec2 2 1) (inserts five_vectors (NewHNSWIndex 2 4 10)) = Ret [4; 2; 0].
Proof. vm_compute. reflexivity. Qed.
Example search_negative : search_ids (-1) (vec2 2 1) (inserts five_vectors (NewHNSWIndex 2 4 10)) = Panic.
Proof. vm_compute. reflexivity. Qed.
Example search_short_query : search_ids 3 [one32] (inserts five_vectors (NewHNSWIndex 2 4 10)) = Panic.
Proof. vm_compute. reflexivity. Qed.
