(* ===== verification/HnswFacts.v ===== *)
(** * The nearest-neighbour graph: what its operations do

    The invariant of the graph, that no operation on it panics or loops, and
    that search in a small index is exact. *)

From Stdlib Require Import SpecFloat.
From stdpp Require Import sorting.
From S2P Require Import Prelude GoStrings GoFloats Heap Exchange Hnsw.
Local Open Scope nat_scope.

(** ** The graph *)

Definition lev (h : HNSWIndex) (x : nat) : option nat := level <$> nodes h !! x.
Definition conn (h : HNSWIndex) (x lc : nat) : option (list nat) :=
  match nodes h !! x with Some nd => connections nd !! lc | None => None end.
Definition at_level (h : HNSWIndex) (lc x : nat) : Prop := exists l, lev h x = Some l /\ lc <= l.
(** The degree bound of a level. *)
Definition cap (h : HNSWIndex) (lc : nat) : nat := if lc =? 0 then mMax0 h else m h.

Record graph (h : HNSWIndex) : Prop := {
  g_vec : length (vectors h) = (Len h * dimension h)%nat;
  g_shape : forall x l lc, lev h x = Some l -> lc <= l -> is_Some (conn h x lc);
  g_conn : forall x lc cs, conn h x lc = Some cs ->
    NoDup cs /\ x ∉ cs /\ length cs <= cap h lc /\ Forall (at_level h lc) cs
}.

(** The whole index: the entry point is a node of the top level. *)
Record wf (h : HNSWIndex) : Prop := {
  wf_graph : graph h;
  wf_entry : match entryPoint h with None => nodes h = [] | Some e => lev h e = Some (maxLevel h) end;
  wf_max : forall x l, lev h x = Some l -> l <= maxLevel h
}.

Lemma lev_lt (h : HNSWIndex) (x : nat) : x < Len h <-> is_Some (lev h x).
Proof. unfold lev, Len. rewrite fmap_is_Some. symmetry. apply lookup_lt_is_Some. Qed.
Lemma at_level_lt (h : HNSWIndex) (lc x : nat) : at_level h lc x -> x < Len h.
Proof. intros (l & H & _). apply lev_lt. by eexists. Qed.
Lemma at_level_0 (h : HNSWIndex) (x : nat) : x < Len h -> at_level h 0 x.
Proof. intros [l H]%lev_lt. exists l. split; [done|lia]. Qed.
Lemma at_level_le (h : HNSWIndex) (lc lc' x : nat) : lc' <= lc -> at_level h lc x -> at_level h lc' x.
Proof. intros Hl (l & H & ?). exists l. split; [done|lia]. Qed.

(** ** Distances are defined *)

Definition dist (h : HNSWIndex) (q : list spec_float) (id : nat) : spec_float :=
  match distance h q id with Ret d => d | _ => S754_nan end.

Lemma sums_ok (n : nat) (q v : list spec_float) (acc : spec_float * spec_float * spec_float) :
  n <= length q -> n <= length v -> returns (sums n q v acc) (fun _ => True).
Proof.
  revert q v acc. induction n as [|n IH]; intros [|x q] [|y v] acc Hq Hv; cbn in *; try done; try lia.
  apply IH; lia.
Qed.
Lemma slice_ok (l : list spec_float) (a b : nat) : b <= length l -> a <= b ->
  returns (slice l a b) (fun s => length s = b - a).
Proof.
  intros Hb Ha. unfold slice. destruct (Nat.leb_spec b (length l)); [|lia]. cbn.
  rewrite length_take, length_drop. lia.
Qed.

Section Valid.
Context (h : HNSWIndex) (q : list spec_float).
Hypothesis Hg : graph h.
Hypothesis Hq : length q = dimension h.

Lemma vector_slice (id : nat) : id < Len h -> returns (slice (vectors h) (id * dimension h) (id * dimension h + dimension h))
  (fun s => length s = dimension h).
Proof.
  intros Hid. eapply returns_mono; [apply slice_ok|].
  - rewrite (g_vec _ Hg). nia.
  - lia.
  - intros s ->. lia.
Qed.
Lemma cosine_ok (id : nat) : id < Len h -> returns (cosineSimilarity h q id) (fun _ => True).
Proof.
  intros Hid. unfold cosineSimilarity. step_call (vector_slice id Hid). intros v Hv.
  step_call sums_ok; [lia|lia|]. by intros.
Qed.
Lemma distance_eq (id : nat) : id < Len h -> distance h q id = Ret (dist h q id).
Proof.
  intros Hid. unfold dist. assert (returns (distance h q id) (fun _ => True)) as (d & -> & _)%returns_inv; [|done].
  unfold distance. step_call (cosine_ok id Hid). done.
Qed.

Definition nb (lv x : nat) : list nat := default [] (conn h x lv).
Lemma neighbours_eq (x lv : nat) : x < Len h -> neighbours h x lv = Ret (nb lv x).
Proof.
  intros Hx. unfold neighbours, nb, conn, at_. destruct (lookup_lt_is_Some_2 (nodes h) x Hx) as [nd ->]. done.
Qed.
Lemma nb_level (lv x y : nat) : y ∈ nb lv x -> at_level h lv y.
Proof.
  unfold nb. destruct (conn h x lv) as [cs|] eqn:Hc; cbn; [|by intros ?%not_elem_of_nil].
  destruct (g_conn _ Hg _ _ _ Hc) as (_ & _ & _ & Hall). by apply Forall_forall.
Qed.

(** ** One layer *)

Definition min_lt (a b : nat) : bool := flt (dist h q a) (dist h q b).
Definition max_lt (a b : nat) : bool := flt (dist h q b) (dist h q a).
Lemma min_less_eq (a b : nat) : a < Len h -> b < Len h -> min_less h q a b = Ret (min_lt a b).
Proof. intros Ha Hb. unfold min_less. by rewrite !distance_eq. Qed.
Lemma max_less_eq (a b : nat) : a < Len h -> b < Len h -> max_less h q a b = Ret (max_lt a b).
Proof. intros Ha Hb. unfold max_less. by rewrite !distance_eq. Qed.

(** No distance is NaN. *)
Definition numeric : Prop := forall x, x < Len h -> is_nan (dist h q x) = false.
(** Closest first. *)
Definition nearer (a b : nat) : Prop := flt (dist h q b) (dist h q a) = false.
Definition far_heap : list nat -> Prop := heap max_lt.

Section Pushing.
Context (P : nat -> Prop) (HP : forall x, P x -> x < Len h).

Lemma push_candidate (x : nat) (C : list nat) : Forall P (x :: C) ->
  returns (Push (min_less h q) x C) (fun C' => C' ≡ₚ x :: C).
Proof. apply Push_perm. intros a b Ha Hb. rewrite min_less_eq by auto. done. Qed.
Lemma pop_candidate (C : list nat) : Forall P C -> C <> [] ->
  returns (Pop (min_less h q) C) (fun p => p.1 :: p.2 ≡ₚ C).
Proof.
  intros HC Hne. eapply returns_mono; [eapply (Pop_perm _ P); [|done|done]|by intros []].
  intros a b Ha Hb. rewrite min_less_eq by auto. done.
Qed.

Lemma push_result (x : nat) (R : list nat) : Forall P (x :: R) -> (numeric -> far_heap R) ->
  returns (Push (max_less h q) x R) (fun R' => R' ≡ₚ x :: R /\ (numeric -> far_heap R')).
Proof.
  intros HR Hh. apply returns_and_if.
  - apply (Push_perm _ P); [|done]. intros a b Ha Hb. rewrite max_less_eq by auto. done.
  - intros Hn. eapply returns_mono; [apply (Push_ok _ P max_lt); [| | |done|by apply Hh]|by intros ? []].
    + intros a b Ha Hb. apply max_less_eq; auto.
    + intros a b _ _. apply flt_asym.
    + intros a b c Ha Hb Hc. unfold max_lt. intros H1 H2. apply (flt_not_trans _ (dist h q b)); [by apply Hn, HP|done|done].
Qed.
Lemma pop_result (R : list nat) : Forall P R -> R <> [] -> (numeric -> far_heap R) ->
  returns (Pop (max_less h q) R) (fun p => p.1 :: p.2 ≡ₚ R /\
    (numeric -> far_heap p.2 /\ Forall (fun x => nearer x p.1) R)).
Proof.
  intros HR Hne Hh. apply returns_and_if.
  - eapply returns_mono; [eapply (Pop_perm _ P); [|done|done]|by intros []].
    intros a b Ha Hb. rewrite max_less_eq by auto. done.
  - intros Hn. eapply returns_mono; [apply (Pop_ok _ P max_lt); [| | |done|by apply Hh|done]|by intros [] (? & ? & ?)].
    + intros a b Ha Hb. apply max_less_eq; auto.
    + intros a b _ _. apply flt_asym.
    + intros a b c Ha Hb Hc. unfold max_lt. intros H1 H2. apply (flt_not_trans _ (dist h q b)); [by apply Hn, HP|done|done].
Qed.
End Pushing.

(** *** The beam

    [P] is a property of nodes that neighbours at level [lv] share; [N] bounds
    the number of nodes with it. *)
Section Beam.
Context (lv ef e N : nat) (P : nat -> Prop).
Hypothesis HP : forall x, P x -> x < Len h.
Hypothesis P_nb : forall x y, P x -> y ∈ nb lv x -> P y.
Hypothesis P_e : P e.
Hypothesis P_bound : forall l, NoDup l -> Forall P l -> length l <= N.

(** [ns] are the neighbours still to be looked at. *)
Record beam_inv (ns : list nat) (V : gset nat) (C R : list nat) : Prop := {
  bi_P : forall x, x ∈ V -> P x;
  bi_e : e ∈ V;
  bi_C : Forall (.∈ V) C;
  bi_R : Forall (.∈ V) R;
  bi_nodup : NoDup R;
  bi_ne : R <> [];
  bi_len : length R <= Nat.max ef 1;
  bi_heap : numeric -> far_heap R;
  bi_ns : Forall P ns;
  bi_all : N <= ef -> forall x, x ∈ V -> x ∈ R;
  bi_closed : N <= ef -> forall x y, x ∈ V -> x ∉ C -> y ∈ nb lv x -> y ∈ V \/ y ∈ ns
}.
(** What is still to be done: nodes not visited and candidates. *)
Definition todo (V : gset nat) (C : list nat) : nat := Len h - size V + length C.

Lemma visited_P (V : gset nat) (l : list nat) : (forall x, x ∈ V -> P x) -> Forall (.∈ V) l -> Forall P l.
Proof. intros Hi. rewrite !Forall_forall. auto. Qed.
Lemma visited_size (V : gset nat) : (forall x, x ∈ V -> P x) -> size V <= Len h.
Proof.
  intros Hi. rewrite <- (length_seq (Len h) 0), <- (size_list_to_set (C := gset nat) (seq 0 (Len h))) by apply NoDup_seq.
  apply subseteq_size. intros x Hx. apply elem_of_list_to_set, elem_of_seq. pose proof (HP x (Hi x Hx)). lia.
Qed.
(** A neighbour that was not visited does not fit beside [N] results. *)
Lemma full (ns : list nat) (V : gset nat) (C R : list nat) (x : nat) :
  beam_inv ns V C R -> P x -> x ∉ R -> length R < N.
Proof.
  intros Hi Hx Hn. enough (length (x :: R) <= N) by (cbn in *; lia). apply P_bound.
  - constructor; [done|apply (bi_nodup _ _ _ _ Hi)].
  - constructor; [done|]. apply (visited_P V); [apply (bi_P _ _ _ _ Hi)|apply (bi_R _ _ _ _ Hi)].
Qed.

Lemma inv_seen (n : nat) (ns : list nat) (V : gset nat) (C R : list nat) :
  beam_inv (n :: ns) V C R -> n ∈ V -> beam_inv ns V C R.
Proof.
  intros [] Hn. split; try done; [by eapply Forall_inv_tail|]. intros Hef x y Hx HC Hy.
  destruct (bi_closed0 Hef x y Hx HC Hy) as [?|[->|?]%elem_of_cons]; auto.
Qed.

Lemma inv_skip (n : nat) (ns : list nat) (V : gset nat) (C R : list nat) :
  beam_inv (n :: ns) V C R -> n ∉ V -> ef <= length R -> beam_inv ns ({[n]} ∪ V) C R.
Proof.
  intros Hi Hn Hlen. assert (Hfull : length R < N).
  { apply (full _ _ _ _ n Hi); [apply (Forall_inv (bi_ns _ _ _ _ Hi))|]. intros HR. apply Hn.
    by apply (proj1 (Forall_forall _ _) (bi_R _ _ _ _ Hi)). }
  destruct Hi. split; try done; try lia.
  - intros x [->%elem_of_singleton|Hx]%elem_of_union; [by apply (Forall_inv bi_ns0)|auto].
  - set_solver.
  - eapply Forall_impl; [exact bi_C0|]. set_solver.
  - eapply Forall_impl; [exact bi_R0|]. set_solver.
  - by eapply Forall_inv_tail.
Qed.

Lemma inv_push (n : nat) (ns : list nat) (V : gset nat) (C R C' R' : list nat) :
  beam_inv (n :: ns) V C R -> n ∉ V -> C' ≡ₚ n :: C -> R' ⊆+ n :: R -> R' <> [] -> length R' <= Nat.max ef 1 ->
  (numeric -> far_heap R') -> (N <= ef -> R' ≡ₚ n :: R) -> beam_inv ns ({[n]} ∪ V) C' R'.
Proof.
  intros [] Hn HC' HR' Hne Hlen Hh Hall. assert (Hn' : n ∉ R).
  { intros HR. apply Hn. by apply (proj1 (Forall_forall _ _) bi_R0). }
  apply submseteq_Permutation in HR' as [k Hk].
  split; try done.
  - intros x [->%elem_of_singleton|Hx]%elem_of_union; [by apply (Forall_inv bi_ns0)|auto].
  - set_solver.
  - rewrite HC'. constructor; [set_solver|]. eapply Forall_impl; [exact bi_C0|]. set_solver.
  - enough (Forall (.∈ {[n]} ∪ V) (R' ++ k)) as [? _]%Forall_app by done. rewrite <- Hk.
    constructor; [set_solver|]. eapply Forall_impl; [exact bi_R0|]. set_solver.
  - enough (NoDup (R' ++ k)) as (? & _)%NoDup_app by done. rewrite <- Hk. by constructor.
  - by eapply Forall_inv_tail.
  - intros Hef x Hx. rewrite (Hall Hef). apply elem_of_cons.
    apply elem_of_union in Hx as [->%elem_of_singleton|Hx]; [by left|right; auto].
  - intros Hef x y Hx Hx' Hy. rewrite HC' in Hx'. apply not_elem_of_cons in Hx' as [Hxn Hx'].
    apply elem_of_union in Hx as [?%elem_of_singleton|Hx]; [done|].
    destruct (bi_closed0 Hef x y Hx Hx' Hy) as [?|[->|?]%elem_of_cons]; set_solver.
Qed.

Lemma take_ok (n : nat) (ns : list nat) (V : gset nat) (C R : list nat) :
  beam_inv (n :: ns) V C R -> n ∉ V ->
  returns (take_neighbor h q ef n C R) (fun s => beam_inv ns ({[n]} ∪ V) s.1 s.2 /\ length s.1 = S (length C)).
Proof.
  intros Hi Hn. unfold take_neighbor. pose proof (bi_ns _ _ _ _ Hi) as [Hpn _]%Forall_cons.
  assert (HPC : Forall P (n :: C)) by (constructor; [done|]; apply (visited_P V); apply Hi).
  assert (HPR : Forall P (n :: R)) by (constructor; [done|]; apply (visited_P V); apply Hi).
  assert (HnR : n ∉ R) by (intros HR; apply Hn; by apply (proj1 (Forall_forall _ _) (bi_R _ _ _ _ Hi))).
  assert (Hnd : NoDup (n :: R)) by (constructor; [done|apply Hi]).
  step_call (push_candidate P HP n C HPC). intros C' HC'.
  step_call (push_result P HP n R HPR (bi_heap _ _ _ _ Hi)). intros R' [HR' Hh].
  pose proof (Permutation_length HC') as HlC. pose proof (Permutation_length HR') as HlR. cbn in HlC, HlR.
  destruct (Nat.ltb_spec ef (length R')) as [Hlt|Hge].
  - step_call (pop_result P HP R'); [by rewrite HR'|by intros ->|done|].
    intros [x R2] [Hp Hh2]. cbn in *. pose proof (Permutation_length Hp) as HlR2. cbn in HlR2.
    assert (HlR3 : length R <> 0) by (intros ->%nil_length_inv; by apply (bi_ne _ _ _ _ Hi)).
    split; [|done]. apply (inv_push n ns V C R); try done.
    + rewrite <- HR', <- Hp. by apply submseteq_cons.
    + intros ->. cbn in *. lia.
    + pose proof (bi_len _ _ _ _ Hi). lia.
    + intros Hnum. by apply Hh2.
    + intros HN. assert (length (n :: R) <= N) by (by apply P_bound). cbn in *. lia.
  - cbn. split; [|done]. apply (inv_push n ns V C R); try done.
    + by rewrite HR'.
    + by intros ->.
    + lia.
Qed.

Lemma explore_ok (ns : list nat) (V : gset nat) (C R : list nat) : beam_inv ns V C R ->
  returns (explore h q ef ns V C R) (fun s => beam_inv [] s.1.1 s.1.2 s.2 /\ todo s.1.1 s.1.2 <= todo V C).
Proof.
  revert V C R. induction ns as [|n ns IH]; intros V C R Hi; cbn [explore]; [by cbn|].
  destruct (decide (n ∈ V)) as [Hn|Hn]; [by apply IH, (inv_seen n)|]. cbv zeta.
  pose proof (bi_ns _ _ _ _ Hi) as [Hpn _]%Forall_cons.
  assert (Hcl : returns (if length R <? ef then Ret true
      else d ← distance h q n; f ← peek_distance h q (Peek R); Ret (flt d f)) (fun b => b = false -> ef <= length R)).
  { destruct (Nat.ltb_spec (length R) ef); [by cbn|]. rewrite distance_eq by auto. unfold Peek.
    destruct R as [|r R]; [by destruct (bi_ne _ _ _ _ Hi)|]. cbn [lookup list_lookup peek_distance].
    rewrite distance_eq; [by cbn|]. apply HP, (bi_P _ _ _ _ Hi), (Forall_inv (bi_R _ _ _ _ Hi)). }
  step_call Hcl. clear Hcl. intros [] Hcl.
  - step_call (take_ok n ns V C R Hi Hn). intros [C2 R2] [Hi2 Hl]. cbn [fst snd] in *.
    eapply returns_mono; [by apply IH|]. intros s [Hs Ht]. split; [done|].
    pose proof (visited_size _ (bi_P _ _ _ _ Hi2)) as Hv. unfold todo in *.
    rewrite size_union, size_singleton in * by set_solver. lia.
  - pose proof (inv_skip n ns V C R Hi Hn (Hcl eq_refl)) as Hi2. eapply returns_mono; [by apply IH|].
    intros s [Hs Ht]. split; [done|]. pose proof (visited_size _ (bi_P _ _ _ _ Hi2)) as Hv. unfold todo in *.
    rewrite size_union, size_singleton in * by set_solver. lia.
Qed.

(** What a search of the layer finds; with room for all, a part closed under neighbours. *)
Record found (R : list nat) : Prop := {
  fo_P : Forall P R;
  fo_nodup : NoDup R;
  fo_ne : R <> [];
  fo_len : length R <= Nat.max ef 1;
  fo_all : N <= ef -> e ∈ R /\ forall x y, x ∈ R -> y ∈ nb lv x -> y ∈ R
}.

Lemma beam_found (V : gset nat) (C R : list nat) : beam_inv [] V C R -> (C = [] \/ ef <= length R) -> found R.
Proof.
  intros Hi Hend. split; try apply Hi.
  - apply (visited_P V); apply Hi.
  - intros Hef. split; [apply (bi_all _ _ _ _ Hi Hef), Hi|]. intros x y Hx Hy.
    assert (HxV : x ∈ V) by by apply (proj1 (Forall_forall _ _) (bi_R _ _ _ _ Hi)).
    destruct Hend as [->|Hlen].
    + destruct (bi_closed _ _ _ _ Hi Hef x y HxV (not_elem_of_nil x) Hy) as [?|?%not_elem_of_nil]; [|done].
      by apply (bi_all _ _ _ _ Hi Hef).
    + destruct (decide (y ∈ R)) as [|HyR]; [done|].
      pose proof (full _ _ _ _ y Hi (P_nb x y (bi_P _ _ _ _ Hi x HxV) Hy) HyR). lia.
Qed.

Lemma beam_pop (V : gset nat) (C R C' : list nat) (x : nat) : beam_inv [] V C R -> x :: C' ≡ₚ C ->
  beam_inv (nb lv x) V C' R /\ S (todo V C') = todo V C.
Proof.
  intros Hi HC. pose proof (Permutation_length HC) as Hl. cbn in Hl. split; [|unfold todo; lia].
  assert (x ∈ V /\ Forall (.∈ V) C') as [HxV HCV].
  { apply (Forall_cons (.∈ V)). rewrite HC. apply Hi. }
  destruct Hi. split; try done.
  - apply Forall_forall. intros y Hy. eapply P_nb; [|exact Hy]. auto.
  - intros Hef z y Hz Hz' Hy. destruct (decide (z = x)) as [->|Hzx]; [by right|].
    assert (Hzc : z ∉ C) by (rewrite <- HC; apply not_elem_of_cons; by split).
    destruct (bi_closed0 Hef z y Hz Hzc Hy) as [?|?%not_elem_of_nil]; [by left|done].
Qed.

Lemma beam_ok (fuel : nat) (V : gset nat) (C R : list nat) : beam_inv [] V C R -> todo V C <= fuel ->
  returns (beam h fuel q ef lv V C R) (fun R' => found R' /\ (numeric -> far_heap R')).
Proof.
  revert V C R. induction fuel as [|fuel IH]; intros V C R Hi Hf;
    (destruct C as [|c C]; [cbn; split; [apply (beam_found V [] R Hi); by left|apply Hi]|]).
  { unfold todo in Hf. cbn in Hf. lia. }
  cbn [beam]. assert (HPC : Forall P (c :: C)) by (apply (visited_P V); apply Hi).
  step_call (pop_candidate P HP (c :: C) HPC); [done|]. intros [x C'] HC. cbn [fst snd] in *.
  assert (Hx : P x) by (rewrite <- HC in HPC; apply (Forall_inv HPC)).
  assert (Hst : returns (if ef <=? length R then d ← distance h q x; f ← peek_distance h q (Peek R); Ret (flt f d)
      else Ret false) (fun b => b = true -> ef <= length R)).
  { destruct (Nat.leb_spec ef (length R)); [|by cbn]. rewrite distance_eq by auto. unfold Peek.
    destruct R as [|r R]; [by destruct (bi_ne _ _ _ _ Hi)|]. cbn [lookup list_lookup peek_distance].
    rewrite distance_eq; [by cbn|]. apply HP, (bi_P _ _ _ _ Hi), (Forall_inv (bi_R _ _ _ _ Hi)). }
  step_call Hst. intros [] Hst'.
  - cbn. split; [|apply Hi]. apply (beam_found V (c :: C) R Hi). right. auto.
  - rewrite neighbours_eq by auto. cbn [mbind outcome_bind].
    destruct (beam_pop V (c :: C) R C' x Hi HC) as [Hi2 Ht]. step_call (explore_ok _ _ _ _ Hi2).
    intros [[V2 C2] R2] [Hi3 Ht3]. cbn [fst snd] in *. apply IH; [done|lia].
Qed.

Lemma drain_ok (n : nat) (R out : list nat) : length R = n -> Forall P R -> (numeric -> far_heap R) ->
  (numeric -> StronglySorted nearer out /\ forall x y, x ∈ R -> y ∈ out -> nearer x y) ->
  returns (drain h n q R out) (fun l => l ≡ₚ R ++ out /\ (numeric -> StronglySorted nearer l)).
Proof.
  revert R out. induction n as [|n IH]; intros R out Hl HPR Hh Hs; cbn [drain].
  - apply nil_length_inv in Hl as ->. cbn. split; [done|]. intros Hn. by apply Hs.
  - assert (Hne : R <> []) by by intros ->. step_call (pop_result P HP R HPR Hne Hh).
    intros [x R2] [Hp Ho]. cbn [fst snd] in *. pose proof (Permutation_length Hp) as Hl2. cbn in Hl2.
    eapply returns_mono; [apply IH|].
    + lia.
    + rewrite <- Hp in HPR. apply (Forall_inv_tail HPR).
    + intros Hn. by apply Ho.
    + intros Hn. destruct (Hs Hn) as [Hs1 Hs2]. destruct (Ho Hn) as [_ Ho2].
      assert (Hin : forall y, y ∈ x :: R2 -> y ∈ R) by (intros y; by rewrite Hp). split.
      * constructor; [done|]. apply Forall_forall. intros y Hy. apply Hs2; [apply Hin; by left|done].
      * intros y z Hy [->|Hz]%elem_of_cons; [|apply Hs2; [apply Hin; by right|done]].
        apply (proj1 (Forall_forall _ _) Ho2). apply Hin. by right.
    + intros l [Hp' Hs']. split; [|done]. rewrite Hp', <- Hp. cbn. by rewrite Permutation_middle.
Qed.

Lemma found_perm (R R' : list nat) : R' ≡ₚ R -> found R -> found R'.
Proof.
  intros Hp []. split.
  - by rewrite Hp.
  - by rewrite Hp.
  - intros ->. by apply fo_ne0, Permutation_nil_r.
  - by rewrite Hp.
  - intros Hef. rewrite Hp. destruct (fo_all0 Hef) as [He Hc]. split; [done|]. intros x y. rewrite Hp. by apply Hc.
Qed.

Lemma searchLayer_ok : returns (searchLayer h q e ef lv) (fun l => found l /\ (numeric -> StronglySorted nearer l)).
Proof.
  unfold searchLayer. assert (HPe : Forall P [e]) by by constructor.
  step_call (push_candidate P HP e [] HPe). intros C HC. apply Permutation_singleton_r in HC as ->.
  step_call (push_result P HP e [] HPe); [by intros _ p c _ a b Ha|]. intros R [HR Hh].
  apply Permutation_singleton_r in HR as ->.
  step_call (beam_ok (S (length (nodes h))) {[e]} [e] [e]).
  - split; try done.
    + by intros x ->%elem_of_singleton.
    + set_solver.
    + constructor; [set_solver|done].
    + constructor; [set_solver|done].
    + apply NoDup_singleton.
    + cbn. lia.
    + intros _ x ->%elem_of_singleton. by left.
    + intros _ x y ->%elem_of_singleton Hx. set_solver.
  - unfold todo, Len. rewrite size_singleton. pose proof (HP e P_e). unfold Len in *. cbn. lia.
  - intros R' [HR' Hh']. eapply returns_mono; [apply drain_ok; [done|apply HR'|done|]|].
    + intros _. split; [constructor|]. intros x y _ Hy. by apply not_elem_of_nil in Hy.
    + intros l [Hp Hs]. split; [|done]. rewrite app_nil_r in Hp. by eapply found_perm.
Qed.
End Beam.

(** *** Greedy descent *)

(** The number of nodes closer than [d]. *)
Definition rank (d : spec_float) : nat := length (List.filter (fun x => flt (dist h q x) d) (seq 0 (Len h))).
Lemma rank_le (d : spec_float) : rank d <= Len h.
Proof. unfold rank. etransitivity; [apply List.filter_length_le|]. by rewrite length_seq. Qed.
Lemma rank_lt (x : nat) (d : spec_float) : x < Len h -> flt (dist h q x) d = true -> rank (dist h q x) < rank d.
Proof.
  intros Hx Hlt. unfold rank.
  assert (Hsub : List.filter (fun y => flt (dist h q y) (dist h q x)) (seq 0 (Len h))
    ⊆+ List.filter (fun y => flt (dist h q y) d) (seq 0 (Len h))).
  { apply NoDup_submseteq; [apply NoDup_ListNoDup, List.NoDup_filter, NoDup_ListNoDup, NoDup_seq|].
    intros y. rewrite !list_elem_of_In, !List.filter_In. intros [Hy Hyx]. split; [done|]. by eapply flt_trans. }
  apply submseteq_Permutation in Hsub as [k Hk]. rewrite (Permutation_length Hk), length_app.
  enough (k <> []) by (destruct k; [done|cbn; lia]). intros ->. rewrite app_nil_r in Hk.
  assert (Hin : x ∈ List.filter (fun y => flt (dist h q y) d) (seq 0 (Len h))).
  { apply list_elem_of_In, List.filter_In. split; [|done]. apply List.in_seq. lia. }
  rewrite Hk in Hin. apply list_elem_of_In, List.filter_In in Hin as [_ Hin]. by rewrite flt_irrefl in Hin.
Qed.

Section Greedy.
Context (lv : nat) (P : nat -> Prop).
Hypothesis HP : forall x, P x -> x < Len h.
Hypothesis P_nb : forall x y, P x -> y ∈ nb lv x -> P y.

Lemma closest_ok (ns : list nat) (cur : nat) (ch : bool) : Forall P ns -> P cur ->
  returns (closest h q ns cur (dist h q cur) ch) (fun '(c, d, ch') => P c /\ d = dist h q c /\
    (c = cur /\ ch' = ch \/ ch' = true /\ flt d (dist h q cur) = true)).
Proof.
  intros Hns. revert cur ch. induction Hns as [|n ns Hn Hns IH]; intros cur ch Hc; cbn [closest]; [cbn; auto|].
  rewrite distance_eq by auto. cbn [mbind outcome_bind]. destruct (flt (dist h q n) (dist h q cur)) eqn:Hlt.
  - eapply returns_mono; [by apply IH|]. intros [[c d] ch'] (H1 & -> & [[-> ->]|[-> H3]]); [by auto|].
    split_and!; [done|done|]. right. split; [done|]. by eapply flt_trans.
  - by apply IH.
Qed.

Lemma greedy_ok (fuel cur : nat) : P cur -> rank (dist h q cur) < fuel ->
  returns (greedy h fuel q cur (dist h q cur) lv) P.
Proof.
  revert cur. induction fuel as [|fuel IH]; intros cur Hc Hf; [lia|]. cbn [greedy].
  rewrite neighbours_eq by auto. cbn [mbind outcome_bind].
  step_call (closest_ok (nb lv cur) cur false); [|done|].
  - apply Forall_forall. intros y. by apply P_nb.
  - intros [[c d] ch] (H1 & -> & Ho). destruct ch; [|done]. apply IH; [done|].
    destruct Ho as [[_ ?]|[_ Hlt]]; [done|]. pose proof (rank_lt c (dist h q cur) (HP c H1) Hlt). lia.
Qed.

Lemma greedyClosest_ok (ep : nat) : P ep -> returns (greedyClosest h q ep lv) P.
Proof.
  intros Hp. unfold greedyClosest. rewrite distance_eq by auto. cbn [mbind outcome_bind].
  apply greedy_ok; [done|]. pose proof (rank_le (dist h q ep)). unfold Len in *. lia.
Qed.
End Greedy.

(** Down the levels, inside a set of nodes [Q] the graph does not leave. *)
Lemma descend_ok (Q : nat -> Prop) (n ep to_ : nat) :
  (forall lv x y, to_ < lv -> Q x -> y ∈ nb lv x -> Q y) -> at_level h (to_ + n) ep -> Q ep ->
  returns (descend h n q ep to_) (fun x => at_level h to_ x /\ Q x).
Proof.
  intros HQ. revert ep. induction n as [|n IH]; intros ep Hl Hq'; cbn [descend].
  - rewrite Nat.add_0_r in Hl. by cbn.
  - step_call (greedyClosest_ok (to_ + S n) (fun x => at_level h (to_ + S n) x /\ Q x)).
    + by intros x [?%at_level_lt _].
    + intros x y [_ Hx] Hy. split; [by eapply nb_level|]. eapply HQ; [|done|done]. lia.
    + done.
    + intros x [Hx Hqx]. apply IH; [|done]. eapply at_level_le; [|done]. lia.
Qed.
End Valid.

(** ** Changing connections *)

(** Only the connections differ. *)
Definition same (h h' : HNSWIndex) : Prop := (exists ns, h' = set_nodes ns h) /\ forall x, lev h' x = lev h x.
(** The connections of [id] at level [lc] are [ns] now, all others are as before. *)
Definition changed (id lc : nat) (ns : list nat) (h h' : HNSWIndex) : Prop :=
  same h h' /\ forall x lc', conn h' x lc' = if decide (x = id /\ lc' = lc) then Some ns else conn h x lc'.

Lemma same_refl (h : HNSWIndex) : same h h.
Proof. split; [|done]. exists (nodes h). by destruct h. Qed.
Lemma same_trans (h1 h2 h3 : HNSWIndex) : same h1 h2 -> same h2 h3 -> same h1 h3.
Proof. intros [[ns ->] H1] [[ns' ->] H2]. split; [by exists ns'|]. intros x. by rewrite H2, H1. Qed.
Lemma same_Len (h h' : HNSWIndex) : same h h' -> Len h' = Len h.
Proof.
  intros [_ H]. assert (forall x, x < Len h' <-> x < Len h) as Hx by (intros x; by rewrite !lev_lt, H).
  pose proof (Hx (Len h)). pose proof (Hx (Len h')). lia.
Qed.
Lemma same_at_level (h h' : HNSWIndex) (lc x : nat) : same h h' -> at_level h' lc x <-> at_level h lc x.
Proof. intros [_ H]. unfold at_level. by rewrite H. Qed.
Lemma same_Forall (h h' : HNSWIndex) (lc : nat) (l : list nat) : same h h' ->
  Forall (at_level h lc) l -> Forall (at_level h' lc) l.
Proof. intros Hs Hl. eapply Forall_impl; [exact Hl|]. intros x. by apply same_at_level. Qed.
Lemma same_cap (h h' : HNSWIndex) (lc : nat) : same h h' -> cap h' lc = cap h lc.
Proof. by intros [[ns ->] _]. Qed.

Lemma conn_some (h : HNSWIndex) (id lc : nat) (cs : list nat) : conn h id lc = Some cs ->
  exists nd, nodes h !! id = Some nd /\ connections nd !! lc = Some cs.
Proof. unfold conn. destruct (nodes h !! id) as [nd|]; [|done]. by exists nd. Qed.
Lemma get_conn_eq (h : HNSWIndex) (id lc : nat) (cs : list nat) : conn h id lc = Some cs -> get_conn h id lc = Ret cs.
Proof. intros (nd & H1 & H2)%conn_some. unfold get_conn, at_. rewrite H1. cbn. by rewrite H2. Qed.

Lemma set_conn_ok (h : HNSWIndex) (id lc : nat) (cs ns : list nat) : conn h id lc = Some cs ->
  returns (set_conn id lc ns h) (changed id lc ns h).
Proof.
  intros (nd & H1 & H2)%conn_some. pose proof (lookup_lt_Some _ _ _ H1) as L1. pose proof (lookup_lt_Some _ _ _ H2) as L2.
  unfold set_conn. apply returns_bind, (at_ok _ _ _ _ H1). apply returns_bind, set_at_lt; [done|].
  apply returns_bind, set_at_lt; [done|]. cbn. split; [split; [by eexists|]|].
  - intros x. unfold lev. cbn [nodes set_nodes]. destruct (decide (x = id)) as [->|Hx].
    + rewrite list_lookup_insert_eq by done. by rewrite H1.
    + by rewrite list_lookup_insert_ne by done.
  - intros x lc'. unfold conn. cbn [nodes set_nodes]. destruct (decide (x = id)) as [->|Hx].
    + rewrite list_lookup_insert_eq by done. cbn [connections]. rewrite H1. destruct (decide (lc' = lc)) as [->|Hl].
      * rewrite decide_True by done. by rewrite list_lookup_insert_eq.
      * rewrite decide_False by naive_solver. by rewrite list_lookup_insert_ne.
    + rewrite decide_False by naive_solver. by rewrite list_lookup_insert_ne.
Qed.

Lemma graph_changed (h h' : HNSWIndex) (id lc : nat) (ns : list nat) : graph h -> changed id lc ns h h' ->
  NoDup ns -> id ∉ ns -> length ns <= cap h lc -> Forall (at_level h lc) ns -> graph h'.
Proof.
  intros Hg [Hs Hc] H1 H2 H3 H4. split.
  - rewrite (same_Len _ _ Hs). destruct Hs as [[ns' ->] _]. apply (g_vec _ Hg).
  - intros x l lc' Hl Hle. rewrite Hc. destruct (decide _); [by eexists|]. rewrite (proj2 Hs) in Hl. by eapply g_shape.
  - intros x lc' cs. rewrite Hc, (same_cap _ _ _ Hs). destruct (decide _) as [[-> ->]|].
    + intros [= <-]. split_and!; [done..|by eapply same_Forall].
    + intros (? & ? & ? & ?)%(g_conn _ Hg). split_and!; [done..|by eapply same_Forall].
Qed.

Lemma changed_twice (h h1 h2 : HNSWIndex) (id lc : nat) (ns ns' : list nat) :
  changed id lc ns h h1 -> changed id lc ns' h1 h2 -> changed id lc ns' h h2.
Proof.
  intros [S1 H1] [S2 H2]. split; [by eapply same_trans|]. intros x lc'. rewrite H2, H1. by destruct (decide _).
Qed.

(** ** Choosing neighbours *)

Lemma simple_ok (cs : list nat) (k : nat) : selectNeighborsSimple cs k ⊆+ cs /\
  length (selectNeighborsSimple cs k) <= k /\ (length cs <= k -> selectNeighborsSimple cs k = cs).
Proof.
  unfold selectNeighborsSimple. destruct (Nat.leb_spec (length cs) k); [done|]. split_and!; [|rewrite length_take; lia|lia].
  rewrite <- (take_drop k cs) at 2. by apply submseteq_inserts_r.
Qed.

Lemma scores_ok (h : HNSWIndex) (v : list spec_float) (cs : list nat) : graph h -> length v = dimension h ->
  Forall (fun x => x < Len h) cs -> returns (scores h v cs) (fun sc => map fst sc = cs).
Proof.
  intros Hg Hv. induction 1 as [|c cs Hc Hcs IH]; cbn [scores]; [by cbn|].
  rewrite distance_eq by done. cbn [mbind outcome_bind]. step_call IH. intros sc <-. by cbn.
Qed.
Lemma select_ok (h : HNSWIndex) (n k : nat) (cs : list nat) : graph h -> n < Len h -> Forall (fun x => x < Len h) cs -> k < length cs ->
  returns (selectNeighborsForNode h n cs k) (fun kept => kept ⊆+ cs /\ length kept <= k).
Proof.
  intros Hg Hn Hcs Hk. unfold selectNeighborsForNode. destruct (Nat.leb_spec (length cs) k); [lia|].
  step_call (slice_ok (vectors h) (n * dimension h) (S n * dimension h)); [rewrite (g_vec _ Hg); nia|nia|].
  intros v Hv. step_call (scores_ok h v cs Hg); [nia|done|]. intros sc <-. cbn. split.
  - set (l := exchange_sort _ sc). transitivity (map fst l).
    + rewrite <- (take_drop k l) at 2. rewrite map_app. by apply submseteq_inserts_r.
    + apply Permutation_submseteq, Permutation_map, exchange_sort_perm.
  - rewrite length_map, length_take. lia.
Qed.

(** ** Linking a new node *)

(** What linking [id] at level [lc] to the nodes [ns] leaves. *)
Record linked (id lc maxConn : nat) (ns : list nat) (h h' : HNSWIndex) : Prop := {
  li_graph : graph h';
  li_same : same h h';
  li_other : forall x lc', lc' <> lc \/ x ∉ ns -> conn h' x lc' = conn h x lc';
  li_room : forall n cs, n ∈ ns -> conn h n lc = Some cs -> length cs < maxConn -> conn h' n lc = Some (cs ++ [id])
}.

Lemma link_one (id lc n : nat) (h : HNSWIndex) (cs : list nat) : graph h -> at_level h lc id -> n < Len h -> n <> id ->
  conn h n lc = Some cs -> id ∉ cs ->
  returns (h1 ← set_conn n lc (cs ++ [id]) h;
           cur ← get_conn h1 n lc;
           if cap h lc <? length cur then kept ← selectNeighborsForNode h1 n cur (cap h lc); set_conn n lc kept h1
           else Ret h1)
    (fun h2 => exists kept, changed n lc kept h h2 /\ graph h2 /\ (length cs < cap h lc -> kept = cs ++ [id])).
Proof.
  intros Hg Hid Hn Hne Hcs Hni. destruct (g_conn _ Hg _ _ _ Hcs) as (Hnd & Hself & Hlen & Hall).
  assert (Hnd' : NoDup (cs ++ [id])).
  { apply NoDup_app. split_and!; [done| |apply NoDup_singleton]. intros x Hx ->%list_elem_of_singleton. done. }
  assert (Hself' : n ∉ cs ++ [id]) by (rewrite elem_of_app, list_elem_of_singleton; naive_solver).
  assert (Hall' : Forall (at_level h lc) (cs ++ [id])) by (apply Forall_app; split; [done|by constructor]).
  step_call (set_conn_ok h n lc cs (cs ++ [id]) Hcs). intros h1 Hc1. pose proof Hc1 as [[[ns1 ->] _] Hget].
  rewrite (get_conn_eq _ n lc (cs ++ [id])) by (rewrite Hget; by rewrite decide_True). cbn [mbind outcome_bind].
  destruct (Nat.ltb_spec (cap h lc) (length (cs ++ [id]))) as [Hlt|Hge].
  - change (selectNeighborsForNode (set_nodes ns1 h)) with (selectNeighborsForNode h).
    step_call (select_ok h n (cap h lc) (cs ++ [id]) Hg Hn); [|done|].
    { eapply Forall_impl; [exact Hall'|]. intros x. apply at_level_lt. }
    intros kept [Hsub Hk]. eapply returns_mono; [apply (set_conn_ok _ n lc (cs ++ [id]))|].
    { rewrite Hget. by rewrite decide_True. }
    intros h2 Hc2. exists kept. pose proof (changed_twice _ _ _ _ _ _ _ Hc1 Hc2) as Hc. split; [done|].
    apply submseteq_Permutation in Hsub as [k Hp]. rewrite Hp in Hnd', Hself', Hall'.
    apply NoDup_app in Hnd' as (? & _). apply not_elem_of_app in Hself' as [? _]. apply Forall_app in Hall' as [? _].
    split; [by eapply graph_changed|]. rewrite length_app in Hlt. cbn in Hlt. lia.
  - cbn. exists (cs ++ [id]). split; [done|]. split; [by eapply graph_changed|done].
Qed.

Lemma link_back_ok (id lc : nat) (ns : list nat) (h : HNSWIndex) : graph h -> at_level h lc id -> NoDup ns -> id ∉ ns ->
  Forall (at_level h lc) ns -> (forall n cs, n ∈ ns -> conn h n lc = Some cs -> id ∉ cs) ->
  returns (link_back id lc (cap h lc) ns h) (linked id lc (cap h lc) ns h).
Proof.
  intros Hg Hid Hnd. revert h Hg Hid. induction Hnd as [|n ns Hn Hnd IH]; intros h Hg Hid Hni Hall Hfr; cbn [link_back].
  { cbn. split; [done|apply same_refl|done|]. by intros n cs ?%not_elem_of_nil. }
  apply not_elem_of_cons in Hni as [Hne Hni]. apply Forall_cons in Hall as [Hn' Hall].
  destruct Hn' as (l & Hl & Hle). destruct (g_shape _ Hg _ _ _ Hl Hle) as [cs Hcs].
  rewrite (get_conn_eq _ _ _ _ Hcs). cbn [mbind outcome_bind].
  assert (Hnl : n < Len h) by (apply lev_lt; by eexists).
  pose proof (link_one id lc n h cs Hg Hid Hnl (not_eq_sym Hne) Hcs (Hfr n cs (list_elem_of_here n ns) Hcs)) as H1.
  destruct (set_conn n lc (cs ++ [id]) h) as [h1| |]; [|exact (False_ind _ H1)|exact (False_ind _ H1)].
  cbn [mbind outcome_bind] in *.
  destruct (get_conn h1 n lc) as [cur| |]; [|exact (False_ind _ H1)|exact (False_ind _ H1)]. cbn [mbind outcome_bind] in *.
  step_call H1. intros h2 (kept & Hc & Hg2 & Hroom). destruct Hc as [Hs2 Hget].
  rewrite <- (same_cap _ _ lc Hs2). eapply returns_mono; [apply IH|].
  - done.
  - by apply (same_at_level _ _ _ _ Hs2).
  - done.
  - by eapply same_Forall.
  - intros x cs' Hx. rewrite Hget, decide_False by naive_solver. apply Hfr. by right.
  - intros h3 []. rewrite (same_cap _ _ _ Hs2) in *. split; [done|by eapply same_trans| |].
    + intros x lc' Hx. rewrite li_other0 by (rewrite not_elem_of_cons in Hx; naive_solver).
      rewrite Hget, decide_False; [done|]. rewrite not_elem_of_cons in Hx. naive_solver.
    + intros x cs' [->|Hx]%elem_of_cons Hcs' Hlt.
      * rewrite li_other0 by by right. rewrite Hget, decide_True by done. rewrite Hcs in Hcs'. injection Hcs' as <-. f_equal. auto.
      * apply li_room0; [done| |done]. rewrite Hget, decide_False by naive_solver. done.
Qed.

(** Every two of the nodes are connected at level 0, [id] left out. *)
Definition complete_but (id : nat) (h : HNSWIndex) : Prop :=
  forall x, x < Len h -> x <> id -> exists cs, conn h x 0 = Some cs /\ forall y, y < Len h -> y <> x -> y <> id -> y ∈ cs.
Definition complete (h : HNSWIndex) : Prop :=
  forall x, x < Len h -> exists cs, conn h x 0 = Some cs /\ forall y, y < Len h -> y <> x -> y ∈ cs.
(** At the levels below [n] no node is connected to [id]. *)
Definition fresh (id n : nat) (h : HNSWIndex) : Prop :=
  forall x lc cs, lc < n -> conn h x lc = Some cs -> id ∉ cs.

Lemma NoDup_others (n id : nat) (l : list nat) : id < n -> NoDup l -> Forall (fun x => x < n /\ x <> id) l -> length l <= n - 1.
Proof.
  intros Hid Hnd Hall. enough (length (id :: l) <= length (seq 0 n)) as H by (rewrite length_seq in H; cbn in H; lia).
  apply submseteq_length, NoDup_submseteq.
  - constructor; [|done]. intros H. apply (proj1 (Forall_forall _ _) Hall) in H as [_ ?]. done.
  - intros x [->|Hx]%elem_of_cons; apply elem_of_seq; [lia|]. apply (proj1 (Forall_forall _ _) Hall) in Hx as [? _]. lia.
Qed.

(** The last level makes the graph complete when there is room for all. *)
Lemma complete_linked (id : nat) (cands : list nat) (h h1 h2 : HNSWIndex) : graph h -> id < Len h ->
  changed id 0 cands h h1 -> linked id 0 (cap h1 0) cands h1 h2 -> complete_but id h -> fresh id 1 h ->
  Len h - 1 <= mMax0 h -> (forall y, y < Len h -> y <> id -> y ∈ cands) -> id ∉ cands -> complete h2.
Proof.
  intros Hg Hid [Hs1 Hget] [Hg2 Hs2 Hother Hroom] Hcb Hfr Hmax Hall Hni x Hx.
  rewrite (same_Len _ _ Hs2), (same_Len _ _ Hs1) in *. destruct (decide (x = id)) as [->|Hxid].
  - exists cands. rewrite Hother by by right. rewrite Hget, decide_True by done. split; [done|]. intros y Hy Hne. auto.
  - destruct (Hcb x Hx Hxid) as (cs & Hcs & Hin). exists (cs ++ [id]). split.
    + apply Hroom; [by apply Hall|rewrite Hget, decide_False by naive_solver; done|].
      rewrite (same_cap _ _ _ Hs1). unfold cap. cbn. destruct (g_conn _ Hg _ _ _ Hcs) as (Hnd & Hself & _ & Hlv).
      assert (Hl : length (x :: cs) <= Len h - 1); [|cbn in Hl; lia].
      apply (NoDup_others _ id); [done|by constructor|]. constructor; [done|]. apply Forall_forall. intros y Hy. split.
      * eapply at_level_lt. by apply (proj1 (Forall_forall _ _) Hlv).
      * intros ->. by apply (Hfr x 0 cs) in Hy; [|lia|].
    + intros y Hy Hne. destruct (decide (y = id)) as [->|Hyid]; apply elem_of_app; [right; by left|left; auto].
Qed.

Lemma connect_ok (n : nat) (v : list spec_float) (id ep l : nat) (h : HNSWIndex) : graph h -> length v = dimension h ->
  lev h id = Some l -> n <= S l -> at_level h (n - 1) ep -> ep <> id -> fresh id n h ->
  returns (connect n v id ep h) (fun h' => graph h' /\ same h h' /\
    (0 < n -> complete_but id h -> Len h - 1 <= mMax0 h -> Len h - 1 <= efConstruct h -> complete h')).
Proof.
  revert ep h. induction n as [|lc IH]; intros ep h Hg Hv Hl Hn Hep Hne Hfr; cbn [connect].
  { cbn. split_and!; [done|apply same_refl|lia]. }
  rewrite Nat.sub_1_r in Hep. cbn [pred] in Hep.
  set (P := fun x => at_level h lc x /\ x <> id).
  assert (HP : forall x, P x -> x < Len h) by (intros x [?%at_level_lt _]; done).
  assert (Hid : id < Len h) by (apply lev_lt; by eexists).
  assert (Pnb : forall x y, P x -> y ∈ nb h lc x -> P y).
  { intros x y _ Hy. split; [by eapply nb_level|]. intros ->. unfold nb in Hy.
    destruct (conn h x lc) as [cs|] eqn:Hcs; [|by apply not_elem_of_nil in Hy]. by apply (Hfr x lc cs) in Hy; [|lia|]. }
  step_call (searchLayer_ok h v Hg Hv lc (efConstruct h) ep (Len h - 1) P HP Pnb); [done| |].
  { intros k Hnd Hk. apply (NoDup_others _ id); [done|done|]. eapply Forall_impl; [exact Hk|]. intros x Hx.
    split; [by apply HP|apply Hx]. }
  intros cands [Hfound _]. change (if lc =? 0 then mMax0 h else m h) with (cap h lc). cbv zeta.
  destruct (simple_ok cands (cap h lc)) as (Hsub & Hcap & Hsame). set (ns := selectNeighborsSimple cands (cap h lc)) in *.
  pose proof (fo_P _ _ _ _ _ _ _ Hfound) as HcP. pose proof (fo_nodup _ _ _ _ _ _ _ Hfound) as Hcnd.
  assert (Forall P ns /\ NoDup ns) as [HnP Hnnd].
  { apply submseteq_Permutation in Hsub as [k Hk]. rewrite Hk in HcP, Hcnd. apply Forall_app in HcP as [? _].
    by apply NoDup_app in Hcnd as (? & _). }
  assert (Hni : id ∉ ns) by (intros Hin; apply (proj1 (Forall_forall _ _) HnP) in Hin as [_ ?]; done).
  assert (Hnl : Forall (at_level h lc) ns) by (eapply Forall_impl; [exact HnP|]; by intros x []).
  destruct (g_shape _ Hg id l lc Hl) as [old Hold]; [lia|].
  step_call (set_conn_ok h id lc old ns Hold). intros h1 Hc1. pose proof Hc1 as [Hs1 Hget1].
  assert (Hg1 : graph h1) by by eapply graph_changed.
  rewrite <- (same_cap _ _ lc Hs1).
  step_call (link_back_ok id lc ns h1 Hg1); [|done|done|by eapply same_Forall| |].
  { apply (same_at_level _ _ _ _ Hs1). exists l. split; [done|lia]. }
  { intros x cs Hx Hcs. rewrite Hget1, decide_False in Hcs by naive_solver. apply (Hfr x lc cs); [lia|done]. }
  intros h2 Hli. pose proof Hli as [Hg2 Hs2 Hother Hroom]. pose proof (same_trans _ _ _ Hs1 Hs2) as Hs.
  assert (Hback : forall x lc', lc' <> lc -> conn h2 x lc' = conn h x lc').
  { intros x lc' Hlc. rewrite Hother by by left. by rewrite Hget1, decide_False by naive_solver. }
  set (ep' := match cands with [] => ep | c :: _ => c end).
  assert (Hep' : P ep') by (subst ep'; destruct cands; [done|by apply Forall_inv in HcP]).
  pose proof Hs as [[ns2 Hh2] Hlev].
  assert (HLen : Len h2 = Len h) by by apply same_Len.
  destruct lc as [|lc].
  - cbn. split_and!; [done|done|]. intros _ Hcb Hmax Hef.
    assert (Hall : forall y, y < Len h -> y <> id -> y ∈ cands).
    { destruct (fo_all _ _ _ _ _ _ _ Hfound Hef) as [He Hcl]. intros y Hy Hyid.
      destruct (decide (y = ep)) as [->|Hye]; [done|]. apply (Hcl ep y He).
      destruct (Hcb ep (at_level_lt _ _ _ Hep) Hne) as (cs & Hcs & Hin). unfold nb. rewrite Hcs. cbn. auto. }
    assert (Hns : ns = cands).
    { apply Hsame. unfold cap. cbn. etransitivity; [|exact Hmax]. apply (NoDup_others _ id); [done|done|].
      eapply Forall_impl; [exact HcP|]. intros x Hx. split; [by apply HP|apply Hx]. }
    rewrite Hns in *. by apply (complete_linked id cands h h1 h2).
  - eapply returns_mono; [apply IH|].
    + done.
    + by subst h2.
    + by rewrite Hlev.
    + lia.
    + apply (same_at_level _ _ _ _ Hs). eapply at_level_le; [|apply Hep']. lia.
    + apply Hep'.
    + intros x lc' cs Hlc Hcs. rewrite Hback in Hcs by lia. apply (Hfr x lc' cs); [lia|done].
    + intros h' (Hg' & Hs' & Hcomp). split_and!; [done|by eapply same_trans|]. intros _ Hcb Hmax Hef.
      apply Hcomp; [lia| |rewrite HLen; by rewrite Hh2..]. intros x. rewrite HLen, Hback by lia. apply Hcb.
Qed.

(** ** Inserting *)

(** The index with a new, unconnected node. *)
Definition extended (v : list spec_float) (lv : nat) (h : HNSWIndex) : HNSWIndex :=
  set_vectors (vectors h ++ v) (set_nodes (nodes h ++ [{| connections := replicate (S lv) []; level := lv |}]) h).

Section Extended.
Context (h : HNSWIndex) (v : list spec_float) (lv : nat).
Let h1 := extended v lv h.
Let id := Len h.

Lemma extended_Len : Len h1 = S (Len h).
Proof. unfold Len. cbn. rewrite length_app. cbn. lia. Qed.
Lemma extended_lev (x : nat) : lev h1 x = if decide (x = id) then Some lv else lev h x.
Proof.
  unfold lev. cbn. destruct (decide (x = id)) as [->|Hx].
  - by rewrite list_lookup_middle.
  - destruct (decide (x < length (nodes h))); [by rewrite lookup_app_l|].
    rewrite !lookup_ge_None_2; [done|lia|]. rewrite length_app. subst id. unfold Len in Hx. cbn. lia.
Qed.
Lemma extended_conn (x lc : nat) :
  conn h1 x lc = if decide (x = id) then (if decide (lc <= lv) then Some [] else None) else conn h x lc.
Proof.
  unfold conn. cbn. destruct (decide (x = id)) as [->|Hx].
  - rewrite list_lookup_middle by done. cbn [connections]. destruct (decide (lc <= lv)).
    + change ([] :: replicate lv []) with (replicate (S lv) (@nil nat)). apply lookup_replicate_2. lia.
    + apply lookup_ge_None_2. cbn. rewrite length_replicate. lia.
  - destruct (decide (x < length (nodes h))); [by rewrite lookup_app_l|].
    rewrite !lookup_ge_None_2; [done|lia|]. rewrite length_app. subst id. unfold Len in Hx. cbn. lia.
Qed.
Lemma extended_at_level (lc x : nat) : at_level h lc x -> at_level h1 lc x.
Proof.
  intros Hx. pose proof (at_level_lt _ _ _ Hx) as Hlt. destruct Hx as (l & Hl & ?). exists l.
  rewrite extended_lev, decide_False by (subst id; lia). done.
Qed.
Hypothesis Hg : graph h.
Hypothesis Hv : length v = dimension h.
Lemma extended_old (x lc : nat) (cs : list nat) : conn h1 x lc = Some cs -> Forall (fun y => y < Len h) cs.
Proof.
  rewrite extended_conn. destruct (decide (x = id)).
  - destruct (decide _); [|done]. by intros [= <-].
  - intros (_ & _ & _ & H)%(g_conn _ Hg). eapply Forall_impl; [exact H|]. intros y. apply at_level_lt.
Qed.
Lemma extended_fresh (n : nat) : fresh id n h1.
Proof.
  intros x lc cs _ Hcs Hin. apply extended_old in Hcs. apply (proj1 (Forall_forall _ _) Hcs) in Hin. subst id. lia.
Qed.
Lemma extended_graph : graph h1.
Proof.
  split.
  - rewrite extended_Len. cbn. rewrite length_app, (g_vec _ Hg), Hv. lia.
  - intros x l lc. rewrite extended_lev, extended_conn. destruct (decide (x = id)); [|apply (g_shape _ Hg)].
    intros [= <-] Hle. rewrite decide_True by done. by eexists.
  - intros x lc cs Hcs. pose proof Hcs as Hold. rewrite extended_conn in Hcs. destruct (decide (x = id)) as [->|Hx].
    + destruct (decide _); [|done]. injection Hcs as <-. split_and!; [constructor|by apply not_elem_of_nil|cbn; lia|done].
    + destruct (g_conn _ Hg _ _ _ Hcs) as (H1 & H2 & H3 & H4). split_and!; [done|done|done|].
      eapply Forall_impl; [exact H4|]. intros y. apply extended_at_level.
Qed.
Lemma extended_complete : complete h -> complete_but id h1.
Proof.
  intros Hc x Hx Hne. rewrite extended_Len in Hx. destruct (Hc x) as (cs & Hcs & Hin); [subst id; lia|].
  exists cs. rewrite extended_conn, decide_False by done. split; [done|]. intros y Hy Hyx Hyid. apply Hin; [|done].
  rewrite extended_Len in Hy. subst id. lia.
Qed.
(** The descent never meets the new node. *)
Lemma extended_descend (n ep to_ : nat) : at_level h (to_ + n) ep ->
  returns (descend h1 n v ep to_) (fun x => at_level h1 to_ x /\ x < Len h).
Proof.
  intros Hep. apply (descend_ok h1 v extended_graph Hv (fun x => x < Len h)).
  - intros lc x y _ _ Hy. unfold nb in Hy. destruct (conn h1 x lc) as [cs|] eqn:Hcs; [|by apply not_elem_of_nil in Hy].
    apply extended_old in Hcs. by apply (proj1 (Forall_forall _ _) Hcs).
  - by apply extended_at_level.
  - by eapply at_level_lt.
Qed.
End Extended.
