(* ===== verification/Coastlines.v ===== *)
(** * Package [gui], [coastlines.go]: the coastlines

    The simplified world coastlines, polyline by polyline, as pairs of latitude
    and longitude in whole degrees (the table has no fractions). *)

From S2P Require Import Prelude.
Local Open Scope Z_scope.

Record CoastPoint := { C_Lat : Z; C_Lon : Z }.
Definition points (l : list (Z * Z)) : list CoastPoint := map (fun p => {| C_Lat := p.1; C_Lon := p.2 |}) l.

(** North America (simplified outline). *)
Definition coast_North_America : list CoastPoint := points [
  (72, -170); (71, -157); (70, -141); (69, -134); (60, -141); (59, -139); (57, -136); (56, -132);
  (54, -130); (49, -125); (46, -124); (42, -124); (38, -123); (35, -121); (33, -118); (32, -117);
  (28, -112); (24, -110); (23, -106); (20, -105); (18, -103); (16, -96); (15, -92); (17, -88);
  (18, -88); (21, -87); (21, -90); (26, -90); (29, -89); (30, -88); (30, -85); (27, -82);
  (25, -81); (25, -80); (27, -80); (30, -81); (32, -81); (35, -75); (37, -76); (39, -74);
  (41, -72); (42, -70); (43, -70); (44, -67); (45, -67); (47, -64); (45, -61); (47, -59);
  (47, -53); (52, -56); (53, -56); (52, -56); (47, -53); (50, -58); (51, -57); (53, -60);
  (55, -60); (58, -63); (60, -65); (63, -69); (67, -63); (69, -54); (72, -56); (73, -56);
  (76, -68); (77, -73); (76, -89); (74, -95); (72, -96); (70, -102); (72, -114); (72, -128);
  (71, -138); (72, -170)].
(** South America (simplified outline). *)
Definition coast_South_America : list CoastPoint := points [
  (12, -72); (11, -75); (8, -77); (4, -77); (1, -80); (-1, -80); (-5, -81); (-6, -77);
  (-14, -76); (-18, -71); (-23, -70); (-27, -71); (-33, -72); (-41, -73); (-46, -76); (-52, -70);
  (-55, -67); (-55, -64); (-52, -68); (-46, -66); (-41, -63); (-38, -57); (-34, -53); (-33, -52);
  (-28, -49); (-23, -41); (-15, -39); (-12, -37); (-7, -35); (-2, -44); (1, -50); (5, -52);
  (6, -57); (7, -60); (9, -60); (10, -62); (11, -68); (12, -72)].
(** Europe (simplified outline). *)
Definition coast_Europe : list CoastPoint := points [
  (36, -9); (37, -8); (39, -9); (43, -9); (44, -1); (43, 3); (46, 1); (48, -5);
  (49, -2); (50, 2); (51, 2); (51, 4); (53, 5); (54, 9); (55, 8); (56, 9);
  (57, 10); (58, 12); (59, 11); (63, 5); (62, 5); (59, 5); (58, 7); (57, 6);
  (57, 7); (59, 11); (60, 11); (61, 5); (63, 5); (64, 10); (65, 13); (68, 15);
  (70, 20); (71, 26); (70, 29); (67, 26); (65, 25); (60, 27); (59, 24); (57, 22);
  (56, 21); (55, 21); (54, 18); (54, 14); (51, 14); (50, 20); (49, 18); (47, 16);
  (46, 14); (45, 14); (44, 12); (43, 16); (42, 18); (40, 20); (39, 20); (38, 24);
  (37, 24); (35, 24); (36, 22); (40, 26); (41, 29); (41, 29); (39, 26); (37, 22)].
(** Africa (simplified outline). *)
Definition coast_Africa : list CoastPoint := points [
  (37, -2); (36, -1); (35, -1); (34, -2); (33, -7); (31, -10); (28, -13); (24, -16);
  (21, -17); (16, -17); (15, -17); (12, -16); (8, -8); (6, -5); (5, 1); (4, 10);
  (2, 10); (0, 9); (-1, 9); (-5, 12); (-10, 14); (-15, 12); (-17, 12); (-23, 14);
  (-26, 15); (-29, 17); (-31, 18); (-34, 18); (-34, 24); (-34, 26); (-32, 28); (-29, 32);
  (-26, 33); (-22, 35); (-16, 37); (-12, 40); (-10, 40); (-4, 40); (-1, 42); (3, 41);
  (5, 44); (10, 45); (12, 44); (11, 50); (12, 51); (15, 40); (20, 37); (23, 36);
  (25, 35); (29, 33); (30, 33); (31, 32); (32, 32); (37, 11); (37, -2)].
(** Asia (simplified outline, mainland). *)
Definition coast_Asia : list CoastPoint := points [
  (41, 29); (42, 36); (37, 36); (33, 36); (30, 35); (29, 33); (26, 36); (25, 38);
  (22, 39); (19, 41); (17, 44); (14, 44); (12, 45); (12, 51); (13, 53); (16, 56);
  (22, 60); (24, 57); (25, 57); (26, 56); (24, 66); (22, 70); (21, 73); (20, 73);
  (18, 78); (15, 74); (11, 76); (8, 77); (7, 79); (6, 80); (10, 80); (13, 80);
  (16, 81); (21, 86); (22, 89); (22, 91); (21, 92); (22, 97); (20, 100); (18, 101);
  (16, 100); (14, 99); (13, 103); (10, 99); (8, 98); (7, 100); (1, 104); (1, 104);
  (4, 108); (9, 106); (12, 109); (16, 108); (18, 107); (21, 108); (23, 114); (22, 114);
  (21, 110); (18, 110); (19, 111); (21, 107); (23, 108); (31, 122); (34, 120); (37, 122);
  (39, 118); (40, 122); (41, 122); (46, 131); (48, 135); (45, 142); (43, 142); (43, 146);
  (47, 143); (51, 141); (53, 143); (55, 138); (59, 143); (62, 150); (64, 161); (62, 163);
  (60, 163); (60, 166); (62, 171); (65, 176); (66, -170); (65, -169); (63, -164); (61, -162);
  (64, -153)].
(** Australia (simplified outline). *)
Definition coast_Australia : list CoastPoint := points [
  (-12, 130); (-12, 132); (-12, 136); (-15, 137); (-16, 136); (-17, 141); (-16, 146); (-19, 146);
  (-23, 150); (-27, 153); (-29, 153); (-33, 152); (-35, 151); (-37, 150); (-38, 146); (-39, 144);
  (-37, 140); (-35, 136); (-35, 134); (-34, 132); (-32, 129); (-32, 127); (-32, 115); (-34, 115);
  (-34, 116); (-31, 116); (-27, 114); (-25, 113); (-22, 114); (-20, 118); (-18, 122); (-15, 128);
  (-14, 129); (-12, 130)].
(** British Isles (simplified). *)
Definition coast_British_Isles : list CoastPoint := points [
  (50, -5); (52, -5); (53, -3); (54, -3); (55, -5); (57, -6); (58, -3); (58, -5);
  (57, -7); (55, -7); (53, -10); (52, -10); (51, -5); (50, -5)].
(** Japan (simplified). *)
Definition coast_Japan : list CoastPoint := points [
  (31, 131); (33, 131); (34, 132); (34, 134); (35, 135); (36, 137); (37, 137); (38, 140);
  (40, 140); (41, 140); (42, 141); (43, 145); (44, 145); (45, 142); (43, 141); (41, 140);
  (39, 140); (36, 140); (35, 140); (34, 137); (33, 134); (31, 131)].
(** New Zealand (simplified). *)
Definition coast_New_Zealand : list CoastPoint := points [
  (-34, 173); (-37, 175); (-38, 178); (-41, 175); (-42, 172); (-44, 169); (-46, 167); (-47, 168);
  (-46, 170); (-44, 172); (-41, 175); (-37, 175)].
(** Iceland. *)
Definition coast_Iceland : list CoastPoint := points [
  (64, -22); (65, -24); (66, -22); (66, -18); (66, -14); (65, -14); (64, -16); (64, -19);
  (64, -22)].
(** Madagascar. *)
Definition coast_Madagascar : list CoastPoint := points [
  (-12, 49); (-16, 50); (-19, 44); (-22, 44); (-25, 47); (-23, 44); (-19, 44); (-16, 46);
  (-14, 48); (-12, 49)].
(** Sri Lanka. *)
Definition coast_Sri_Lanka : list CoastPoint := points [
  (10, 80); (8, 80); (7, 80); (6, 81); (7, 82); (10, 80)].
(** Indonesia - Java/Sumatra outline. *)
Definition coast_Indonesia_Java_Sumatra_outline : list CoastPoint := points [
  (6, 95); (5, 97); (3, 99); (1, 104); (-2, 106); (-6, 106); (-7, 108); (-8, 110);
  (-8, 114); (-7, 114); (-6, 110); (-5, 106); (-2, 104); (1, 104); (3, 99); (6, 95)].
(** Indonesia - Borneo. *)
Definition coast_Indonesia_Borneo : list CoastPoint := points [
  (7, 117); (5, 119); (3, 118); (1, 110); (-1, 109); (-3, 111); (-2, 117); (1, 118);
  (4, 118); (7, 117)].
(** Greenland (simplified). *)
Definition coast_Greenland : list CoastPoint := points [
  (60, -43); (62, -42); (65, -40); (68, -27); (72, -22); (76, -18); (78, -20); (80, -25);
  (82, -30); (83, -38); (82, -46); (80, -66); (77, -73); (76, -68); (73, -56); (72, -56);
  (69, -54); (67, -53); (64, -51); (62, -50); (60, -43)].
(** Scandinavia (supplement to Europe). *)
Definition coast_Scandinavia : list CoastPoint := points [
  (56, 12); (56, 16); (58, 17); (59, 18); (61, 17); (63, 18); (65, 18); (68, 20);
  (69, 26); (70, 27); (71, 26); (70, 20); (68, 15); (65, 13); (64, 10); (63, 8);
  (61, 5); (59, 5); (57, 6); (56, 12)].
(** Italy. *)
Definition coast_Italy : list CoastPoint := points [
  (44, 7); (44, 8); (43, 11); (43, 13); (42, 12); (41, 15); (40, 15); (38, 16);
  (38, 16); (39, 17); (40, 18); (42, 15); (44, 12); (46, 14); (46, 13); (44, 7)].
(** Sicily. *)
Definition coast_Sicily : list CoastPoint := points [
  (38, 13); (37, 13); (37, 15); (38, 16); (38, 13)].
(** Greece/Turkey Aegean coast. *)
Definition coast_Greece_Turkey_Aegean_coast : list CoastPoint := points [
  (36, 23); (37, 24); (38, 23); (39, 23); (40, 23); (41, 26); (41, 29); (40, 27);
  (39, 26); (38, 26); (37, 28); (37, 27); (36, 28); (35, 24); (36, 23)].

Definition Coastlines : list (list CoastPoint) := [
  coast_North_America;
  coast_South_America;
  coast_Europe;
  coast_Africa;
  coast_Asia;
  coast_Australia;
  coast_British_Isles;
  coast_Japan;
  coast_New_Zealand;
  coast_Iceland;
  coast_Madagascar;
  coast_Sri_Lanka;
  coast_Indonesia_Java_Sumatra_outline;
  coast_Indonesia_Borneo;
  coast_Greenland;
  coast_Scandinavia;
  coast_Italy;
  coast_Sicily;
  coast_Greece_Turkey_Aegean_coast].

(** Every polyline has a segment, and every point is on the globe. *)
Definition on_globe (p : CoastPoint) : Prop := -90 <= C_Lat p <= 90 /\ -180 <= C_Lon p <= 180.
Lemma Coastlines_ok : Forall (fun poly => (2 <= length poly)%nat /\ Forall on_globe poly) Coastlines.
Proof.
  assert (H : forallb (fun poly => (2 <=? length poly)%nat && forallb (fun p =>
    (-90 <=? C_Lat p) && (C_Lat p <=? 90) && (-180 <=? C_Lon p) && (C_Lon p <=? 180)) poly) Coastlines = true) by (vm_compute; reflexivity).
  rewrite forallb_forall in H. apply Forall_forall. intros poly Hp. apply list_elem_of_In in Hp. specialize (H poly Hp).
  apply andb_prop in H as [H1 H2]. split; [by apply Nat.leb_le|]. rewrite forallb_forall in H2.
  apply Forall_forall. intros p Hin. apply list_elem_of_In in Hin. specialize (H2 p Hin). unfold on_globe. lia.
Qed.
