(* ===== verification/Globe.v ===== *)
(** * Package [gui], [globe.go]: the globe

    Projection, arcs, lines and dots on a pixel image.  Angles are [float64];
    the functions of package [math] are parameters, so the theorems hold for
    any of them.  Pixel coordinates are 64-bit integers and wrap around; the
    conversion of a float that has no place in them gives the least of them,
    as on amd64.  An image is the map of the pixels set so far. *)

From Stdlib Require Import SpecFloat.
From S2P Require Import Prelude GoStrings GoFloats Coastlines.
Local Open Scope Z_scope.

(** ** Colours *)

Record RGBA := { R : Z; G : Z; B : Z; A : Z }.
Definition rgba (r g b a : Z) : RGBA := {| R := r; G := g; B := b; A := a |}.
Definition clampU8 (v : Z) : Z := if 255 <? v then 255 else v mod 256.
Definition brighten (c : RGBA) : RGBA :=
  rgba (clampU8 (R c + 80)) (clampU8 (G c + 80)) (clampU8 (B c + 80)) (A c).
Definition nodeColor (role : string) : RGBA :=
  if decide (role = "guard") then rgba 50 200 50 255
  else if decide (role = "exit") then rgba 220 50 50 255
  else rgba 200 150 50 255.

(** ** Images *)

(** The rectangle from (0, 0), and the pixels that were set. *)
Record Image := { width : Z; height : Z; pixels : gmap (Z * Z) RGBA }.
Definition in_bounds (img : Image) (x y : Z) : bool := (0 <=? x) && (x <? width img) && (0 <=? y) && (y <? height img).
(** [img.SetRGBA], behind the test of the bounds. *)
Definition set_pixel (c : RGBA) (img : Image) (p : Z * Z) : Image :=
  if in_bounds img p.1 p.2 then {| width := width img; height := height img; pixels := <[p := c]> (pixels img) |} else img.

(** *** Lines *)

(** The value an [int] holds. *)
Definition int64 (z : Z) : Z := (z + 2 ^ 63) mod 2 ^ 64 - 2 ^ 63.
Definition abs (x : Z) : Z := if x <? 0 then int64 (- x) else x.

(** Bresenham's loop: the points in the order they are visited.  As long as
    nothing wraps around, every turn moves in some direction, so the sum of the
    distances and one is enough fuel. *)
Fixpoint line_loop (fuel : nat) (x0 y0 x1 y1 dx dy sx sy err : Z) : outcome (list (Z * Z)) :=
  match fuel with
  | O => NoFuel
  | S fuel' =>
      if (x0 =? x1) && (y0 =? y1) then Ret [(x0, y0)]
      else
        let e2 := int64 (2 * err) in
        let '(err1, x0') := if dy <=? e2 then (int64 (err + dy), int64 (x0 + sx)) else (err, x0) in
        let '(err2, y0') := if e2 <=? dx then (int64 (err1 + dx), int64 (y0 + sy)) else (err1, y0) in
        rest ← line_loop fuel' x0' y0' x1 y1 dx dy sx sy err2;
        Ret ((x0, y0) :: rest)
  end.
Definition line_points (x0 y0 x1 y1 : Z) : outcome (list (Z * Z)) :=
  let dx := abs (int64 (x1 - x0)) in
  let dy := int64 (- abs (int64 (y1 - y0))) in
  let sx := if x1 <? x0 then -1 else 1 in
  let sy := if y1 <? y0 then -1 else 1 in
  line_loop (Z.to_nat (dx - dy + 1)) x0 y0 x1 y1 dx dy sx sy (int64 (dx + dy)).
Definition drawLine (x0 y0 x1 y1 : Z) (c : RGBA) (img : Image) : outcome Image :=
  ps ← line_points x0 y0 x1 y1; Ret (foldl (set_pixel c) img ps).

(** *** Dots *)

Definition range (lo hi : Z) : list Z := map (fun i => lo + Z.of_nat i) (seq 0 (Z.to_nat (hi - lo + 1))).
Definition dot_points (cx cy radius : Z) : list (Z * Z) :=
  flat_map (fun dy => flat_map (fun dx =>
    if int64 (dx * dx + dy * dy) <=? int64 (radius * radius) then [(int64 (cx + dx), int64 (cy + dy))] else []) (range (- radius) radius)) (range (- radius) radius).
Definition drawDot (cx cy radius : Z) (c : RGBA) (img : Image) : Image := foldl (set_pixel c) img (dot_points cx cy radius).

(** ** The widget *)

Record GlobeNode := { Lat : spec_float; Lon : spec_float; Fingerprint : string; Nickname : string; Country : string; Role : string }.
Record GlobePath := { Nodes : list GlobeNode; CircuitID : string; Selected : bool }.
Record GlobeWidget := {
  rotation : spec_float; tilt : spec_float; nodes : list GlobeNode; paths : list GlobePath;
  size_w : Z; size_h : Z; (* [int(size.Width)] and [int(size.Height)] *)
  shown : option Image; OnNodeTapped : bool
}.
Definition f64_sub : spec_float -> spec_float -> spec_float := SFsub 53 1024.
Definition half : spec_float := tenths 5.
Definition f90 : spec_float := f64_of_Z 90.
Definition fm90 : spec_float := f64_of_Z (-90).
(** The two tests that follow a change of the tilt. *)
Definition clamp_high (t : spec_float) : spec_float := if flt f90 t then f90 else t.
Definition clamp_low (t : spec_float) : spec_float := if flt t fm90 then fm90 else t.

Definition set_view (rot til : spec_float) (g : GlobeWidget) : GlobeWidget := {|
  rotation := rot; tilt := til; nodes := nodes g; paths := paths g; size_w := size_w g; size_h := size_h g;
  shown := shown g; OnNodeTapped := OnNodeTapped g |}.
Definition set_data (ns : list GlobeNode) (ps : list GlobePath) (g : GlobeWidget) : GlobeWidget := {|
  rotation := rotation g; tilt := tilt g; nodes := ns; paths := ps; size_w := size_w g; size_h := size_h g;
  shown := shown g; OnNodeTapped := OnNodeTapped g |}.
Definition set_shown (img : Image) (g : GlobeWidget) : GlobeWidget := {|
  rotation := rotation g; tilt := tilt g; nodes := nodes g; paths := paths g; size_w := size_w g; size_h := size_h g;
  shown := Some img; OnNodeTapped := OnNodeTapped g |}.
Definition NewGlobeWidget (w h : Z) : GlobeWidget := {|
  rotation := f64_of_Z (-20); tilt := f64_of_Z 20; nodes := []; paths := []; size_w := w; size_h := h;
  shown := None; OnNodeTapped := false |}.

(** ** Rendering *)

(** [math.Pi / 180], [2.2] and [1e-6], rounded to binary64. *)
Definition deg2rad : spec_float := S754_finite false 5030569068109113 (-58).
Definition f22 : spec_float := tenths 22.
Definition micro : spec_float := S754_finite false 4722366482869645 (-72).
Definition one64 : spec_float := f64_of_Z 1.
Definition mone64 : spec_float := f64_of_Z (-1).
Definition zero64 : spec_float := S754_zero false.
Example micro_value : f64_div one64 (f64_of_Z 1000000) = micro.
Proof. vm_compute. reflexivity. Qed.

(** What a frame is drawn with: the centre, the radius and the view in radians. *)
Record View := { v_cx : spec_float; v_cy : spec_float; v_r : spec_float; v_rot : spec_float; v_tilt : spec_float }.

Section Render.
Variables Sin Cos Acos : spec_float -> spec_float.
Variable Atan2 : spec_float -> spec_float -> spec_float.
Local Infix "+." := f64_add (at level 50, left associativity).
Local Infix "-." := f64_sub (at level 50, left associativity).
Local Infix "*." := f64_mul (at level 40, left associativity).
Local Infix "/." := f64_div (at level 40, left associativity).

(** [None] is a point of the far side. *)
Definition project (lat lon : spec_float) (v : View) : option (spec_float * spec_float) :=
  let latR := lat *. deg2rad in
  let lonR := lon *. deg2rad in
  let cosLat := Cos latR in
  let sinLat := Sin latR in
  let cosLon := Cos (lonR -. v_rot v) in
  let sinLon := Sin (lonR -. v_rot v) in
  let cosTilt := Cos (v_tilt v) in
  let sinTilt := Sin (v_tilt v) in
  let vis := sinTilt *. sinLat +. cosTilt *. cosLat *. cosLon in
  if flt vis zero64 then None
  else Some (v_cx v +. v_r v *. cosLat *. sinLon, v_cy v -. v_r v *. (cosTilt *. sinLat -. sinTilt *. cosLat *. cosLon)).

Definition view (g : GlobeWidget) : View :=
  {| v_cx := f64_of_Z (size_w g) /. f64_of_Z 2; v_cy := f64_of_Z (size_h g) /. f64_of_Z 2;
     v_r := f64_of_Z (Z.min (size_w g) (size_h g)) /. f22;
     v_rot := rotation g *. deg2rad; v_tilt := tilt g *. deg2rad |}.

Fixpoint draw_lines (ls : list (Z * Z * Z * Z)) (c : RGBA) (img : Image) : outcome Image :=
  match ls with
  | [] => Ret img
  | (x0, y0, x1, y1) :: ls' => img' ← drawLine x0 y0 x1 y1 c img; draw_lines ls' c img'
  end.

(** The point of an arc at [t]: spherical interpolation. *)
Definition slerp (a b : GlobeNode) (t : spec_float) : spec_float * spec_float :=
  let lat1 := Lat a *. deg2rad in let lon1 := Lon a *. deg2rad in
  let lat2 := Lat b *. deg2rad in let lon2 := Lon b *. deg2rad in
  let cosD := Sin lat1 *. Sin lat2 +. Cos lat1 *. Cos lat2 *. Cos (lon2 -. lon1) in
  let cosD := if flt one64 cosD then one64 else cosD in
  let cosD := if flt cosD mone64 then mone64 else cosD in
  let d := Acos cosD in
  if flt d micro then (lat1 +. t *. (lat2 -. lat1), lon1 +. t *. (lon2 -. lon1))
  else
    let sinD := Sin d in
    let fa := Sin ((one64 -. t) *. d) /. sinD in
    let fb := Sin (t *. d) /. sinD in
    let x := fa *. Cos lat1 *. Cos lon1 +. fb *. Cos lat2 *. Cos lon2 in
    let y := fa *. Cos lat1 *. Sin lon1 +. fb *. Cos lat2 *. Sin lon2 in
    let z := fa *. Sin lat1 +. fb *. Sin lat2 in
    (Atan2 z (f64_sqrt (x *. x +. y *. y)), Atan2 y x).
Definition arc_point (a b : GlobeNode) (v : View) (i : nat) : option (spec_float * spec_float) :=
  let '(lat, lon) := slerp a b (f64_of_Z (Z.of_nat i) /. f64_of_Z 24) in
  project (lat /. deg2rad) (lon /. deg2rad) v.
(** The loop over the segments, from the point before. *)
Fixpoint arc_loop (a b : GlobeNode) (v : View) (c : RGBA) (lineWidth : nat) (steps : list nat)
    (prev : option (spec_float * spec_float)) (img : Image) : outcome Image :=
  match steps with
  | [] => Ret img
  | i :: steps' =>
      let cur := arc_point a b v i in
      img' ← match prev, cur with
             | Some (px, py), Some (x, y) =>
                 draw_lines (map (fun w => (f64_trunc px, int64 (f64_trunc py + Z.of_nat w), f64_trunc x, int64 (f64_trunc y + Z.of_nat w)))
                   (seq 0 lineWidth)) c img
             | _, _ => Ret img
             end;
      arc_loop a b v c lineWidth steps' cur img'
  end.
Definition drawGreatCircleArc (a b : GlobeNode) (v : View) (c : RGBA) (lineWidth : nat) (img : Image) : outcome Image :=
  arc_loop a b v c lineWidth (seq 0 25) None img.

(** The sphere: every pixel of the image. *)
Definition oceanColor : RGBA := rgba 26 58 92 255.
Definition spaceColor : RGBA := rgba 15 15 25 255.
Definition coastColor : RGBA := rgba 80 140 100 255.
Definition sphere_color (v : View) (p : Z * Z) : RGBA :=
  let dx := f64_of_Z p.1 -. v_cx v in
  let dy := f64_of_Z p.2 -. v_cy v in
  if SFleb (dx *. dx +. dy *. dy) (v_r v *. v_r v) then oceanColor else spaceColor.
Definition grid (w h : Z) : list (Z * Z) := flat_map (fun y => map (fun x => (x, y)) (range 0 (w - 1))) (range 0 (h - 1)).
Definition draw_sphere (v : View) (img : Image) : Image :=
  foldl (fun i p => set_pixel (sphere_color v p) i p) img (grid (width img) (height img)).

(** Consecutive points of a polyline, both visible. *)
Fixpoint coast_lines (v : View) (poly : list CoastPoint) : list (Z * Z * Z * Z) :=
  match poly with
  | p :: (q :: _) as rest =>
      match project (f64_of_Z (C_Lat p)) (f64_of_Z (C_Lon p)) v, project (f64_of_Z (C_Lat q)) (f64_of_Z (C_Lon q)) v with
      | Some (x1, y1), Some (x2, y2) => [(f64_trunc x1, f64_trunc y1, f64_trunc x2, f64_trunc y2)]
      | _, _ => []
      end ++ coast_lines v rest
  | _ => []
  end.
Fixpoint draw_path (ns : list GlobeNode) (v : View) (c : RGBA) (lineWidth : nat) (img : Image) : outcome Image :=
  match ns with
  | a :: (b :: _) as rest => img' ← drawGreatCircleArc a b v c lineWidth img; draw_path rest v c lineWidth img'
  | _ => Ret img
  end.
Fixpoint draw_paths (ps : list GlobePath) (v : View) (img : Image) : outcome Image :=
  match ps with
  | [] => Ret img
  | p :: ps' =>
      let '(c, lineWidth) := if Selected p then (rgba 255 200 50 255, 2%nat) else (rgba 100 180 255 200, 1%nat) in
      img' ← draw_path (Nodes p) v c lineWidth img;
      draw_paths ps' v img'
  end.
Definition draw_node (v : View) (img : Image) (n : GlobeNode) : Image :=
  match project (Lat n) (Lon n) v with
  | None => img
  | Some (px, py) =>
      let nc := nodeColor (Role n) in
      drawDot (f64_trunc px) (f64_trunc py) 2 (brighten nc) (drawDot (f64_trunc px) (f64_trunc py) 4 nc img)
  end.

(** [image.NewRGBA] panics when the bytes of the pixels are more than an [int]. *)
Definition renderFrame (g : GlobeWidget) : outcome GlobeWidget :=
  if (size_w g <? 10) || (size_h g <? 10) then Ret g
  else if 2 ^ 63 <=? 4 * size_w g * size_h g then Panic
  else
    let v := view g in
    let img0 := draw_sphere v {| width := size_w g; height := size_h g; pixels := ∅ |} in
    img1 ← draw_lines (flat_map (coast_lines v) Coastlines) coastColor img0;
    img2 ← draw_paths (paths g) v img1;
    Ret (set_shown (foldl (draw_node v) img2 (nodes g)) g).

(** ** Events *)

Definition SetData (ns : list GlobeNode) (ps : list GlobePath) (g : GlobeWidget) : outcome GlobeWidget := renderFrame (set_data ns ps g).
(** The drag is in [float32]. *)
Definition Dragged (dx dy : spec_float) (g : GlobeWidget) : outcome GlobeWidget :=
  renderFrame (set_view (rotation g -. float64 dx *. half) (clamp_low (clamp_high (tilt g +. float64 dy *. half))) g).
Inductive key := KeyLeft | KeyRight | KeyUp | KeyDown | KeyPlus | KeyEqual | KeyMinus | OtherKey.
Definition TypedKey (k : key) (g : GlobeWidget) : outcome GlobeWidget :=
  let ten := f64_of_Z 10 in
  match k with
  | KeyLeft => renderFrame (set_view (rotation g +. ten) (tilt g) g)
  | KeyRight => renderFrame (set_view (rotation g -. ten) (tilt g) g)
  | KeyUp => renderFrame (set_view (rotation g) (clamp_low (tilt g -. ten)) g)
  | KeyDown => renderFrame (set_view (rotation g) (clamp_high (tilt g +. ten)) g)
  | KeyPlus | KeyEqual | KeyMinus => renderFrame g
  | OtherKey => Ret g
  end.

(** The relay that is hit by a tap, if a handler is set. *)
Definition hit (v : View) (tapX tapY : spec_float) (n : GlobeNode) : bool :=
  match project (Lat n) (Lon n) v with
  | None => false
  | Some (px, py) =>
      let dx := tapX -. px in
      let dy := tapY -. py in
      SFleb (dx *. dx +. dy *. dy) (f64_of_Z 144)
  end.
Definition Tapped (x y : spec_float) (g : GlobeWidget) : option string :=
  if negb (OnNodeTapped g) then None
  else if (size_w g <? 10) || (size_h g <? 10) then None
  else Fingerprint <$> List.find (hit (view g) (float64 x) (float64 y)) (nodes g).
End Render.

(** ** Lines are digital straight lines *)

Lemma int64_id (z : Z) : - 2 ^ 63 <= z < 2 ^ 63 -> int64 z = z.
Proof. intros H. unfold int64. rewrite Z.mod_small; lia. Qed.
(** A coordinate so far from the border of the [int]s that no line between two
    such wraps around. *)
Definition pixel (z : Z) : bool := (- 2 ^ 60 <=? z) && (z <=? 2 ^ 60).

Fixpoint connected (ps : list (Z * Z)) : Prop :=
  match ps with
  | p :: (q :: _) as rest => Z.abs (q.1 - p.1) <= 1 /\ Z.abs (q.2 - p.2) <= 1 /\ p <> q /\ connected rest
  | _ => True
  end.

Section Line.
(** The distances and directions. *)
Variables x0 y0 dx dy sx sy : Z.
Definition major : Z := Z.max dx dy.
Definition px (i : Z) : Z := x0 + sx * i.
Definition py (j : Z) : Z := y0 + sy * j.
(** [i] and [j] steps are at most half a step off the ideal line. *)
Definition near (i j : Z) : Prop := 0 <= i <= dx /\ 0 <= j <= dy /\ - major <= 2 * (j * dx - i * dy) <= major.
Definition remaining (i j : Z) : Z := if dy <=? dx then dx - i else dy - j.
Record line_from (i j : Z) (ps : list (Z * Z)) : Prop := {
  lf_head : head ps = Some (px i, py j);
  lf_last : last ps = Some (px dx, py dy);
  lf_length : Z.of_nat (length ps) = remaining i j + 1;
  lf_near : Forall (fun p => exists i' j', p = (px i', py j') /\ near i' j') ps;
  lf_connected : connected ps
}.
Hypothesis Hdx : 0 <= dx.
Hypothesis Hdy : 0 <= dy.
Hypothesis Hsx : sx = 1 \/ sx = -1.
Hypothesis Hsy : sy = 1 \/ sy = -1.
Hypothesis Hpx : pixel x0 = true /\ pixel (px dx) = true.
Hypothesis Hpy : pixel y0 = true /\ pixel (py dy) = true.

(** Nothing wraps around. *)
Lemma line_small : dx <= 2 ^ 61 /\ dy <= 2 ^ 61.
Proof. unfold pixel, px, py in *. destruct Hsx as [-> | ->], Hsy as [-> | ->]; lia. Qed.
Lemma err_small (i j : Z) : near i j -> Z.abs (j * dx - i * dy + dx - dy) <= 3 * 2 ^ 60.
Proof. unfold near, major. pose proof line_small. generalize (j * dx - i * dy). lia. Qed.
Lemma px_int (i : Z) : 0 <= i <= dx -> int64 (px i) = px i.
Proof. intros Hi. apply int64_id. unfold pixel, px in *. destruct Hsx as [-> | ->]; lia. Qed.
Lemma py_int (j : Z) : 0 <= j <= dy -> int64 (py j) = py j.
Proof. intros Hj. apply int64_id. unfold pixel, py in *. destruct Hsy as [-> | ->]; lia. Qed.

Lemma near_end (i j : Z) : near i j -> remaining i j = 0 -> i = dx /\ j = dy.
Proof. unfold near, remaining, major. destruct (Z.leb_spec dy dx); nia. Qed.
(** The two tests of a turn, and where it leads. *)
Lemma turn (i j : Z) : near i j -> remaining i j <> 0 ->
  let e2 := 2 * (j * dx - i * dy + dx - dy) in
  let i' := if - dy <=? e2 then i + 1 else i in
  let j' := if e2 <=? dx then j + 1 else j in
  near i' j' /\ remaining i j = remaining i' j' + 1 /\ 0 <= remaining i' j'.
Proof.
  unfold near, remaining, major. cbv zeta. intros Hn Hr.
  destruct (Z.leb_spec dy dx), (Z.leb_spec (- dy) (2 * (j * dx - i * dy + dx - dy))),
    (Z.leb_spec (2 * (j * dx - i * dy + dx - dy)) dx); nia.
Qed.

Lemma line_loop_ok (fuel : nat) (i j : Z) : near i j -> remaining i j < Z.of_nat fuel -> 0 <= remaining i j ->
  returns (line_loop fuel (px i) (py j) (px dx) (py dy) dx (- dy) sx sy (j * dx - i * dy + dx - dy)) (line_from i j).
Proof.
  revert i j. induction fuel as [|fuel IH]; intros i j Hn Hf Hr; [lia|]. cbn [line_loop].
  destruct (decide (remaining i j = 0)) as [H0|H0].
  - destruct (near_end i j Hn H0) as [-> ->]. rewrite !Z.eqb_refl. cbn [andb returns]. split; try done; [cbn [length]; lia|].
    constructor; [|done]. by exists dx, dy.
  - assert (Hend : (px i =? px dx) && (py j =? py dy) = false).
    { apply not_true_iff_false. intros [H1%Z.eqb_eq H2%Z.eqb_eq]%andb_prop. unfold px in H1. unfold py in H2.
      unfold remaining in H0. destruct (dy <=? dx), Hsx as [E1|E1], Hsy as [E2|E2]; rewrite E1 in H1; rewrite E2 in H2; lia. }
    rewrite Hend. destruct (turn i j Hn H0) as (Hn' & Hr' & Hp'). cbv zeta in *.
    pose proof line_small as Hs. pose proof (err_small i j Hn) as He.
    rewrite (int64_id (2 * _)) by lia. set (e2 := 2 * (j * dx - i * dy + dx - dy)) in *.
    set (i' := if - dy <=? e2 then i + 1 else i) in *. set (j' := if e2 <=? dx then j + 1 else j) in *.
    pose proof (err_small i' j' Hn') as He'. pose proof (px_int i' (proj1 Hn')) as Hpi. pose proof (py_int j' (proj1 (proj2 Hn'))) as Hpj.
    assert (Hx : (if - dy <=? e2 then (int64 (j * dx - i * dy + dx - dy + - dy), int64 (px i + sx)) else (j * dx - i * dy + dx - dy, px i)) =
      (j * dx - i' * dy + dx - dy, px i')).
    { subst i'. destruct (- dy <=? e2); [|done]. replace (px i + sx) with (px (i + 1)) by (unfold px; lia). rewrite Hpi, int64_id by lia. f_equal. lia. }
    rewrite Hx.
    assert (Hy : (if e2 <=? dx then (int64 (j * dx - i' * dy + dx - dy + dx), int64 (py j + sy)) else (j * dx - i' * dy + dx - dy, py j)) =
      (j' * dx - i' * dy + dx - dy, py j')).
    { subst j'. destruct (e2 <=? dx); [|done]. replace (py j + sy) with (py (j + 1)) by (unfold py; lia).
      replace (j * dx - i' * dy + dx - dy + dx) with ((j + 1) * dx - i' * dy + dx - dy) by lia. rewrite Hpj, int64_id by lia. done. }
    rewrite Hy. step_call (IH i' j' Hn'); [lia|lia|]. intros ps []. cbn.
    destruct ps as [|q ps]; [done|]. injection lf_head0 as ->. split; try done.
    + cbn [length] in *. lia.
    + constructor; [|done]. by exists i, j.
    + cbn [connected]. split_and!; [| | |done].
      * subst i'. unfold px. cbn. destruct (- dy <=? e2); destruct Hsx as [-> | ->]; lia.
      * subst j'. unfold py. cbn. destruct (e2 <=? dx); destruct Hsy as [-> | ->]; lia.
      * intros [= H1 H2]. unfold px in H1. unfold py in H2.
        assert (i' = i) by nia. assert (j' = j) by nia. rewrite H, H3 in Hr'. lia.
Qed.
End Line.

(** What a drawn line is. *)
Record line_spec (x0 y0 x1 y1 : Z) (ps : list (Z * Z)) : Prop := {
  ln_head : head ps = Some (x0, y0);
  ln_last : last ps = Some (x1, y1);
  ln_length : Z.of_nat (length ps) = Z.max (Z.abs (x1 - x0)) (Z.abs (y1 - y0)) + 1;
  ln_connected : connected ps;
  (* in the box of the end points, and at most half a pixel off the line *)
  ln_near : Forall (fun p => Z.min x0 x1 <= p.1 <= Z.max x0 x1 /\ Z.min y0 y1 <= p.2 <= Z.max y0 y1 /\
    2 * Z.abs ((p.2 - y0) * (x1 - x0) - (p.1 - x0) * (y1 - y0)) <= Z.max (Z.abs (x1 - x0)) (Z.abs (y1 - y0))) ps
}.
Definition line_ok (l : Z * Z * Z * Z) : bool := let '(x0, y0, x1, y1) := l in pixel x0 && pixel y0 && pixel x1 && pixel y1.
Lemma abs_id (x : Z) : - 2 ^ 63 < x < 2 ^ 63 -> abs (int64 x) = Z.abs x.
Proof. intros H. rewrite int64_id by lia. unfold abs. destruct (Z.ltb_spec x 0); [rewrite int64_id by lia|]; lia. Qed.
Lemma line_points_ok (x0 y0 x1 y1 : Z) : line_ok (x0, y0, x1, y1) = true ->
  returns (line_points x0 y0 x1 y1) (line_spec x0 y0 x1 y1).
Proof.
  intros Hl. cbn in Hl. rewrite !andb_true_iff in Hl. destruct Hl as [[[P1 P2] P3] P4].
  assert (- 2 ^ 61 <= x1 - x0 <= 2 ^ 61 /\ - 2 ^ 61 <= y1 - y0 <= 2 ^ 61) as [Bx By] by (unfold pixel in *; lia).
  unfold line_points. cbv zeta. rewrite !abs_id by lia. rewrite (int64_id (- _)), (int64_id (Z.abs _ + _)) by lia. set (dx := Z.abs (x1 - x0)). set (dy := Z.abs (y1 - y0)).
  set (sx := if x1 <? x0 then -1 else 1). set (sy := if y1 <? y0 then -1 else 1).
  assert (Hsx : (sx = 1 \/ sx = -1) /\ x0 + sx * dx = x1) by (subst sx dx; destruct (Z.ltb_spec x1 x0); lia).
  assert (Hsy : (sy = 1 \/ sy = -1) /\ y0 + sy * dy = y1) by (subst sy dy; destruct (Z.ltb_spec y1 y0); lia).
  destruct Hsx as [Hsx Hx1], Hsy as [Hsy Hy1].
  assert (Hn : near dx dy 0 0) by (unfold near, major; lia).
  pose proof (line_loop_ok x0 y0 dx dy sx sy ltac:(lia) ltac:(lia) Hsx Hsy ltac:(unfold px; by rewrite Hx1) ltac:(unfold py; by rewrite Hy1) (Z.to_nat (dx - - dy + 1)) 0 0 Hn) as H.
  unfold px at 1 2, py at 1 2 in H. rewrite Hx1, Hy1, !Z.mul_0_r, !Z.add_0_r in H. replace (0 * dx - 0 * dy + dx - dy) with (dx + - dy) in H by lia.
  eapply returns_mono; [apply H; unfold remaining; destruct (Z.leb_spec dy dx); lia|].
  intros ps []. unfold px, py in *. rewrite ?Hx1, ?Hy1, ?Z.mul_0_r, ?Z.add_0_r in *. split; [done|done| |done|].
  - rewrite lf_length0. unfold remaining. destruct (Z.leb_spec dy dx); lia.
  - eapply Forall_impl; [exact lf_near0|]. intros p (i & j & -> & Hi & Hj & Hd). unfold major in Hd. cbn.
    assert (Hc : (y0 + sy * j - y0) * (x1 - x0) - (x0 + sx * i - x0) * (y1 - y0) = sx * sy * (j * dx - i * dy))
      by (rewrite <- Hx1, <- Hy1; ring).
    rewrite Hc. destruct Hsx as [-> | ->], Hsy as [-> | ->]; lia.
Qed.

(** ** Images *)

Definition byte_value (v : Z) : Prop := 0 <= v < 256.
Definition color_ok (c : RGBA) : Prop := byte_value (R c) /\ byte_value (G c) /\ byte_value (B c) /\ byte_value (A c).
Lemma clampU8_ok (v : Z) : byte_value (clampU8 v).
Proof. unfold clampU8, byte_value. destruct (Z.ltb_spec 255 v); [lia|]. apply Z.mod_pos_bound. lia. Qed.
Lemma brighten_ok (c : RGBA) : color_ok c -> color_ok (brighten c).
Proof. intros (_ & _ & _ & H). split_and!; cbn; auto using clampU8_ok. Qed.
Lemma nodeColor_ok (role : string) : color_ok (nodeColor role).
Proof. unfold nodeColor. repeat case_decide; repeat split; cbn; lia. Qed.

(** Only pixels of the rectangle are set, to colours of four bytes. *)
Record image_ok (img : Image) : Prop := {
  im_bounds : forall p c, pixels img !! p = Some c -> in_bounds img p.1 p.2 = true;
  im_colors : forall p c, pixels img !! p = Some c -> color_ok c
}.
(** [img'] is [img] with more pixels set. *)
Record extends (img img' : Image) : Prop := {
  ex_width : width img' = width img;
  ex_height : height img' = height img;
  ex_pixels : forall p, is_Some (pixels img !! p) -> is_Some (pixels img' !! p);
  ex_ok : image_ok img -> image_ok img'
}.
#[export] Instance extends_preorder : PreOrder extends.
Proof.
  split; [by intros img; split|]. intros a b c [] []. split; [congruence|congruence|auto|auto].
Qed.

Lemma set_pixel_extends (c : RGBA) (img : Image) (p : Z * Z) : color_ok c -> extends img (set_pixel c img p).
Proof.
  intros Hc. unfold set_pixel. destruct (in_bounds img p.1 p.2) eqn:Hb; [|reflexivity]. split; try done; cbn.
  - intros q Hq. destruct (decide (p = q)) as [->|Hne]; [by rewrite lookup_insert_eq|by rewrite lookup_insert_ne].
  - intros []. split; cbn; intros q c' Hq; (destruct (decide (p = q)) as [->|Hne];
      [rewrite lookup_insert_eq in Hq; injection Hq as <-|rewrite lookup_insert_ne in Hq by done]); try done; eauto.
Qed.
Lemma fold_extends {T} (f : Image -> T -> Image) (l : list T) (img : Image) :
  (forall i x, extends i (f i x)) -> extends img (foldl f img l).
Proof. intros Hf. revert img. induction l as [|x l IH]; intros img; cbn; [done|]. by etransitivity; [apply Hf|apply IH]. Qed.
Lemma fold_pixels (c : RGBA) (ps : list (Z * Z)) (img : Image) : color_ok c -> extends img (foldl (set_pixel c) img ps).
Proof. intros Hc. apply fold_extends. intros i p. by apply set_pixel_extends. Qed.
Lemma set_pixel_size (c : RGBA) (img : Image) (p : Z * Z) :
  width (set_pixel c img p) = width img /\ height (set_pixel c img p) = height img.
Proof. unfold set_pixel. by case_match. Qed.

(** Drawing points sets exactly those of the image. *)
Lemma draw_points (c : RGBA) (ps : list (Z * Z)) (img : Image) (p : Z * Z) :
  pixels (foldl (set_pixel c) img ps) !! p =
  if bool_decide (p ∈ ps) && in_bounds img p.1 p.2 then Some c else pixels img !! p.
Proof.
  revert img. induction ps as [|q ps IH]; intros img; cbn [foldl]; [done|]. rewrite IH.
  assert (Hb : in_bounds (set_pixel c img q) p.1 p.2 = in_bounds img p.1 p.2).
  { unfold in_bounds. by destruct (set_pixel_size c img q) as [-> ->]. }
  rewrite Hb. unfold set_pixel. destruct (decide (q = p)) as [->|Hne].
  - rewrite (bool_decide_eq_true_2 (p ∈ p :: ps)) by by left. cbn [andb].
    destruct (in_bounds img p.1 p.2) eqn:Hp; [|by rewrite andb_false_r]. rewrite andb_true_r. cbn.
    rewrite lookup_insert_eq. by case_bool_decide.
  - assert (Hin : bool_decide (p ∈ q :: ps) = bool_decide (p ∈ ps)) by (apply bool_decide_ext; set_solver).
    rewrite Hin. destruct (bool_decide (p ∈ ps) && in_bounds img p.1 p.2); [done|].
    case_match; [|done]. cbn. by rewrite lookup_insert_ne.
Qed.

Lemma range_in (lo hi i : Z) : i ∈ range lo hi <-> lo <= i <= hi.
Proof.
  unfold range. rewrite list_elem_of_fmap. setoid_rewrite elem_of_seq. split.
  - intros (n & -> & Hn). lia.
  - intros Hi. exists (Z.to_nat (i - lo)). lia.
Qed.
Lemma flat_map_in {T V} (f : T -> list V) (l : list T) (y : V) : y ∈ flat_map f l <-> exists x, x ∈ l /\ y ∈ f x.
Proof. rewrite list_elem_of_In, in_flat_map. by setoid_rewrite <- list_elem_of_In. Qed.
Lemma square_le (a r : Z) : 0 <= r -> a * a <= r * r -> - r <= a <= r.
Proof. intros Hr H. split; nia. Qed.
(** A dot near the screen wraps around nowhere. *)
Definition dot_fits (cx cy radius : Z) : Prop := pixel cx = true /\ pixel cy = true /\ 0 <= radius <= 2 ^ 30.
Lemma dot_turn (cx cy radius dx dy : Z) : dot_fits cx cy radius -> - radius <= dx <= radius -> - radius <= dy <= radius ->
  (if int64 (dx * dx + dy * dy) <=? int64 (radius * radius) then [(int64 (cx + dx), int64 (cy + dy))] else []) =
  (if dx * dx + dy * dy <=? radius * radius then [(cx + dx, cy + dy)] else []).
Proof.
  unfold dot_fits, pixel. intros (Hx & Hy & Hr) Hdx Hdy.
  assert (dx * dx <= 2 ^ 60 /\ dy * dy <= 2 ^ 60 /\ radius * radius <= 2 ^ 60) as (? & ? & ?) by nia.
  rewrite !int64_id; [done|nia..].
Qed.
Lemma dot_in (cx cy radius x y : Z) : dot_fits cx cy radius ->
  (x, y) ∈ dot_points cx cy radius <-> (x - cx) * (x - cx) + (y - cy) * (y - cy) <= radius * radius.
Proof.
  intros Hf. pose proof Hf as (_ & _ & Hr & _). unfold dot_points. rewrite flat_map_in. setoid_rewrite flat_map_in. setoid_rewrite range_in. split.
  - intros (dy & Hy & dx & Hx & Hin). rewrite (dot_turn _ _ _ _ _ Hf Hx Hy) in Hin.
    destruct (Z.leb_spec (dx * dx + dy * dy) (radius * radius)); [|by apply not_elem_of_nil in Hin].
    apply list_elem_of_singleton in Hin. injection Hin as -> ->. lia.
  - intros H. pose proof (Z.square_nonneg (x - cx)) as Hx. pose proof (Z.square_nonneg (y - cy)) as Hy.
    assert (- radius <= y - cy <= radius) as Hdy by (apply square_le; lia). assert (- radius <= x - cx <= radius) as Hdx by (apply square_le; lia).
    exists (y - cy). split; [done|]. exists (x - cx). split; [done|]. rewrite (dot_turn _ _ _ _ _ Hf Hdx Hdy).
    destruct (Z.leb_spec ((x - cx) * (x - cx) + (y - cy) * (y - cy)) (radius * radius)); [|lia].
    apply list_elem_of_singleton. f_equal; lia.
Qed.
Lemma grid_in (w h x y : Z) : (x, y) ∈ grid w h <-> 0 <= x < w /\ 0 <= y < h.
Proof.
  unfold grid. rewrite flat_map_in. setoid_rewrite range_in. setoid_rewrite list_elem_of_fmap. setoid_rewrite range_in. split.
  - intros (y' & Hy & x' & [= -> ->] & Hx). lia.
  - intros [Hx Hy]. exists y. split; [lia|]. exists x. split; [done|lia].
Qed.

(** ** Theorems *)

(** A line between coordinates within 2^60 of the origin is drawn to its end and
    nowhere else: the loop ends after as many turns as the longer distance and
    one, the points go from one end to the other by single steps, stay in the
    box of the end points and are never more than half a pixel off the ideal
    line, and exactly those inside the image get the colour. *)
Theorem drawLine_straight (x0 y0 x1 y1 : Z) (c : RGBA) (img : Image) : line_ok (x0, y0, x1, y1) = true ->
  returns (drawLine x0 y0 x1 y1 c img) (fun img' => exists ps, line_spec x0 y0 x1 y1 ps /\
    forall p, pixels img' !! p = if bool_decide (p ∈ ps) && in_bounds img p.1 p.2 then Some c else pixels img !! p).
Proof.
  intros Hl. unfold drawLine. step_call (line_points_ok x0 y0 x1 y1 Hl). intros ps Hps. exists ps. split; [done|]. apply draw_points.
Qed.
Lemma drawLine_straight_witness : line_ok (2, 3, -5, 1) = true /\
  returns (drawLine 2 3 (-5) 1 coastColor {| width := 10; height := 10; pixels := ∅ |}) (fun img' => exists ps, length ps = 8%nat /\
    forall p, pixels img' !! p = if bool_decide (p ∈ ps) && in_bounds {| width := 10; height := 10; pixels := ∅ |} p.1 p.2
                                 then Some coastColor else None).
Proof.
  split; [done|]. eapply returns_mono; [by apply (drawLine_straight 2 3 (-5) 1)|]. intros img' (ps & [_ _ Hl _ _] & Hp). exists ps.
  split; [cbn in Hl; lia|]. intros p. rewrite Hp. cbn. by rewrite lookup_empty.
Defined.
(** A dot near the screen is the disc: exactly the pixels of the image within the radius get
    the colour. *)
Theorem drawDot_disc (cx cy radius x y : Z) (c : RGBA) (img : Image) : dot_fits cx cy radius ->
  pixels (drawDot cx cy radius c img) !! (x, y) =
  if ((x - cx) * (x - cx) + (y - cy) * (y - cy) <=? radius * radius) && in_bounds img x y then Some c else pixels img !! (x, y).
Proof.
  intros Hr. unfold drawDot. rewrite draw_points. cbn [fst snd].
  assert (Hd : bool_decide ((x, y) ∈ dot_points cx cy radius) = ((x - cx) * (x - cx) + (y - cy) * (y - cy) <=? radius * radius)).
  { apply eq_true_iff_eq. by rewrite bool_decide_eq_true, dot_in, Z.leb_le. }
  by rewrite Hd.
Qed.
Lemma drawDot_disc_witness : dot_fits 0 0 2 /\
  pixels (drawDot 0 0 2 (nodeColor "exit") {| width := 10; height := 10; pixels := ∅ |}) !! (2, 0) = Some (rgba 220 50 50 255).
Proof. split; [by split|]. rewrite (drawDot_disc 0 0 2 2 0); [reflexivity|by split]. Defined.

Section Frames.
Variables Sin Cos Acos : spec_float -> spec_float.
Variable Atan2 : spec_float -> spec_float -> spec_float.

(** A projected point is on the far side or within 2^59 of the origin. *)
Definition on_screen (p : option (spec_float * spec_float)) : bool :=
  match p with
  | Some (x, y) => (Z.abs (f64_trunc x) <=? 2 ^ 59) && (Z.abs (f64_trunc y) <=? 2 ^ 59)
  | None => true
  end.
Definition poly_ok (v : View) (poly : list CoastPoint) : bool :=
  forallb (fun p => on_screen (project Sin Cos (f64_of_Z (C_Lat p)) (f64_of_Z (C_Lon p)) v)) poly.
Definition arc_ok (v : View) (a b : GlobeNode) : bool := forallb (fun i => on_screen (arc_point Sin Cos Acos Atan2 a b v i)) (seq 0 25).
Fixpoint path_ok (v : View) (ns : list GlobeNode) : bool :=
  match ns with a :: (b :: _) as rest => arc_ok v a b && path_ok v rest | _ => true end.
(** All points of coasts and arcs are. *)
Definition drawable (g : GlobeWidget) : bool :=
  forallb (poly_ok (view g)) Coastlines && forallb (fun p => path_ok (view g) (Nodes p)) (paths g).

Lemma drawLine_extends (x0 y0 x1 y1 : Z) (c : RGBA) (img : Image) : line_ok (x0, y0, x1, y1) = true -> color_ok c ->
  returns (drawLine x0 y0 x1 y1 c img) (extends img).
Proof.
  intros Hl Hc. unfold drawLine. step_call (line_points_ok x0 y0 x1 y1 Hl). intros ps _. by apply fold_pixels.
Qed.
Lemma draw_lines_extends (ls : list (Z * Z * Z * Z)) (c : RGBA) (img : Image) : forallb line_ok ls = true -> color_ok c ->
  returns (draw_lines ls c img) (extends img).
Proof.
  intros Hl Hc. revert img. induction ls as [|[[[x0 y0] x1] y1] ls IH]; intros img; cbn [draw_lines]; [cbn; reflexivity|].
  cbn [forallb] in Hl. apply andb_true_iff in Hl as [Hl1 Hl2].
  step_call (drawLine_extends x0 y0 x1 y1 c img Hl1 Hc). intros img' H. eapply returns_mono; [by apply IH|].
  intros img'' H'. by transitivity img'.
Qed.
(** The lines of an arc's segment, one below the other. *)
Lemma segment_ok (px py x y : spec_float) (n : nat) : (n <= 2)%nat -> on_screen (Some (px, py)) = true -> on_screen (Some (x, y)) = true ->
  forallb line_ok (map (fun w => (f64_trunc px, int64 (f64_trunc py + Z.of_nat w), f64_trunc x, int64 (f64_trunc y + Z.of_nat w))) (seq 0 n)) = true.
Proof.
  cbn [on_screen]. intros Hn H1 H2. apply forallb_forall. intros l Hl. apply in_map_iff in Hl as (w & <- & Hw%in_seq).
  unfold line_ok, pixel. rewrite !int64_id by lia. lia.
Qed.
Lemma coast_lines_ok (v : View) (poly : list CoastPoint) : poly_ok v poly = true -> forallb line_ok (coast_lines Sin Cos v poly) = true.
Proof.
  unfold poly_ok. induction poly as [|p poly IH]; [done|]. destruct poly as [|q poly]; [done|]. intros H.
  pose proof H as [Hp H']%andb_true_iff. pose proof H' as [Hq _]%andb_true_iff.
  match goal with |- forallb _ ?l = _ => change l with (match project Sin Cos (f64_of_Z (C_Lat p)) (f64_of_Z (C_Lon p)) v,
      project Sin Cos (f64_of_Z (C_Lat q)) (f64_of_Z (C_Lon q)) v with
    | Some (x1, y1), Some (x2, y2) => [(f64_trunc x1, f64_trunc y1, f64_trunc x2, f64_trunc y2)] | _, _ => [] end
    ++ coast_lines Sin Cos v (q :: poly)) end.
  rewrite forallb_app, (IH H'), andb_true_r.
  destruct (project Sin Cos (f64_of_Z (C_Lat p)) _ v) as [[x1 y1]|]; [|done].
  destruct (project Sin Cos (f64_of_Z (C_Lat q)) _ v) as [[x2 y2]|]; [|done]. cbn [on_screen] in Hp, Hq.
  cbn [forallb]. unfold line_ok, pixel. lia.
Qed.
Lemma arc_extends (a b : GlobeNode) (v : View) (c : RGBA) (n : nat) (steps : list nat) (prev : option (spec_float * spec_float)) (img : Image) :
  (n <= 2)%nat -> color_ok c -> on_screen prev = true -> forallb (fun i => on_screen (arc_point Sin Cos Acos Atan2 a b v i)) steps = true ->
  returns (arc_loop Sin Cos Acos Atan2 a b v c n steps prev img) (extends img).
Proof.
  intros Hn Hc. revert prev img. induction steps as [|i steps IH]; intros prev img Hp Hs; cbn [arc_loop]; [cbn; reflexivity|].
  cbn [forallb] in Hs. apply andb_true_iff in Hs as [Hcur Hs]. set (cur := arc_point _ _ _ _ a b v i) in *.
  assert (Hd : returns (match prev, cur with
    | Some (px, py), Some (x, y) => draw_lines (map (fun w => (f64_trunc px, int64 (f64_trunc py + Z.of_nat w), f64_trunc x, int64 (f64_trunc y + Z.of_nat w))) (seq 0 n)) c img
    | _, _ => Ret img end) (extends img)).
  { destruct prev as [[px' py']|]; [|cbn; reflexivity]. destruct cur as [[x y]|]; [|cbn; reflexivity].
    apply draw_lines_extends; [by apply segment_ok|done]. }
  step_call Hd. intros img' H. eapply returns_mono; [by apply IH|]. intros img'' H'. by transitivity img'.
Qed.
Lemma draw_path_extends (ns : list GlobeNode) (v : View) (c : RGBA) (n : nat) (img : Image) :
  (n <= 2)%nat -> color_ok c -> path_ok v ns = true -> returns (draw_path Sin Cos Acos Atan2 ns v c n img) (extends img).
Proof.
  intros Hn Hc. revert img. induction ns as [|a ns IH]; intros img Hk; [cbn; reflexivity|]. destruct ns as [|b ns]; [cbn; reflexivity|].
  apply andb_true_iff in Hk as [Ha Hk].
  cbn [draw_path]. unfold drawGreatCircleArc. step_call (arc_extends a b v c n (seq 0 25) None img Hn Hc eq_refl Ha).
  intros img' H. eapply returns_mono; [by apply IH|]. intros img'' H'. by transitivity img'.
Qed.
Lemma draw_paths_extends (ps : list GlobePath) (v : View) (img : Image) : forallb (fun p => path_ok v (Nodes p)) ps = true ->
  returns (draw_paths Sin Cos Acos Atan2 ps v img) (extends img).
Proof.
  revert img. induction ps as [|p ps IH]; intros img Hk; cbn [draw_paths]; [cbn; reflexivity|].
  cbn [forallb] in Hk. apply andb_true_iff in Hk as [Hk1 Hk].
  destruct (if Selected p then _ else _) as [c n] eqn:Hp.
  assert (Hc : color_ok c /\ (n <= 2)%nat) by (destruct (Selected p); injection Hp as <- <-; (split; [repeat split; cbn; lia|lia])).
  destruct Hc as [Hc Hn]. step_call (draw_path_extends (Nodes p) v c n img Hn Hc Hk1). intros img' H. eapply returns_mono; [by apply IH|].
  intros img'' H'. by transitivity img'.
Qed.
Lemma draw_node_extends (v : View) (img : Image) (n : GlobeNode) : extends img (draw_node Sin Cos v img n).
Proof.
  unfold draw_node. destruct (project Sin Cos (Lat n) (Lon n) v) as [[px' py']|]; [|reflexivity]. cbv zeta. unfold drawDot.
  etransitivity; apply fold_pixels; auto using nodeColor_ok, brighten_ok.
Qed.
Lemma sphere_color_ok (v : View) (p : Z * Z) : color_ok (sphere_color v p).
Proof. unfold sphere_color. case_match; repeat split; cbn; lia. Qed.
(** The sphere covers the image. *)
Lemma draw_sphere_full (v : View) (img : Image) : extends img (draw_sphere v img) /\
  forall x y, in_bounds img x y = true -> is_Some (pixels (draw_sphere v img) !! (x, y)).
Proof.
  unfold draw_sphere. set (f := fun i p => set_pixel (sphere_color v p) i p).
  assert (Hf : forall i p, extends i (f i p)) by (intros i p; apply set_pixel_extends, sphere_color_ok).
  split; [by apply fold_extends|]. intros x y Hb.
  assert (Hin : (x, y) ∈ grid (width img) (height img)) by (apply grid_in; unfold in_bounds in Hb; lia).
  assert (Hgen : forall l i, width i = width img -> height i = height img -> (x, y) ∈ l -> is_Some (pixels (foldl f i l) !! (x, y)));
    [|by apply Hgen].
  induction l as [|q l IH]; intros i Hw Hh Hl; [by apply not_elem_of_nil in Hl|]. cbn [foldl].
  apply elem_of_cons in Hl as [<-|Hl].
  - apply (fold_extends f l (f i (x, y)) Hf). unfold f, set_pixel. cbn.
    assert (Hbi : in_bounds i x y = true) by (unfold in_bounds; by rewrite Hw, Hh). rewrite Hbi. cbn. by rewrite lookup_insert_eq.
  - destruct (Hf i q). apply IH; [congruence|congruence|done].
Qed.
End Frames.

(** With a path of two relays. *)
Definition a_relay (lat lon : Z) : GlobeNode := {| Lat := f64_of_Z lat; Lon := f64_of_Z lon; Fingerprint := "A"; Nickname := "a"; Country := "de"; Role := "exit" |}.
Definition small_globe : GlobeWidget :=
  set_data [a_relay 50 10] [{| Nodes := [a_relay 50 10; a_relay 40 20]; CircuitID := "1"; Selected := true |}] (NewGlobeWidget 20 10).
