(* ===== verification/Relays.v ===== *)
(** * Package [gui], [relays_tab.go] and [circuits_tab.go]: excluding relays

    What the buttons of the two tabs do to the configuration, the engine and
    the log, and how circuits are fetched and shown.  The application and the
    engine hold pointers to configurations: as long as they are the same
    pointer, an edit in the application changes the engine's configuration in
    place.  Widgets themselves are left out. *)

From S2P Require Import Prelude GoStrings StringFacts Config Torrc Control Retry Lifecycle LifecycleTheorems.
Local Open Scope Z_scope.

(** ** Entries *)

Definition guiFingerprintRe (s : string) : bool :=
  match s with String c h => Ascii.eqb c "$" && (len h =? 40) && str_forallb is_hex h | EmptyString => false end.
Definition guiCountryCodeRe (s : string) : bool :=
  match s with
  | String o (String a (String b (String c EmptyString))) => Ascii.eqb o "{" && is_alpha a && is_alpha b && Ascii.eqb c "}"
  | _ => false
  end.
Definition guiBareHexRe (s : string) : bool := (len s =? 40) && str_forallb is_hex s.

Definition countryName : gmap string string := list_to_map [
  ("US", "United States"); ("GB", "United Kingdom"); ("DE", "Germany");
  ("FR", "France"); ("NL", "Netherlands"); ("RU", "Russia");
  ("CN", "China"); ("IN", "India"); ("CA", "Canada");
  ("AU", "Australia"); ("JP", "Japan"); ("BR", "Brazil");
  ("SE", "Sweden"); ("CH", "Switzerland"); ("IT", "Italy");
  ("ES", "Spain"); ("UA", "Ukraine"); ("PL", "Poland");
  ("RO", "Romania"); ("CZ", "Czech Republic"); ("AT", "Austria");
  ("FI", "Finland"); ("NO", "Norway"); ("DK", "Denmark");
  ("SG", "Singapore"); ("HK", "Hong Kong"); ("KR", "South Korea");
  ("TW", "Taiwan"); ("ZA", "South Africa"); ("IL", "Israel");
  ("TR", "Turkey"); ("IR", "Iran")].
Definition countryCodes : list string := [
  "US"; "GB"; "DE"; "FR"; "NL"; "RU"; "CN"; "IN";
  "CA"; "AU"; "JP"; "BR"; "SE"; "CH"; "IT"; "ES";
  "UA"; "PL"; "RO"; "CZ"; "AT"; "FI"; "NO"; "DK";
  "SG"; "HK"; "KR"; "TW"; "ZA"; "IL"; "TR"; "IR"].
Definition countryOptions : list string :=
  map (fun cc => "{" +:+ cc +:+ "} " +:+ default EmptyString (countryName !! cc)) countryCodes.

(** [relayRole], [normalizeRelayEntry] and their kin. *)
Definition relayRole (idx n : nat) : string :=
  if (n =? 0)%nat then "middle"
  else if (idx =? 0)%nat then "guard"
  else if (idx =? n - 1)%nat then "exit"
  else "middle".
(** [len(s) == 4 && s[0] == '{' && s[3] == '}']. *)
Definition braces (s : string) : bool :=
  match s with
  | String a (String _ (String _ (String d EmptyString))) => Ascii.eqb a "{" && Ascii.eqb d "}"
  | _ => false
  end.
Definition containsEntry (slice : list string) (entry : string) : bool := List.existsb (String.eqb entry) slice.
Definition dollar (fp : string) : string := if HasPrefix fp "$" then fp else "$" +:+ fp.

Section Entries.
Context `{U : UnicodeTables}.
Definition formatExcludeEntry (entry : string) : string :=
  if braces entry then
    match countryName !! ToUpper (str_take 2 (str_drop 1 entry)) with
    | Some name => entry +:+ " " +:+ name
    | None => entry
    end
  else entry.
Definition normalizeRelayEntry (s0 : string) : string :=
  let s := TrimSpace s0 in
  if guiBareHexRe s then "$" +:+ s
  else if braces s then ToUpper s
  else s.
Definition validateGUIRelayEntry (entry : string) : result unit :=
  if guiFingerprintRe entry || guiCountryCodeRe entry then Ok tt
  else Err (Errorf ("invalid entry " +:+ Quote entry +:+ ": must be a fingerprint ($hex40) or country code ({XX})")).
End Entries.
(** The part of the selection before the name; empty when nothing is selected. *)
Definition extractCC (selected : string) : string := if len selected <? 4 then EmptyString else str_take 4 selected.

Example normalize_country : @normalizeRelayEntry ascii_tables " {us} " = "{US}".
Proof. vm_compute. reflexivity. Qed.
Example format_country : @formatExcludeEntry ascii_tables "{de}" = "{de} Germany".
Proof. vm_compute. reflexivity. Qed.

(** ** The application and its configuration *)

(** The fields of the configuration that the tabs edit. *)
Record edits := {
  e_mem : Z; e_cpus : Z; e_socks : Z; e_verbose : bool; e_bridge : BridgeConfig; e_proxy : ProxyConfig; e_relays : RelayConfig
}.
Definition edits_of (c : Config) : edits := {|
  e_mem := VMMemoryMB c; e_cpus := VMCPUs c; e_socks := SOCKSPort c; e_verbose := Verbose c; e_bridge := Bridge c;
  e_proxy := Proxy c; e_relays := Relays c |}.
Definition with_edits (e : edits) (c : Config) : Config := {|
  Version := Version c; TAPName := TAPName c; HostIP := HostIP c; VMIP := VMIP c; SubnetMask := SubnetMask c;
  DNS1 := DNS1 c; DNS2 := DNS2 c; SOCKSPort := e_socks e; ControlPort := ControlPort c; TransPort := TransPort c;
  DNSPort := DNSPort c; VMMemoryMB := e_mem e; VMCPUs := e_cpus e; KernelPath := KernelPath c; InitrdPath := InitrdPath c;
  StateDiskPath := StateDiskPath c; QMPSocketPath := QMPSocketPath c; Verbose := e_verbose e; Accel := Accel c; Headless := Headless c;
  VhostNet := VhostNet c; IOMMUEnabled := IOMMUEnabled c; Bridge := e_bridge e; Proxy := e_proxy e; Service := Service c;
  Retry := Retry c; Entropy := Entropy c; Relays := e_relays e; Browser := Browser c; FHE := FHE c;
  Vector := Vector c |}.

(** [a.cfg] is the engine's pointer, or a configuration of its own. *)
Record App := { own : option Config; log : list string }.
Definition world : Type := App * st.
Definition a_cfg (w : world) : Config := match own w.1 with Some c => c | None => Cfg (eng w.2) end.
Definition edit (f : edits -> edits) (w : world) : world :=
  let c := with_edits (f (edits_of (a_cfg w))) (a_cfg w) in
  match own w.1 with
  | Some _ => ({| own := Some c; log := log w.1 |}, w.2)
  | None => (w.1, {| eng := set_Cfg c (eng w.2); tr := tr w.2 |})
  end.
Definition info (msg : string) (w : world) : world := ({| own := own w.1; log := log w.1 ++ [msg] |}, w.2).

Definition edit_relays (f : RelayConfig -> RelayConfig) : world -> world := edit (fun e => {|
  e_mem := e_mem e; e_cpus := e_cpus e; e_socks := e_socks e; e_verbose := e_verbose e; e_bridge := e_bridge e;
  e_proxy := e_proxy e; e_relays := f (e_relays e) |}).
Definition set_exclude (l : list string) (rc : RelayConfig) : RelayConfig :=
  {| Relays_ExcludeNodes := Some l; Relays_ExcludeExitNodes := Relays_ExcludeExitNodes rc; Relays_StrictNodes := Relays_StrictNodes rc |}.
Definition set_exit (l : list string) (rc : RelayConfig) : RelayConfig :=
  {| Relays_ExcludeNodes := Relays_ExcludeNodes rc; Relays_ExcludeExitNodes := Some l; Relays_StrictNodes := Relays_StrictNodes rc |}.
Definition set_strict (b : bool) (rc : RelayConfig) : RelayConfig :=
  {| Relays_ExcludeNodes := Relays_ExcludeNodes rc; Relays_ExcludeExitNodes := Relays_ExcludeExitNodes rc; Relays_StrictNodes := b |}.

(** The two lists: nodes, and exit nodes. *)
Inductive which := nodes | exits.
Definition entries (k : which) (rc : RelayConfig) : list string :=
  match k with nodes => elems (Relays_ExcludeNodes rc) | exits => elems (Relays_ExcludeExitNodes rc) end.
Definition set_entries (k : which) (l : list string) : RelayConfig -> RelayConfig :=
  match k with nodes => set_exclude l | exits => set_exit l end.
Definition list_name (k : which) : string := match k with nodes => "ExcludeNodes" | exits => "ExcludeExitNodes" end.

(** ** The buttons *)

(** [if !containsEntry(list, entry) { list = append(list, entry) ... }]. *)
Definition add_entry (k : which) (entry : string) (then_ : world -> world) (w : world) : world :=
  let l := entries k (Relays (a_cfg w)) in
  if containsEntry l entry then w else then_ (edit_relays (set_entries k (l ++ [entry])) w).
Definition add_text (k : which) (text : string) `{U : UnicodeTables} (w : world) : world :=
  let entry := normalizeRelayEntry text in
  match validateGUIRelayEntry entry with Err _ => w | Ok _ => add_entry k entry (fun w => w) w end.
Definition add_country (k : which) (selected : string) (w : world) : world :=
  let cc := extractCC selected in
  if decide (cc = EmptyString) then w else add_entry k cc (fun w => w) w.
Definition remove_entry (k : which) (idx : nat) (w : world) : world :=
  let l := entries k (Relays (a_cfg w)) in
  if (idx <? length l)%nat then edit_relays (set_entries k (take idx l ++ drop (S idx) l)) w else w.
Definition check_strict (b : bool) (w : world) : world := edit_relays (set_strict b) w.

Section Reload.
Context `{env : Env} `{U : UnicodeTables}.

(** [a.engine.ReloadConfig(a.cfg)]: when it succeeds with changes, the
    engine's pointer is the application's. *)
Definition reload (errmsg : string) (w : world) : world :=
  let c := a_cfg w in
  let changed := HasChanges (Diff (Cfg (eng w.2)) c) in
  match ReloadConfig c w.2 with
  | (Err e, s') => ({| own := own w.1; log := log w.1 ++ [errmsg +:+ ": " +:+ Error e] |}, s')
  | (Ok _, s') => ({| own := if changed then None else own w.1; log := log w.1 |}, s')
  end.
Definition reload_if_running (errmsg : string) (w : world) : world :=
  if decide (state (eng w.2) = StateRunning) then reload errmsg w else w.
Definition hotReloadRelays : world -> world := reload_if_running "relay hot-reload".

(** "Block" and "Block Exit" of the relays tab; nothing for an empty fingerprint. *)
Definition block_active (k : which) (fingerprint : string) (w : world) : world :=
  let fp := if decide (fingerprint = EmptyString) then fingerprint else dollar fingerprint in
  if decide (fp = EmptyString) then w
  else hotReloadRelays (add_entry k fp (info ("blocked relay " +:+ fp +:+ " (" +:+ list_name k +:+ ")")) w).
(** "Block Relay" of the circuits tab, and a tap on the globe. *)
Definition block_circuit (ri : RelayInfo) (w : world) : world :=
  let fp := dollar (Fingerprint ri) in
  add_entry nodes fp (fun w => reload_if_running "reload config after blocking relay"
    (info ("blocked relay " +:+ fp +:+ " (" +:+ Nickname ri +:+ ")") w)) w.
Definition block_globe (fingerprint : string) (w : world) : world :=
  let fp := dollar fingerprint in
  add_entry nodes fp (fun w => reload_if_running "reload config after blocking relay"
    (info ("blocked relay " +:+ fp +:+ " via globe") w)) w.

Inductive action :=
  | AddText (k : which) (text : string)
  | AddCountry (k : which) (selected : string)
  | Remove (k : which) (idx : nat)
  | CheckStrict (b : bool)
  | BlockActive (k : which) (fingerprint : string)
  | BlockCircuit (ri : RelayInfo)
  | BlockGlobe (fingerprint : string).
Definition act (a : action) (w : world) : world :=
  match a with
  | AddText k text => add_text k text w
  | AddCountry k selected => add_country k selected w
  | Remove k idx => remove_entry k idx w
  | CheckStrict b => check_strict b w
  | BlockActive k fp => block_active k fp w
  | BlockCircuit ri => block_circuit ri w
  | BlockGlobe fp => block_globe fp w
  end.

(** The configuration watcher: a configuration read from the file is given to
    [ReloadConfig]; the application keeps its own pointer. *)
Definition file_reload (newCfg : Config) (w : world) : world :=
  let changed := HasChanges (Diff (Cfg (eng w.2)) newCfg) in
  match ReloadConfig newCfg w.2 with
  | (Err _, s') => (w.1, s')
  | (Ok _, s') => (if changed then {| own := Some (a_cfg w); log := log w.1 |} else w.1, s')
  end.
End Reload.

(** ** What the buttons change *)

Section Facts.
Context `{env : Env} `{U : UnicodeTables}.

Lemma no_changes_self (c : Config) : HasChanges (Diff c c) = false.
Proof. apply HasChanges_false, forallb_forall. intros f Hf. apply list_elem_of_In in Hf. unfold changed.
  repeat (apply elem_of_cons in Hf as [->|Hf]; [
    simpl; first [by rewrite bool_decide_eq_true_2 | done] |]). by apply not_elem_of_nil in Hf. Qed.

Lemma reload_shared (msg : string) (w : world) : own w.1 = None -> reload msg w = w.
Proof.
  intros H. unfold reload, a_cfg. rewrite H. unfold ReloadConfig.
  unfold mbind, M_bind, get, mret, M_ret. rewrite no_changes_self. cbn [negb].
  destruct w as [[o l] s]; cbn in *. by rewrite H.
Qed.

Lemma a_cfg_reload (msg : string) (w : world) : a_cfg (reload msg w) = a_cfg w.
Proof.
  unfold reload. cbv zeta. pose proof (ReloadConfig_eng (a_cfg w) w.2) as H.
  generalize dependent (HasChanges (Diff (Cfg (eng w.2)) (a_cfg w))). intros b H.
  destruct (ReloadConfig (a_cfg w) w.2) as [[[]|e] s']; destruct H as [He _]; cbn [is_ok andb] in He.
  - destruct b; unfold a_cfg at 1; cbn [own log fst snd]; rewrite He; [reflexivity|].
    unfold a_cfg. by destruct (own w.1).
  - unfold a_cfg at 1; cbn [own log fst snd]. rewrite He. reflexivity.
Qed.
Lemma a_cfg_edit (f : edits -> edits) (w : world) :
  a_cfg (edit f w) = with_edits (f (edits_of (a_cfg w))) (a_cfg w).
Proof. unfold edit. destruct (own w.1) eqn:E; unfold a_cfg at 1; cbn; by rewrite ?E. Qed.
Lemma dollar_ne (fp : string) : fp <> EmptyString -> dollar fp <> EmptyString.
Proof. intros Hn. unfold dollar. by destruct (HasPrefix fp "$"). Qed.
Lemma edit_own (c : Config) (f : edits -> edits) (w : world) :
  own w.1 = Some c -> edit f w = ({| own := Some (with_edits (f (edits_of c)) c); log := log w.1 |}, w.2).
Proof. intros H. unfold edit, a_cfg. by rewrite H. Qed.
Lemma a_cfg_info (msg : string) (w : world) : a_cfg (info msg w) = a_cfg w.
Proof. done. Qed.

Lemma a_cfg_reload_if (msg : string) (w : world) : a_cfg (reload_if_running msg w) = a_cfg w.
Proof. unfold reload_if_running. case_decide; [apply a_cfg_reload|done]. Qed.
Lemma a_cfg_edit_relays (f : RelayConfig -> RelayConfig) (w : world) :
  Relays (a_cfg (edit_relays f w)) = f (Relays (a_cfg w)).
Proof. unfold edit_relays. by rewrite a_cfg_edit. Qed.

(** Every entry is one that [validateRelayEntry] accepts, and none is there twice. *)
Definition relays_ok (rc : RelayConfig) : Prop :=
  forall k, Forall relay_entry_ok (entries k rc) /\ NoDup (entries k rc).
Lemma entries_set (k k' : which) (l : list string) (rc : RelayConfig) :
  entries k (set_entries k' l rc) = (match k, k' with nodes, nodes | exits, exits => l | _, _ => entries k rc end).
Proof. by destruct k, k'. Qed.
Lemma without_sublist {A} (i : nat) (l : list A) : sublist (take i l ++ drop (S i) l) l.
Proof.
  rewrite <-(firstn_skipn i l) at 3. apply sublist_app; [done|].
  rewrite <-Nat.add_1_r, <-drop_drop. apply sublist_drop.
Qed.
Lemma validateGUIRelayEntry_ok (e : string) : validateGUIRelayEntry e = Ok tt -> relay_entry_ok e.
Proof. unfold validateGUIRelayEntry, relay_entry_ok. change guiFingerprintRe with fingerprintRe.
  change guiCountryCodeRe with countryCodeRe. destruct (fingerprintRe e), (countryCodeRe e); [by left|by left|by right|done]. Qed.
Lemma country_option_ok (o : string) : o ∈ countryOptions -> relay_entry_ok (extractCC o).
Proof.
  intros H. right. assert (forallb (fun o => countryCodeRe (extractCC o)) countryOptions = true) as A by (vm_compute; reflexivity).
  rewrite forallb_forall in A. by apply A, list_elem_of_In.
Qed.

(** A shared pointer: the list and the log may change, Tor is told nothing. *)
Definition quiet (w w' : world) : Prop :=
  own w'.1 = None /\ tr w'.2 = tr w.2 /\ state (eng w'.2) = state (eng w.2).
Lemma quiet_refl (w : world) : own w.1 = None -> quiet w w.
Proof. intros H. unfold quiet. by split_and!. Qed.
Lemma quiet_reload (msg : string) (w w' : world) : quiet w w' -> quiet w (reload_if_running msg w').
Proof. intros Q. unfold reload_if_running. case_decide; [|done]. destruct Q as (Q & ?). by rewrite reload_shared. Qed.
Lemma quiet_info (msg : string) (w w' : world) : quiet w w' -> quiet w (info msg w').
Proof. done. Qed.
Lemma quiet_edit (f : edits -> edits) (w w' : world) : quiet w w' -> quiet w (edit f w').
Proof. intros (Q & T & S). unfold quiet, edit. rewrite Q. by split_and!. Qed.
Lemma quiet_add (k : which) (e : string) (then_ : world -> world) (w w' : world) :
  (forall w'', quiet w w'' -> quiet w (then_ w'')) -> quiet w w' -> quiet w (add_entry k e then_ w').
Proof. intros H Q. unfold add_entry. destruct (containsEntry _ _); [done|]. by apply H, quiet_edit. Qed.
End Facts.
Create HintDb quiet.
#[export] Hint Resolve quiet_reload quiet_info quiet_edit quiet_add : quiet.

(** ** Properties *)

(** Blocking relays while Tor runs is not pushed to Tor: as long as the
    application holds the engine's own configuration, no button of the tabs
    causes a single call to the engine's collaborators (the trace is
    unchanged), although the entry is in the engine's configuration and the log
    says it is blocked. *)
Theorem block_not_pushed (env : Env) (U : UnicodeTables) (fp : string) (l : list action) (w : world) :
  own w.1 = None -> fp <> EmptyString ->
  let w' := foldl (fun w a => act a w) w (l ++ [BlockActive nodes fp]) in
  tr w'.2 = tr w.2 /\ state (eng w'.2) = state (eng w.2) /\
  dollar fp ∈ elems (Relays_ExcludeNodes (Relays (Cfg (eng w'.2)))).
Proof.
  intros Ho Hfp w'.
  assert (forall a v, quiet w v -> quiet w (act a v)) as Hact.
  { intros [k t|k t|k i|b|k f|ri|f] v Q; cbn [act].
    - unfold add_text. destruct (validateGUIRelayEntry _); auto with quiet.
    - unfold add_country. case_decide; auto with quiet.
    - unfold remove_entry. destruct (_ <? _)%nat; [|done]. by apply quiet_edit.
    - by apply quiet_edit.
    - unfold block_active, hotReloadRelays. case_decide; auto 6 with quiet.
    - unfold block_circuit. auto 6 with quiet.
    - unfold block_globe. auto 6 with quiet. }
  assert (quiet w (foldl (fun w a => act a w) w l)) as Q.
  { clear w'. assert (quiet w w) as Q by by apply quiet_refl. revert Q. generalize w at 2 4.
    induction l as [|a l IH]; intros v Q; [done|]. cbn [foldl]. apply IH, Hact, Q. }
  subst w'. rewrite foldl_app. cbn [foldl]. set (v := foldl _ w l) in *. clearbody v.
  pose proof (Hact (BlockActive nodes fp) v Q) as (Ho' & T & S). split_and!; [done..|].
  revert Ho'. cbn [act]. unfold block_active. rewrite (decide_False (P := fp = EmptyString)) by done.
  case_decide as Hd.
  { by apply dollar_ne in Hd. }
  intros _. unfold hotReloadRelays, reload_if_running. destruct Q as (Qo & _).
  unfold add_entry. destruct (containsEntry _ _) eqn:Hc.
  - assert (dollar fp ∈ elems (Relays_ExcludeNodes (Relays (Cfg (eng v.2))))) as Hin.
    { unfold containsEntry in Hc. apply existsb_exists in Hc as (x & Hx & Heq). apply String.eqb_eq in Heq. subst x.
      unfold a_cfg in Hx. rewrite Qo in Hx. by apply list_elem_of_In. }
    case_decide; [|done]. by rewrite reload_shared.
  - set (v' := info _ _). assert (own v'.1 = None /\ dollar fp ∈ elems (Relays_ExcludeNodes (Relays (Cfg (eng v'.2))))) as [Ho' Hin].
    { subst v'. unfold info, edit_relays, edit. rewrite Qo. cbn. split; [done|]. apply elem_of_app. right. by apply list_elem_of_singleton. }
    case_decide; [|done]. by rewrite reload_shared.
Qed.


Lemma block_not_pushed_witness :
  let w : world := ({| own := None; log := [] |}, running) in
  let fp := "0123456789ABCDEF0123456789ABCDEF01234567" in
  let w' := foldl (fun w a => @act calm_env ascii_tables a w) w ([AddText exits "{de}"] ++ [BlockActive nodes fp]) in
  tr w'.2 = tr w.2 /\ state (eng w'.2) = state (eng w.2) /\
  dollar fp ∈ elems (Relays_ExcludeNodes (Relays (Cfg (eng w'.2)))).
Proof. by apply (block_not_pushed calm_env ascii_tables). Defined.

(** The menu of countries offers its options. *)
Definition menu_ok (a : action) : Prop :=
  match a with AddCountry _ o => o = EmptyString \/ o ∈ countryOptions | _ => True end.
(** The entries that the blocking buttons were asked to add. *)
Definition blocks (a : action) : option string :=
  match a with
  | BlockActive _ fp => if decide (fp = EmptyString) then None else Some (dollar fp)
  | BlockCircuit ri => Some (dollar (Fingerprint ri))
  | BlockGlobe fp => Some (dollar fp)
  | _ => None
  end.
Definition blocked (l : list action) : list string := omap blocks l.

Section Lists.
Context `{env : Env} `{U : UnicodeTables}.
(** The lists have no entry twice, and only entries of [P]. *)
Definition lists_of (P : string -> Prop) (rc : RelayConfig) : Prop :=
  forall k, NoDup (entries k rc) /\ forall e, e ∈ entries k rc -> P e.
Lemma lists_mono (P Q : string -> Prop) (rc : RelayConfig) : (forall e, P e -> Q e) -> lists_of P rc -> lists_of Q rc.
Proof. intros H Hl k. destruct (Hl k) as [Hd Hp]. split; [done|]. auto. Qed.
Lemma lists_set (P : string -> Prop) (k : which) (l : list string) (rc : RelayConfig) :
  lists_of P rc -> NoDup l -> (forall e, e ∈ l -> P e) -> lists_of P (set_entries k l rc).
Proof. intros H Hd Hp k'. rewrite entries_set. by destruct k, k'. Qed.
Lemma lists_add (P : string -> Prop) (k : which) (e : string) (then_ : world -> world) (w : world) :
  (forall v, a_cfg (then_ v) = a_cfg v) -> P e -> lists_of P (Relays (a_cfg w)) -> lists_of P (Relays (a_cfg (add_entry k e then_ w))).
Proof.
  intros Ht He H. unfold add_entry. destruct (containsEntry _ _) eqn:Hc; [done|].
  rewrite Ht, a_cfg_edit_relays. destruct (H k) as [Hd Hp]. apply lists_set; [done| |].
  - apply NoDup_app. split_and!; [done| |apply NoDup_singleton].
    intros x Hx ->%list_elem_of_singleton. apply list_elem_of_In in Hx.
    apply not_true_iff_false in Hc. apply Hc, existsb_exists. exists e. by rewrite String.eqb_refl.
  - intros x [Hx| ->%list_elem_of_singleton]%elem_of_app; auto.
Qed.
Lemma lists_act (P : string -> Prop) (a : action) (w : world) :
  (forall e, relay_entry_ok e -> P e) -> menu_ok a -> (forall e, blocks a = Some e -> P e) ->
  lists_of P (Relays (a_cfg w)) -> lists_of P (Relays (a_cfg (act a w))).
Proof.
  intros Hok Hm Hb H. destruct a as [k t|k t|k i|b|k f|ri|f]; cbn [act menu_ok blocks] in *.
  - unfold add_text. destruct (validateGUIRelayEntry _) as [[]|] eqn:E; [|done].
    apply lists_add; [done| |done]. by apply Hok, validateGUIRelayEntry_ok.
  - unfold add_country. case_decide as Hn; [done|]. destruct Hm as [->|Ha]; [done|].
    apply lists_add; [done| |done]. by apply Hok, country_option_ok.
  - unfold remove_entry. destruct (i <? _)%nat; [|done]. rewrite a_cfg_edit_relays. destruct (H k) as [Hd Hp].
    pose proof (without_sublist i (entries k (Relays (a_cfg w)))) as Hs. apply lists_set; [done|by eapply sublist_NoDup|].
    intros x Hx. apply Hp. by eapply elem_of_sublist.
  - unfold check_strict. rewrite a_cfg_edit_relays. intros k. destruct (H k). by destruct k.
  - unfold block_active, hotReloadRelays. destruct (decide (f = EmptyString)) as [->|Hn]; [done|].
    case_decide as Hd; [done|]. rewrite a_cfg_reload_if. apply lists_add; [done|by apply Hb|done].
  - unfold block_circuit. apply lists_add; [|by apply Hb|done]. intros v. by rewrite a_cfg_reload_if.
  - unfold block_globe. apply lists_add; [|by apply Hb|done]. intros v. by rewrite a_cfg_reload_if.
Qed.
Lemma lists_acts (P : string -> Prop) (l : list action) (w : world) :
  (forall e, relay_entry_ok e -> P e) -> Forall menu_ok l -> (forall e, e ∈ blocked l -> P e) ->
  lists_of P (Relays (a_cfg w)) -> lists_of P (Relays (a_cfg (foldl (fun w a => act a w) w l))).
Proof.
  intros Hok Hl. revert w. induction Hl as [|a l Ha _ IH]; intros w Hb H; [done|]. cbn [foldl]. apply IH.
  - intros e He. apply Hb. unfold blocked. cbn [omap list_omap]. destruct (blocks a); [apply elem_of_cons; by right|exact He].
  - apply lists_act; [done..| |done]. intros e He. apply Hb. unfold blocked. cbn [omap list_omap]. rewrite He. by left.
Qed.
End Lists.

(** C36. The relay lists.  Whatever is typed, selected, removed or blocked, and
    whether or not the reloads succeed, no entry is in a list twice, and each is
    a fingerprint or a country code or was added by a blocking button, which
    checks nothing; so the torrc overlay accepts the lists exactly if the
    blocked entries that are still in them are well formed. *)
Theorem tab_keeps_relays_valid (env : Env) (U : UnicodeTables) (l : list action) (w : world) :
  relays_ok (Relays (a_cfg w)) -> Forall menu_ok l ->
  let rc := Relays (a_cfg (foldl (fun w a => act a w) w l)) in
  (forall k, NoDup (entries k rc)) /\
  (forall k e, e ∈ entries k rc -> relay_entry_ok e \/ e ∈ blocked l) /\
  (validateRelayConfig rc = Ok tt <-> forall k e, e ∈ blocked l -> e ∈ entries k rc -> relay_entry_ok e).
Proof.
  intros H Hl rc. assert (lists_of (fun e => relay_entry_ok e \/ e ∈ blocked l) rc) as Hrc.
  { apply lists_acts; [by left|done|by right|]. intros k. destruct (H k) as [Hf Hd]. rewrite Forall_forall in Hf. split; [done|].
    intros e He. left. by apply Hf. }
  split_and!; [intros k; apply Hrc|intros k e; apply Hrc|]. rewrite validateRelayConfig_ok, !Forall_forall. split.
  - intros [H1 H2] [] e _ He; [by apply H1|by apply H2].
  - intros Hb. split; intros e He.
    + destruct (proj2 (Hrc nodes) e He); [done|by apply (Hb nodes)].
    + destruct (proj2 (Hrc exits) e He); [done|by apply (Hb exits)].
Qed.
Lemma tab_keeps_relays_valid_witness :
  let w : world := ({| own := None; log := [] |}, running) in
  let l := [AddText nodes "{us}"; AddText nodes "no"; AddCountry exits "{DE} Germany"; AddText nodes "{US}"; CheckStrict true;
     BlockGlobe "0123456789ABCDEF0123456789ABCDEF01234567"; Remove nodes 0] in
  let rc := Relays (a_cfg (foldl (fun w a => @act calm_env ascii_tables a w) w l)) in
  NoDup (entries nodes rc) /\ @validateRelayConfig ascii_tables rc = Ok tt.
Proof.
  intros w l rc. destruct (tab_keeps_relays_valid calm_env ascii_tables l w) as (H1 & _ & H2).
  - intros []; split; constructor.
  - repeat first [apply List.Forall_nil | apply List.Forall_cons]; try exact I. right. apply (bool_decide_unpack _). vm_compute. exact I.
  - split; [apply H1|]. apply H2. intros k e [->|[]%elem_of_nil]%elem_of_cons _. by left.
Defined.
(** A relay whose fingerprint is no fingerprint (Tor's line is taken as it is)
    is blocked, and no overlay is made of the configuration any more. *)
Example blocked_unchecked :
  let w : world := ({| own := None; log := [] |}, running) in
  let rc := Relays (a_cfg (@act calm_env ascii_tables (BlockGlobe "moria1") w)) in
  entries nodes rc = ["$moria1"] /\ is_ok (@validateRelayConfig ascii_tables rc) = false.
Proof. by vm_compute. Qed.

(** [c] with other relay lists. *)
Definition with_relays (rc : RelayConfig) (c : Config) : Config := with_edits {|
  e_mem := VMMemoryMB c; e_cpus := VMCPUs c; e_socks := SOCKSPort c; e_verbose := Verbose c; e_bridge := Bridge c;
  e_proxy := Proxy c; e_relays := rc |} c.
Definition with_blocked (e : string) (c : Config) : Config :=
  with_relays (set_exclude (elems (Relays_ExcludeNodes (Relays c)) ++ [e]) (Relays c)) c.

Section Stale.
Context `{env : Env} `{U : UnicodeTables}.

Lemma reload_own (msg : string) (c : Config) (w : world) :
  own w.1 = Some c -> (ReloadConfig c w.2).1 = Ok tt -> HasChanges (Diff (Cfg (eng w.2)) c) = true ->
  own (reload msg w).1 = None /\ eng (reload msg w).2 = set_Cfg c (eng w.2).
Proof.
  intros Ho Hr Hc. pose proof (ReloadConfig_eng c w.2) as H.
  unfold reload. assert (a_cfg w = c) as -> by (unfold a_cfg; by rewrite Ho). cbv zeta. rewrite Hc in *.
  destruct (ReloadConfig c w.2) as [r s']. cbn [fst] in Hr. subst r. destruct H as [H _]. split; [reflexivity|exact H].
Qed.
Lemma file_reload_ok (newCfg : Config) (w : world) :
  own w.1 = None -> (ReloadConfig newCfg w.2).1 = Ok tt -> HasChanges (Diff (Cfg (eng w.2)) newCfg) = true ->
  own (file_reload newCfg w).1 = Some (Cfg (eng w.2)) /\ eng (file_reload newCfg w).2 = set_Cfg newCfg (eng w.2).
Proof.
  intros Ho Hr Hc. pose proof (ReloadConfig_eng newCfg w.2) as H.
  unfold file_reload. assert (a_cfg w = Cfg (eng w.2)) as -> by (unfold a_cfg; by rewrite Ho). cbv zeta. rewrite Hc in *.
  destruct (ReloadConfig newCfg w.2) as [r s']. cbn [fst] in Hr. subst r. destruct H as [H _]. split; [reflexivity|exact H].
Qed.
Lemma block_own (fp : string) (c : Config) (w : world) :
  own w.1 = Some c -> fp <> EmptyString -> state (eng w.2) = StateRunning ->
  containsEntry (elems (Relays_ExcludeNodes (Relays c))) (dollar fp) = false ->
  exists l, block_active nodes fp w =
    reload "relay hot-reload" ({| own := Some (with_blocked (dollar fp) c); log := l |}, w.2).
Proof.
  intros Ho Hfp Hrun Hin. unfold block_active. rewrite (decide_False (P := fp = EmptyString)) by exact Hfp.
  rewrite decide_False by by apply dollar_ne.
  assert (a_cfg w = c) as Ha by (unfold a_cfg; by rewrite Ho).
  unfold add_entry. cbn [entries]. rewrite Ha, Hin. unfold edit_relays. rewrite (edit_own c) by exact Ho.
  unfold hotReloadRelays, reload_if_running. rewrite decide_True by exact Hrun. eexists. reflexivity.
Qed.
End Stale.

(** After the configuration file was reloaded, the application still holds the
    previous configuration.  The next relay blocked in the tabs makes that one
    the engine's again: everything the file changed is undone. *)
Theorem stale_block_reverts (env : Env) (U : UnicodeTables) (fp : string) (newCfg : Config) (w : world) :
  let old := Cfg (eng w.2) in
  let w1 := file_reload newCfg w in
  let blocked := with_blocked (dollar fp) old in
  own w.1 = None -> fp <> EmptyString -> state (eng w.2) = StateRunning ->
  (ReloadConfig newCfg w.2).1 = Ok tt -> HasChanges (Diff old newCfg) = true ->
  containsEntry (elems (Relays_ExcludeNodes (Relays old))) (dollar fp) = false ->
  (ReloadConfig blocked w1.2).1 = Ok tt -> HasChanges (Diff newCfg blocked) = true ->
  Cfg (eng w1.2) = newCfg /\ Cfg (eng (block_active nodes fp w1).2) = blocked.
Proof.
  intros old w1 blocked Ho Hfp Hrun Hr Hc Hin Hrb Hcb.
  destruct (file_reload_ok newCfg w Ho Hr Hc) as [Ho1 He1]. fold w1 in Ho1, He1. clearbody w1.
  split; [by rewrite He1|]. destruct (block_own fp old w1 Ho1 Hfp) as [l ->]; [by rewrite He1|exact Hin|].
  edestruct (reload_own "relay hot-reload" blocked ({| own := Some blocked; log := l |}, w1.2)) as [_ He];
    [reflexivity|exact Hrb|cbn [snd]; rewrite He1; exact Hcb|].
  fold blocked. rewrite He. reflexivity.
Qed.
Lemma stale_block_reverts_witness :
  let w : world := ({| own := None; log := [] |}, running) in
  let newCfg := retap (DefaultConfig linux) "torvm1" in
  let fp := "0123456789ABCDEF0123456789ABCDEF01234567" in
  Cfg (eng (@file_reload calm_env ascii_tables newCfg w).2) = newCfg /\
  TAPName (Cfg (eng (@block_active calm_env ascii_tables nodes fp (@file_reload calm_env ascii_tables newCfg w)).2)) =
    TAPName (DefaultConfig linux).
Proof.
  intros w newCfg fp.
  destruct (stale_block_reverts calm_env ascii_tables fp newCfg w) as [H1 H2];
    [reflexivity|discriminate|reflexivity|vm_compute; reflexivity..|].
  split; [exact H1|]. rewrite H2. reflexivity.
Defined.
