(* ===== verification/Reload.v ===== *)
(** * A reload on the wire: packages [config], [lifecycle] and [tor] together

    [ReloadConfig] makes the torrc overlay of the new configuration, reads it
    back into directives and hands them to the control client, which prints
    them into one SETCONF line.  Here the environment of [Lifecycle] answers
    the engine's calls of [tor.ControlClient] by running the client of
    [Control], so that what a reload puts on the connection, and what Tor makes
    of it, can be stated. *)

From S2P Require Import Prelude GoStrings StringFacts NetIP Config Torrc Control Retry Lifecycle LifecycleFacts LifecycleTheorems Relays.
Local Open Scope nat_scope.

(** ** The composition *)

Section Compose.
Context `{conn : Conn} `{U : UnicodeTables}.
(** The order [range] visits a map in, the client when the history starts, and
    everything else the engine calls. *)
Variables (order : gmap string string -> list (string * string)) (c0 : client) (other : Env).

Definition tor_call {T : Type} (c : call T) (cl : client) : option (T * client) :=
  match c in call T return option (T * client) with
  | TorAuthenticate password => Some (Authenticate password cl)
  | TorBootstrapStatus => Some (GetBootstrapStatus cl)
  | TorSetConf directives => Some (SetConf (order directives) cl)
  | TorSignal sig => Some (Signal sig cl)
  | _ => None
  end.
Definition client_step (cl : client) (e : event) : client :=
  match e with Ev c => match tor_call c cl with Some (_, cl') => cl' | None => cl end end.
(** The client after a history. *)
Definition client_of (h : list event) : client := foldl client_step c0 h.
Definition tor_env : Env := fun T h c =>
  match tor_call c (client_of h) with Some (r, _) => r | None => @answer other T h c end.

Lemma client_of_snoc {T} (h : list event) (c : call T) (r : T) (cl' : client) :
  tor_call c (client_of h) = Some (r, cl') -> client_of (h ++ [Ev c]) = cl' /\ @answer tor_env T h c = r.
Proof.
  intros E. unfold answer, tor_env. unfold client_of at 1. rewrite foldl_app. cbn [foldl client_step].
  fold (client_of h). by rewrite E.
Qed.
End Compose.

(** ** What is written *)

Definition print (kv : string * string) : string := kv.1 +:+ "=" +:+ kv.2.
(** The arguments of the SETCONF line. *)
Definition setconf_args (kvs : list (string * string)) : string := Join (map print kvs) " ".
Definition lines_of (l : list string) : string := concat_str (map (fun s => s +:+ CRLF) l).

Lemma sendCommand_written `{conn : Conn} (cmd : string) (c : client) :
  let '(r, c') := sendCommand cmd c in
  written c' = written c /\ is_ok r = false \/ written c' = written c +:+ cmd +:+ CRLF.
Proof.
  unfold sendCommand. destruct (conn_write _ _); [|by (cbn; left)|by (cbn; left)]. unfold collectResponse. cbn [arrivals written].
  destruct (collect _ _). by right.
Qed.
Lemma command_written `{conn : Conn} {A B} (v : result A) (cmd : string) (k : list string -> result B) (c : client) :
  let '(r, c') := (lift v ;; lines ← sendCommand cmd; lift (k lines)) c in
  written c' = written c /\ is_ok r = false \/ is_ok v = true /\ written c' = written c +:+ cmd +:+ CRLF.
Proof.
  unfold lift, mbind, ctl_bind. destruct v as [a|e]; [|by left].
  pose proof (sendCommand_written cmd c) as H. destruct (sendCommand cmd c) as [[ls|e] c'].
  - destruct H as [[_ H]|H]; [done|]. right. split; [done|]. exact H.
  - destruct H as [[H _]|H]; [by left|by right].
Qed.

(** Directives none of which can end a line. *)
Definition line_safe (kvs : list (string * string)) : Prop :=
  Forall (fun kv => no_breaks kv.1 = true /\ no_breaks kv.2 = true) kvs.

Section Written.
Context `{conn : Conn} `{U : UnicodeTables}.

(** Nothing, with an error, or the one line. *)
Lemma SetConf_written (kvs : list (string * string)) (c : client) : line_safe kvs ->
  let '(r, c') := SetConf kvs c in
  written c' = written c /\ is_ok r = false \/ written c' = written c +:+ ("SETCONF " +:+ setconf_args kvs) +:+ CRLF.
Proof.
  intros Hs. unfold SetConf.
  pose proof (command_written (each (fun kv => wrap "tor: setconf key" (validateNoNewlines kv.1) ;;
    wrap "tor: setconf value" (validateNoNewlines kv.2)) kvs) ("SETCONF " +:+ setconf_args kvs) expectOK c) as H.
  unfold setconf_args, print in *. destruct ((lift _ ;; _) c) as [r c'].
  destruct H as [H|[_ H]]; [by left|by right].
Qed.
Lemma Signal_written (sig : string) (c : client) :
  let '(r, c') := Signal sig c in
  written c' = written c \/ written c' = written c +:+ ("SIGNAL " +:+ sig) +:+ CRLF.
Proof.
  unfold Signal.
  pose proof (command_written (wrap "tor: signal" (validateNoNewlines sig)) ("SIGNAL " +:+ sig) expectOK c) as H.
  destruct ((lift _ ;; _) c) as [r c']. destruct H as [[H _]|[_ H]]; [by left|by right].
Qed.
End Written.

(** ** The directives of an overlay *)

(** The keywords have no space, no [=] and no quote. *)
Lemma torrc_keys_words (k : string) : one_of torrc_keys k = true ->
  is_wordb k && no_byte "=" k && no_byte " " k && no_byte (chr 34) k && no_breaks k = true.
Proof. unfold one_of. intros H%bool_decide_eq_true. revert k H. apply Forall_forall. by repeat constructor. Qed.

(** Where a directive of the map comes from. *)
Lemma parse_lines_origin (ls : list string) (d : gmap string string) (k v : string) :
  Forall (directive torrc_keys) ls -> foldl parse_line d ls !! k = Some v ->
  d !! k = Some v \/ one_of torrc_keys k = true /\ exists t, k +:+ " " +:+ v +:+ t ∈ ls.
Proof.
  intros H. revert d. induction H as [|l ls (k' & v' & Hk & -> & _) _ IH]; intros d; [by left|]. cbn [foldl].
  intros [Hd|[Ho (t & Ht)]]%IH.
  - rewrite parse_directive in Hd.
    2: by apply torrc_keys_words in Hk; rewrite !andb_true_iff in Hk; apply is_wordb_ok, Hk.
    destruct (decide (k = k')) as [->|Hn].
    + rewrite lookup_insert_eq in Hd. injection Hd as <-. right. split; [done|].
      destruct (trim_right_split v') as [t Ht]. exists t. rewrite <-Ht. by left.
    + rewrite lookup_insert_ne in Hd by done. by left.
  - right. split; [done|]. exists t. by right.
Qed.

(** The map of an overlay is that of its lines. *)
Lemma overlay_parse `{U : UnicodeTables} (os : goos) (c : Config) (s : string) :
  Validate os c = Ok tt -> TorrcOverlay c = Ok s ->
  exists ls, overlay_lines c = Ok ls /\ ParseIP (HostIP c) <> None /\ parseTorrcOverlay s = foldl parse_line ∅ ls /\
    forall p l, str_forallb p s = true -> l ∈ ls -> str_forallb p l = true.
Proof.
  intros [Hi _ _ _ _ _ _ _ _ _ _]%Validate_ok Hs. apply Forall_cons in Hi as [Hip _].
  destruct (TorrcOverlay_split c s Hip Hs) as (ls & Hl & Hsp). exists ls. split_and!; [done|done| |].
  - unfold parseTorrcOverlay. destruct Hsp as [[-> ->]|[_ ->]]; [done|by rewrite parse_blank_end].
  - intros p l Hp Hin. destruct Hsp as [[-> _]|[_ Hsp]]; [by apply not_elem_of_nil in Hin|].
    rewrite <-(Join_Split s LF), Hsp in Hp. eapply forallb_join_inv; [exact Hp|]. apply elem_of_app. by left.
Qed.
(** What an overlay of a valid configuration makes of a directive. *)
Lemma overlay_entry `{U : UnicodeTables} (os : goos) (c : Config) (s k v : string) :
  Validate os c = Ok tt -> TorrcOverlay c = Ok s -> parseTorrcOverlay s !! k = Some v ->
  one_of torrc_keys k = true /\ clean v = true /\ (no_byte (chr 34) s = true -> no_byte (chr 34) v = true).
Proof.
  intros Hval Hs Hv. destruct (overlay_parse os c s Hval Hs) as (ls & Hl & Hip & E & Hp).
  apply overlay_directives in Hl as Hd; [|done].
  rewrite E in Hv. apply parse_lines_origin in Hv as [?|[Hk (t & Ht)]]; [done| |done]. split; [done|].
  assert (forall p, str_forallb p (k +:+ " " +:+ v +:+ t) = true -> str_forallb p v = true) as Hpart.
  { intros p. rewrite !forallb_app_str, !andb_true_iff. tauto. }
  rewrite Forall_forall in Hd. destruct (Hd _ Ht) as (k' & v' & _ & _ & Hc). split; [by apply Hpart|].
  intros Hq. eapply Hpart, Hp; done.
Qed.
Lemma clean_no_breaks (s : string) : clean s = true -> no_breaks s = true.
Proof. intros H. unfold no_breaks. by rewrite !clean_no_byte. Qed.

(** ** The two parts of a reload *)

Section Parts.
Context `{env : Env} `{U : UnicodeTables}.
(** What follows a push that succeeded, or none. *)
Definition commit (c : Config) : M (result unit) :=
  cfg ← get Cfg;
  (if Bool.eqb (Verbose c) (Verbose cfg) then mret tt else do_call (SetVerbose (Verbose c))) ;;
  upd (set_Cfg c) ;; mret (Ok tt).
Lemma ReloadConfig_commit (c : Config) (x : st) :
  ReloadConfig c x =
  if HasChanges (Diff (Cfg (eng x)) c) then
    if pushes c (eng x) then match push_config c x with (Ok _, y) => commit c y | (Err e, y) => (Err e, y) end
    else commit c x
  else (Ok tt, x).
Proof.
  unfold ReloadConfig, pushes, commit. unfold mbind, M_bind, get, mret, M_ret, upd, do_call.
  pose proof (push_config_eng c x) as [He _].
  destruct (HasChanges (Diff (Cfg (eng x)) c)); cbn [negb andb]; [|done].
  destruct (negb _ && TorControl (eng x) && _); [|done].
  destruct (push_config c x) as [[[]|e] x1]; [|done]. cbn [snd] in He. by rewrite He.
Qed.
End Parts.

Section Reloaded.
Context (conn : Conn) (U : UnicodeTables) (order : gmap string string -> list (string * string)) (c0 : client) (other : Env).
Hypothesis order_ok : forall m, order m ≡ₚ map_to_list m.

Lemma in_order (m : gmap string string) (k v : string) : (k, v) ∈ order m <-> m !! k = Some v.
Proof. by rewrite order_ok, elem_of_map_to_list. Qed.
Lemma order_line_safe (os : goos) (c : Config) (s : string) :
  Validate os c = Ok tt -> TorrcOverlay c = Ok s -> line_safe (order (parseTorrcOverlay s)).
Proof.
  intros Hv Hs. apply Forall_forall. intros [k v] H%in_order. destruct (overlay_entry os c s k v Hv Hs H) as (Hk & Hc & _).
  apply torrc_keys_words in Hk. rewrite !andb_true_iff in Hk. split; [apply Hk|by apply clean_no_breaks].
Qed.

(** The lines of a reload for the overlay [s]. *)
Definition conf_lines (s : string) : list string :=
  if decide (s = EmptyString) then [] else ["SETCONF " +:+ setconf_args (order (parseTorrcOverlay s))].

Abbreviation wire h := (written (client_of order c0 h)).
Lemma push_writes (os : goos) (c : Config) (x : st) :
  Validate os c = Ok tt ->
  let '(r, x') := @push_config (tor_env order c0 other) U c x in
  exists sent, wire (tr x') = wire (tr x) +:+ lines_of sent /\
    match TorrcOverlay c with
    | Ok s => sent `prefix_of` conf_lines s ++ ["SIGNAL RELOAD"] /\ (is_ok r = true -> conf_lines s `prefix_of` sent)
    | Err _ => sent = [] /\ is_ok r = false
    end.
Proof.
  intros Hv. unfold push_config. destruct (TorrcOverlay c) as [s|e] eqn:Hs.
  2: { cbn. exists []. by rewrite app_empty_r. }
  pose proof (order_line_safe os c s Hv Hs) as Hsafe. unfold conf_lines.
  assert (forall y : st, let '(r, y') := (@do_call (tor_env order c0 other) _ (TorSignal "RELOAD") ;; mret (Ok tt)) y in
    is_ok r = true /\ exists l, l `prefix_of` ["SIGNAL RELOAD"] /\ wire (tr y') = wire (tr y) +:+ lines_of l) as Hsig.
  { intros y. unfold mbind, M_bind, mret, M_ret, do_call. cbn [tr]. split; [done|].
    pose proof (Signal_written "RELOAD" (client_of order c0 (tr y))) as H.
    destruct (Signal "RELOAD" (client_of order c0 (tr y))) as [r cl] eqn:E.
    destruct (client_of_snoc order c0 other (tr y) (TorSignal "RELOAD") r cl) as [-> _]; [by cbn; rewrite E|].
    destruct H as [->| ->].
    - exists []. split; [apply prefix_nil|by rewrite app_empty_r].
    - exists ["SIGNAL RELOAD"]. split; [done|]. unfold lines_of. cbn. by rewrite app_empty_r. }
  destruct (decide (s = EmptyString)) as [He|He].
  - pose proof (Hsig x) as H. unfold mbind at 1, M_bind at 1, mret at 1, M_ret at 1.
    destruct ((do_call _ ;; _) x) as [r x']. destruct H as (Hr & l & Hl & Hw). exists l. split; [done|]. split; [done|].
    intros _. apply prefix_nil.
  - unfold mbind at 1, M_bind at 1, do_call at 1. set (d := order (parseTorrcOverlay s)) in *.
    pose proof (SetConf_written d (client_of order c0 (tr x)) Hsafe) as H.
    destruct (SetConf d (client_of order c0 (tr x))) as [r cl] eqn:E.
    destruct (client_of_snoc order c0 other (tr x) (TorSetConf (parseTorrcOverlay s)) r cl) as [Hc Ha]; [by cbn; fold d; rewrite E|].
    rewrite Ha. destruct r as [[]|e].
    + set (y := {| eng := eng x; tr := tr x ++ [Ev (TorSetConf (parseTorrcOverlay s))] |}).
      pose proof (Hsig y) as H'. destruct ((do_call _ ;; _) y) as [r x']. destruct H' as (Hr & l & Hl & Hw).
      destruct H as [[_ ?]|H]; [done|]. exists (("SETCONF " +:+ setconf_args d) :: l). split_and!.
      * rewrite Hw. unfold y. cbn [tr]. rewrite Hc, H. unfold lines_of. cbn [map concat_str]. by rewrite !str_app_assoc.
      * by apply prefix_cons.
      * intros _. apply prefix_cons, prefix_nil.
    + unfold mret, M_ret. cbn [tr]. rewrite Hc. destruct H as [[-> _]| ->].
      * exists []. split_and!; [by rewrite app_empty_r|apply prefix_nil|done].
      * exists ["SETCONF " +:+ setconf_args d]. split_and!; [|apply prefix_cons, prefix_nil|done].
        unfold lines_of. cbn. by rewrite app_empty_r.
Qed.

Lemma commit_silent (c : Config) (y : st) : wire (tr (@commit (tor_env order c0 other) c y).2) = wire (tr y).
Proof.
  unfold commit, mbind, M_bind, mret, M_ret, upd, do_call, get. destruct (Bool.eqb _ _); [done|].
  cbn [snd tr]. unfold client_of. by rewrite foldl_app.
Qed.
(** C11. What a reload of a valid configuration writes on the control connection is
    nothing, the SETCONF line of the new overlay's directives in the order of
    the map, or that line and SIGNAL RELOAD (for an empty overlay the signal
    alone); nothing unless the engine pushes, and at least the SETCONF line
    when a push is reported as a success. *)
Theorem reload_sends (os : goos) (c : Config) (x : st) :
  Validate os c = Ok tt ->
  let '(r, x') := @ReloadConfig (tor_env order c0 other) U c x in
  exists sent, wire (tr x') = wire (tr x) +:+ lines_of sent /\
    (pushes c (eng x) = false -> sent = []) /\
    match TorrcOverlay c with
    | Ok s => sent `prefix_of` conf_lines s ++ ["SIGNAL RELOAD"] /\
              (pushes c (eng x) = true -> is_ok r = true -> conf_lines s `prefix_of` sent)
    | Err _ => sent = []
    end.
Proof.
  intros Hv. rewrite ReloadConfig_commit.
  assert (forall y : st, wire (tr y) = wire (tr x) -> exists sent, wire (tr y) = wire (tr x) +:+ lines_of sent /\ sent = [] /\
    match TorrcOverlay c with Ok s => sent `prefix_of` conf_lines s ++ ["SIGNAL RELOAD"] | Err _ => sent = [] end) as Hnil.
  { intros y Hy. exists []. split_and!; [by rewrite app_empty_r|done|]. destruct (TorrcOverlay c); [apply prefix_nil|done]. }
  destruct (HasChanges (Diff (Cfg (eng x)) c)) eqn:Hch.
  2: { assert (pushes c (eng x) = false) as -> by (unfold pushes; by rewrite Hch).
       destruct (Hnil x eq_refl) as (sent & Hw & Hs & Ho). exists sent. split_and!; [exact Hw|done|]. by destruct (TorrcOverlay c). }
  destruct (pushes c (eng x)).
  - pose proof (push_writes os c x Hv) as H. destruct (push_config c x) as [[[]|e] x1].
    + destruct H as (sent & Hw & H). pose proof (commit_silent c x1) as Hq. destruct (commit c x1) as [r x2]. cbn [snd] in Hq.
      exists sent. rewrite Hq. split_and!; [exact Hw|done|].
      destruct (TorrcOverlay c); [|apply H]. split; [apply H|]. intros _ _. by apply H.
    + destruct H as (sent & Hw & H). exists sent. split_and!; [exact Hw|done|].
      destruct (TorrcOverlay c); [|apply H]. by split; [apply H|].
  - pose proof (commit_silent c x) as Hq. destruct (commit c x) as [r x2]. cbn [snd] in Hq.
    destruct (Hnil x2 Hq) as (sent & Hw & Hs & Ho). exists sent. split_and!; [exact Hw|done|]. by destruct (TorrcOverlay c).
Qed.
End Reloaded.

(** ** What Tor reads *)

(** An argument: a keyword, and its value where there is one. *)
Definition read_word (w : string) : string * option string :=
  match IndexByte w "=" with Some i => (str_take i w, Some (str_drop (S i) w)) | None => (w, None) end.
Definition nonempty (w : string) : bool := negb (bool_decide (w = EmptyString)).
(** The arguments one directive becomes: its value ends at the first space. *)
Definition reads (kv : string * string) : list (string * option string) :=
  match Split kv.2 " " with
  | v :: rest => (kv.1, Some v) :: map read_word (List.filter nonempty rest)
  | [] => []
  end.

Lemma read_print (kv : string * string) : one_of torrc_keys kv.1 = true ->
  map read_word (List.filter nonempty (Split (print kv) " ")) = reads kv.
Proof.
  destruct kv as [k v]. cbn [fst snd]. intros H%torrc_keys_words. rewrite !andb_true_iff in H. destruct H as [[[[_ He] Hs] _] _].
  unfold print, reads. cbn [fst snd]. rewrite <-str_app_assoc, Split_prefix.
  2: { unfold no_byte in *. by rewrite forallb_app_str, Hs. }
  destruct (Split v " ") as [|h t]; [done|]. cbn [List.filter].
  assert (nonempty ((k +:+ "=") +:+ h) = true) as ->.
  { unfold nonempty. rewrite bool_decide_eq_false_2; [done|]. rewrite str_app_assoc. by destruct k. }
  cbn [map]. f_equal. unfold read_word. rewrite str_app_assoc. change (k +:+ "=" +:+ h) with (k +:+ String "=" h).
  rewrite IndexByte_app, take_length_app by done. change (k +:+ String "=" h) with (k +:+ "=" +:+ h).
  rewrite <-str_app_assoc. replace (S (String.length k)) with (String.length (k +:+ "=")) by (rewrite length_app_str; simpl; lia).
  by rewrite drop_length_app.
Qed.

Section Tor.
Context (U : UnicodeTables) (order : gmap string string -> list (string * string)).
Hypothesis order_ok : forall m, order m ≡ₚ map_to_list m.
(** How Tor reads the arguments of SETCONF: keywords with or without a value,
    separated by spaces; where there is no quotation mark nothing else has a
    meaning. *)
Variable tor_reads : string -> list (string * option string).
Definition reads_words : Prop := forall s, no_byte (chr 34) s = true ->
  tor_reads s = map read_word (List.filter nonempty (Split s " ")).
Hypothesis tor_reads_ok : reads_words.

Lemma setconf_reads (os : goos) (c : Config) (s : string) :
  Validate os c = Ok tt -> TorrcOverlay c = Ok s -> no_byte (chr 34) s = true ->
  tor_reads (setconf_args (order (parseTorrcOverlay s))) = flat_map reads (order (parseTorrcOverlay s)).
Proof.
  intros Hv Hs Hq.
  assert (Forall (fun kv => one_of torrc_keys kv.1 = true /\ no_byte (chr 34) (print kv) = true) (order (parseTorrcOverlay s))) as H.
  { apply Forall_forall. intros [k v] H%(in_order order order_ok). destruct (overlay_entry os c s k v Hv Hs H) as (Hk & _ & Hn).
    split; [done|]. apply torrc_keys_words in Hk. rewrite !andb_true_iff in Hk. destruct Hk as [[_ Hk] _].
    unfold print, no_byte in *. cbn [fst snd]. by rewrite !forallb_app_str, Hk, (Hn Hq). }
  unfold setconf_args. rewrite tor_reads_ok.
  2: { apply forallb_join; [|done]. apply Forall_map. eapply Forall_impl; [exact H|]. by intros kv [_ ?]. }
  destruct (order (parseTorrcOverlay s)) as [|kv0 l0] eqn:E; [reflexivity|]. rewrite <-E in *.
  change " " with (str1 " ") at 1. rewrite Split_Join_flat by (rewrite E; done). clear E.
  induction H as [|kv l [Hk _] _ IH]; [done|]. cbn [map flat_map]. rewrite List.filter_app, map_app, IH. by rewrite read_print.
Qed.
End Tor.

(** The plugin line of a transport, in the map of a reload. *)
Lemma transport_parse `{U : UnicodeTables} (os : goos) (c : Config) (s v : string) :
  Validate os c = Ok tt -> Bridge_UseBridges (Bridge c) = true -> TorrcOverlay c = Ok s ->
  transport_lines (Bridge_Transport (Bridge c)) = Ok ["ClientTransportPlugin" +:+ " " +:+ v] -> trim_right v = v ->
  parseTorrcOverlay s !! "ClientTransportPlugin" = Some v.
Proof.
  intros Hv Hu Hs Ht Hr. destruct (overlay_parse os c s Hv Hs) as (ls & Hl & Hip & -> & _).
  unfold overlay_lines, bridge_lines in Hl. rewrite Hu, Ht in Hl. cbn [mbind result_bind] in Hl.
  destruct (bridge_loop _) as [bs|] eqn:Hb; [|done]. apply bridge_loop_spec in Hb as [-> Hb].
  destruct (proxy_lines _) as [p|] eqn:Hp; [|done]. destruct (relay_lines _) as [r|] eqn:Hrl; [|done].
  apply proxy_lines_spec in Hp. apply relay_lines_spec in Hrl. apply fhe_lines_spec in Hip. injection Hl as <-.
  cbn [app foldl]. rewrite foldl_app.
  rewrite (directives_parse other_keys (p ++ r ++ fhe_lines c)); [|done|done|by rewrite !Forall_app].
  rewrite (directives_parse ["Bridge"]); [|done|done|].
  - rewrite parse_directive by by apply is_wordb_ok. by rewrite lookup_insert_eq, Hr.
  - apply Forall_map. eapply Forall_impl; [exact Hb|]. intros b [_ H%bridgeLineRe_clean].
    by apply (directive_app ["Bridge"] "Bridge" b).
Qed.

Section TorFacts.
Context (U : UnicodeTables) (order : gmap string string -> list (string * string)) (tor_reads : string -> list (string * option string)).

(** Where no value holds a space, Tor reads from the SETCONF line exactly the
    directives of the overlay. *)
Theorem reload_reads_back (os : goos) (c : Config) (s : string) :
  (forall m, order m ≡ₚ map_to_list m) -> reads_words tor_reads ->
  Validate os c = Ok tt -> TorrcOverlay c = Ok s -> no_byte (chr 34) s = true ->
  (forall k v, parseTorrcOverlay s !! k = Some v -> no_byte " " v = true) ->
  tor_reads (setconf_args (order (parseTorrcOverlay s))) =
    map (fun kv => (kv.1, Some kv.2)) (order (parseTorrcOverlay s)).
Proof.
  intros Ho Ht Hv Hs Hq Hn. rewrite (setconf_reads U order Ho tor_reads Ht os c s) by done.
  assert (Forall (fun kv => no_byte " " kv.2 = true) (order (parseTorrcOverlay s))) as H.
  { apply Forall_forall. intros [k v] H%(in_order order Ho). by apply (Hn k). }
  induction H as [|kv l Hkv _ IH]; [done|]. cbn [flat_map map]. rewrite IH. unfold reads. by rewrite Split_single.
Qed.

(** C10. Where a value holds spaces, every further word of it reaches Tor as an
    option of its own: [exec] for each of the transports, and the words of the
    last bridge, whatever option of Tor they name. *)
Theorem values_become_options (os : goos) (c : Config) (s : string) :
  (forall m, order m ≡ₚ map_to_list m) -> reads_words tor_reads ->
  Validate os c = Ok tt -> TorrcOverlay c = Ok s -> no_byte (chr 34) s = true ->
  Bridge_UseBridges (Bridge c) = true ->
  let options := tor_reads (setconf_args (order (parseTorrcOverlay s))) in
  (Bridge_Transport (Bridge c) ∈ ["obfs4"; "meek-azure"; "snowflake"] -> ("exec", None) ∈ options) /\
  forall b w, last (kept_bridges (Bridge c)) = Some b -> w ∈ tail (Split b " ") -> w <> EmptyString -> read_word w ∈ options.
Proof.
  intros Ho Ht Hv Hs Hq Hu options. unfold options. rewrite (setconf_reads U order Ho tor_reads Ht os c s) by done.
  assert (forall k v w, parseTorrcOverlay s !! k = Some v -> w ∈ tail (Split v " ") -> w <> EmptyString ->
    read_word w ∈ flat_map reads (order (parseTorrcOverlay s))) as Hw.
  { intros k v w Hk Hin Hne. rewrite list_elem_of_In, in_flat_map. exists (k, v).
    rewrite <-!list_elem_of_In, (in_order order Ho). split; [done|]. unfold reads. cbn [snd fst].
    destruct (Split v " ") as [|h t]; [by apply not_elem_of_nil in Hin|]. right. rewrite list_elem_of_In.
    apply in_map, filter_In. rewrite <-list_elem_of_In. split; [done|]. unfold nonempty. by rewrite bool_decide_eq_false_2. }
  split.
  - intros Htr. change ("exec", None) with (read_word "exec").
    rewrite !elem_of_cons, elem_of_nil in Htr. destruct Htr as [E|[E|[E|[]]]].
    all: eapply Hw; [eapply transport_parse; [exact Hv|exact Hu|exact Hs|rewrite E; reflexivity|reflexivity]|cbn; set_solver|done].
  - intros b w Hb. apply Hw with (k := "Bridge"). rewrite (reload_keeps_last_bridge U os c s) by done. exact Hb.
Qed.
End TorFacts.

(** Tor, where there are no quotation marks. *)
Definition plain_tor (s : string) : list (string * option string) := map read_word (List.filter nonempty (Split s " ")).
Lemma reload_reads_back_witness :
  plain_tor (setconf_args (map_to_list (parseTorrcOverlay ("StrictNodes 1" +:+ nl)))) = [("StrictNodes", Some "1")].
Proof.
  refine (eq_trans (reload_reads_back ascii_tables map_to_list plain_tor linux
    (with_edits {| e_mem := 128; e_cpus := 1; e_socks := 9050; e_verbose := false; e_bridge := Bridge (DefaultConfig linux);
       e_proxy := Proxy (DefaultConfig linux);
       e_relays := {| Relays_ExcludeNodes := None; Relays_ExcludeExitNodes := None; Relays_StrictNodes := true |} |} (DefaultConfig linux))
    ("StrictNodes 1" +:+ nl) (fun _ => reflexivity _) (fun _ _ => eq_refl) _ _ _ _) _); [vm_compute; reflexivity..| |vm_compute; reflexivity].
  intros k v H. change (parseTorrcOverlay ("StrictNodes 1" +:+ nl)) with (<["StrictNodes" := "1"]> (∅ : gmap string string)) in H.
  rewrite lookup_insert_Some, lookup_empty in H. destruct H as [[<- <-]|[_ H]]; done.
Defined.
(** A bridge with the option of Tor that takes it off the network. *)
Definition sneaky : Config := with_edits {| e_mem := 128; e_cpus := 1; e_socks := 9050; e_verbose := false;
  e_bridge := {| Bridge_UseBridges := true; Bridge_Transport := "obfs4"; Bridge_Bridges := Some ["obfs4 192.0.2.1:443 DisableNetwork=1"] |};
  e_proxy := Proxy (DefaultConfig linux); e_relays := Relays (DefaultConfig linux) |} (DefaultConfig linux).
Definition sneaky_overlay : string := match @TorrcOverlay ascii_tables sneaky with Ok s => s | Err _ => EmptyString end.
Lemma values_become_options_witness :
  let options := plain_tor (setconf_args (map_to_list (parseTorrcOverlay sneaky_overlay))) in
  ("exec", None) ∈ options /\ ("DisableNetwork", Some "1") ∈ options.
Proof.
  destruct (values_become_options ascii_tables map_to_list plain_tor linux sneaky sneaky_overlay (fun _ => reflexivity _) (fun _ _ => eq_refl))
    as [H1 H2]; [vm_compute; reflexivity..|].
  split; [apply H1, list_elem_of_In; left; vm_compute; reflexivity|].
  apply (H2 "obfs4 192.0.2.1:443 DisableNetwork=1" "DisableNetwork=1"); [vm_compute; reflexivity| |done].
  apply list_elem_of_In. vm_compute. tauto.
Defined.

(** A connection whose writes succeed and whose replies are all right. *)
Definition good_conn : Conn := fun _ _ => Sent.
Definition ok_client : client := {| written := EmptyString; arrivals := [GotLine "250 OK"; GotLine "250 OK"] |}.
Definition running_state : st :=
  {| eng := {| Cfg := DefaultConfig linux; state := StateRunning; savedNet := None; TorControl := true; fs_active := false;
               retryPolicy := DefaultRetryPolicy; attempts := ∅ |}; tr := [] |}.
Lemma reload_sends_witness :
  let env := @tor_env good_conn ascii_tables map_to_list ok_client calm_env in
  let x' := (@ReloadConfig env ascii_tables sneaky running_state).2 in
  exists rest, written (@client_of good_conn ascii_tables map_to_list ok_client (tr x')) =
    lines_of (conf_lines map_to_list sneaky_overlay ++ rest).
Proof.
  intros env x'.
  pose proof (reload_sends good_conn ascii_tables map_to_list ok_client calm_env (fun _ => reflexivity _) linux sneaky running_state
    ltac:(vm_compute; reflexivity)) as H.
  assert (is_ok (@ReloadConfig env ascii_tables sneaky running_state).1 = true) as Hr by (vm_compute; reflexivity).
  fold env in H. subst x'. destruct (@ReloadConfig env ascii_tables sneaky running_state) as [r x'].
  destruct H as (sent & Hw & _ & H).
  assert (@TorrcOverlay ascii_tables sneaky = Ok sneaky_overlay) as Es by (vm_compute; reflexivity).
  rewrite Es in H. destruct H as [_ H]. destruct (H ltac:(vm_compute; reflexivity) Hr) as [rest ->]. exists rest. exact Hw.
Defined.
