(* ===== verification/Circuits.v ===== *)
(** * Package [gui], [circuits_tab.go] and the relay list of [relays_tab.go]: showing circuits

    How the relays of the circuits are resolved (with a cache), listed and
    handed to the globe, and which circuit the buttons act on.  The control
    connection is the one of [Control]; a missing connection is [None]. *)

From Stdlib Require Import SpecFloat.
From S2P Require Import Prelude GoStrings StringFacts GoFloats Coastlines Globe GeoIP Control Relays.
Local Open Scope Z_scope.

(** ** Circuits and their relays *)

(** A [RelayInfo] with a role, and with a country and a position. *)
Definition with_role (role : string) (ri : RelayInfo) : RelayInfo := {|
  Fingerprint := Fingerprint ri; Nickname := Nickname ri; CountryCode := CountryCode ri;
  Latitude := Latitude ri; Longitude := Longitude ri; Role := role |}.
Definition bare (fp nick role : string) : RelayInfo := {|
  Fingerprint := fp; Nickname := nick; CountryCode := EmptyString; Latitude := 0; Longitude := 0; Role := role |}.
Definition with_location (full : RelayInfo) (ri : RelayInfo) : RelayInfo := {|
  Fingerprint := Fingerprint ri; Nickname := Nickname ri; CountryCode := CountryCode full;
  Latitude := Latitude full; Longitude := Longitude full; Role := Role ri |}.
Definition shown_status (ci : CircuitInfo) : bool := String.eqb (Status ci) "BUILT" || String.eqb (Status ci) "EXTENDED".

Record circuitEntry := { ce_info : CircuitInfo; ce_resolved : list RelayInfo }.
Definition cache : Type := gmap string RelayInfo.

(** [name[:10] + "..."]. *)
Definition relay_label (ri : RelayInfo) : string :=
  let name :=
    if decide (Nickname ri = EmptyString)
    then if 10 <? len (Fingerprint ri) then str_take 10 (Fingerprint ri) +:+ "..." else Fingerprint ri
    else Nickname ri in
  if decide (CountryCode ri = EmptyString) then name else name +:+ "[" +:+ CountryCode ri +:+ "]".
Definition formatCircuitPath (ce : circuitEntry) : string :=
  match map relay_label (ce_resolved ce) with
  | [] => Join (Path (ce_info ce)) " → "
  | parts => Join parts " → "
  end.
Definition circuit_label (ce : circuitEntry) : string :=
  "#" +:+ ID (ce_info ce) +:+ " " +:+ Status (ce_info ce) +:+ " " +:+ formatCircuitPath ce
  +:+ " (" +:+ Purpose (ce_info ce) +:+ ")".
(** One line of the list of active relays. *)
Definition relay_display (ri : RelayInfo) : string :=
  (if decide (Nickname ri = EmptyString) then Fingerprint ri else Nickname ri +:+ " " +:+ Fingerprint ri)
  +:+ (if decide (CountryCode ri = EmptyString) then EmptyString else " [" +:+ CountryCode ri +:+ "]")
  +:+ (if decide (Role ri = EmptyString) then EmptyString else " (" +:+ Role ri +:+ ")").
(** One option of the dialog that asks which relay to block. *)
Definition relay_option (ri : RelayInfo) : string :=
  (if decide (Nickname ri = EmptyString) then Fingerprint ri else Nickname ri +:+ " (" +:+ Fingerprint ri +:+ ")")
  +:+ (if decide (CountryCode ri = EmptyString) then EmptyString else " [" +:+ CountryCode ri +:+ "]").

Section Resolve.
Context `{conn : Conn} `{U : UnicodeTables}.

(** The loop of [resolveCircuit]: [i] is the position of the head of [path]
    in a path of [n] relays. *)
Fixpoint resolve_loop (i n : nat) (path : list string) (m : cache) (c : client) : list RelayInfo * cache * client :=
  match path with
  | [] => ([], m, c)
  | entry :: path' =>
      let '(fp, nick) := ParseRelayPath entry in
      match m !! fp with
      | Some cached =>
          let '(l, m', c') := resolve_loop (S i) n path' m c in
          (with_role (relayRole i n) cached :: l, m', c')
      | None =>
          let '((full, e), c1) := ResolveRelay entry c in
          let ri := match e with
                    | None => with_role (relayRole i n) full
                    | Some _ => bare fp nick (relayRole i n)
                    end in
          let '(l, m', c') := resolve_loop (S i) n path' (<[fp := ri]> m) c1 in
          (ri :: l, m', c')
      end
  end.
Definition resolveCircuit (ci : CircuitInfo) : cache -> client -> list RelayInfo * cache * client :=
  resolve_loop 0 (length (Path ci)) (Path ci).

(** The loop of [pollCircuits]. *)
Fixpoint poll_loop (circs : list CircuitInfo) (m : cache) (c : client) : list circuitEntry * cache * client :=
  match circs with
  | [] => ([], m, c)
  | ci :: circs' =>
      if shown_status ci then
        let '(resolved, m1, c1) := resolveCircuit ci m c in
        let '(l, m2, c2) := poll_loop circs' m1 c1 in
        ({| ce_info := ci; ce_resolved := resolved |} :: l, m2, c2)
      else poll_loop circs' m c
  end.

(** The loops of "Fetch Active Relays"; [seen] are the fingerprints so far. *)
Fixpoint fetch_path (i n : nat) (path : list string) (seen : gset string) (c : client)
  : list RelayInfo * gset string * client :=
  match path with
  | [] => ([], seen, c)
  | entry :: path' =>
      let '(fp, nick) := ParseRelayPath entry in
      if decide (fp ∈ seen) then fetch_path (S i) n path' seen c
      else
        let '((full, e), c1) := ResolveRelay entry c in
        let ri := bare fp nick (relayRole i n) in
        let ri := match e with None => with_location full ri | Some _ => ri end in
        let '(l, seen', c') := fetch_path (S i) n path' ({[fp]} ∪ seen) c1 in
        (ri :: l, seen', c')
  end.
Fixpoint fetch_loop (circs : list CircuitInfo) (seen : gset string) (c : client) : list RelayInfo * client :=
  match circs with
  | [] => ([], c)
  | ci :: circs' =>
      if shown_status ci then
        let '(l1, seen1, c1) := fetch_path 0 (length (Path ci)) (Path ci) seen c in
        let '(l2, c2) := fetch_loop circs' seen1 c1 in
        (l1 ++ l2, c2)
      else fetch_loop circs' seen c
  end.
End Resolve.

(** ** The globe *)

(** A coordinate of the table: the [float64] nearest to so many hundredths. *)
Definition degrees (hundredths : Z) : spec_float := f64_div (f64_of_Z hundredths) (f64_of_Z 100).
Definition globe_node (ri : RelayInfo) : GlobeNode := {|
  Lat := degrees (Latitude ri); Lon := degrees (Longitude ri); Globe.Fingerprint := Fingerprint ri;
  Globe.Nickname := Nickname ri; Country := CountryCode ri; Globe.Role := Role ri |}.

(** The nodes not yet seen, in order. *)
Fixpoint new_nodes (seen : gset string) (l : list RelayInfo) : list GlobeNode * gset string :=
  match l with
  | [] => ([], seen)
  | ri :: l' =>
      if decide (Fingerprint ri ∈ seen) then new_nodes seen l'
      else let '(ns, seen') := new_nodes ({[Fingerprint ri]} ∪ seen) l' in (globe_node ri :: ns, seen')
  end.
Fixpoint globe_loop (idx : nat) (selected : Z) (seen : gset string) (l : list circuitEntry)
  : list GlobeNode * list GlobePath :=
  match l with
  | [] => ([], [])
  | ce :: l' =>
      let '(ns, seen1) := new_nodes seen (ce_resolved ce) in
      let '(ns', ps') := globe_loop (S idx) selected seen1 l' in
      let pathNodes := map globe_node (ce_resolved ce) in
      (ns ++ ns',
       match pathNodes with
       | [] => ps'
       | _ => {| Nodes := pathNodes; CircuitID := ID (ce_info ce); Selected := Z.of_nat idx =? selected |} :: ps'
       end)
  end.

(** ** The tab *)

Record Tab := {
  circuits : list circuitEntry; selectedIdx : Z; relayCache : cache; countLabel : string; globe : GlobeWidget
}.
Definition set_globe (g : GlobeWidget) (t : Tab) : Tab :=
  {| circuits := circuits t; selectedIdx := selectedIdx t; relayCache := relayCache t; countLabel := countLabel t; globe := g |}.
Definition set_selected (i : Z) (t : Tab) : Tab :=
  {| circuits := circuits t; selectedIdx := i; relayCache := relayCache t; countLabel := countLabel t; globe := globe t |}.

Section Tab.
Variables Sin Cos Acos : spec_float -> spec_float.
Variable Atan2 : spec_float -> spec_float -> spec_float.
Context `{conn : Conn} `{U : UnicodeTables}.

Definition updateGlobe (t : Tab) : outcome Tab :=
  let '(ns, ps) := globe_loop 0 (selectedIdx t) ∅ (circuits t) in
  g ← SetData Sin Cos Acos Atan2 ns ps (globe t);
  mret (set_globe g t).
Definition OnSelected (id : Z) (t : Tab) : outcome Tab := updateGlobe (set_selected id t).

(** [pollCircuits] with [running] for [State() == StateRunning]; the last
    component is the line written to the log. *)
Definition pollCircuits (control : option client) (running : bool) (t : Tab)
  : outcome (Tab * option client * option string) :=
  match control with
  | Some c =>
      if running then
        match GetCircuits c with
        | (Err e, c1) => mret (t, Some c1, Some ("circuits poll: " +:+ Error e))
        | (Ok None, _) => Panic
        | (Ok (Some circs), c1) =>
            let '(l, m, c2) := poll_loop circs (relayCache t) c1 in
            t' ← updateGlobe {| circuits := l; selectedIdx := selectedIdx t; relayCache := m;
                                countLabel := "Circuits: " +:+ itoa (Z.of_nat (length l)); globe := globe t |};
            mret (t', Some c2, None)
        end
      else mret (t, control, None)
  | None => mret (t, control, None)
  end.

(** The entry the buttons act on. *)
Definition selected (t : Tab) : option circuitEntry :=
  if selectedIdx t <? 0 then None else circuits t !! Z.to_nat (selectedIdx t).
(** What the dialog shows, and the client afterwards. *)
Inductive dialog := NoDialog | ShowInformation (title msg : string) | ShowError (msg : string).
Definition close_circuit (control : option client) (running : bool) (t : Tab)
  : outcome (Tab * option client * dialog * list string) :=
  match selected t with
  | Some ce =>
      let circID := ID (ce_info ce) in
      if decide (circID = EmptyString) then mret (t, control, ShowInformation "Close Circuit" "No circuit selected.", [])
      else
        match control with
        | None => mret (t, control, ShowError "Tor control not connected", [])
        | Some c =>
            match CloseCircuit circID c with
            | (Err e, c1) => mret (t, Some c1, ShowError ("close circuit #" +:+ circID +:+ ": " +:+ Error e), [])
            | (Ok _, c1) =>
                p ← pollCircuits (Some c1) running t;
                let '(t', control', msg) := p in
                mret (t', control', NoDialog, ["closed circuit #" +:+ circID] ++ option_list msg)
            end
        end
  | None => mret (t, control, ShowInformation "Close Circuit" "No circuit selected.", [])
  end.
(** The relays offered for blocking; nothing selected, or nothing resolved. *)
Definition block_options (t : Tab) : option (list string) :=
  match selected t with
  | Some ce => match ce_resolved ce with [] => None | l => Some (map relay_option l) end
  | None => None
  end.
(** "Fetch Active Relays". *)
Definition fetch_relays (control : option client) (running : bool) (activeRelays : list RelayInfo)
  : outcome (list RelayInfo * option client * dialog) :=
  match control with
  | Some c =>
      if running then
        match GetCircuits c with
        | (Err e, c1) => mret (activeRelays, Some c1, ShowError (Error e))
        | (Ok None, _) => Panic
        | (Ok (Some circs), c1) => let '(l, c2) := fetch_loop circs ∅ c1 in mret (l, Some c2, NoDialog)
        end
      else mret (activeRelays, control, ShowInformation "Not Connected" "TorVM must be running to fetch active relays.")
  | None => mret (activeRelays, control, ShowInformation "Not Connected" "TorVM must be running to fetch active relays.")
  end.
End Tab.

(** ** Facts *)

Definition path_fp (entry : string) : string := (ParseRelayPath entry).1.

Section Facts.
Context `{conn : Conn} `{U : UnicodeTables}.

Lemma with_role_same (role : string) (ri : RelayInfo) : Role ri = role -> with_role role ri = ri.
Proof. intros <-. by destruct ri. Qed.

(** Resolving a path leaves it resolved for good: with the cache it leaves, or
    any larger one, the same relays are found again without asking Tor. *)
Lemma resolve_loop_stable (path : list string) (i n : nat) (m : cache) (c : client) :
  let '(l, m', _) := resolve_loop i n path m c in
  m ⊆ m' /\ forall m2 c2, m' ⊆ m2 -> resolve_loop i n path m2 c2 = (l, m2, c2).
Proof.
  revert i m c. induction path as [|e path IH]; intros i m c; [done|]. cbn [resolve_loop].
  destruct (ParseRelayPath e) as [fp nick]. destruct (m !! fp) as [ri|] eqn:Hm.
  - specialize (IH (S i) m c). destruct (resolve_loop (S i) n path m c) as [[l m'] c'].
    destruct IH as [Hs IH]. split; [done|]. intros m2 c2 H2.
    rewrite (lookup_weaken m m2 fp ri) by (done || by etrans). by rewrite IH.
  - destruct (ResolveRelay e c) as [[full er] c1]. set (ri := match er with None => _ | Some _ => _ end).
    assert (with_role (relayRole i n) ri = ri) as Hr by (apply with_role_same; by destruct er).
    specialize (IH (S i) (<[fp:=ri]> m) c1). destruct (resolve_loop (S i) n path _ c1) as [[l m'] c'].
    destruct IH as [Hs IH]. split; [etrans; [|exact Hs]; by apply insert_subseteq|]. intros m2 c2 H2.
    rewrite (lookup_weaken (<[fp:=ri]> m) m2 fp ri); [|apply lookup_insert_eq|by etrans].
    by rewrite IH, Hr.
Qed.
Lemma poll_loop_stable (circs : list CircuitInfo) (m : cache) (c : client) :
  let '(l, m', _) := poll_loop circs m c in
  m ⊆ m' /\ forall m2 c2, m' ⊆ m2 -> poll_loop circs m2 c2 = (l, m2, c2).
Proof.
  revert m c. induction circs as [|ci circs IH]; intros m c; [done|]. cbn [poll_loop].
  destruct (shown_status ci); [|apply IH].
  pose proof (resolve_loop_stable (Path ci) 0 (length (Path ci)) m c) as H. fold (resolveCircuit ci m c) in H.
  destruct (resolveCircuit ci m c) as [[r m1] c1]. destruct H as [H1 Hr].
  specialize (IH m1 c1). destruct (poll_loop circs m1 c1) as [[l m'] c']. destruct IH as [H2 IH].
  split; [by etrans|]. intros m2 c2 Hm. unfold resolveCircuit. rewrite Hr by (by etrans). by rewrite IH.
Qed.

(** The fields of the resolved relays. *)
Definition cache_ok (m : cache) : Prop := map_Forall (fun fp ri => Fingerprint ri = fp) m.
Lemma ResolveRelay_fp (e : string) (c : client) : Fingerprint (ResolveRelay e c).1.1 = path_fp e.
Proof.
  unfold ResolveRelay, path_fp. destruct (ParseRelayPath e) as [fp nick]. cbn [fst].
  destruct (GetRelayAddress fp c) as [[ip|] c1]; [|done]. destruct (GetRelayCountry ip c1) as [[cc|] c2]; [|done].
  by destruct (CountryCentroids !! cc) as [[]|].
Qed.
Lemma resolve_loop_shape (path : list string) (i n : nat) (m : cache) (c : client) :
  cache_ok m -> let '(l, m', _) := resolve_loop i n path m c in
  cache_ok m' /\ map Fingerprint l = map path_fp path /\ map Role l = map (fun j => relayRole j n) (seq i (length path)).
Proof.
  revert i m c. induction path as [|e path IH]; intros i m c Hm; [done|]. cbn [resolve_loop].
  unfold path_fp at 1; fold path_fp. pose proof (ResolveRelay_fp e c) as Hf. unfold path_fp in Hf.
  cbn [map seq length]. unfold path_fp at 1. destruct (ParseRelayPath e) as [fp nick]. cbn [fst] in *.
  destruct (m !! fp) as [ri|] eqn:Hl.
  - specialize (IH (S i) m c Hm). destruct (resolve_loop (S i) n path m c) as [[l m'] c'].
    destruct IH as (H1 & H2 & H3). split; [done|]. cbn [map with_role Fingerprint Role]. rewrite H2, H3.
    by rewrite (Hm fp ri Hl).
  - destruct (ResolveRelay e c) as [[full er] c1]. cbn [fst] in Hf. set (ri := match er with None => _ | Some _ => _ end).
    assert (Fingerprint ri = fp /\ Role ri = relayRole i n) as [Hr1 Hr2] by (subst ri; by destruct er).
    assert (cache_ok (<[fp:=ri]> m)) as Hm' by by apply map_Forall_insert_2.
    specialize (IH (S i) _ c1 Hm'). destruct (resolve_loop (S i) n path _ c1) as [[l m'] c'].
    destruct IH as (H1 & H2 & H3). split; [done|]. cbn [map]. by rewrite Hr1, Hr2, H2, H3.
Qed.

(** The list of active relays. *)
Lemma fetch_path_spec (path : list string) (i n : nat) (seen : gset string) (c : client) :
  let '(l, seen', _) := fetch_path i n path seen c in
  NoDup (map Fingerprint l) /\ (forall fp, fp ∈ map Fingerprint l -> fp ∉ seen) /\
  seen' = list_to_set (map Fingerprint l) ∪ seen /\ seen' = list_to_set (map path_fp path) ∪ seen.
Proof.
  revert i seen c. induction path as [|e path IH]; intros i seen c.
  { cbn [fetch_path map list_to_set]. split_and!; [constructor|by intros ? ?%elem_of_nil|set_solver..]. }
  cbn [fetch_path map]. unfold path_fp at 1. destruct (ParseRelayPath e) as [fp nick]. cbn [fst]. case_decide as Hin.
  - specialize (IH (S i) seen c). destruct (fetch_path (S i) n path seen c) as [[l seen'] c'].
    destruct IH as (H1 & H2 & H3 & H4). split_and!; [done..|]. rewrite H4. clear -Hin. set_solver.
  - destruct (ResolveRelay e c) as [[full er] c1]. set (ri := match er with None => _ | Some _ => _ end).
    assert (Fingerprint ri = fp) as Hr by (subst ri; by destruct er).
    specialize (IH (S i) ({[fp]} ∪ seen) c1). destruct (fetch_path (S i) n path _ c1) as [[l seen'] c'].
    destruct IH as (H1 & H2 & H3 & H4). cbn [map list_to_set]. rewrite Hr. split_and!.
    + constructor; [|done]. intros Hfp. specialize (H2 fp Hfp). set_solver.
    + intros f [->|Hf]%elem_of_cons; [done|]. specialize (H2 f Hf). set_solver.
    + rewrite H3. clear. set_solver.
    + rewrite H4. clear. set_solver.
Qed.
Definition shown_fps (circs : list CircuitInfo) : list string := concat (map (fun ci => map path_fp (Path ci)) (List.filter shown_status circs)).
Lemma fetch_loop_spec (circs : list CircuitInfo) (seen : gset string) (c : client) :
  let l := map Fingerprint (fetch_loop circs seen c).1 in
  NoDup l /\ (forall fp, fp ∈ l <-> fp ∈ shown_fps circs /\ fp ∉ seen).
Proof.
  revert seen c. induction circs as [|ci circs IH]; intros seen c.
  { cbn. split; [constructor|]. set_solver. }
  unfold shown_fps. cbn [fetch_loop List.filter]. destruct (shown_status ci); [|apply IH].
  pose proof (fetch_path_spec (Path ci) 0 (length (Path ci)) seen c) as H.
  destruct (fetch_path 0 _ (Path ci) seen c) as [[l1 seen1] c1]. destruct H as (H1 & H2 & H3 & H4).
  specialize (IH seen1 c1). destruct (fetch_loop circs seen1 c1) as [l2 c2]. destruct IH as [IH1 IH2].
  cbn [fst map concat] in *. fold (shown_fps circs). rewrite map_app.
  assert (forall fp, fp ∈ seen1 <-> fp ∈ map Fingerprint l1 \/ fp ∈ seen) as E3
    by (intros fp; by rewrite H3, elem_of_union, elem_of_list_to_set).
  assert (forall fp, fp ∈ seen1 <-> fp ∈ map path_fp (Path ci) \/ fp ∈ seen) as E4
    by (intros fp; by rewrite H4, elem_of_union, elem_of_list_to_set).
  clear H3 H4. split.
  - apply NoDup_app. split_and!; [done| |done]. intros fp Hf. rewrite IH2, E3. tauto.
  - intros fp. rewrite !elem_of_app, IH2. specialize (E3 fp). specialize (E4 fp). specialize (H2 fp).
    clear -H2 E3 E4. destruct (decide (fp ∈ seen)), (decide (fp ∈ seen1)); tauto.
Qed.
End Facts.

(** ** Properties *)

(** Polling again the circuits of an earlier poll, over whatever connection,
    shows the same relays and sends nothing: every answer, also the failure to
    resolve a relay, is remembered. *)
Theorem poll_cached (conn : Conn) (U : UnicodeTables) (circs : list CircuitInfo) (m : cache) (c c2 : client) :
  let '(l, m', _) := poll_loop circs m c in poll_loop circs m' c2 = (l, m', c2).
Proof.
  pose proof (poll_loop_stable circs m c) as H. destruct (poll_loop circs m c) as [[l m'] c']. by apply H.
Qed.

(** Each circuit's relays are those of its path, in order, the first as guard
    and the last as exit, whether they come from the cache or from Tor; and the
    cache stays keyed by fingerprint. *)
Theorem resolveCircuit_shape (conn : Conn) (U : UnicodeTables) (ci : CircuitInfo) (m : cache) (c : client) :
  cache_ok m ->
  let '(l, m', _) := resolveCircuit ci m c in
  cache_ok m' /\ map Fingerprint l = map path_fp (Path ci) /\
  forall j ri, l !! j = Some ri -> Role ri =
    if (j =? 0)%nat then "guard" else if (j =? length (Path ci) - 1)%nat then "exit" else "middle".
Proof.
  intros Hm. pose proof (resolve_loop_shape (Path ci) 0 (length (Path ci)) m c Hm) as H.
  fold (resolveCircuit ci m c) in H. destruct (resolveCircuit ci m c) as [[l m'] c']. destruct H as (H1 & H2 & H3).
  split_and!; [done..|]. intros j ri Hj.
  assert (j < length (Path ci))%nat as Hlt.
  { apply lookup_lt_Some in Hj. by rewrite <-(length_map Fingerprint), H2, length_map in Hj. }
  assert (map Role l !! j = Some (Role ri)) as Hr by (rewrite list_lookup_fmap; by rewrite Hj).
  rewrite H3 in Hr. rewrite list_lookup_fmap, lookup_seq_lt in Hr by done. cbn in Hr. injection Hr as <-.
  unfold relayRole. destruct (length (Path ci)) as [|n]; [lia|]. cbn. by rewrite Nat.sub_0_r.
Qed.
Lemma resolveCircuit_shape_witness :
  let ci := {| ID := "7"; Status := "BUILT"; Path := ["$AA~a"; "$BB~b"; "$CC~c"]; Purpose := "GENERAL" |} in
  let '(l, _, _) := @resolveCircuit sent_always ascii_tables ci ∅ {| written := EmptyString; arrivals := [] |} in
  map Fingerprint l = map path_fp (Path ci).
Proof.
  intros ci. pose proof (resolveCircuit_shape sent_always ascii_tables ci ∅ {| written := EmptyString; arrivals := [] |}
    (map_Forall_empty _)) as H.
  destruct (resolveCircuit _ _ _) as [[l m] c]. apply H.
Defined.

(** "Fetch Active Relays" lists every relay of the built and extended circuits
    exactly once. *)
Theorem fetch_once (conn : Conn) (U : UnicodeTables) (circs : list CircuitInfo) (c : client) :
  let l := map Fingerprint (fetch_loop circs ∅ c).1 in
  NoDup l /\ forall fp, fp ∈ l <-> exists ci e, ci ∈ circs /\ shown_status ci = true /\ e ∈ Path ci /\ path_fp e = fp.
Proof.
  intros l. pose proof (fetch_loop_spec circs ∅ c) as [H1 H2]. split; [done|]. intros fp. subst l. rewrite H2.
  unfold shown_fps. rewrite list_elem_of_In, in_concat. split.
  - intros [(x & Hx & Hf) _]. apply in_map_iff in Hx as (ci & <- & Hci). apply filter_In in Hci as [Hci Hs].
    apply in_map_iff in Hf as (e & He & Hp). exists ci, e. by rewrite !list_elem_of_In.
  - intros (ci & e & Hci & Hs & He & Hp). split; [|set_solver]. exists (map path_fp (Path ci)). split.
    + apply in_map_iff. exists ci. split; [done|]. apply filter_In. by rewrite <-list_elem_of_In.
    + apply in_map_iff. exists e. by rewrite <-list_elem_of_In.
Qed.

Lemma new_nodes_spec (l : list RelayInfo) (seen : gset string) :
  let '(ns, seen') := new_nodes seen l in
  NoDup (map Globe.Fingerprint ns) /\
  (forall fp, fp ∈ map Globe.Fingerprint ns <-> fp ∈ map Fingerprint l /\ fp ∉ seen) /\
  (forall fp, fp ∈ seen' <-> fp ∈ map Fingerprint l \/ fp ∈ seen).
Proof.
  revert seen. induction l as [|ri l IH]; intros seen.
  { cbn. split_and!; [constructor|intros fp; set_solver|intros fp; set_solver]. }
  cbn [new_nodes map]. case_decide as Hin.
  - specialize (IH seen). destruct (new_nodes seen l) as [ns seen']. destruct IH as (H1 & H2 & H3).
    split_and!; [done|..]; intros fp; rewrite ?H2, ?H3, elem_of_cons; [|naive_solver].
    split; [naive_solver|]. intros [[->|?] ?]; [done|by split].
  - specialize (IH ({[Fingerprint ri]} ∪ seen)). destruct (new_nodes _ l) as [ns seen']. destruct IH as (H1 & H2 & H3).
    cbn [map globe_node Globe.Fingerprint]. split_and!.
    + constructor; [|done]. rewrite H2. set_solver.
    + intros fp. rewrite !elem_of_cons, H2, elem_of_union, elem_of_singleton.
      destruct (decide (fp = Fingerprint ri)) as [->|]; naive_solver.
    + intros fp. rewrite H3, !elem_of_cons, elem_of_union, elem_of_singleton. naive_solver.
Qed.
Definition shown_relays (l : list circuitEntry) : list string := concat (map (fun ce => map Fingerprint (ce_resolved ce)) l).
Lemma globe_loop_spec (l : list circuitEntry) (idx : nat) (selected : Z) (seen : gset string) :
  let '(ns, ps) := globe_loop idx selected seen l in
  NoDup (map Globe.Fingerprint ns) /\
  (forall fp, fp ∈ map Globe.Fingerprint ns <-> fp ∈ shown_relays l /\ fp ∉ seen) /\
  (forall p, p ∈ ps -> exists j ce, l !! j = Some ce /\ CircuitID p = ID (ce_info ce) /\
    Nodes p = map globe_node (ce_resolved ce) /\ (Selected p = true <-> Z.of_nat (idx + j) = selected)).
Proof.
  revert idx seen. induction l as [|ce l IH]; intros idx seen.
  { cbn. split_and!; [constructor|intros fp; set_solver|by intros p ?%elem_of_nil]. }
  unfold shown_relays. cbn [globe_loop map concat]. fold (shown_relays l).
  pose proof (new_nodes_spec (ce_resolved ce) seen) as H. destruct (new_nodes seen _) as [ns seen1]. destruct H as (H1 & H2 & H3).
  specialize (IH (S idx) seen1). destruct (globe_loop (S idx) selected seen1 l) as [ns' ps']. destruct IH as (I1 & I2 & I3).
  rewrite map_app. split_and!.
  - apply NoDup_app. split_and!; [done| |done]. intros fp. rewrite I2, H2, H3. tauto.
  - intros fp. rewrite !elem_of_app, I2, H2, H3. destruct (decide (fp ∈ map Fingerprint (ce_resolved ce))); tauto.
  - assert (forall p, p ∈ ps' -> exists j ce', (ce :: l) !! j = Some ce' /\ CircuitID p = ID (ce_info ce') /\
      Nodes p = map globe_node (ce_resolved ce') /\ (Selected p = true <-> Z.of_nat (idx + j) = selected)) as Hps.
    { intros p Hp. destruct (I3 p Hp) as (j & ce' & Hj & ? & ? & Hs). exists (S j), ce'. split_and!; [done..|].
      rewrite Hs. by replace (S idx + j)%nat with (idx + S j)%nat by lia. }
    intros p. destruct (map globe_node (ce_resolved ce)) as [|n ns0] eqn:En; [apply Hps|].
    intros [->|Hp]%elem_of_cons; [|by apply Hps]. exists 0%nat, ce. rewrite En, Nat.add_0_r. split_and!; [done..|]. cbn. apply Z.eqb_eq.
Qed.

(** What the globe is given: one dot per relay of the listed circuits and a
    path only for one of them, through all its relays, so that every relay of a
    path has a dot; the selected paths are those of the selected circuit. *)
Theorem globe_shows_circuits (l : list circuitEntry) (selected : Z) :
  let '(ns, ps) := globe_loop 0 selected ∅ l in
  NoDup (map Globe.Fingerprint ns) /\
  (forall fp, fp ∈ map Globe.Fingerprint ns <-> fp ∈ shown_relays l) /\
  forall p, p ∈ ps ->
    (forall n, n ∈ Nodes p -> Globe.Fingerprint n ∈ map Globe.Fingerprint ns) /\
    exists j ce, l !! j = Some ce /\ CircuitID p = ID (ce_info ce) /\ Nodes p = map globe_node (ce_resolved ce) /\
      (Selected p = true <-> Z.of_nat j = selected).
Proof.
  pose proof (globe_loop_spec l 0 selected ∅) as H. destruct (globe_loop 0 selected ∅ l) as [ns ps]. destruct H as (H1 & H2 & H3).
  assert (forall fp, fp ∈ map Globe.Fingerprint ns <-> fp ∈ shown_relays l) as H2' by (intros fp; rewrite H2; set_solver).
  split_and!; [done..|]. intros p Hp. destruct (H3 p Hp) as (j & ce & Hj & Hid & Hn & Hs). split.
  - intros n. rewrite Hn. intros (ri & -> & Hri)%list_elem_of_fmap. rewrite H2'. unfold shown_relays.
    apply list_elem_of_In, in_concat. exists (map Fingerprint (ce_resolved ce)). split.
    + apply in_map_iff. exists ce. split; [done|]. apply list_elem_of_In. by eapply list_elem_of_lookup_2.
    + apply (in_map Fingerprint (ce_resolved ce) ri). by apply list_elem_of_In.
  - by exists j, ce.
Qed.
