(* ===== verification/AutoRefresh.v ===== *)
(** * Package [gui], [circuits_tab.go]: the automatic refresh

    The box "Auto-refresh" makes a ticker and a channel to end it, and starts a
    goroutine that polls the circuits at every tick.  The goroutine reads the
    two variables anew at every turn of its loop, so one that was polling while
    the box was unticked and ticked again goes on with the new ticker.  A ticker
    and its channel are numbered by the tick of the box that made them. *)

From S2P Require Import Prelude.
Local Open Scope nat_scope.

(** ** State *)

(** A goroutine: before its [select], in it with the ticker and the channel it
    evaluated, polling, returned. *)
Inductive poller := Starting | Waiting (g : nat) | Polling | Gone.
Record tab := {
  autoRefresh : bool;
  made : nat;              (* tickers made; the variables hold the last one *)
  stopped : gset nat;      (* [ticker.Stop()] was called *)
  closed : gset nat;       (* [close(tickerDone)] was called *)
  pending : gset nat;      (* tickers with a tick that was not received *)
  pollers : list poller;
  polls : nat              (* calls of [pollCircuits] *)
}.
Definition circuitsTab : tab := {|
  autoRefresh := false; made := 0; stopped := ∅; closed := ∅; pending := ∅; pollers := []; polls := 0 |}.
(** What the variables hold; [None] is nil. *)
Definition current (t : tab) : option nat := match made t with O => None | S g => Some g end.

Definition set_poller (i : nat) (p : poller) (t : tab) : tab := {|
  autoRefresh := autoRefresh t; made := made t; stopped := stopped t; closed := closed t; pending := pending t;
  pollers := <[i := p]> (pollers t); polls := polls t |}.
Definition set_pending (s : gset nat) (t : tab) : tab := {|
  autoRefresh := autoRefresh t; made := made t; stopped := stopped t; closed := closed t; pending := s;
  pollers := pollers t; polls := polls t |}.
Definition poll (t : tab) : tab := {|
  autoRefresh := autoRefresh t; made := made t; stopped := stopped t; closed := closed t; pending := pending t;
  pollers := pollers t; polls := S (polls t) |}.

(** ** Moves

    [None] is a move that cannot be made, [Some None] a panic: closing a
    channel twice. *)

(** [OnChanged] of the box; a stopped ticker delivers nothing any more. *)
Definition ticked (t : tab) : tab := poll {|
  autoRefresh := true; made := S (made t); stopped := stopped t; closed := closed t; pending := pending t;
  pollers := pollers t ++ [Starting]; polls := polls t |}.
Definition unticked (t : tab) : option tab :=
  match current t with
  | None => Some {| autoRefresh := false; made := made t; stopped := stopped t; closed := closed t; pending := pending t;
                    pollers := pollers t; polls := polls t |}
  | Some g =>
      if decide (g ∈ closed t) then None
      else Some {| autoRefresh := false; made := made t; stopped := {[g]} ∪ stopped t; closed := {[g]} ∪ closed t;
                   pending := pending t ∖ {[g]}; pollers := pollers t; polls := polls t |}
  end.
(** The observer of the engine, when it enters [Running]; the button. *)
Definition engine_running (t : tab) : tab := if autoRefresh t then poll t else t.
Definition refresh_pressed (t : tab) : tab := poll t.
Inductive move :=
  | Toggle               (* the box changes *)
  | Tick (g : nat)       (* a ticker that runs delivers; a tick not received is dropped *)
  | Evaluate (i : nat)   (* goroutine [i] enters its [select] *)
  | Receive (i : nat)    (* and receives a tick *)
  | Return (i : nat)     (* or finds the channel closed *)
  | Polled (i : nat)     (* its poll is over *)
  | Running              (* the engine enters [Running] *)
  | Refresh.             (* the button *)
Definition exec (m : move) (t : tab) : option (option tab) :=
  match m with
  | Toggle => Some (if autoRefresh t then unticked t else Some (ticked t))
  | Tick g => if decide (g < made t /\ g ∉ stopped t) then Some (Some (set_pending ({[g]} ∪ pending t) t)) else None
  | Evaluate i =>
      match pollers t !! i, current t with
      | Some Starting, Some g => Some (Some (set_poller i (Waiting g) t))
      | _, _ => None
      end
  | Receive i =>
      match pollers t !! i with
      | Some (Waiting g) =>
          if decide (g ∈ pending t) then Some (Some (set_poller i Polling (poll (set_pending (pending t ∖ {[g]}) t)))) else None
      | _ => None
      end
  | Return i =>
      match pollers t !! i with
      | Some (Waiting g) => if decide (g ∈ closed t) then Some (Some (set_poller i Gone t)) else None
      | _ => None
      end
  | Polled i => match pollers t !! i with Some Polling => Some (Some (set_poller i Starting t)) | _ => None end
  | Running => Some (Some (engine_running t))
  | Refresh => Some (Some (refresh_pressed t))
  end.
Fixpoint run (ms : list move) (t : tab) : option (option tab) :=
  match ms with
  | [] => Some (Some t)
  | m :: ms' => match exec m t with Some (Some t') => run ms' t' | r => r end
  end.

(** ** What holds throughout *)

(** The moves a goroutine can still make when nothing keeps it. *)
Definition left (p : poller) : nat := match p with Polling => 3 | Starting => 2 | Waiting _ => 1 | Gone => 0 end.
Definition work (t : tab) : nat := sum_list (map left (pollers t)).

Record tab_ok (t : tab) : Prop := {
  ok_same : stopped t = closed t;
  ok_closed : forall g, g ∈ closed t <-> g < made t /\ (autoRefresh t = true -> S g < made t);
  ok_pending : pending t ## closed t /\ forall g, g ∈ pending t -> g < made t;
  ok_pollers : forall i g, pollers t !! i = Some (Waiting g) -> g < made t;
  ok_made : pollers t <> [] -> made t <> 0
}.

Lemma insert_nonempty {A} (l : list A) (i : nat) (x : A) : <[i := x]> l <> [] -> l <> [].
Proof. by destruct l. Qed.
Lemma set_poller_ok (i : nat) (p : poller) (t : tab) :
  tab_ok t -> (forall g, p = Waiting g -> g < made t) -> tab_ok (set_poller i p t).
Proof.
  intros [H1 H2 H3 H4 H5] Hp. split; cbn; [done|done|done| |by intros Hne%insert_nonempty; apply H5].
  intros j g Hj. destruct (decide (i = j)) as [->|Hn].
  - rewrite list_lookup_insert_Some in Hj. destruct Hj as [(_ & E & _)|(Hn & _)]; [|done]. by apply Hp.
  - rewrite list_lookup_insert_ne in Hj by done. by apply (H4 j).
Qed.
Lemma poll_ok (t : tab) : tab_ok t -> tab_ok (poll t).
Proof. intros [H1 H2 H3 H4 H5]. by split. Qed.
Lemma tab_exec_ok (m : move) (t : tab) (r : option tab) : tab_ok t -> exec m t = Some r -> exists t', r = Some t' /\ tab_ok t'.
Proof.
  intros T. pose proof T as [H1 H2 [H3 H3'] H4 H5]. destruct m as [|g|i|i|i|i| |]; cbn [exec]; intros H.
  - injection H as <-. destruct (autoRefresh t) eqn:Ea.
    + unfold unticked, current. destruct (made t) as [|g] eqn:Em.
      { eexists. split; [done|]. split; cbn.
        - done.
        - intros g. specialize (H2 g). intuition lia.
        - split; [done|]. intros g Hg. specialize (H3' g Hg). lia.
        - intros i g Hg. specialize (H4 i g Hg). lia.
        - intros Hn. specialize (H5 Hn). lia. }
      rewrite decide_False by (rewrite H2; lia). eexists. split; [done|].
      split; cbn; [by rewrite H1| | | |done].
      * intros g'. rewrite elem_of_union, elem_of_singleton. destruct (H2 g') as [Ha Hb]. split.
        { intros [->|Hc]; [split; [lia|done]|]. destruct (Ha Hc). split; [lia|done]. }
        { intros [Hc _]. destruct (decide (g' = g)); [by left|right]. apply Hb. split; [lia|]. intros _. lia. }
      * split; [set_solver|]. intros g'. rewrite elem_of_difference. intros [Hg _]. specialize (H3' g' Hg). lia.
      * intros j g' Hj. specialize (H4 j g' Hj). lia.
    + eexists. split; [done|]. split; cbn; [done| | | |done].
      * intros g. destruct (H2 g) as [Ha Hb]. split.
        { intros Hc. destruct (Ha Hc). split; [lia|]. intros _. lia. }
        { intros [Hc Hd]. specialize (Hd eq_refl). apply Hb. split; [lia|done]. }
      * split; [done|]. intros g Hg. specialize (H3' g Hg). lia.
      * intros j g Hj. apply lookup_app_Some in Hj as [Hj|[_ Hj]]; [specialize (H4 j g Hj); lia|].
        destruct (j - length (pollers t)); [done|]. by destruct n.
  - case_decide as Hd; [|done]. injection H as <-. eexists. split; [done|]. split; cbn; try done.
    destruct Hd as [Hg Hs]. rewrite H1 in Hs. split; [set_solver|]. intros g'. rewrite elem_of_union, elem_of_singleton.
    intros [->|?]; [done|by apply H3'].
  - destruct (pollers t !! i) as [[| | |]|]; try done. unfold current in H. destruct (made t) as [|g] eqn:Em; [done|].
    injection H as <-. eexists. split; [done|]. apply set_poller_ok; [done|]. intros g' [= <-]. lia.
  - destruct (pollers t !! i) as [[|g| |]|]; try done. case_decide; [|done]. injection H as <-. eexists. split; [done|].
    apply set_poller_ok; [|done]. split; cbn; try done. split; [set_solver|]. intros g'. rewrite elem_of_difference. intros [? _]. by apply H3'.
  - destruct (pollers t !! i) as [[|g| |]|]; try done. case_decide; [|done]. injection H as <-. eexists. split; [done|]. by apply set_poller_ok.
  - destruct (pollers t !! i) as [[|g| |]|]; try done. injection H as <-. eexists. split; [done|]. by apply set_poller_ok.
  - injection H as <-. eexists. split; [done|]. unfold engine_running. case_match; [by apply poll_ok|done].
  - injection H as <-. eexists. split; [done|]. by apply poll_ok.
Qed.

Lemma tab_run_ok (ms : list move) (t : tab) (r : option tab) : tab_ok t -> run ms t = Some r -> exists t', r = Some t' /\ tab_ok t'.
Proof.
  revert t. induction ms as [|m ms IH]; intros t T; cbn [run]; [intros [= <-]; by eexists|].
  destruct (exec m t) as [[t1|]|] eqn:E; [|intros [= <-]|done].
  - destruct (tab_exec_ok m t _ T E) as (t' & [= <-] & T'). by apply IH.
  - by destruct (tab_exec_ok m t _ T E) as (t' & ? & _).
Qed.
Lemma circuitsTab_ok : tab_ok circuitsTab.
Proof. split; cbn; try done; set_solver by lia. Qed.

(** ** Properties *)

(** A move of one of the goroutines. *)
Definition of_poller (m : move) : bool := match m with Evaluate _ | Receive _ | Return _ | Polled _ => true | _ => false end.
Definition untoggled (m : move) : bool := match m with Toggle => false | _ => true end.

(** With the box unticked, a move of a goroutine brings it nearer its end and
    does not poll. *)
Lemma off_exec (m : move) (t t' : tab) : tab_ok t -> autoRefresh t = false -> untoggled m = true -> exec m t = Some (Some t') ->
  autoRefresh t' = false /\ (if of_poller m then polls t' = polls t /\ S (work t') = work t else work t' = work t).
Proof.
  intros [H1 H2 [H3 H3'] H4 H5] Ha Hm. unfold work. destruct m as [|g|i|i|i|i| |]; cbn [exec of_poller]; try done; intros H.
  - case_decide; [|done]. by injection H as <-.
  - destruct (pollers t !! i) as [[| | |]|] eqn:E; try done. destruct (current t); [|done]. injection H as <-.
    split; [done|]. split; [done|]. cbn. pose proof (sum_insert left _ i _ (Waiting n) E). cbn in *. lia.
  - destruct (pollers t !! i) as [[|g| |]|] eqn:E; try done. case_decide as Hp; [|done].
    destruct (H3 g Hp). apply H2. split; [by apply (H4 i)|by rewrite Ha].
  - destruct (pollers t !! i) as [[|g| |]|] eqn:E; try done. case_decide; [|done]. injection H as <-.
    split; [done|]. split; [done|]. cbn. pose proof (sum_insert left _ i _ Gone E). cbn in *. lia.
  - destruct (pollers t !! i) as [[|g| |]|] eqn:E; try done. injection H as <-.
    split; [done|]. split; [done|]. cbn. pose proof (sum_insert left _ i _ Starting E). cbn in *. lia.
  - injection H as <-. unfold engine_running. by rewrite Ha.
  - by injection H as <-.
Qed.
Lemma off_run (ms : list move) (t t' : tab) : tab_ok t -> autoRefresh t = false -> forallb untoggled ms = true ->
  run ms t = Some (Some t') ->
  autoRefresh t' = false /\ length (List.filter of_poller ms) + work t' = work t.
Proof.
  revert t. induction ms as [|m ms IH]; intros t T Ha Hm H; [by injection H as <-|].
  cbn [run] in H. destruct (exec m t) as [[t1|]|] eqn:E; [|done..]. cbn in Hm. apply andb_prop in Hm as [Hm Hms].
  destruct (tab_exec_ok m t _ T E) as (? & [= <-] & T1). destruct (off_exec m t t1 T Ha Hm E) as [Ha1 Hw].
  destruct (IH t1 T1 Ha1 Hms H) as [Ha' Hl]. split; [done|]. cbn [List.filter].
  destruct (of_poller m); cbn [length]; [destruct Hw as [_ Hw]; lia|lia].
Qed.
Lemma work_pos (l : list poller) : 0 < sum_list (map left l) -> exists i p, l !! i = Some p /\ p <> Gone.
Proof.
  induction l as [|p l IH]; [cbn; lia|]. intros H. destruct p; [by exists 0; eexists..|].
  destruct IH as (i & p & Hi & Hp); [exact H|]. by exists (S i), p.
Qed.

(** The automatic refresh can be stopped: from its box being unticked until it
    is ticked again, however often it was ticked before and however the
    goroutines were scheduled, no goroutine starts a poll, each makes at most
    three more moves, and as long as one has not returned one of them can move.
    No sequence of moves closes a channel twice. *)
Theorem auto_refresh_stops (ms : list move) (r : option tab) :
  run ms circuitsTab = Some r ->
  exists t, r = Some t /\
    (autoRefresh t = false -> forall ms' t', forallb untoggled ms' = true -> run ms' t = Some (Some t') ->
      length (List.filter of_poller ms') + work t' = work t /\
      (forall i, exec (Receive i) t' = None) /\
      (0 < work t' -> exists m t2, of_poller m = true /\ exec m t' = Some (Some t2))).
Proof.
  intros H. destruct (tab_run_ok ms _ r circuitsTab_ok H) as (t & -> & T). exists t. split; [done|].
  intros Ha ms' t' Hm H'. destruct (off_run ms' t t' T Ha Hm H') as [Ha' Hl].
  destruct (tab_run_ok ms' t _ T H') as (? & [= <-] & [H1 H2 [H3 H3'] H4 H5]). split_and!; [done| |].
  - intros i. cbn. destruct (pollers t' !! i) as [[|g| |]|] eqn:E; try done. rewrite decide_False; [done|].
    intros Hp. apply (H3 g Hp), H2. split; [by apply (H4 i)|by rewrite Ha'].
  - intros Hw. apply work_pos in Hw as (i & p & Hi & Hp). destruct p as [|g| |]; [| | |done].
    + exists (Evaluate i). cbn. rewrite Hi. unfold current. destruct (made t') eqn:Em; [|by eexists].
      destruct H5; [|done]. by intros E; rewrite E in Hi.
    + exists (Return i). cbn. rewrite Hi, decide_True; [by eexists|]. apply H2. split; [by apply (H4 i)|by rewrite Ha'].
    + exists (Polled i). cbn. rewrite Hi. by eexists.
Qed.
(** Two goroutines on one ticker: the first was polling while the box was
    unticked and ticked again. *)
Definition shared : list move := [Toggle; Evaluate 0; Tick 0; Receive 0; Toggle; Toggle; Polled 0; Evaluate 0; Evaluate 1; Toggle].
Lemma auto_refresh_stops_witness :
  match run shared circuitsTab with
  | Some (Some t) => pollers t = [Waiting 1; Waiting 1] /\ forall i, exec (Receive i) t = None
  | _ => False
  end.
Proof.
  destruct (auto_refresh_stops shared (Some (default circuitsTab (default None (run shared circuitsTab)))) eq_refl) as (t & E & H).
  injection E as <-. split; [reflexivity|]. apply (H eq_refl [] _ eq_refl eq_refl).
Defined.
