(* ===== verification/LogView.v ===== *)
(** * Package [gui], [widgets.go]: the log view

    The view keeps two slices, the lines read from the ring and the lines that
    pass its filters.  Slices share arrays: the model has a store of arrays, and
    [append] writes in place while the capacity lasts.  How much capacity a new
    array gets is not specified by the language and is a parameter. *)

From S2P Require Import Prelude GoStrings StringFacts.
Local Open Scope nat_scope.

(** ** Slices *)

Record slice := { arr : option nat; slen : nat }.
Record heap := { arrays : gmap nat (list string); next : nat }.
Definition nil_slice : slice := {| arr := None; slen := 0 |}.

(** The whole array: its length is the capacity. *)
Definition backing (s : slice) (h : heap) : list string :=
  match arr s with Some a => default [] (arrays h !! a) | None => [] end.
Definition contents (s : slice) (h : heap) : list string := take (slen s) (backing s h).
Definition alloc (l : list string) (n : nat) (h : heap) : slice * heap :=
  ({| arr := Some (next h); slen := n |}, {| arrays := <[next h := l]> (arrays h); next := S (next h) |}).
(** [make] followed by [copy]. *)
Definition fresh (l : list string) : heap -> slice * heap := alloc l (length l).

Section Append.
Variable spare : nat -> nat.
Definition append (s : slice) (x : string) (h : heap) : slice * heap :=
  match arr s with
  | Some a =>
      if slen s <? length (backing s h)
      then ({| arr := arr s; slen := S (slen s) |},
            {| arrays := <[a := <[slen s := x]> (backing s h)]> (arrays h); next := next h |})
      else alloc (contents s h ++ [x] ++ replicate (spare (slen s)) EmptyString) (S (slen s)) h
  | None => alloc ([x] ++ replicate (spare 0) EmptyString) 1 h
  end.
End Append.

(** ** The view *)

Record LogView := {
  store : heap; snapshot : slice; filtered : slice; filter : string; levelFilter : string;
  pending : bool (* the debounce timer is running *)
}.
Definition shown (v : LogView) : list string := contents (filtered v) (store v).

Section View.
Context `{U : UnicodeTables}.
Variable spare : nat -> nat.

Definition keep (level text line : string) : bool :=
  (String.eqb level "All" || Contains line (level +:+ ":"))
  && (String.eqb text EmptyString || Contains (ToLower line) (ToLower text)).

(** One turn of the loop of [applyFilters]: the element is read when its turn
    comes. *)
Definition filter_step (level text : string) (snap : slice) (acc : slice * heap) (i : nat) : slice * heap :=
  match backing snap acc.2 !! i with
  | Some line => if keep level text line then append spare acc.1 line acc.2 else acc
  | None => acc
  end.
Definition applyFilters (v : LogView) : LogView :=
  if String.eqb (filter v) EmptyString && String.eqb (levelFilter v) "All" then
    {| store := store v; snapshot := snapshot v; filtered := snapshot v; filter := filter v; levelFilter := levelFilter v;
       pending := pending v |}
  else
    let '(f, h) := foldl (filter_step (levelFilter v) (filter v) (snapshot v))
                     ({| arr := arr (filtered v); slen := 0 |}, store v) (seq 0 (slen (snapshot v))) in
    {| store := h; snapshot := snapshot v; filtered := f; filter := filter v; levelFilter := levelFilter v; pending := pending v |}.

Definition NewLogView (lines : list string) : LogView :=
  let '(s, h) := fresh lines {| arrays := ∅; next := 0 |} in
  applyFilters {| store := h; snapshot := s; filtered := nil_slice; filter := EmptyString; levelFilter := "All"; pending := false |}.
Definition SetFilter (text : string) (v : LogView) : LogView :=
  let v' p := {| store := store v; snapshot := snapshot v; filtered := filtered v; filter := text;
                 levelFilter := levelFilter v; pending := p |} in
  if decide (text = EmptyString) then applyFilters (v' false) else v' true.
(** The timer of [SetFilter]. *)
Definition debounced (v : LogView) : LogView :=
  if pending v then
    applyFilters {| store := store v; snapshot := snapshot v; filtered := filtered v; filter := filter v;
                    levelFilter := levelFilter v; pending := false |}
  else v.
Definition SetLevelFilter (level : string) (v : LogView) : LogView :=
  applyFilters {| store := store v; snapshot := snapshot v; filtered := filtered v; filter := filter v;
                  levelFilter := level; pending := pending v |}.
(** [lines] is what [ring.Lines()] returns: a new slice every time. *)
Definition Refresh (lines : list string) (v : LogView) : LogView :=
  let '(s, h) := fresh lines (store v) in
  applyFilters {| store := h; snapshot := s; filtered := filtered v; filter := filter v; levelFilter := levelFilter v;
                  pending := pending v |}.
Definition Clear (v : LogView) : LogView :=
  {| store := store v; snapshot := nil_slice; filtered := nil_slice; filter := filter v; levelFilter := levelFilter v;
     pending := pending v |}.
Definition CopyText (v : LogView) : string := Join (shown v) (String LF EmptyString).

Inductive view_op := OpFilter (text : string) | OpTimer | OpLevel (level : string) | OpRefresh (lines : list string) | OpClear.
Definition run_op (o : view_op) (v : LogView) : LogView :=
  match o with
  | OpFilter t => SetFilter t v
  | OpTimer => debounced v
  | OpLevel l => SetLevelFilter l v
  | OpRefresh ls => Refresh ls v
  | OpClear => Clear v
  end.
End View.

(** ** Facts *)

Record slice_ok (s : slice) (h : heap) : Prop := {
  ok_len : slen s <= length (backing s h);
  ok_arr : forall a, arr s = Some a -> a < next h
}.
Record view_ok (v : LogView) : Prop := {
  ok_snap : slice_ok (snapshot v) (store v);
  ok_filt : slice_ok (filtered v) (store v)
}.

Lemma contents_length (s : slice) (h : heap) : slice_ok s h -> length (contents s h) = slen s.
Proof. intros [H _]. unfold contents. rewrite length_take. lia. Qed.
(** A store change that leaves the slice's array alone. *)
Lemma backing_other (s : slice) (h : heap) (a n : nat) (l : list string) :
  arr s <> Some a -> backing s {| arrays := <[a := l]> (arrays h); next := n |} = backing s h.
Proof. unfold backing. destruct (arr s) as [b|]; [|done]. intros H. cbn. rewrite lookup_insert_ne by congruence. done. Qed.
Lemma backing_same (s : slice) (h : heap) (a n : nat) (l : list string) :
  arr s = Some a -> backing s {| arrays := <[a := l]> (arrays h); next := n |} = l.
Proof. unfold backing. intros ->. cbn. by rewrite lookup_insert_eq. Qed.
Lemma backing_eq (s t : slice) (h : heap) : arr s = arr t -> backing s h = backing t h.
Proof. unfold backing. by intros ->. Qed.
Lemma fresh_ok (l : list string) (h : heap) :
  slice_ok (fresh l h).1 (fresh l h).2 /\ contents (fresh l h).1 (fresh l h).2 = l.
Proof.
  unfold fresh, alloc, contents; cbn [fst snd]. rewrite (backing_same _ _ (next h)) by done. cbn [slen].
  split; [|apply take_ge; lia]. split; cbn [slen arr next].
  - rewrite (backing_same _ _ (next h)); [lia|done].
  - intros a [= <-]. lia.
Qed.
Lemma fresh_keeps (l : list string) (s : slice) (h : heap) :
  slice_ok s h -> slice_ok s (fresh l h).2 /\ contents s (fresh l h).2 = contents s h.
Proof.
  intros [H1 H2]. unfold fresh, alloc, contents; cbn [snd].
  assert (arr s <> Some (next h)) as Hn by (intros H; specialize (H2 _ H); lia).
  rewrite backing_other by done. split; [|done]. split; [by rewrite backing_other|].
  intros a Ha. specialize (H2 a Ha). cbn. lia.
Qed.

Lemma alloc_spec (t : slice) (l : list string) (n : nat) (h : heap) :
  slice_ok t h -> n <= length l ->
  let '(s', h') := alloc l n h in
  slice_ok s' h' /\ slice_ok t h' /\ contents t h' = contents t h /\ arr s' <> arr t /\ contents s' h' = take n l /\ slen s' = n.
Proof.
  intros Ht Hn. unfold alloc, contents. assert (arr t <> Some (next h)) as Hne by (intros H; pose proof (ok_arr _ _ Ht _ H); lia).
  rewrite backing_other by done. rewrite (backing_same _ _ (next h)) by done. split_and!; [| |done|cbn; congruence|done..].
  - split; cbn [slen arr next]; [rewrite (backing_same _ _ (next h)) by done; lia|]. intros a [= <-]. lia.
  - split; [rewrite backing_other by done; apply Ht|]. intros a Ha. pose proof (ok_arr _ _ Ht _ Ha). cbn. lia.
Qed.

Section ViewFacts.
Context `{U : UnicodeTables} (spare : nat -> nat).

(** [append] adds the element, whether in place or in a new array; in place it
    is seen by the slices on the same array. *)
Lemma append_spec (s t : slice) (x : string) (h : heap) :
  slice_ok s h -> slice_ok t h ->
  (arr s = arr t -> slen s < slen t) ->
  let '(s', h') := append spare s x h in
  slice_ok s' h' /\ slice_ok t h' /\ contents s' h' = contents s h ++ [x] /\
  (arr s' = arr t <-> arr s = arr t /\ arr t <> None) /\ slen s' = S (slen s) /\
  contents t h' = if decide (arr s = arr t) then <[slen s := x]> (contents t h) else contents t h.
Proof.
  intros Hs Ht Hsh. unfold append.
  destruct (arr s) as [a|] eqn:Ea.
  - destruct (slen s <? length (backing s h)) eqn:El.
    + apply Nat.ltb_lt in El. unfold contents; cbn [slen].
      assert (a < next h) as Hlt by by apply (ok_arr _ _ Hs).
      rewrite (backing_same {| arr := Some a; slen := S (slen s) |} _ a) by done. split_and!.
      * split; cbn [slen arr next]; [rewrite (backing_same _ _ a) by done; rewrite length_insert; lia|]. intros b [= <-]. lia.
      * split; [|intros b Hb; cbn; by apply (ok_arr _ _ Ht)].
        destruct (decide (arr t = Some a)) as [E|E]; [|rewrite backing_other by done; apply Ht].
        rewrite (backing_same _ _ a) by done. rewrite length_insert.
        assert (backing s h = backing t h) as -> by (apply backing_eq; congruence). apply Ht.
      * rewrite (take_S_r _ _ x) by (by apply list_lookup_insert_eq). by rewrite take_insert_ge by lia.
      * cbn [arr]. split; [intros <-; by split|by intros [<- _]].
      * done.
      * case_decide as E; [|by rewrite backing_other by congruence].
        rewrite (backing_same _ _ a) by congruence. assert (backing s h = backing t h) as Hb by (apply backing_eq; congruence).
        rewrite Hb. rewrite take_insert_lt by (by apply Hsh; rewrite ?Ea). done.
    + apply Nat.ltb_ge in El. assert (Hl : length (contents s h) = slen s) by by apply contents_length.
      assert (S (slen s) <= length (contents s h ++ [x] ++ replicate (spare (slen s)) EmptyString)) as Hn
        by (rewrite !length_app, Hl; cbn; lia).
      pose proof (alloc_spec t _ _ _ Ht Hn) as H. destruct (alloc _ _ h) as [s' h'].
      destruct H as (H1 & H2 & H3 & H4 & H5 & H6).
      assert (Some a <> arr t) as Hne.
      { intros E. specialize (Hsh E). pose proof (ok_len _ _ Ht). rewrite (backing_eq s t) in El by congruence. lia. }
      split_and!; [done..| |by split; [|intros []]|done|by rewrite decide_False].
      rewrite H5, app_assoc, take_app_le by (rewrite length_app, Hl; cbn; lia).
      apply take_ge. rewrite length_app, Hl. cbn. lia.
  - assert (1 <= length ([x] ++ replicate (spare 0) EmptyString)) as Hn by (cbn; lia).
    assert (slen s = 0) as H0 by (pose proof (ok_len _ _ Hs) as H; unfold backing in H; rewrite Ea in H; cbn in H; lia).
    pose proof (alloc_spec t _ _ _ Ht Hn) as H. destruct (alloc _ _ h) as [s' h'].
    destruct H as (H1 & H2 & H3 & H4 & H5 & H6). split_and!; [done..| | |lia|].
    + rewrite H5. unfold contents. by rewrite H0, take_0.
    + split; [done|]. by intros [<- ?].
    + case_decide as E; [|done]. specialize (Hsh E). pose proof (ok_len _ _ Ht) as Hlt. unfold backing in Hlt.
      rewrite <-E in Hlt. cbn in Hlt. lia.
Qed.

(** The loop: with the array of the snapshot shared, the lines kept so far
    overwrite the beginning of the snapshot, never what is still to be read. *)
Lemma filter_loop (level text : string) (snap f : slice) (h : heap) (L : list string) (i : nat) :
  slice_ok snap h -> slice_ok f h -> slen f = 0 -> contents snap h = L -> i <= slen snap ->
  let '(f', h') := foldl (filter_step spare level text snap) (f, h) (seq 0 i) in
  let kept := List.filter (keep level text) (take i L) in
  slice_ok snap h' /\ slice_ok f' h' /\ contents f' h' = kept /\
  (arr f = arr snap -> arr f' = arr snap) /\
  (arr f <> arr snap -> arr f' <> arr snap) /\
  contents snap h' = if decide (arr f = arr snap) then kept ++ drop (length kept) L else L.
Proof.
  intros Hs Hf H0 HL. induction i as [|i IH]; intros Hi.
  { cbn [seq foldl]. rewrite take_0. cbn [List.filter length]. split_and!; [done..| |done|done|].
    - unfold contents. by rewrite H0, take_0.
    - rewrite HL. case_decide; [by rewrite drop_0|done]. }
  rewrite seq_S, foldl_app. specialize (IH ltac:(lia)).
  destruct (foldl _ (f, h) (seq 0 i)) as [f1 h1]. destruct IH as (H1 & H2 & H3 & H4 & H5 & H6).
  cbn [foldl]. unfold filter_step; cbn [fst snd Nat.add].
  set (kept := List.filter (keep level text) (take i L)) in *.
  assert (length L = slen snap) as HlL by (rewrite <-HL; by apply contents_length).
  assert (length kept <= i) as Hk.
  { subst kept. etrans; [apply filter_length_le|]. rewrite length_take. lia. }
  destruct (lookup_lt_is_Some_2 L i ltac:(lia)) as [line Hline].
  assert (backing snap h1 !! i = Some line) as Hb.
  { rewrite <-(lookup_take_lt _ (slen snap)) by lia. fold (contents snap h1). rewrite H6.
    case_decide; [|done]. rewrite lookup_app_r by lia. rewrite lookup_drop. by replace (length kept + (i - length kept)) with i by lia. }
  rewrite Hb. rewrite (take_S_r _ _ line) by done. rewrite List.filter_app. fold kept. cbn [List.filter].
  destruct (keep level text line); [|by rewrite app_nil_r].
  assert (slen f1 = length kept) as Hlf by (rewrite <-H3; symmetry; by apply contents_length).
  pose proof (append_spec f1 snap line h1 H2 H1 ltac:(lia)) as Ha.
  destruct (append spare f1 line h1) as [f2 h2]. destruct Ha as (A1 & A2 & A3 & A4 & A5 & A6). rewrite H3 in A3.
  split_and!; [done..| | |].
  - intros E. apply A4. split; [by apply H4|]. intros En. pose proof (ok_len _ _ H1) as Hb'. unfold backing in Hb'.
    rewrite En in Hb'. cbn in Hb'. lia.
  - intros E [E' _]%A4. by apply H5 in E.
  - rewrite A6. destruct (decide (arr f = arr snap)) as [E|E].
    + rewrite decide_True by by apply H4. rewrite H6, Hlf, insert_app_r_alt, Nat.sub_diag by lia.
      destruct (drop (length kept) L) as [|y l] eqn:Ed.
      { apply (f_equal length) in Ed. rewrite length_drop in Ed. cbn in Ed. lia. }
      cbn [list_insert insert]. rewrite <-app_assoc, length_app. cbn [app length]. rewrite <-drop_drop, Ed. done.
    + rewrite decide_False by by apply H5. exact H6.
Qed.

(** The lines a view should show. *)
Definition visible (v : LogView) (lines : list string) : list string := List.filter (keep (levelFilter v) (filter v)) lines.

Lemma keep_all (lines : list string) : List.filter (keep "All" EmptyString) lines = lines.
Proof. induction lines as [|l ls IH]; [done|]. cbn. by rewrite IH. Qed.

Lemma applyFilters_spec (v : LogView) :
  view_ok v ->
  let v' := applyFilters spare v in
  let lines := contents (snapshot v) (store v) in
  view_ok v' /\ shown v' = visible v lines /\ filter v' = filter v /\ levelFilter v' = levelFilter v /\
  contents (snapshot v') (store v') =
    if decide (arr (filtered v) = arr (snapshot v) /\ (filter v <> EmptyString \/ levelFilter v <> "All"))
    then visible v lines ++ drop (length (visible v lines)) lines else lines.
Proof.
  intros [Hs Hf]. unfold applyFilters, visible.
  destruct (String.eqb (filter v) EmptyString && String.eqb (levelFilter v) "All") eqn:E.
  - apply andb_true_iff in E as [E1%String.eqb_eq E2%String.eqb_eq]. cbv zeta. rewrite E1, E2, keep_all. unfold shown.
    cbn [store snapshot filtered filter levelFilter]. rewrite decide_False by (intros [_ [H|H]]; done). by split_and!.
  - cbv zeta.
    assert (slice_ok {| arr := arr (filtered v); slen := 0 |} (store v)) as Hf0 by (split; [cbn; lia|apply Hf]).
    pose proof (filter_loop (levelFilter v) (filter v) (snapshot v) _ (store v) _ (slen (snapshot v)) Hs Hf0 eq_refl eq_refl ltac:(lia)) as H.
    cbn [arr] in H. rewrite take_ge in H by (rewrite contents_length by done; lia).
    destruct (foldl _ _ _) as [f' h']. destruct H as (H1 & H2 & H3 & _ & _ & H6). unfold shown.
    cbn [store snapshot filtered filter levelFilter]. split_and!; [done..|]. rewrite H6.
    apply andb_false_iff in E.
    assert (filter v <> EmptyString \/ levelFilter v <> "All") as Hne.
    { destruct E as [E|E]; [left|right]; by apply String.eqb_neq in E. }
    destruct (decide (arr (filtered v) = arr (snapshot v))); [rewrite decide_True by done|rewrite decide_False by tauto]; done.
Qed.
Lemma view_ok_apply (v : LogView) : view_ok v -> view_ok (applyFilters spare v).
Proof. intros H. apply (applyFilters_spec v H). Qed.
Lemma Refresh_pre (lines : list string) (v : LogView) : view_ok v ->
  view_ok {| store := (fresh lines (store v)).2; snapshot := (fresh lines (store v)).1; filtered := filtered v;
             filter := filter v; levelFilter := levelFilter v; pending := pending v |}.
Proof. intros [_ Hf]. split; cbn [snapshot store filtered]; [apply fresh_ok|by apply fresh_keeps]. Qed.
Lemma view_ok_run (o : view_op) (v : LogView) : view_ok v -> view_ok (run_op spare o v).
Proof.
  intros H. destruct o as [t| |l|ls|]; cbn [run_op].
  - unfold SetFilter. case_decide; [apply view_ok_apply|]; destruct H; by split.
  - unfold debounced. destruct (pending v); [|done]. apply view_ok_apply. destruct H; by split.
  - apply view_ok_apply. destruct H; by split.
  - unfold Refresh. destruct (fresh ls (store v)) as [s h] eqn:E. apply view_ok_apply.
    pose proof (Refresh_pre ls v H) as Hr. by rewrite E in Hr.
  - split; (split; cbn; [lia|done]).
Qed.
Lemma view_ok_new (lines : list string) : view_ok (NewLogView spare lines).
Proof.
  unfold NewLogView. pose proof (fresh_ok lines {| arrays := ∅; next := 0 |}) as [H _].
  destruct (fresh lines _) as [s h]. apply view_ok_apply. split; [exact H|]. split; cbn; [lia|done].
Qed.
Lemma view_ok_ops (ops : list view_op) (v : LogView) : view_ok v -> view_ok (foldl (fun v o => run_op spare o v) v ops).
Proof. revert v. induction ops as [|o ops IH]; intros v H; [done|]. by apply IH, view_ok_run. Qed.
Lemma Refresh_shown (lines : list string) (v : LogView) :
  view_ok v ->
  shown (Refresh spare lines v) = List.filter (keep (levelFilter v) (filter v)) lines /\
  (filter v = EmptyString -> levelFilter v = "All" ->
   arr (filtered (Refresh spare lines v)) = arr (snapshot (Refresh spare lines v)) /\
   contents (snapshot (Refresh spare lines v)) (store (Refresh spare lines v)) = lines).
Proof.
  intros H. unfold Refresh. pose proof (Refresh_pre lines v H) as Hr. pose proof (fresh_ok lines (store v)) as [_ Hc].
  destruct (fresh lines (store v)) as [s h]. cbn [fst snd] in *.
  pose proof (applyFilters_spec _ Hr) as (_ & Hsh & _). split; [rewrite Hsh; unfold visible; cbn [filter levelFilter snapshot store]; by rewrite Hc|].
  intros E1 E2. unfold applyFilters. cbn [filter levelFilter]. rewrite E1, E2. by split.
Qed.
End ViewFacts.

(** ** Properties *)

(** Whatever was typed, selected, cleared and delayed before, and whatever
    arrays the slices share by then, a refresh shows exactly the lines of the
    ring that pass the level and the text filter, in order. *)
Theorem refresh_shows_filtered (U : UnicodeTables) (spare : nat -> nat) (lines0 lines : list string) (ops : list view_op) :
  let v := foldl (fun v o => run_op spare o v) (NewLogView spare lines0) ops in
  shown (Refresh spare lines v) = List.filter (keep (levelFilter v) (filter v)) lines.
Proof. intros v. apply Refresh_shown, view_ok_ops, view_ok_new. Qed.

(** Without a refresh in between the filters do not commute with the view:
    while nothing is filtered the two slices are the same array, so that
    choosing a level overwrites the head of the snapshot with the lines kept,
    and going back to all lines shows those and the unchanged tail. *)
Theorem level_filter_overwrites (U : UnicodeTables) (spare : nat -> nat) (lines : list string) (level : string) (v : LogView) :
  view_ok v -> filter v = EmptyString -> levelFilter v = "All" -> level <> "All" ->
  let kept := List.filter (keep level EmptyString) lines in
  let v1 := SetLevelFilter spare level (Refresh spare lines v) in
  let v2 := SetLevelFilter spare "All" v1 in
  shown (Refresh spare lines v) = lines /\ shown v1 = kept /\ shown v2 = kept ++ drop (length kept) lines.
Proof.
  intros H E1 E2 Hl kept v1 v2. pose proof (Refresh_shown spare lines v H) as [Hsh Hsn]. specialize (Hsn E1 E2) as [Ha Hc].
  assert (view_ok (Refresh spare lines v)) as Hr by by apply (view_ok_run spare (OpRefresh lines)).
  assert (filter (Refresh spare lines v) = EmptyString) as Ef.
  { unfold Refresh. cbn. unfold applyFilters. cbn [filter levelFilter]. by rewrite E1, E2. }
  split; [by rewrite Hsh, E1, E2, keep_all|]. subst v1 v2.
  set (r := Refresh spare lines v) in *. clearbody r.
  set (r1 := {| store := store r; snapshot := snapshot r; filtered := filtered r; filter := filter r; levelFilter := level;
                pending := pending r |}).
  assert (view_ok r1) as Hr1 by (destruct Hr; by split).
  pose proof (applyFilters_spec spare r1 Hr1) as (Hv1 & Hsh1 & Ef1 & _ & Hc1).
  unfold visible in Hsh1, Hc1. cbn [r1 snapshot store levelFilter filter filtered] in Hsh1, Hc1, Ef1. rewrite Hc, Ef in *.
  rewrite decide_True in Hc1 by (split; [done|by right]).
  change (SetLevelFilter spare level r) with (applyFilters spare r1). split; [exact Hsh1|].
  set (q := applyFilters spare r1) in *. clearbody q.
  set (q1 := {| store := store q; snapshot := snapshot q; filtered := filtered q; filter := filter q; levelFilter := "All";
                pending := pending q |}).
  assert (view_ok q1) as Hq1 by (destruct Hv1; by split).
  pose proof (applyFilters_spec spare q1 Hq1) as (_ & Hsh2 & _). unfold visible in Hsh2.
  cbn [q1 snapshot store levelFilter filter] in Hsh2. rewrite Ef1, keep_all, Hc1 in Hsh2. exact Hsh2.
Qed.
Lemma level_filter_overwrites_witness :
  let lines := ["INFO: a"; "ERROR: b"; "INFO: c"] in
  let v := @NewLogView ascii_tables id [] in
  shown (@SetLevelFilter ascii_tables id "All" (@SetLevelFilter ascii_tables id "ERROR" (@Refresh ascii_tables id lines v)))
    = ["ERROR: b"; "ERROR: b"; "INFO: c"].
Proof.
  intros lines v. refine (eq_trans (proj2 (proj2 (level_filter_overwrites ascii_tables id lines "ERROR" v _ _ _ _))) _);
    [apply view_ok_new|reflexivity|reflexivity|discriminate|vm_compute; reflexivity].
Defined.

