(* ===== verification/LogTab.v ===== *)
(** * The way of a log line: package [logging], [logging.go], to package [gui], [log_tab.go]

    The logger hands every line to its writers; the ring among them calls back
    the log tab, whose view reads the ring again.  This file composes the
    logger and the ring of [Logging] with the view of [LogView]. *)

From S2P Require Import Prelude GoStrings StringFacts Logging LogView.
Local Open Scope nat_scope.

(** ** The logger *)

(** Its writers: the standard error, the log file, the ring. *)
Inductive sink := Stderr | LogFile | Ring.
#[export] Instance sink_eq_dec : EqDecision sink.
Proof. solve_decision. Defined.

Record Options := { Opt_LogFile : string; Opt_Verbose : bool }.
Record Logger := { level : Level; sinks : list sink }.
(** [NewLogger], given what opening a path for appending returns. *)
Definition NewLogger (open_file : string -> option error) (opts : Options) : result Logger :=
  let lv := if Opt_Verbose opts then LevelDebug else LevelInfo in
  if decide (Opt_LogFile opts = EmptyString) then Ok {| level := lv; sinks := [Stderr] |}
  else match open_file (Opt_LogFile opts) with
       | Some e => Err (Errorf ("open log file: " +:+ Error e))
       | None => Ok {| level := lv; sinks := [Stderr; LogFile] |}
       end.
Definition AddWriter (w : sink) (l : Logger) : Logger := {| level := level l; sinks := sinks l ++ [w] |}.
Definition SetVerbose (verbose : bool) (l : Logger) : Logger := {| level := verbose_level verbose; sinks := sinks l |}.

(** ** The tab *)

(** The ring, what it calls back, and what the writers were given.  [view] is
    [None] until [logTab] has run. *)
Record LogTab := { logger : Logger; ring : RingWriter; view : option LogView; output : list (sink * string) }.
Definition set_view (v : option LogView) (t : LogTab) : LogTab :=
  {| logger := logger t; ring := ring t; view := v; output := output t |}.
Definition set_logger (l : Logger) (t : LogTab) : LogTab :=
  {| logger := l; ring := ring t; view := view t; output := output t |}.
Definition set_ring (r : RingWriter) (t : LogTab) : LogTab :=
  {| logger := logger t; ring := r; view := view t; output := output t |}.
Definition put (w : sink) (line : string) (t : LogTab) : LogTab :=
  {| logger := logger t; ring := ring t; view := view t; output := output t ++ [(w, line)] |}.
(** [main]: a logger, and a ring of [n] lines added to it. *)
Definition start (n : nat) (l : Logger) : LogTab :=
  {| logger := AddWriter Ring l; ring := NewRingWriter n; view := None; output := [] |}.

Section Tab.
Context `{U : UnicodeTables}.
Variable spare : nat -> nat.

(** [logTab]: the view, and the callback. *)
Definition logTab (t : LogTab) : LogTab := set_view (Some (SetLevelFilter spare "All" (NewLogView spare (Lines (ring t))))) t.
Definition on_line (t : LogTab) : LogTab := set_view (fmap (Refresh spare (Lines (ring t))) (view t)) t.

(** [io.WriteString] to one writer, its error ignored; [None] is a panic.  The
    ring calls back once for every line, after the write. *)
Definition write_to (w : sink) (line : string) (t : LogTab) : option LogTab :=
  let t' := put w line t in
  match w with
  | Ring => match Write line (ring t) with
            | Some (r, new) => Some (foldl (fun t _ => on_line t) (set_ring r t') new)
            | None => None
            end
  | _ => Some t'
  end.
Fixpoint write_all (ws : list sink) (line : string) (t : LogTab) : option LogTab :=
  match ws with
  | [] => Some t
  | w :: ws' => match write_to w line t with Some t' => write_all ws' line t' | None => None end
  end.
(** [log]. *)
Definition log_call (e : entry) (t : LogTab) : option LogTab :=
  match log_entry (level (logger t)) e with
  | None => Some t
  | Some line => write_all (sinks (logger t)) line t
  end.

(** [exportLogs], given [filepath.Join], the home directory, the time in the name and the
    outcome of writing: the file written, if any, and the dialog. *)
Inductive export_dialog := NoLines | ExportFailed (e : error) | Exported (path : string).
Definition export_path (join : string -> string -> string) (home : result string) (stamp : string) : string :=
  join (match home with Ok h => h | Err _ => "." end) ("torvm-logs-" +:+ stamp +:+ ".txt").
Definition exportLogs (join : string -> string -> string) (home : result string) (stamp : string) (write : string -> string -> option error) (v : LogView)
  : option (string * string) * export_dialog :=
  let text := CopyText v in
  if decide (text = EmptyString) then (None, NoLines)
  else let path := export_path join home stamp in
       (Some (path, text), match write path text with Some e => ExportFailed e | None => Exported path end).

(** What happens: entries are logged, the level is switched, the tab is built,
    and used. *)
Inductive op := Log (e : entry) | Verbose (b : bool) | OpenTab | Search (text : string) | Timer | SelectLevel (l : string) | PressClear.
Definition view_op_of (o : op) : option view_op :=
  match o with
  | Search s => Some (OpFilter s)
  | Timer => Some OpTimer
  | SelectLevel l => Some (OpLevel l)
  | PressClear => Some OpClear
  | _ => None
  end.
Definition exec (o : op) (t : LogTab) : option LogTab :=
  match o with
  | Log e => log_call e t
  | Verbose b => Some (set_logger (SetVerbose b (logger t)) t)
  | OpenTab => Some (logTab t)
  | o => Some (set_view (match view_op_of o with Some v => fmap (run_op spare v) (view t) | None => view t end) t)
  end.
Fixpoint run (os : list op) (t : LogTab) : option LogTab :=
  match os with
  | [] => Some t
  | o :: os' => match exec o t with Some t' => run os' t' | None => None end
  end.
End Tab.

(** ** What was logged *)

(** The lines the level lets through, from level [lv] on. *)
Fixpoint logged (lv : Level) (os : list op) : list string :=
  match os with
  | [] => []
  | Log e :: os' => option_list (log_entry lv e) ++ logged lv os'
  | Verbose b :: os' => logged (verbose_level b) os'
  | _ :: os' => logged lv os'
  end.
(** The lines of a text that ends with a line feed. *)
Definition text_lines (ps : list string) : list string := (cut (concat_str ps)).1.
Definition given (w : sink) (t : LogTab) : list string := map snd (List.filter (fun p => bool_decide (p.1 = w)) (output t)).

Lemma cut_line (s : string) : (cut (s +:+ nl)).2 = EmptyString /\ (cut (s +:+ nl)).1 <> [].
Proof.
  rewrite cut_app. destruct (cut s) as [l r] eqn:E. cbn [fst snd].
  assert (no_byte LF r = true) as Hn.
  { pose proof (Split_no_byte s LF) as H. rewrite cut_Split, E, Forall_app in H. by destruct H as [_ H%Forall_inv]. }
  rewrite (cut_spec (r +:+ nl) [r] EmptyString).
  - split; [done|]. by destruct l.
  - change (r +:+ nl) with (r +:+ String LF EmptyString). by rewrite Split_app.
Qed.
Lemma log_entry_line (lv : Level) (e : entry) (line : string) : log_entry lv e = Some line ->
  (cut line).2 = EmptyString /\ (cut line).1 <> [].
Proof.
  unfold log_entry, log. destruct (_ <? _); [done|]. intros [= <-]. unfold log_line.
  rewrite <- !str_app_assoc. apply cut_line.
Qed.

Lemma text_lines_snoc (H : list string) (line : string) : (cut (concat_str H)).2 = EmptyString ->
  text_lines (H ++ [line]) = text_lines H ++ (cut line).1 /\ (cut (concat_str (H ++ [line]))).2 = (cut line).2.
Proof. intros E. unfold text_lines. rewrite concat_str_app, cut_app, E, app_empty_l. cbn [concat_str]. by rewrite app_empty_r. Qed.

Section TabFacts.
Context `{U : UnicodeTables}.
Variable spare : nat -> nat.

Lemma applyFilters_keeps (v : LogView) : filter (applyFilters spare v) = filter v /\ levelFilter (applyFilters spare v) = levelFilter v.
Proof. unfold applyFilters. destruct (_ && _); [done|]. by destruct (foldl _ _ _). Qed.
Lemma Refresh_keeps (ls : list string) (v : LogView) :
  filter (Refresh spare ls v) = filter v /\ levelFilter (Refresh spare ls v) = levelFilter v.
Proof. unfold Refresh. destruct (fresh ls (store v)) as [s h]. by destruct (applyFilters_keeps {| store := h; snapshot := s; filtered := filtered v; filter := filter v; levelFilter := levelFilter v; pending := pending v |}). Qed.

(** What the callbacks of one write leave: the view as it was, or refreshed. *)
Definition follows (ls : list string) (v v' : option LogView) : Prop :=
  match v, v' with
  | None, None => True
  | Some v, Some v' => view_ok v' /\ filter v' = filter v /\ levelFilter v' = levelFilter v /\
      shown v' = List.filter (keep (levelFilter v) (filter v)) ls
  | _, _ => False
  end.
Lemma callbacks_follow (new : list string) (t : LogTab) : new <> [] -> (forall v, view t = Some v -> view_ok v) ->
  let t' := foldl (fun t _ => on_line spare t) t new in
  logger t' = logger t /\ ring t' = ring t /\ output t' = output t /\ follows (Lines (ring t)) (view t) (view t').
Proof.
  revert t. induction new as [|x new IH]; intros t Hn Hv; [done|]. cbn [foldl]. clear Hn.
  assert (follows (Lines (ring t)) (view t) (view (on_line spare t))) as H1.
  { unfold on_line, follows. cbn [view set_view]. destruct (view t) as [v|]; [|done]. cbn [fmap option_fmap option_map].
    specialize (Hv v eq_refl). split; [by apply (view_ok_run spare (OpRefresh _))|].
    destruct (Refresh_keeps (Lines (ring t)) v) as [-> ->]. split_and!; [done|done|]. by apply Refresh_shown. }
  destruct (decide (new = [])) as [->|Hn]; [by cbn|]. destruct (IH (on_line spare t) Hn) as (A & B & C & D).
  { intros v E. unfold follows in H1. rewrite E in H1. destruct (view t); [|done]. by destruct H1. }
  cbv zeta. split_and!; [done|done|done|]. unfold follows in *. cbn [ring on_line set_view] in D.
  destruct (view t) as [v|], (view (on_line spare t)) as [v1|], (view (foldl _ _ new)) as [v2|]; try done.
  destruct H1 as (_ & <- & <- & _), D as (? & -> & -> & ?). done.
Qed.

(** The writers other than the ring only receive. *)
Lemma given_put (w w' : sink) (line : string) (t : LogTab) :
  given w (put w' line t) = given w t ++ (if decide (w' = w) then [line] else []).
Proof.
  unfold given, put. cbn [output]. rewrite List.filter_app, map_app. cbn [List.filter fst].
  destruct (decide (w' = w)) as [->|]; [by rewrite bool_decide_eq_true_2|by rewrite bool_decide_eq_false_2].
Qed.
Lemma write_plain (ws : list sink) (line : string) (t : LogTab) : Ring ∉ ws ->
  write_all spare ws line t = Some (foldl (fun t w => put w line t) t ws).
Proof.
  revert t. induction ws as [|w ws IH]; intros t H; [done|]. cbn [write_all foldl].
  assert (write_to spare w line t = Some (put w line t)) as ->; [destruct w; set_solver|]. apply IH. set_solver.
Qed.
Lemma write_all_app (ws1 ws2 : list sink) (line : string) (t : LogTab) :
  write_all spare (ws1 ++ ws2) line t = match write_all spare ws1 line t with Some t' => write_all spare ws2 line t' | None => None end.
Proof. revert t. induction ws1 as [|w ws1 IH]; intros t; [done|]. cbn [app write_all]. by destruct (write_to _ _ _ _). Qed.
Lemma given_puts (w : sink) (ws : list sink) (line : string) (t : LogTab) : NoDup ws ->
  given w (foldl (fun t w => put w line t) t ws) = given w t ++ (if decide (w ∈ ws) then [line] else []).
Proof.
  intros Hd. revert t. induction Hd as [|x ws Hx _ IH]; intros t; [by rewrite decide_False, app_nil_r by set_solver|].
  cbn [foldl]. rewrite IH, given_put, <- app_assoc. f_equal.
  destruct (decide (x = w)) as [->|]; [by rewrite decide_False, decide_True by set_solver|].
  destruct (decide (w ∈ ws)); [by rewrite decide_True by set_solver|by rewrite decide_False by set_solver].
Qed.
Lemma puts_keep (ws : list sink) (line : string) (t : LogTab) :
  let t' := foldl (fun t w => put w line t) t ws in logger t' = logger t /\ ring t' = ring t /\ view t' = view t.
Proof. revert t. induction ws as [|w ws IH]; intros t; [done|]. cbn [foldl]. by destruct (IH (put w line t)) as (-> & -> & ->). Qed.

(** The state after the lines [H] were logged to the writers [ws] and the ring. *)
Record tab_ok (n : nat) (ws : list sink) (H : list string) (t : LogTab) : Prop := {
  t_sinks : sinks (logger t) = ws ++ [Ring];
  t_whole : (cut (concat_str H)).2 = EmptyString;
  t_ring : ring_after (text_lines H) (ring t);
  t_cap : capacity (ring t) = n;
  t_partial : partial (ring t) = EmptyString;
  t_view : forall v, view t = Some v -> view_ok v;
  t_given : forall w, w ∈ ws ++ [Ring] -> given w t = H
}.

Lemma log_ok (n : nat) (ws : list sink) (H : list string) (line : string) (t : LogTab) :
  NoDup (ws ++ [Ring]) -> (cut line).2 = EmptyString -> (cut line).1 <> [] -> tab_ok n ws H t ->
  exists t', write_all spare (sinks (logger t)) line t = Some t' /\ tab_ok n ws (H ++ [line]) t' /\
    logger t' = logger t /\ follows (last_n n (text_lines (H ++ [line]))) (view t) (view t').
Proof.
  intros Hd Hl Hn [Hs Hw Hr Hc Hp Hv Hg]. rewrite Hs, write_all_app.
  apply NoDup_app in Hd as (Hd & Hx & _). rewrite write_plain by set_solver.
  set (t1 := foldl (fun t w => put w line t) t ws). destruct (puts_keep ws line t) as (El & Er & Ev). fold t1 in El, Er, Ev.
  cbn [write_all write_to]. destruct (Write_ok _ line (ring t1) ltac:(rewrite Er; exact Hr)) as (r & Ew & Hr' & Hc' & Hp').
  rewrite Ew. rewrite Er, Hp, app_empty_l in *. destruct (text_lines_snoc H line Hw) as [Et Hw'].
  destruct (callbacks_follow (cut line).1 (set_ring r (put Ring line t1)) Hn) as (A & B & C & D); [by cbn; rewrite Ev|].
  cbv zeta in *. set (t2 := foldl (fun t _ => on_line spare t) _ _) in *. exists t2. split; [reflexivity|]. cbn [logger ring view output set_ring put] in A, B, C, D.
  rewrite Ev in D. rewrite Et in *.
  split_and!; [split| |].
  - by rewrite A, El.
  - by rewrite Hw'.
  - rewrite B, Et. done.
  - by rewrite B, Hc'.
  - by rewrite B, Hp'.
  - intros v E. rewrite E in D. unfold follows in D. destruct (view t); [by destruct D|done].
  - intros w Hin. assert (given w t2 = given w (put Ring line t1)) as -> by (unfold given; by rewrite C).
    rewrite given_put. unfold t1. rewrite given_puts, Hg, <- app_assoc by done.
    f_equal. rewrite elem_of_app, list_elem_of_singleton in Hin.
    destruct (decide (w ∈ ws)) as [Hi|Hi]; [rewrite decide_False; [done|]; intros <-; by apply (Hx Ring); [|left]|].
    by rewrite decide_True by (destruct Hin; congruence).
  - congruence.
  - destruct Hr' as [_ _ _ Hlr]. rewrite Hc', Hc in Hlr. by rewrite <- Hlr.
Qed.

Lemma set_view_ok (n : nat) (ws : list sink) (H : list string) (v : option LogView) (t : LogTab) :
  tab_ok n ws H t -> (forall v', v = Some v' -> view_ok v') -> tab_ok n ws H (set_view v t).
Proof. intros [] Hv. by split. Qed.

Lemma op_ok (n : nat) (ws : list sink) (H : list string) (o : op) (t : LogTab) :
  NoDup (ws ++ [Ring]) -> tab_ok n ws H t ->
  exists t', exec spare o t = Some t' /\ tab_ok n ws (H ++ logged (level (logger t)) [o]) t' /\
    level (logger t') = match o with Verbose b => verbose_level b | _ => level (logger t) end.
Proof.
  intros Hd Ht.
  assert (forall vo, exists t', Some (set_view (fmap (run_op spare vo) (view t)) t) = Some t' /\ tab_ok n ws H t' /\
    level (logger t') = level (logger t)) as Hview.
  { intros vo. eexists. split; [reflexivity|]. split; [|done]. apply set_view_ok; [done|]. intros v'.
    destruct (view t) as [v|] eqn:E; [|done]. intros [= <-]. by apply view_ok_run, (t_view _ _ _ _ Ht). }
  destruct o as [e|b| |s| |s|]; cbn [exec logged option_list]; rewrite ?app_nil_r; try apply Hview.
  - unfold log_call. destruct (log_entry (level (logger t)) e) as [line|] eqn:E.
    + destruct (log_entry_line _ _ _ E) as [Hl Hn]. destruct (log_ok n ws H line t Hd Hl Hn Ht) as (t' & -> & H1 & H2 & _).
      exists t'. by rewrite H2.
    + exists t. by rewrite app_nil_r.
  - eexists. split; [reflexivity|]. split; [|done]. destruct Ht. by split.
  - eexists. split; [reflexivity|]. split; [|done]. apply set_view_ok; [done|]. intros v [= <-].
    apply (view_ok_run spare (OpLevel "All")), view_ok_new.
Qed.

Lemma logged_cons (lv : Level) (o : op) (os : list op) :
  logged lv (o :: os) = logged lv [o] ++ logged (match o with Verbose b => verbose_level b | _ => lv end) os.
Proof. destruct o; cbn [logged]; try done. by rewrite app_nil_r. Qed.
Lemma log_run_ok (n : nat) (ws : list sink) (os : list op) (H : list string) (t : LogTab) :
  NoDup (ws ++ [Ring]) -> tab_ok n ws H t ->
  exists t', run spare os t = Some t' /\ tab_ok n ws (H ++ logged (level (logger t)) os) t'.
Proof.
  intros Hd. revert H t. induction os as [|o os IH]; intros H t Ht; [exists t; cbn; by rewrite app_nil_r|].
  destruct (op_ok n ws H o t Hd Ht) as (t1 & E & H1 & L1). cbn [run]. rewrite E.
  destruct (IH _ t1 H1) as (t' & Hr & H2). exists t'. split; [done|]. by rewrite logged_cons, app_assoc, <- L1.
Qed.
Lemma log_run_app (os1 os2 : list op) (t : LogTab) :
  run spare (os1 ++ os2) t = match run spare os1 t with Some t' => run spare os2 t' | None => None end.
Proof. revert t. induction os1 as [|o os IH]; intros t; [done|]. cbn [app run]. by destruct (exec spare o t). Qed.

Lemma NewLogger_sinks (open_file : string -> option error) (opts : Options) (l : Logger) :
  NewLogger open_file opts = Ok l -> NoDup (sinks l ++ [Ring]).
Proof.
  unfold NewLogger. destruct (decide _); [|destruct (open_file _); [done|]]; intros [= <-]; apply (bool_decide_unpack _); by vm_compute.
Qed.
Lemma start_ok (n : nat) (l : Logger) : 0 < n -> tab_ok n (sinks l) [] (start n l).
Proof. intros Hn. split; try done. by apply NewRingWriter_after. Qed.
End TabFacts.

(** ** Theorems *)

(** C20. From the logger to the screen: whatever is logged, at whatever level and
    however the tab is used meanwhile, nothing panics; every writer is given the
    same lines, those of the entries the level lets through, whole and in order;
    the ring holds the last of them; and as soon as an entry has been logged an
    open tab shows exactly the lines of the ring that pass its two filters, even
    when it was cleared before. *)
Theorem view_follows_log (U : UnicodeTables) (spare : nat -> nat) (open_file : string -> option error) (opts : Options)
    (l : Logger) (n : nat) (os : list op) :
  NewLogger open_file opts = Ok l -> 0 < n ->
  exists t, run spare os (start n l) = Some t /\
    let H := logged (level l) os in
    (forall w, w ∈ sinks l ++ [Ring] -> given w t = H) /\ Lines (ring t) = last_n n (text_lines H) /\
    forall e line, log_entry (level (logger t)) e = Some line ->
      exists t', run spare (os ++ [Log e]) (start n l) = Some t' /\
        follows (last_n n (text_lines (H ++ [line]))) (view t) (view t').
Proof.
  intros Hl Hn. apply NewLogger_sinks in Hl as Hd.
  destruct (log_run_ok spare n (sinks l) os [] (start n l) Hd (start_ok n l Hn)) as (t & Hr & Ht).
  exists t. split; [done|]. cbn [app] in Ht. change (level (logger (start n l))) with (level l) in Ht. cbv zeta. split_and!.
  - apply (t_given _ _ _ _ Ht).
  - destruct Ht as [_ _ [_ _ _ Hlr] Hc _ _ _]. by rewrite Hc in Hlr.
  - intros e line E. destruct (log_entry_line _ _ _ E) as [Hc Hne].
    destruct (log_ok spare n (sinks l) _ line t Hd Hc Hne Ht) as (t' & Hw & _ & _ & Hf).
    exists t'. split; [|done]. rewrite log_run_app, Hr. cbn [run exec]. unfold log_call. by rewrite E, Hw.
Qed.
Lemma view_follows_log_witness :
  let e lv m := {| e_ts := "T"; e_level := lv; e_msg := m |} in
  let os := [Log (e LevelInfo "a"); OpenTab; SelectLevel "ERROR"; Log (e LevelDebug "b"); PressClear] in
  let l := {| level := LevelInfo; sinks := [Stderr] |} in
  exists t, @run ascii_tables (fun _ => 0) os (start 2 l) = Some t /\ Lines (ring t) = ["[T UTC] INFO: a"].
Proof.
  intros e os l. destruct (view_follows_log ascii_tables (fun _ => 0) (fun _ => None) {| Opt_LogFile := ""; Opt_Verbose := false |} l 2 os
    eq_refl ltac:(lia)) as (t & H1 & _ & H2 & _). by exists t.
Defined.
