(* ===== verification/Panels.v ===== *)
(** * Package [gui]: the remaining tabs, the tray and the start button

    What the handlers of the tabs write to the configuration and to the labels
    ([status_tab.go], [settings_tab.go], [proxy_tab.go], [bridges_tab.go],
    [browser_tab.go], [systray.go], the status light of [widgets.go]), and how
    [app.go] starts and stops the engine.  A label is its text. *)

From S2P Require Import Prelude GoStrings StringFacts Config Retry Lifecycle LifecycleTheorems Secwatch Relays.
From S2P Require Browser.
Local Open Scope Z_scope.

(** ** The status light *)

Record NRGBA := { R : Z; G : Z; B : Z; A : Z }.
Definition colorForState (s : State) : NRGBA :=
  match s with
  | StateRunning => {| R := 0; G := 179; B := 0; A := 255 |}
  | StateFailed => {| R := 230; G := 0; B := 0; A := 255 |}
  | StateInit | StateCleanup | StateShutdown | StateRestoreNetwork => {| R := 140; G := 140; B := 140; A := 255 |}
  | _ => {| R := 190; G := 120; B := 0; A := 255 |}
  end.
Record StatusLight := { lastState : State; FillColor : NRGBA }.
Definition NewStatusLight : StatusLight := {| lastState := StateInit; FillColor := colorForState StateInit |}.
Definition SetState (s : State) (l : StatusLight) : StatusLight := {| lastState := s; FillColor := colorForState s |}.
Definition Description (l : StatusLight) : string :=
  match lastState l with
  | StateRunning => "Status: TorVM is running and connected to Tor"
  | StateFailed => "Status: TorVM encountered an error"
  | StateInit | StateCleanup | StateShutdown | StateRestoreNetwork => "Status: TorVM is stopped"
  | StateWaitBootstrap => "Status: Waiting for Tor to connect"
  | StateLaunchVM => "Status: Launching virtual machine"
  | StateCreateTAP => "Status: Creating network adapter"
  | _ => "Status: TorVM is starting up"
  end.

(** ** The status tab *)

Record StatusTab := {
  statusLight : StatusLight; stateLabel : string; modeLabel : string; serviceMode : bool;
  bootstrapBar : Z; bootstrapLabel : string
}.
(** The widgets as they are made. *)
Definition new_status (service : bool) : StatusTab := {|
  statusLight := NewStatusLight; stateLabel := "Stopped"; modeLabel := if service then "Mode: Service" else "Mode: Direct";
  serviceMode := service; bootstrapBar := 0; bootstrapLabel := EmptyString |}.
Definition set_light (s : State) (text mode : string) (service : bool) (t : StatusTab) : StatusTab := {|
  statusLight := SetState s (statusLight t); stateLabel := text; modeLabel := mode; serviceMode := service;
  bootstrapBar := bootstrapBar t; bootstrapLabel := bootstrapLabel t |}.
Definition updateStatus (to : State) (t : StatusTab) : StatusTab :=
  set_light to (Description (SetState to (statusLight t))) (modeLabel t) (serviceMode t) t.
Definition on_bootstrap (progress : Z) (summary : string) (t : StatusTab) : StatusTab := {|
  statusLight := statusLight t; stateLabel := stateLabel t; modeLabel := modeLabel t; serviceMode := serviceMode t;
  bootstrapBar := progress; bootstrapLabel := summary |}.
(** [launchd.QueryStatus()]: running, installed. *)
Definition pollServiceStatus (running installed : bool) (t : StatusTab) : StatusTab :=
  if running then set_light StateRunning "Running (Service)" (modeLabel t) (serviceMode t) t
  else if installed then set_light StateInit "Stopped (Service)" (modeLabel t) (serviceMode t) t
  else set_light StateInit "Stopped" "Mode: Direct" false t.
(** The tab as it opens: in service mode the service is asked at once. *)
Definition statusTab (service running installed : bool) : StatusTab :=
  if service then pollServiceStatus running installed (new_status service) else new_status service.
Definition info_labels (c : Config) : list string := [
  "Acceleration: " +:+ Accel c; "VM CPUs: " +:+ itoa (VMCPUs c); "VM Memory: " +:+ itoa (VMMemoryMB c) +:+ " MB";
  "Host IP: " +:+ HostIP c; "VM IP: " +:+ VMIP c].

(** ** The settings tab *)

Definition set_mem (n : Z) (e : edits) : edits := {| e_mem := n; e_cpus := e_cpus e; e_socks := e_socks e;
  e_verbose := e_verbose e; e_bridge := e_bridge e; e_proxy := e_proxy e; e_relays := e_relays e |}.
Definition set_cpus (n : Z) (e : edits) : edits := {| e_mem := e_mem e; e_cpus := n; e_socks := e_socks e;
  e_verbose := e_verbose e; e_bridge := e_bridge e; e_proxy := e_proxy e; e_relays := e_relays e |}.
Definition set_socks (n : Z) (e : edits) : edits := {| e_mem := e_mem e; e_cpus := e_cpus e; e_socks := n;
  e_verbose := e_verbose e; e_bridge := e_bridge e; e_proxy := e_proxy e; e_relays := e_relays e |}.
Definition set_verbose (b : bool) (e : edits) : edits := {| e_mem := e_mem e; e_cpus := e_cpus e; e_socks := e_socks e;
  e_verbose := b; e_bridge := e_bridge e; e_proxy := e_proxy e; e_relays := e_relays e |}.
Definition set_proxy (p : ProxyConfig) (e : edits) : edits := {| e_mem := e_mem e; e_cpus := e_cpus e; e_socks := e_socks e;
  e_verbose := e_verbose e; e_bridge := e_bridge e; e_proxy := p; e_relays := e_relays e |}.
Definition set_bridge (b : BridgeConfig) (e : edits) : edits := {| e_mem := e_mem e; e_cpus := e_cpus e; e_socks := e_socks e;
  e_verbose := e_verbose e; e_bridge := b; e_proxy := e_proxy e; e_relays := e_relays e |}.

(** The values [markDirty] compares, and the rest of the tab. *)
Definition tracked (c : Config) : Z * Z * Z * bool := (VMMemoryMB c, VMCPUs c, SOCKSPort c, Verbose c).
Record Settings := { orig : Z * Z * Z * bool; dirty : bool; tab_text : string; socksValid : string; memLabel : string; cpuLabel : string }.
Definition settingsTab (c : Config) : Settings := {|
  orig := tracked c; dirty := false; tab_text := "Settings"; socksValid := EmptyString;
  memLabel := "VM Memory: " +:+ itoa (VMMemoryMB c) +:+ " MB"; cpuLabel := "VM CPUs: " +:+ itoa (VMCPUs c) |}.
Definition markDirty (c : Config) (t : Settings) : Settings :=
  let isDirty := negb (bool_decide (tracked c = orig t)) in
  if Bool.eqb isDirty (dirty t) then t
  else {| orig := orig t; dirty := isDirty; tab_text := if isDirty then "Settings *" else "Settings";
          socksValid := socksValid t; memLabel := memLabel t; cpuLabel := cpuLabel t |}.
Definition set_socksValid (s : string) (t : Settings) : Settings :=
  {| orig := orig t; dirty := dirty t; tab_text := tab_text t; socksValid := s; memLabel := memLabel t; cpuLabel := cpuLabel t |}.
Definition set_memLabel (s : string) (t : Settings) : Settings :=
  {| orig := orig t; dirty := dirty t; tab_text := tab_text t; socksValid := socksValid t; memLabel := s; cpuLabel := cpuLabel t |}.
Definition set_cpuLabel (s : string) (t : Settings) : Settings :=
  {| orig := orig t; dirty := dirty t; tab_text := tab_text t; socksValid := socksValid t; memLabel := memLabel t; cpuLabel := s |}.
Definition set_orig (c : Config) (t : Settings) : Settings :=
  {| orig := tracked c; dirty := dirty t; tab_text := tab_text t; socksValid := socksValid t; memLabel := memLabel t; cpuLabel := cpuLabel t |}.

(** [a.cfg] is edited, then [markDirty] looks at it. *)
Definition edited (f : edits -> edits) (label : Settings -> Settings) (p : world * Settings) : world * Settings :=
  let w := edit f p.1 in (w, markDirty (a_cfg w) (label p.2)).

(** The callback [OnChanged] of a slider is given a number whose integer part is [n]. *)
Definition mem_changed (n : Z) : world * Settings -> world * Settings :=
  edited (set_mem n) (set_memLabel ("VM Memory: " +:+ itoa n +:+ " MB")).
Definition cpu_changed (n : Z) : world * Settings -> world * Settings :=
  edited (set_cpus n) (set_cpuLabel ("VM CPUs: " +:+ itoa n)).
Definition verbose_changed (on : bool) : world * Settings -> world * Settings := edited (set_verbose on) id.

Section Settings.
Context `{U : UnicodeTables}.
Definition socks_changed (s : string) (p : world * Settings) : world * Settings :=
  match Atoi s with
  | Ok n =>
      if (n <? 1) || (65535 <? n) then (p.1, set_socksValid "Invalid port (1-65535)" p.2)
      else edited (set_socks n) (set_socksValid EmptyString) p
  | Err _ => (p.1, set_socksValid "Invalid port (1-65535)" p.2)
  end.
End Settings.

(** [saveConfig]: [json.MarshalIndent] and [os.WriteFile] are parameters. *)
Inductive message := ShowError (e : error) | ShowInformation (title text : string).
Definition saveConfig (marshal : Config -> result string) (write : string -> string -> result unit) (configPath : string)
  (c : Config) : message :=
  let path := if decide (configPath = EmptyString) then "torvm.json" else configPath in
  match marshal c with
  | Err e => ShowError e
  | Ok data =>
      match write path data with
      | Err e => ShowError e
      | Ok _ => ShowInformation "Saved" ("Configuration saved to " +:+ path)
      end
  end.
(** "Save Config": what the dialog shows is not looked at. *)
Definition save_pressed (save : Config -> message) (p : world * Settings) : message * (world * Settings) :=
  let c := a_cfg p.1 in (save c, (p.1, markDirty c (set_orig c p.2))).
(** "Reset to Defaults", confirmed.  The widgets are then set to the same
    values; their callbacks write what is already there. *)
Definition reset_confirmed : world * Settings -> world * Settings :=
  edited (fun e => set_verbose false (set_socks 9050 (set_cpus 2 (set_mem 256 e))))
    (fun t => set_socksValid EmptyString (set_memLabel "VM Memory: 256 MB" (set_cpuLabel "VM CPUs: 2" t))).

(** ** The proxy tab *)

Definition proxyTypes : list string := ["None"; "HTTP"; "HTTPS"; "SOCKS5"].
Definition set_Type (s : string) (p : ProxyConfig) : ProxyConfig :=
  {| Proxy_Type := s; Proxy_Address := Proxy_Address p; Proxy_Username := Proxy_Username p; Proxy_Password := Proxy_Password p |}.
Definition set_Address (s : string) (p : ProxyConfig) : ProxyConfig :=
  {| Proxy_Type := Proxy_Type p; Proxy_Address := s; Proxy_Username := Proxy_Username p; Proxy_Password := Proxy_Password p |}.
Definition set_Username (s : string) (p : ProxyConfig) : ProxyConfig :=
  {| Proxy_Type := Proxy_Type p; Proxy_Address := Proxy_Address p; Proxy_Username := s; Proxy_Password := Proxy_Password p |}.
Definition set_Password (s : string) (p : ProxyConfig) : ProxyConfig :=
  {| Proxy_Type := Proxy_Type p; Proxy_Address := Proxy_Address p; Proxy_Username := Proxy_Username p; Proxy_Password := s |}.
Definition edit_proxy (f : ProxyConfig -> ProxyConfig) : world -> world := edit (fun e => set_proxy (f (e_proxy e)) e).
Definition address_changed (s : string) : world -> world := edit_proxy (set_Address s).
Definition username_changed (s : string) : world -> world := edit_proxy (set_Username s).
Definition password_changed (s : string) : world -> world := edit_proxy (set_Password s).
(** The second component: the fields are shown. *)
Definition proxy_type_selected (val : string) (w : world) : world * bool :=
  if decide (val = "None") then (edit_proxy (set_Type EmptyString) w, false) else (edit_proxy (set_Type val) w, true).
(** ** The bridges tab *)

Definition transports : list string := ["none"; "obfs4"; "meek-azure"; "snowflake"].
Definition edit_bridge (f : BridgeConfig -> BridgeConfig) : world -> world := edit (fun e => set_bridge (f (e_bridge e)) e).
Definition use_bridges (on : bool) : world -> world := edit_bridge (fun b =>
  {| Bridge_UseBridges := on; Bridge_Transport := Bridge_Transport b; Bridge_Bridges := Bridge_Bridges b |}).
Definition transport_selected (val : string) : world -> world := edit_bridge (fun b =>
  {| Bridge_UseBridges := Bridge_UseBridges b; Bridge_Transport := val; Bridge_Bridges := Bridge_Bridges b |}).
(** The loop over the lines; an empty result stays the nil slice. *)
Definition bridge_lines_of (text : string) : list string :=
  List.filter (fun l => negb (String.eqb l EmptyString)) (map TrimSpace (Split text LF)).
Definition bridges_changed (text : string) : world -> world := edit_bridge (fun b =>
  {| Bridge_UseBridges := Bridge_UseBridges b; Bridge_Transport := Bridge_Transport b;
     Bridge_Bridges := match bridge_lines_of text with [] => None | ls => Some ls end |}).
Definition bridges_text (c : Config) : string := Join (elems (Bridge_Bridges (Bridge c))) (String LF EmptyString).

(** ** The browser tab *)

Definition browserStateToLifecycle (bs : Browser.BrowserState) : State :=
  match bs with
  | Browser.Running => StateRunning
  | Browser.Compromised => StateFailed
  | Browser.Idle => StateInit
  | _ => StateWaitBootstrap
  end.
Definition browser_state_name (bs : Browser.BrowserState) : string :=
  match bs with
  | Browser.Idle => "Idle" | Browser.WaitingForTor => "WaitingForTor" | Browser.Starting => "Starting"
  | Browser.Running => "Running" | Browser.Compromised => "Compromised" | Browser.Stopping => "Stopping"
  end.
Record BrowserTab := {
  b_light : StatusLight; b_state : string; canaryLabel : string; honeyLabel : string; seccompLabel : string;
  integrityLabel : string; lastEventLabel : string; b_events : list SecurityEvent
}.
Definition vnc_label (display : Z) : string :=
  if display =? 0 then "VNC: disabled (headless)" else "VNC: vnc://127.0.0.1:" +:+ itoa (5900 + display).
Definition browserTab : BrowserTab := {|
  b_light := NewStatusLight; b_state := "Idle"; canaryLabel := "Canaries: --"; honeyLabel := "Honey Tokens: --";
  seccompLabel := "Seccomp: --"; integrityLabel := "File Integrity: --"; lastEventLabel := "Last Event: none"; b_events := [] |}.
Definition set_monitors (canary honey seccomp integrity lastEvent : string) (t : BrowserTab) : BrowserTab := {|
  b_light := b_light t; b_state := b_state t; canaryLabel := canary; honeyLabel := honey; seccompLabel := seccomp;
  integrityLabel := integrity; lastEventLabel := lastEvent; b_events := b_events t |}.
Definition browser_state_changed (to : Browser.BrowserState) (t0 : BrowserTab) : BrowserTab :=
  let t := {| b_light := SetState (browserStateToLifecycle to) (b_light t0); b_state := browser_state_name to;
              canaryLabel := canaryLabel t0; honeyLabel := honeyLabel t0; seccompLabel := seccompLabel t0;
              integrityLabel := integrityLabel t0; lastEventLabel := lastEventLabel t0; b_events := b_events t0 |} in
  match to with
  | Browser.Running => set_monitors "Canaries: OK" "Honey Tokens: Untouched" "Seccomp: Active" "File Integrity: OK" (lastEventLabel t) t
  | Browser.Idle => set_monitors "Canaries: --" "Honey Tokens: --" "Seccomp: --" "File Integrity: --" (lastEventLabel t) t
  | Browser.Compromised => set_monitors (canaryLabel t) (honeyLabel t) (seccompLabel t) (integrityLabel t)
                             "COMPROMISE DETECTED - see event log" t
  | _ => t
  end.
Definition tab_event_cap : nat := 200.
Definition add_tab_event (evs : list SecurityEvent) (ev : SecurityEvent) : list SecurityEvent :=
  let l := evs ++ [ev] in if (tab_event_cap <? length l)%nat then drop (length l - tab_event_cap) l else l.

Section BrowserTab.
(** The local time of day of a Unix time, [15:04:05]. *)
Variable time_of_day : Z -> string.
Definition event_line (ev : SecurityEvent) : string :=
  "[" +:+ time_of_day (Timestamp ev) +:+ "] " +:+ Severity ev +:+ " " +:+ Type_ ev +:+ ": " +:+ Detail ev.
(** The callback of [OnEvent]; the second component is the alert. *)
Definition security_event (ev : SecurityEvent) (t0 : BrowserTab) : BrowserTab * option message :=
  let t := {| b_light := b_light t0; b_state := b_state t0; canaryLabel := canaryLabel t0; honeyLabel := honeyLabel t0;
              seccompLabel := seccompLabel t0; integrityLabel := integrityLabel t0;
              lastEventLabel := "Last Event: [" +:+ time_of_day (Timestamp ev) +:+ "] " +:+ Type_ ev;
              b_events := add_tab_event (b_events t0) ev |} in
  let t' :=
    if decide (Type_ ev = "canary_violation")
    then set_monitors "Canaries: VIOLATION DETECTED" (honeyLabel t) (seccompLabel t) (integrityLabel t) (lastEventLabel t) t
    else if decide (Type_ ev = "honey_token_access")
    then set_monitors (canaryLabel t) ("Honey Tokens: ACCESSED - " +:+ Detail ev) (seccompLabel t) (integrityLabel t) (lastEventLabel t) t
    else if decide (Type_ ev = "seccomp_kill")
    then set_monitors (canaryLabel t) (honeyLabel t) ("Seccomp: Violation PID " +:+ itoa (PID ev) +:+ " killed")
           (integrityLabel t) (lastEventLabel t) t
    else if decide (Type_ ev = "file_tamper")
    then set_monitors (canaryLabel t) (honeyLabel t) (seccompLabel t) ("File Integrity: TAMPERED - " +:+ Detail ev) (lastEventLabel t) t
    else t in
  (t', if IsCritical ev
       then Some (ShowInformation "Security Alert" ("Browser VM security event: " +:+ Type_ ev +:+ String LF (Detail ev)))
       else None).
End BrowserTab.

(** "Launch Browser": [None] is a missing browser engine. *)
Inductive launch := LaunchError (m : message) | LaunchIgnored | LaunchStart.
Definition launchBrowser (browser : option Browser.BrowserState) (tor : State) : launch :=
  match browser with
  | None => LaunchError (ShowError (Errorf "browser VM not configured"))
  | Some b =>
      match b with
      | Browser.Idle =>
          if decide (tor = StateRunning) then LaunchStart
          else LaunchError (ShowInformation "Not Ready" "TorVM must be running before launching the browser.")
      | _ => LaunchIgnored
      end
  end.

(** ** Starting and stopping the engine *)

(** The goroutines of [engine.Start] are numbered; each has a context of its
    own.  [a.cancel] is the cancel function of one of them, or nil. *)
Record Runs := { service : bool; cancel : option nat; alive : gset nat; cancelled : gset nat; next : nat; service_calls : list string }.
Definition new_runs (serviceMode : bool) : Runs :=
  {| service := serviceMode; cancel := None; alive := ∅; cancelled := ∅; next := 0; service_calls := [] |}.
Definition startVM (r : Runs) : Runs :=
  if service r then
    {| service := true; cancel := cancel r; alive := alive r; cancelled := cancelled r; next := next r;
       service_calls := service_calls r ++ ["start"] |}
  else
    match cancel r with
    | Some _ => r
    | None => {| service := service r; cancel := Some (next r); alive := {[next r]} ∪ alive r; cancelled := cancelled r;
                 next := S (next r); service_calls := service_calls r |}
    end.
Definition cancel_run (clear : bool) (r : Runs) : Runs :=
  match cancel r with
  | None => r
  | Some i => {| service := service r; cancel := if clear then None else Some i; alive := alive r; cancelled := {[i]} ∪ cancelled r;
                 next := next r; service_calls := service_calls r |}
  end.
Definition stopVM (r : Runs) : Runs :=
  if service r then
    {| service := true; cancel := cancel r; alive := alive r; cancelled := cancelled r; next := next r;
       service_calls := service_calls r ++ ["stop"] |}
  else cancel_run true r.
Definition doQuit (r : Runs) : Runs := cancel_run false r.
(** The goroutine that waits for a run: it clears [a.cancel], whoever set it. *)
Definition run_ended (i : nat) (r : Runs) : Runs :=
  {| service := service r; cancel := None; alive := alive r ∖ {[i]}; cancelled := cancelled r; next := next r;
     service_calls := service_calls r |}.
Inductive run_action := PressStart | PressStop | PressQuit | Ended (i : nat).
Inductive run_step : run_action -> Runs -> Runs -> Prop :=
  | step_start r : run_step PressStart r (startVM r)
  | step_stop r : run_step PressStop r (stopVM r)
  | step_quit r : run_step PressQuit r (doQuit r)
  | step_ended r i : i ∈ alive r -> run_step (Ended i) r (run_ended i r).
(** The states reached from a fresh application by actions of a kind. *)
Definition reached (P : run_action -> Prop) (mode : bool) (r : Runs) : Prop :=
  rtc (fun r r' => exists a, P a /\ run_step a r r') (new_runs mode) r.

(** ** The tray *)

Record menu_item := { item_text : string; item_disabled : bool }.
Definition toggle_item (s : State) (r : Runs) : menu_item :=
  if decide (s = StateRunning) then {| item_text := "Stop TorVM"; item_disabled := false |}
  else match cancel r with
       | Some _ => {| item_text := "TorVM Busy..."; item_disabled := true |}
       | None => {| item_text := "Start TorVM"; item_disabled := false |}
       end.
Definition buildTrayMenu (state_name : string) (s : State) (r : Runs) : list menu_item := [
  {| item_text := "TorVM: " +:+ state_name; item_disabled := true |};
  {| item_text := "Show Window"; item_disabled := false |};
  toggle_item s r;
  {| item_text := "New Identity"; item_disabled := negb (bool_decide (s = StateRunning)) |};
  {| item_text := "Quit"; item_disabled := false |}].

(** ** Facts *)

Lemma with_edits_same (c : Config) : with_edits (edits_of c) c = c.
Proof. by destruct c. Qed.

(** What [markDirty] maintains. *)
Record settings_ok (c : Config) (t : Settings) : Prop := {
  so_dirty : dirty t = negb (bool_decide (tracked c = orig t));
  so_text : tab_text t = if dirty t then "Settings *" else "Settings"
}.
Lemma markDirty_ok (c : Config) (t : Settings) :
  tab_text t = (if dirty t then "Settings *" else "Settings") -> settings_ok c (markDirty c t).
Proof.
  intros H. unfold markDirty. destruct (Bool.eqb _ (dirty t)) eqn:E.
  - apply eqb_prop in E. by split.
  - by split.
Qed.
Lemma markDirty_orig (c : Config) (t : Settings) : orig (markDirty c t) = orig t.
Proof. unfold markDirty. by destruct (Bool.eqb _ _). Qed.

Section Valid.
Context `{U : UnicodeTables} (os : goos).
Lemma valid_edits (e : edits) (c : Config) :
  valid_config os c -> 32 <= e_mem e <= 4096 -> 1 <= e_cpus e <= 16 -> 1 <= e_socks e <= 65535 ->
  Proxy_Type (e_proxy e) ∈ [""; "http"; "https"; "socks5"] ->
  Bridge_Transport (e_bridge e) ∈ [""; "none"; "obfs4"; "meek-azure"; "snowflake"] ->
  valid_config os (with_edits e c).
Proof.
  intros [V1 V2 V3 V4 V5 V6 V7 V8 V9 V10 V11 V12] Hm Hc Hs Hp Hb. split; try done.
  by apply Forall_cons_1 in V2 as [_ V2]; constructor.
Qed.
Lemma valid_fields (c : Config) : valid_config os c ->
  32 <= VMMemoryMB c <= 4096 /\ 1 <= VMCPUs c <= 16 /\ 1 <= SOCKSPort c <= 65535.
Proof. intros V. destruct (v_vm os c V). pose proof (v_ports os c V) as Hp%Forall_cons_1. by destruct Hp as [Hp _]. Qed.
End Valid.

(** ** Properties of the settings tab *)

Inductive setting_action :=
  | MemMoved (n : Z) | CpuMoved (n : Z) | SocksTyped (s : string) | VerboseTicked (on : bool)
  | SavePressed (save : Config -> message) | ResetConfirmed.
Definition run_setting `{U : UnicodeTables} (a : setting_action) (p : world * Settings) : world * Settings :=
  match a with
  | MemMoved n => mem_changed n p
  | CpuMoved n => cpu_changed n p
  | SocksTyped s => socks_changed s p
  | VerboseTicked on => verbose_changed on p
  | SavePressed save => (save_pressed save p).2
  | ResetConfirmed => reset_confirmed p
  end.
(** The ranges of the sliders. *)
Definition setting_ok (a : setting_action) : Prop :=
  match a with MemMoved n => 64 <= n <= 512 | CpuMoved n => 1 <= n <= 8 | _ => True end.

Section SettingsFacts.
Context `{U : UnicodeTables} (os : goos).
Definition tab_ok (p : world * Settings) : Prop := valid_config os (a_cfg p.1) /\ settings_ok (a_cfg p.1) p.2.
Lemma edited_ok (f : edits -> edits) (label : Settings -> Settings) (p : world * Settings) :
  tab_ok p ->
  (forall t, dirty (label t) = dirty t /\ tab_text (label t) = tab_text t) ->
  (let e := f (edits_of (a_cfg p.1)) in
   32 <= e_mem e <= 4096 /\ 1 <= e_cpus e <= 16 /\ 1 <= e_socks e <= 65535 /\
   e_proxy e = Proxy (a_cfg p.1) /\ e_bridge e = Bridge (a_cfg p.1)) ->
  tab_ok (edited f label p).
Proof.
  intros [V [_ Ht]] Hl (Hm & Hc & Hs & Hp & Hb). unfold edited, tab_ok; cbn [fst snd].
  split.
  - rewrite a_cfg_edit. apply valid_edits; [done..| |]; [rewrite Hp|rewrite Hb]; apply V.
  - apply markDirty_ok. by destruct (Hl p.2) as [-> ->].
Qed.
Lemma run_setting_ok (a : setting_action) (p : world * Settings) : setting_ok a -> tab_ok p -> tab_ok (run_setting a p).
Proof.
  intros Ha H. pose proof H as [V [Hd Ht]]. destruct (valid_fields os _ V) as (Hm & Hc & Hs).
  destruct a as [n|n|s|on|save|]; cbn [run_setting setting_ok] in *.
  - apply edited_ok; [done|done|]. cbn. split_and!; (lia || done).
  - apply edited_ok; [done|done|]. cbn. split_and!; (lia || done).
  - unfold socks_changed. destruct (Atoi s) as [n|e]; [|by split].
    destruct ((n <? 1) || (65535 <? n)) eqn:Hn; [by split|]. apply orb_false_iff in Hn as [H1%Z.ltb_ge H2%Z.ltb_ge].
    apply edited_ok; [done|done|]. cbn. split_and!; (lia || done).
  - apply edited_ok; [done|done|]. cbn. split_and!; (lia || done).
  - unfold save_pressed; cbn [snd]. split; cbn [fst snd]; [done|]. apply markDirty_ok. done.
  - apply edited_ok; [done|done|]. cbn. split_and!; (lia || done).
Qed.
End SettingsFacts.

(** Whatever is moved, typed, ticked, saved or reset in the settings tab, a
    valid configuration stays valid (a port that is not a number between 1 and
    65535 is never stored), and the mark of unsaved changes in the title is
    there exactly when a value differs from those last saved. *)
Theorem settings_keep_valid (U : UnicodeTables) (os : goos) (l : list setting_action) (w : world) :
  valid_config os (a_cfg w) -> Forall setting_ok l ->
  let p := foldl (fun p a => run_setting a p) (w, settingsTab (a_cfg w)) l in
  Validate os (a_cfg p.1) = Ok tt /\
  dirty p.2 = negb (bool_decide (tracked (a_cfg p.1) = orig p.2)) /\
  tab_text p.2 = (if dirty p.2 then "Settings *" else "Settings").
Proof.
  intros V Hl p. enough (tab_ok os p) as [V' [Hd Ht]] by (split; [by apply Validate_ok|done]).
  subst p. assert (tab_ok os (w, settingsTab (a_cfg w))) as H0.
  { split; [done|]. split; cbn; [|done]. by rewrite bool_decide_eq_true_2. }
  revert H0. generalize (w, settingsTab (a_cfg w)). clear V. induction Hl as [|a l Ha _ IH]; intros p H; [done|].
  cbn [foldl]. by apply IH, run_setting_ok.
Qed.
Lemma settings_keep_valid_witness :
  let w : world := ({| own := None; log := [] |}, running) in
  let p := foldl (fun p a => @run_setting ascii_tables a p) (w, settingsTab (a_cfg w))
             [MemMoved 512; SocksTyped "70000"; SocksTyped "9150"; VerboseTicked true] in
  @Validate ascii_tables linux (a_cfg p.1) = Ok tt /\
  dirty p.2 = negb (bool_decide (tracked (a_cfg p.1) = orig p.2)) /\
  tab_text p.2 = (if dirty p.2 then "Settings *" else "Settings").
Proof.
  apply (settings_keep_valid ascii_tables linux).
  - apply (proj1 (@Validate_ok ascii_tables linux _)). vm_compute. reflexivity.
  - repeat first [apply List.Forall_nil | apply List.Forall_cons]; cbn; (lia || done).
Defined.

(** "Save Config" takes the values for saved also when writing them failed. *)
Lemma save_clears_mark (save : Config -> message) (p : world * Settings) :
  tab_text p.2 = (if dirty p.2 then "Settings *" else "Settings") ->
  dirty (save_pressed save p).2.2 = false /\ tab_text (save_pressed save p).2.2 = "Settings".
Proof.
  intros H. unfold save_pressed; cbn [snd]. set (t := set_orig _ _).
  destruct (markDirty_ok (a_cfg p.1) t H) as [Hd Ht]. rewrite Ht, Hd, markDirty_orig. subst t. cbn [orig set_orig].
  by rewrite bool_decide_eq_true_2.
Qed.

(** ** Properties of the proxy and bridges tabs *)

(** Every proxy the menu offers is stored under a name the configuration
    rejects: after choosing one the configuration is no longer valid, so that a
    file saved with it cannot be loaded again.  Choosing none leaves a valid one. *)
Theorem proxy_choice_invalid (U : UnicodeTables) (os : goos) (val : string) (w : world) :
  valid_config os (a_cfg w) -> val ∈ proxyTypes ->
  let w' := (proxy_type_selected val w).1 in
  Validate os (a_cfg w') = Ok tt <-> val = "None".
Proof.
  intros V Hv w'. rewrite Validate_ok. subst w'. unfold proxy_type_selected. case_decide as Hn.
  - cbn [fst]. unfold edit_proxy. rewrite a_cfg_edit. split; [done|]. intros _.
    destruct (valid_fields os _ V) as (? & ? & ?). apply valid_edits; cbn; (lia || done || apply V || set_solver).
  - cbn [fst]. unfold edit_proxy. rewrite a_cfg_edit. split; [|done]. intros [_ _ _ _ _ _ Hp _ _ _ _ _]. cbn in Hp.
    exfalso. revert Hp Hv Hn. unfold proxyTypes. rewrite !elem_of_cons, !elem_of_nil. naive_solver.
Qed.
Lemma proxy_choice_invalid_witness :
  let w : world := ({| own := None; log := [] |}, running) in
  @Validate ascii_tables linux (a_cfg (proxy_type_selected "SOCKS5" w).1) = Ok tt <-> "SOCKS5" = "None".
Proof.
  apply (proxy_choice_invalid ascii_tables linux "SOCKS5").
  - apply (proj1 (@Validate_ok ascii_tables linux _)). vm_compute. reflexivity.
  - unfold proxyTypes. set_solver.
Defined.

Lemma drop_while_suffix {A} (p : A -> bool) (l : list A) : exists t, l = t ++ drop_while p l.
Proof. induction l as [|x l [t IH]]; [by exists []|]. simpl. destruct (p x); [|by exists []]. exists (x :: t). cbn. by rewrite <-IH. Qed.
Lemma drop_while_head {A} (p : A -> bool) (l : list A) (x : A) (t : list A) : drop_while p l = x :: t -> p x = false.
Proof. induction l as [|y l IH]; [done|]. simpl. destruct (p y) eqn:Hy; [done|]. by intros [= <- _]. Qed.
Lemma drop_while_stop {A} (p : A -> bool) (l : list A) : (forall x t, l = x :: t -> p x = false) -> drop_while p l = l.
Proof. destruct l as [|x l]; [done|]. intros H. simpl. by rewrite (H x l eq_refl). Qed.

Lemma TrimSpace_twice (s : string) : str_forallb is_ascii s = true -> TrimSpace (TrimSpace s) = TrimSpace s.
Proof.
  intros Ha. set (l := drop_while rune_space (runes s)). set (m := reverse (drop_while rune_space (reverse l))).
  assert (TrimSpace s = unrunes m) as Hs by done.
  assert (runes (unrunes m) = m) as Hm.
  { apply runes_unrunes. pose proof (forallb_TrimSpace is_ascii s Ha) as H. rewrite Hs in H. unfold unrunes in H.
    apply forallb_concat_inv, Forall_map in H. pose proof (runes_chunk s) as Hc.
    apply (drop_while_forall _ rune_space), Forall_reverse, (drop_while_forall _ rune_space), Forall_reverse in Hc.
    pose proof (proj2 (Forall_and _ _) (conj H Hc)) as Hb. eapply Forall_impl; [exact Hb|]. intros x [H1 H2]. by apply H2. }
  rewrite Hs at 1. unfold TrimSpace at 1. rewrite Hm, (drop_while_stop rune_space m).
  - subst m. by rewrite reverse_involutive, drop_while_twice.
  - intros x t Hx. destruct (drop_while_suffix rune_space (reverse l)) as [u Hu].
    apply (Logic.f_equal reverse) in Hu. rewrite reverse_involutive, reverse_app in Hu. fold m in Hu. rewrite Hx in Hu.
    by eapply drop_while_head.
Qed.

Lemma Split_forallb (p : ascii -> bool) (s : string) (c : ascii) :
  str_forallb p s = true -> Forall (fun x => str_forallb p x = true) (Split s c).
Proof.
  induction s as [|a s IH]; intros H; [by repeat constructor|]. simpl in *. apply andb_true_iff in H as [Ha Hs].
  specialize (IH Hs). destruct (Ascii.eqb a c); [by constructor|]. destruct (Split s c) as [|h t].
  - constructor; [by rewrite <-Ha; cbn; rewrite andb_true_r|constructor].
  - apply Forall_cons in IH as [Hh Ht]. constructor; [|done]. simpl. by rewrite Ha.
Qed.

(** A list of lines that the tab reads back as it is. *)
Definition line_ok (l : string) : Prop := l <> EmptyString /\ TrimSpace l = l /\ no_byte LF l = true.
Lemma bridge_lines_Join (ls : list string) : Forall line_ok ls -> bridge_lines_of (Join ls (str1 LF)) = ls.
Proof.
  intros H. unfold bridge_lines_of. destruct ls as [|l ls]; [vm_compute; done|].
  rewrite Split_Join; [|done|eapply Forall_impl; [exact H|]; by intros x (_ & _ & ?)].
  induction H as [|x xs (Hn & Ht & _) _ IH]; [done|]. cbn [map List.filter]. rewrite Ht.
  destruct (String.eqb x EmptyString) eqn:E; [by apply String.eqb_eq in E|]. cbn [negb]. by rewrite IH.
Qed.
Lemma bridges_text_ok (text : string) : str_forallb is_ascii text = true -> Forall line_ok (bridge_lines_of text).
Proof.
  intros Ha. unfold bridge_lines_of. apply Forall_forall. intros l Hl. apply list_elem_of_In, filter_In in Hl as [Hl Hn].
  apply in_map_iff in Hl as (x & <- & Hx). apply list_elem_of_In in Hx.
  pose proof (Split_no_byte text LF) as Hb. rewrite Forall_forall in Hb. specialize (Hb x Hx).
  assert (str_forallb is_ascii x = true) as Hxa.
  { pose proof (Split_forallb is_ascii text LF Ha) as H. rewrite Forall_forall in H. by apply H. }
  split_and!; [by intros E; rewrite E in Hn|by apply TrimSpace_twice|by apply forallb_TrimSpace].
Qed.

(** What is typed into the bridges field and what the tab shows for it next
    time agree: the stored lines, joined for display and read again, are the
    same lines (for ASCII text, the only one the overlay accepts), and none is
    empty, padded or broken in two. *)
Theorem bridges_reopen (text : string) (w : world) :
  str_forallb is_ascii text = true ->
  let w' := bridges_changed text w in
  bridge_lines_of (bridges_text (a_cfg w')) = bridge_lines_of text /\
  Forall line_ok (elems (Bridge_Bridges (Bridge (a_cfg w')))).
Proof.
  intros Ha w'.
  assert (elems (Bridge_Bridges (Bridge (a_cfg w'))) = bridge_lines_of text) as He.
  { subst w'. unfold bridges_changed, edit_bridge. rewrite a_cfg_edit. cbn. by destruct (bridge_lines_of text). }
  unfold bridges_text. rewrite He. split; [|by apply bridges_text_ok]. by apply bridge_lines_Join, bridges_text_ok.
Qed.
Lemma bridges_reopen_witness :
  let text := "  obfs4 192.0.2.1:443 AB  " +:+ String LF (String LF " obfs4 192.0.2.2:443 CD") in
  let w' := bridges_changed text ({| own := None; log := [] |}, running) in
  bridge_lines_of (bridges_text (a_cfg w')) = ["obfs4 192.0.2.1:443 AB"; "obfs4 192.0.2.2:443 CD"].
Proof.
  intros text w'. refine (eq_trans (proj1 (bridges_reopen text _ _)) _); vm_compute; reflexivity.
Defined.

(** ** Properties of the browser tab and of the start button *)

Lemma add_tab_event_last (h : list SecurityEvent) (ev : SecurityEvent) :
  add_tab_event (last_n tab_event_cap h) ev = last_n tab_event_cap (h ++ [ev]).
Proof.
  rewrite <-last_n_last_n. unfold add_tab_event. cbv zeta. destruct (_ <? _)%nat eqn:Hc; [done|].
  apply Nat.ltb_ge in Hc. by rewrite (last_n_short _ (_ ++ [ev])).
Qed.

Lemma tab_events_from (time_of_day : Z -> string) (evs h : list SecurityEvent) (t : BrowserTab) :
  b_events t = last_n tab_event_cap h ->
  b_events (foldl (fun t ev => (security_event time_of_day ev t).1) t evs) = last_n tab_event_cap (h ++ evs).
Proof.
  revert t h. induction evs as [|ev evs IH]; intros t h Ht; [by rewrite app_nil_r|]. cbn [foldl].
  rewrite (IH _ (h ++ [ev])); [by rewrite <-app_assoc|].
  unfold security_event. cbn [fst]. rewrite <-add_tab_event_last, <-Ht. by repeat case_decide.
Qed.

(** The event list of the browser tab holds the last two hundred events, in
    order, after any number of them. *)
Theorem tab_events_last (time_of_day : Z -> string) (evs : list SecurityEvent) :
  b_events (foldl (fun t ev => (security_event time_of_day ev t).1) browserTab evs) = last_n tab_event_cap evs.
Proof. by apply (tab_events_from time_of_day evs []). Qed.

(** At most one engine runs at a time as long as "Stop" is not pressed: the
    button for starting, the retry of the error dialog and quitting never
    produce a second one, and the cancel function is that of the running one. *)
Theorem one_run_without_stop (r : Runs) :
  reached (fun a => a <> PressStop) false r ->
  service r = false /\ forall i, i ∈ alive r -> cancel r = Some i.
Proof.
  unfold reached. intros H.
  assert (service (new_runs false) = false /\ forall i, i ∈ alive (new_runs false) -> cancel (new_runs false) = Some i) as H0
    by (split; [done|]; cbn; set_solver).
  revert H0. induction H as [|r1 r2 r3 (a & Ha & Hs) _ IH]; [done|]. intros [Hm Hc]. apply IH. clear IH.
  destruct Hs as [r|r|r|r i Hi]; [|done| |].
  - unfold startVM. rewrite Hm. destruct (cancel r) as [j|] eqn:Ej; [by rewrite Ej|]. cbn. split; [done|].
    intros i. rewrite elem_of_union, elem_of_singleton. intros [->|Hi]; [done|]. by specialize (Hc i Hi).
  - unfold doQuit, cancel_run. destruct (cancel r) as [j|] eqn:Ej; by rewrite ?Ej.
  - cbn. split; [done|]. intros j. rewrite elem_of_difference, elem_of_singleton. intros [Hj Hne].
    pose proof (Hc i Hi). pose proof (Hc j Hj). congruence.
Qed.
Lemma one_run_without_stop_witness : service (doQuit (startVM (new_runs false))) = false.
Proof.
  apply (one_run_without_stop (doQuit (startVM (new_runs false)))).
  eapply rtc_l; [exists PressStart; split; [discriminate|apply step_start]|].
  eapply rtc_l; [exists PressQuit; split; [discriminate|apply step_quit]|apply rtc_refl].
Defined.

(** With "Stop" pressed the guard fails: [a.cancel] is cleared before the run
    has ended, so that a second engine starts beside the first, and when the
    first ends it clears the cancel function of the second, which neither
    "Stop" nor "Quit" reaches any more. *)
Theorem stop_then_start_loses_run :
  exists r1 r2, reached (fun _ => True) false r1 /\ {[0%nat; 1%nat]} ⊆ alive r1 /\
    run_step (Ended 0) r1 r2 /\ 1%nat ∈ alive r2 /\ 1%nat ∉ cancelled r2 /\ stopVM r2 = r2 /\ doQuit r2 = r2.
Proof.
  set (r1 := startVM (stopVM (startVM (new_runs false)))). exists r1, (run_ended 0 r1). split_and!.
  - eapply rtc_l; [exists PressStart; split; [done|apply step_start]|].
    eapply rtc_l; [exists PressStop; split; [done|apply step_stop]|].
    eapply rtc_l; [exists PressStart; split; [done|apply step_start]|apply rtc_refl].
  - subst r1. cbn. set_solver.
  - constructor. subst r1. cbn. set_solver.
  - subst r1. cbn. set_solver.
  - subst r1. cbn. set_solver.
  - done.
  - done.
Qed.
