(* ===== verification/Observers.v ===== *)
(** * The observers of an engine

    [OnStateChange], [OnBootstrapProgress] and [transition] of
    [lifecycle/lifecycle.go] over the lives of [EngineLife], and the observer
    the application registers ([gui/app.go]): who is told what, and what the
    status tab shows.  The writing of a state and the calls of the observers
    that follow it are separate steps, so that what is shown is known at every
    moment between them. *)

From S2P Require Import Prelude GoStrings Config Control Retry Lifecycle LifecycleFacts LifecycleTheorems EngineLife Relays Panels.
Local Open Scope Z_scope.

(** ** Registering and telling *)

Inductive kind := OfState | OfBootstrap.
#[global] Instance kind_eq_dec : EqDecision kind.
Proof. solve_decision. Defined.
Inductive message := Transition (from to : State) | Progress (progress : Z) (summary : string).

(** What an event of the engine has its observers told, and which of them. *)
Definition message_of (k : kind) (e : event) : option message :=
  match e with Ev c => match c with
  | Notify a b => match k with OfState => Some (Transition a b) | OfBootstrap => None end
  | BootstrapProgress p s => match k with OfState => None | OfBootstrap => Some (Progress p s) end
  | _ => None
  end end.

(** The functions are numbered.  [engine] has run ahead to the end of an
    iteration; [untold] are its last events, which have not happened yet, and
    [calling] are the calls of observers that the last event that did happen
    still has to make.  The run makes them itself, one by one, before anything
    else. *)
Record Bus := {
  engine : life; observers : list nat; bootstrapObservers : list nat;
  untold : list event; calling : list (nat * message); told : list (nat * message)
}.
Definition NewBus (cfg : Config) : Bus :=
  {| engine := fresh cfg; observers := []; bootstrapObservers := []; untold := []; calling := []; told := [] |}.
Definition registered (k : kind) (b : Bus) : list nat := match k with OfState => observers b | OfBootstrap => bootstrapObservers b end.
Definition OnStateChange (fn : nat) (b : Bus) : Bus :=
  {| engine := engine b; observers := observers b ++ [fn]; bootstrapObservers := bootstrapObservers b;
     untold := untold b; calling := calling b; told := told b |}.
Definition OnBootstrapProgress (fn : nat) (b : Bus) : Bus :=
  {| engine := engine b; observers := observers b; bootstrapObservers := bootstrapObservers b ++ [fn];
     untold := untold b; calling := calling b; told := told b |}.
(** One event: the observers of its kind are copied, to be called in order. *)
Definition tell (b : Bus) (e : event) : list (nat * message) :=
  match message_of OfState e with
  | Some m => map (fun fn => (fn, m)) (observers b)
  | None => match message_of OfBootstrap e with Some m => map (fun fn => (fn, m)) (bootstrapObservers b) | None => [] end
  end.
(** The engine's state: before a transition that has not happened it is still
    the one that transition leaves. *)
Definition present (b : Bus) : State :=
  match trail (untold b) with (from, _) :: _ => from | [] => state (eng (es (engine b))) end.

Inductive bus_op :=
  | Register (k : kind) (fn : nat)
  | Step (o : op)                    (* an iteration is computed, or a request done *)
  | Event                            (* its next event happens: the state is written, the observers copied *)
  | Call.                            (* an observer is called *)

Section Bus.
Context `{U : UnicodeTables}.

Definition exec (o : bus_op) (b : Bus) : option Bus :=
  match o with
  | Register OfState fn => Some (OnStateChange fn b)
  | Register OfBootstrap fn => Some (OnBootstrapProgress fn b)
  | Step o =>
      match untold b, calling b, EngineLife.exec o (engine b) with
      | [], [], Some l => Some {| engine := l; observers := observers b; bootstrapObservers := bootstrapObservers b;
                                  untold := drop (length (tr (es (engine b)))) (tr (es l)); calling := []; told := told b |}
      | _, _, _ => None
      end
  | Event =>
      match calling b, untold b with
      | [], e :: u => Some {| engine := engine b; observers := observers b; bootstrapObservers := bootstrapObservers b;
                              untold := u; calling := tell b e; told := told b |}
      | _, _ => None
      end
  | Call =>
      match calling b with
      | c :: cs => Some {| engine := engine b; observers := observers b; bootstrapObservers := bootstrapObservers b;
                           untold := untold b; calling := cs; told := told b ++ [c] |}
      | [] => None
      end
  end.
Fixpoint run (os : list bus_op) (b : Bus) : option Bus :=
  match os with [] => Some b | o :: os' => match exec o b with Some b' => run os' b' | None => None end end.

(** What one function was told, is about to be told, and what there was to tell. *)
Definition addressed (fn : nat) (l : list (nat * message)) : list message := map snd (List.filter (fun p => bool_decide (p.1 = fn)) l).
Definition heard (fn : nat) (b : Bus) : list message := addressed fn (told b).
Definition waiting (fn : nat) (b : Bus) : list message := addressed fn (calling b).
Definition said (k : kind) (t : list event) : list message := omap (message_of k) t.
(** [t] has happened. *)
Definition happened (b : Bus) (t : list event) : Prop := tr (es (engine b)) = t ++ untold b.
(** Steps of the engine, calls, and registrations of others. *)
Definition others (k : kind) (fn : nat) (o : bus_op) : bool :=
  match o with Register _ g => negb (bool_decide (g = fn)) | _ => true end.

Lemma addressed_app (fn : nat) (t1 t2 : list (nat * message)) : addressed fn (t1 ++ t2) = addressed fn t1 ++ addressed fn t2.
Proof. unfold addressed. by rewrite List.filter_app, map_app. Qed.
Lemma addressed_cons (fn : nat) (p : nat * message) (l : list (nat * message)) : addressed fn (p :: l) = addressed fn [p] ++ addressed fn l.
Proof. exact (addressed_app fn [p] l). Qed.
Lemma addressed_none (fn : nat) (m : message) (l : list nat) : fn ∉ l -> addressed fn (map (fun g => (g, m)) l) = [].
Proof.
  unfold addressed. induction l as [|g l IH]; intros H; [done|]. apply not_elem_of_cons in H as [Hg H]. cbn.
  rewrite bool_decide_eq_false_2 by done. by apply IH.
Qed.
Lemma addressed_once (fn : nat) (m : message) (l1 l2 : list nat) : fn ∉ l1 -> fn ∉ l2 ->
  addressed fn (map (fun g => (g, m)) (l1 ++ fn :: l2)) = [m].
Proof.
  intros H1 H2. rewrite map_app, addressed_app, addressed_none by done. cbn [map]. rewrite addressed_cons, (addressed_none _ _ l2) by done.
  unfold addressed. cbn. by rewrite bool_decide_eq_true_2.
Qed.

(** [fn] observes the kind [k], once, and nothing else. *)
Definition observes (k : kind) (fn : nat) (b : Bus) : Prop :=
  (exists l1 l2, registered k b = l1 ++ fn :: l2 /\ fn ∉ l1 /\ fn ∉ l2) /\
    forall k', k' <> k -> fn ∉ registered k' b.
Lemma tell_addressed (k : kind) (fn : nat) (b : Bus) (e : event) : observes k fn b ->
  addressed fn (tell b e) = option_list (message_of k e).
Proof.
  intros [(l1 & l2 & E & H1 & H2) Hn]. unfold tell. destruct e as [T c].
  destruct c; try (by destruct k); destruct k; cbn [message_of option_list registered] in *.
  1, 4: rewrite E; by apply addressed_once. all: apply addressed_none; first [by apply (Hn OfBootstrap)|by apply (Hn OfState)].
Qed.
Lemma tell_absent (fn : nat) (b : Bus) (e : event) : (forall k, fn ∉ registered k b) -> addressed fn (tell b e) = [].
Proof.
  intros Ha. unfold tell. destruct (message_of OfState e); [by apply addressed_none, (Ha OfState)|].
  destruct (message_of OfBootstrap e); [by apply addressed_none, (Ha OfBootstrap)|done].
Qed.

Lemma exec_tr (o : op) (l l' : life) : EngineLife.exec o l = Some l' ->
  tr (es l') = tr (es l) ++ drop (length (tr (es l))) (tr (es l')).
Proof. intros H. apply exec_adds in H as (evs & -> & _). by rewrite drop_app_length. Qed.

(** The four kinds of operation. *)
Lemma bus_exec_inv (o : bus_op) (b b' : Bus) : exec o b = Some b' ->
  match o with
  | Register k g => engine b' = engine b /\ untold b' = untold b /\ calling b' = calling b /\ told b' = told b /\
    forall k2, registered k2 b' = if decide (k2 = k) then registered k2 b ++ [g] else registered k2 b
  | Step o => untold b = [] /\ calling b = [] /\ calling b' = [] /\ told b' = told b /\
    tr (es (engine b')) = tr (es (engine b)) ++ untold b' /\ EngineLife.exec o (engine b) = Some (engine b') /\
      forall k, registered k b' = registered k b
  | Event => exists e, untold b = e :: untold b' /\ calling b = [] /\ calling b' = tell b e /\ told b' = told b /\
    engine b' = engine b /\ forall k, registered k b' = registered k b
  | Call => exists c, calling b = c :: calling b' /\ told b' = told b ++ [c] /\ untold b' = untold b /\
    engine b' = engine b /\ forall k, registered k b' = registered k b
  end.
Proof.
  destruct o as [k g|o| |]; cbn [exec].
  - intros H. destruct k; injection H as <-; (split_and!; [done..|]); intros []; done.
  - destruct (untold b); [|done]. destruct (calling b); [|done]. destruct (EngineLife.exec o (engine b)) as [l|] eqn:E; [|done].
    intros [= <-]. cbn [engine untold calling told]. split_and!; try done; first [by eapply exec_tr|by intros []].
  - destruct (calling b); [|done]. destruct (untold b) as [|e u]; [done|]. intros [= <-]. exists e. by split_and!; try intros [].
  - destruct (calling b) as [|c cs]; [done|]. intros [= <-]. exists c. by split_and!; try intros [].
Qed.

(** What an observer heard or is about to hear grows by what happens. *)
Lemma exec_heard (k : kind) (fn : nat) (o : bus_op) (b b' : Bus) :
  observes k fn b -> (length (waiting fn b) <= 1)%nat -> others k fn o = true -> exec o b = Some b' ->
  observes k fn b' /\ (length (waiting fn b') <= 1)%nat /\
  exists evs, (forall t, happened b t -> happened b' (t ++ evs)) /\ heard fn b' ++ waiting fn b' = (heard fn b ++ waiting fn b) ++ said k evs.
Proof.
  intros Hb Hw Ho H. unfold heard, waiting, happened, observes in *. destruct o as [k' g|o| |]; apply bus_exec_inv in H; cbn [others] in *.
  - destruct H as (E1 & E2 & E3 & E4 & Hr). apply negb_true_iff, bool_decide_eq_false in Ho.
    split; [|split; [by rewrite E3|exists []; rewrite E1, E2, E3, E4, app_nil_r; split; [intros t; by rewrite app_nil_r|done]]].
    destruct Hb as [(l1 & l2 & E & H1 & H2) Hn]. split.
    + rewrite Hr. case_decide as Ek; [|by exists l1, l2]. exists l1, (l2 ++ [g]). rewrite E, <-app_assoc.
      split_and!; [done..|]. by rewrite not_elem_of_app, not_elem_of_cons; split; [|split; [|apply not_elem_of_nil]].
    + intros k2 Hk2. rewrite Hr. case_decide; [|by apply Hn]. rewrite not_elem_of_app, not_elem_of_cons.
      split; [by apply Hn|split; [done|apply not_elem_of_nil]].
  - destruct H as (E1 & E2 & E3 & E4 & Ht & _ & Hr). setoid_rewrite Hr. rewrite E3, E4, E2. split; [done|]. split; [cbn; lia|].
    exists []. change (said k []) with (@nil message). split; [intros t Ht'; by rewrite Ht, Ht', E1, !app_nil_r|by rewrite !app_nil_r].
  - destruct H as (e & E1 & E2 & E3 & E4 & E5 & Hr). setoid_rewrite Hr. rewrite E3, E4, E5, E1, E2, (tell_addressed k fn b e Hb).
    split; [done|]. split; [by destruct (message_of k e); cbn; lia|]. exists [e]. split; [intros t Ht; by rewrite Ht, <-app_assoc|].
    change (addressed fn []) with (@nil message). rewrite app_nil_r. unfold said. cbn. by destruct (message_of k e).
  - destruct H as (c & E1 & E2 & E3 & E4 & Hr). setoid_rewrite Hr. rewrite E1, E2, E3, E4, (addressed_cons fn c) in *. split; [done|].
    split; [rewrite length_app in Hw; lia|]. exists []. change (said k []) with (@nil message).
    rewrite addressed_app, app_nil_r, app_assoc. split; [intros t; by rewrite app_nil_r|done].
Qed.
Lemma run_heard (k : kind) (fn : nat) (os : list bus_op) (b b' : Bus) :
  observes k fn b -> (length (waiting fn b) <= 1)%nat -> forallb (others k fn) os = true -> run os b = Some b' ->
  (length (waiting fn b') <= 1)%nat /\
  exists evs, (forall t, happened b t -> happened b' (t ++ evs)) /\ heard fn b' ++ waiting fn b' = (heard fn b ++ waiting fn b) ++ said k evs.
Proof.
  revert b. induction os as [|o os IH]; intros b Hb Hw Ho H.
  { injection H as <-. split; [done|]. exists []. rewrite app_nil_r. split; [intros t; by rewrite app_nil_r|done]. }
  cbn in H, Ho. apply andb_true_iff in Ho as [Ho1 Ho2]. destruct (exec o b) as [b1|] eqn:E; [|done].
  destruct (exec_heard k fn o b b1 Hb Hw Ho1 E) as (Hb1 & Hw1 & e1 & T1 & M1). destruct (IH b1 Hb1 Hw1 Ho2 H) as (Hw2 & e2 & T2 & M2).
  split; [done|]. exists (e1 ++ e2). split; [intros t Ht; rewrite app_assoc; auto|].
  rewrite M2, M1. unfold said. by rewrite omap_app, !app_assoc.
Qed.
Lemma run_life (os : list bus_op) (b b' : Bus) : run os b = Some b' -> exists ops, lives ops (engine b) = Some (engine b').
Proof.
  revert b. induction os as [|o os IH]; intros b H; [injection H as <-; by exists []|]. cbn in H.
  destruct (exec o b) as [b1|] eqn:E; [|done]. destruct (IH b1 H) as [ops Ho]. apply bus_exec_inv in E. destruct o as [k g|o| |].
  - destruct E as [<- _]. by exists ops.
  - destruct E as (_ & _ & _ & _ & _ & El & _). exists (o :: ops). cbn. by rewrite El.
  - destruct E as (e & _ & _ & _ & _ & <- & _). by exists ops.
  - destruct E as (c & _ & _ & _ & <- & _). by exists ops.
Qed.

(** A function that was not registered is told nothing, and the trace splits
    into what happened and what is still to happen. *)
Definition absent (fn : nat) (b : Bus) : Prop := (forall k, fn ∉ registered k b) /\ heard fn b = [] /\ waiting fn b = [].
Lemma exec_absent (k : kind) (fn : nat) (o : bus_op) (b b' : Bus) :
  absent fn b -> others k fn o = true -> exec o b = Some b' -> absent fn b'.
Proof.
  unfold absent, heard, waiting. intros (Ha & Hh & Hw) Ho H. destruct o as [k' g|o| |]; apply bus_exec_inv in H; cbn [others] in *.
  - destruct H as (E1 & E2 & E3 & E4 & Hr). apply negb_true_iff, bool_decide_eq_false in Ho. rewrite E3, E4. split; [|done].
    intros k2. rewrite Hr. case_decide; [|done]. rewrite not_elem_of_app, not_elem_of_cons.
    split; [done|split; [done|apply not_elem_of_nil]].
  - destruct H as (E1 & E2 & E3 & E4 & _ & _ & Hr). setoid_rewrite Hr. by rewrite E3, E4.
  - destruct H as (e & E1 & E2 & E3 & E4 & _ & Hr). setoid_rewrite Hr. rewrite E3, E4. split_and!; [done|done|by apply tell_absent].
  - destruct H as (c & E1 & E2 & E3 & _ & Hr). setoid_rewrite Hr. rewrite E1, addressed_cons in Hw. apply app_eq_nil in Hw as [Hc Hw].
    by rewrite E2, addressed_app, Hh, Hc, Hw.
Qed.
Lemma run_absent (k : kind) (fn : nat) (os : list bus_op) (b b' : Bus) :
  absent fn b -> forallb (others k fn) os = true -> run os b = Some b' -> absent fn b'.
Proof.
  revert b. induction os as [|o os IH]; intros b Ha Ho H; [by injection H as <-|]. cbn in H, Ho.
  apply andb_true_iff in Ho as [Ho1 Ho2]. destruct (exec o b) as [b1|] eqn:E; [|done].
  eapply IH; [by eapply exec_absent|done|done].
Qed.
Lemma register_observes (k : kind) (fn : nat) (b : Bus) : absent fn b ->
  exists b', exec (Register k fn) b = Some b' /\ observes k fn b' /\ heard fn b' = [] /\ waiting fn b' = [] /\
    (forall t, happened b t -> happened b' t).
Proof.
  intros (Ha & Hh & Hw). pose proof (Ha OfState) as H1. pose proof (Ha OfBootstrap) as H2. cbn in H1, H2.
  destruct k; eexists; (split; [reflexivity|]); (split; [|done]); split.
  1, 3: (eexists _, []; split; [reflexivity|]; split; [done|apply not_elem_of_nil]).
  all: by intros [] Hk.
Qed.
Lemma run_split (os1 os2 : list bus_op) (b b1 : Bus) : run os1 b = Some b1 -> run (os1 ++ os2) b = run os2 b1.
Proof. revert b. induction os1 as [|o os IH]; intros b H; [by injection H as ->|]. cbn in *. destruct (exec o b); [by apply IH|done]. Qed.
(** Registered after [os1], told of all since. *)
Lemma hears_since (cfg : Config) (k : kind) (fn : nat) (os1 os2 : list bus_op) (b1 b2 : Bus) :
  run os1 (NewBus cfg) = Some b1 -> run (os1 ++ Register k fn :: os2) (NewBus cfg) = Some b2 ->
  forallb (others k fn) (os1 ++ os2) = true ->
  (length (waiting fn b2) <= 1)%nat /\
  exists evs, (forall t, happened b1 t -> happened b2 (t ++ evs)) /\ heard fn b2 ++ waiting fn b2 = said k evs.
Proof.
  intros H1 H2 Ho. rewrite forallb_app in Ho. apply andb_true_iff in Ho as [Ho1 Ho2]. rewrite (run_split _ _ _ _ H1) in H2. cbn [run] in H2.
  assert (absent fn b1) as Ha.
  { eapply run_absent; [|exact Ho1|exact H1]. split; [intros []; apply not_elem_of_nil|done]. }
  destruct (register_observes k fn b1 Ha) as (b' & E & Hob & Hh & Hw & He). rewrite E in H2.
  destruct (run_heard k fn os2 b' b2 Hob ltac:(by rewrite Hw; cbn; lia) Ho2 H2) as (Hl & evs & T & M).
  split; [done|]. exists evs. split; [auto|]. by rewrite M, Hh, Hw.
Qed.
Lemma said_trail (evs : list event) : said OfState evs = map (fun p => Transition p.1 p.2) (trail evs).
Proof.
  unfold said, trail. induction evs as [|[T c] evs IH]; [done|]. cbn [omap list_omap]. rewrite IH. by destruct c.
Qed.
End Bus.

(** ** The application *)

(** The observer of [App.Run]: the status tab follows, and the failed state
    opens a dialog. *)
Record Shown := { status : StatusTab; dialogs : nat }.
Definition on_state_change (m : message) (s : Shown) : Shown :=
  match m with
  | Transition _ to => {| status := updateStatus to (status s); dialogs := if decide (to = StateFailed) then S (dialogs s) else dialogs s |}
  | Progress p t => {| status := on_bootstrap p t (status s); dialogs := dialogs s |}
  end.
Definition show (ms : list message) (s : Shown) : Shown := foldl (fun s m => on_state_change m s) s ms.
(** Opened outside service mode, where nothing else writes the light: the poll
    of the service and the goroutine that repeats it are for service mode. *)
Definition opened : Shown := {| status := statusTab false false false; dialogs := 0 |}.

(** ** Properties *)

(** An observer that registers once hears, in order, each transition (or each
    bootstrap report) of the engine from its registration on, and no other,
    however many runs there are and whoever else registers; the last one may
    still be on its way. *)
Theorem observer_hears (U : UnicodeTables) (cfg : Config) (k : kind) (fn : nat) (os1 os2 : list bus_op) (b1 b2 : Bus) :
  run os1 (NewBus cfg) = Some b1 -> run (os1 ++ Register k fn :: os2) (NewBus cfg) = Some b2 ->
  forallb (others k fn) (os1 ++ os2) = true ->
  (length (waiting fn b2) <= 1)%nat /\
  exists evs, (forall t, happened b1 t -> happened b2 (t ++ evs)) /\ heard fn b2 ++ waiting fn b2 = said k evs.
Proof. apply hears_since. Qed.

Lemma show_transitions (l : list (State * State)) (x x' : State) (s : Shown) :
  follow x l = Some x' -> Forall (fun p => p.2 <> StateFailed) l ->
  let s' := show (map (fun p => Transition p.1 p.2) l) s in
  dialogs s' = dialogs s /\ (l = [] -> status s' = status s) /\
  (l <> [] -> lastState (statusLight (status s')) = x' /\ FillColor (statusLight (status s')) = colorForState x' /\
    stateLabel (status s') = Description (statusLight (status s'))).
Proof.
  revert x s. induction l as [|[a b] l IH]; intros x s Hf Hn; [by injection Hf as ->|].
  apply Forall_cons in Hn as [Hb Hn]. cbn in Hf, Hb. destruct (decide (a = x)); [|done]. destruct (edge a b); [|done].
  assert (on_state_change (Transition a b) s = {| status := updateStatus b (status s); dialogs := dialogs s |}) as E
    by (cbn; by rewrite decide_False).
  pose proof (fun s => IH b s Hf Hn) as IH'. unfold show in *. cbn [foldl map fst snd]. rewrite E. destruct (IH' {| status := updateStatus b (status s); dialogs := dialogs s |}) as (H1 & H2 & H3).
  split_and!; [exact H1|done|]. intros _. destruct l as [|p l]; [|by apply H3]. injection Hf as ->. by split_and!.
Qed.

(** The failed state is in no trail of an engine. *)
Lemma trail_failed (x x' : State) (l : list (State * State)) : follow x l = Some x' -> x <> StateFailed ->
  Forall (fun p => p.2 <> StateFailed) l.
Proof.
  revert x. induction l as [|[a b] l IH]; intros x H Hx; [done|]. cbn in H. destruct (decide (a = x)) as [->|]; [|done].
  destruct (edge x b) eqn:E; [|done]. assert (b <> StateFailed) as Hb by by intros ->; destruct x.
  constructor; [done|by eapply IH].
Qed.

(** What has happened is a path to the engine's present state. *)
Lemma present_follow (U : UnicodeTables) (cfg : Config) (os : list bus_op) (b : Bus) (t : list event) :
  run os (NewBus cfg) = Some b -> happened b t -> follow StateInit (trail t) = Some (present b).
Proof.
  intros H Ht. destruct (run_life _ _ _ H) as [ops Hl]. apply lives_adds in Hl as (evs & T & Hf & _ & _).
  cbn [NewBus engine fresh es init tr eng NewEngine state List.app] in T, Hf. unfold happened in Ht. rewrite T in Ht. subst evs.
  rewrite trail_app, follow_app in Hf. destruct (follow StateInit (trail t)) as [x|]; [|done]. f_equal. unfold present.
  destruct (trail (untold b)) as [|[a c] l]; [by injection Hf|]. cbn in Hf. by destruct (decide (a = x)).
Qed.

(** C19. The application registers before anything is started, and its window
    opens outside service mode.  Then, at any moment, the light and its colour
    show the engine's present state, except between the writing of a state and
    the call of the application's observer, when they show the state that was
    left; the label is the light's description (Stopped before the first call),
    and the dialog with the retry button, which only the failed state opens, is
    never shown. *)
Theorem status_follows_engine (U : UnicodeTables) (cfg : Config) (ui : nat) (os : list bus_op) (b : Bus) :
  run (Register OfState ui :: os) (NewBus cfg) = Some b -> forallb (others OfState ui) os = true ->
  let s := show (heard ui b) opened in let t := status s in
  let x := match waiting ui b with Transition from _ :: _ => from | _ => present b end in
  lastState (statusLight t) = x /\ FillColor (statusLight t) = colorForState x /\
  stateLabel t = (if decide (heard ui b = []) then "Stopped" else Description (statusLight t)) /\
  dialogs s = O.
Proof.
  intros H Ho s t x. destruct (hears_since cfg OfState ui [] os (NewBus cfg) b eq_refl H Ho) as (Hl & evs & T & M).
  specialize (T [] eq_refl). cbn [List.app] in T. pose proof (present_follow _ _ _ _ _ H T) as Hf. rewrite said_trail in M.
  assert (exists l, heard ui b = map (fun p => Transition p.1 p.2) l /\ follow StateInit l = Some x) as (l & Eh & Hx).
  { subst x. destruct (waiting ui b) as [|m [|m' w]]; [|clear T|cbn in Hl; lia].
    - rewrite app_nil_r in M. by exists (trail evs).
    - destruct (trail evs) as [|[a c] l _] using rev_ind; [by apply app_eq_nil in M as [_ ?]|].
      rewrite map_app in M. apply app_inj_tail in M as [M ->]. exists l. split; [exact M|]. rewrite follow_app in Hf.
      destruct (follow StateInit l) as [y|]; [|done]. cbn in Hf. by destruct (decide (a = y)) as [->|]. }
  pose proof (show_transitions l StateInit _ opened Hx (trail_failed _ _ _ Hx ltac:(done))) as (H1 & H2 & H3).
  subst t s. rewrite Eh. rewrite H1. case_decide as E.
  - apply map_eq_nil in E as ->. injection Hx as <-. by rewrite H2.
  - destruct H3 as (L1 & L2 & L3); [by intros ->|]. by rewrite L1, L2, L3.
Qed.

(** A run up to [Running], its events told at once; another observer comes in
    between. *)
Fixpoint drained (fuel : nat) (b : Bus) : list bus_op :=
  match fuel, calling b, untold b with
  | O, _, _ | _, [], [] => []
  | S f, [], _ => Event :: match @exec ascii_tables Event b with Some b' => drained f b' | None => [] end
  | S f, _, _ => Call :: match @exec ascii_tables Call b with Some b' => drained f b' | None => [] end
  end.
Definition watched (os : list bus_op) : Bus := default (NewBus (DefaultConfig linux)) (@run ascii_tables os (NewBus (DefaultConfig linux))).
Definition settle (os : list bus_op) : list bus_op :=
  foldl (fun done o => (done ++ [o]) ++ drained 100 (watched (done ++ [o]))) [] os.
Definition nine_turns : list bus_op :=
  map Step (Start :: turns 0 4 calm_env) ++ [Register OfState 2; Register OfBootstrap 3] ++ map Step (turns 0 5 calm_env).
Definition told_nine : list bus_op := settle (Register OfState 1 :: nine_turns).
Definition told_four : list bus_op := settle (Register OfState 1 :: map Step (Start :: turns 0 4 calm_env)).
Definition rest_told : list bus_op := drop (S (length told_four)) told_nine.
Lemma observer_hears_witness :
  exists evs, (forall t, happened (watched told_four) t -> happened (watched (told_four ++ Register OfState 2 :: rest_told)) (t ++ evs)) /\
    heard 2 (watched (told_four ++ Register OfState 2 :: rest_told)) = said OfState evs /\
    length (heard 2 (watched (told_four ++ Register OfState 2 :: rest_told))) = 5%nat.
Proof.
  destruct (observer_hears ascii_tables (DefaultConfig linux) OfState 2 told_four rest_told (watched told_four)
    (watched (told_four ++ Register OfState 2 :: rest_told))) as (_ & evs & H1 & H2); [by vm_compute..|].
  assert (waiting 2 (watched (told_four ++ Register OfState 2 :: rest_told)) = []) as E by by vm_compute.
  rewrite E, app_nil_r in H2. exists evs. split_and!; [exact H1|exact H2|by vm_compute].
Defined.
(** One more turn, stopped when the next state is written and not yet told. *)
Definition one_untold : list bus_op := told_four ++ Step (Turn 0 calm_env) :: repeat Event 3.
Lemma status_follows_engine_witness :
  (let t := status (show (heard 1 (watched told_nine)) opened) in
   lastState (statusLight t) = StateRunning /\ stateLabel t = "Status: TorVM is running and connected to Tor") /\
  (present (watched one_untold) = StateWaitTAP /\
   lastState (statusLight (status (show (heard 1 (watched one_untold)) opened))) = StateLaunchVM).
Proof.
  pose proof (status_follows_engine ascii_tables (DefaultConfig linux) 1) as H. cbv zeta in H. split.
  - destruct (H (tail told_nine) (watched told_nine)) as (H1 & _ & H3 & _); [by vm_compute..|].
    cbv zeta. split; [rewrite H1|rewrite H3]; vm_compute; reflexivity.
  - split; [by vm_compute|]. destruct (H (tail one_untold) (watched one_untold)) as (-> & _); by vm_compute.
Defined.
