(* ===== verification/Rows.v ===== *)
(** * The lists of the tabs: [relays_tab.go], [circuits_tab.go], [browser_tab.go], [widgets.go]

    A [widget.List] has a length function and an update function; [Refresh]
    calls them for the rows in view, and scrolling or resizing calls the update
    function for rows that come into view (which rows are in view is up to the
    toolkit).  A row keeps what the last update put into it, the position its
    buttons act on included.  Here are the rows, and the relays tab whole: its
    three lists, its buttons, and what the other tabs and the configuration
    watcher do to the same configuration. *)

From S2P Require Import Prelude GoStrings StringFacts Config Torrc Control Retry Lifecycle LifecycleTheorems Secwatch Relays Circuits Panels.
Local Open Scope Z_scope.

(** ** Lists *)

Definition rows (A : Type) : Type := nat -> option A.
Definition no_rows {A} : rows A := fun _ => None.
Section ListWidget.
Context {A : Type} (length : nat) (update : nat -> A).
Definition in_view (view : gset nat) (i : nat) : bool := bool_decide (i ∈ view) && (i <? length)%nat.
Definition Refresh (view : gset nat) : rows A := fun i => if in_view view i then Some (update i) else None.
(** Other rows come into view; [again] are those of the rest the toolkit
    updates as well. *)
Definition Layout (view again : gset nat) (old : rows A) : rows A := fun i =>
  if in_view view i then (if decide (i ∈ again) then Some (update i) else match old i with Some a => Some a | None => Some (update i) end)
  else None.
(** Every row holds what an update would put into it now. *)
Definition synced (r : rows A) : Prop := forall i a, r i = Some a -> (i < length)%nat /\ a = update i.

Lemma in_view_lt (view : gset nat) (i : nat) : in_view view i = true -> (i < length)%nat.
Proof. unfold in_view. intros [_ H]%andb_true_iff. by apply Nat.ltb_lt. Qed.
Lemma Refresh_synced (view : gset nat) : synced (Refresh view).
Proof. intros i a. unfold Refresh. destruct (in_view view i) eqn:E; [|done]. intros [= <-]. split; [by eapply in_view_lt|done]. Qed.
Lemma Layout_synced (view again : gset nat) (old : rows A) : synced old -> synced (Layout view again old).
Proof.
  intros H i a. unfold Layout. destruct (in_view view i) eqn:E; [|done]. apply in_view_lt in E.
  destruct (decide _); [by intros [= <-]|]. destruct (old i) eqn:Eo; intros [= <-]; [|done]. by apply H.
Qed.
End ListWidget.
Lemma synced_grow {A} (n n' : nat) (f g : nat -> A) (r : rows A) :
  synced n f r -> (n <= n')%nat -> (forall i, (i < n)%nat -> g i = f i) -> synced n' g r.
Proof. intros H Hn Hf i a E. destruct (H i a E) as [Hi ->]. split; [lia|by rewrite Hf]. Qed.

(** ** The rows of the tabs *)

(** A row of an exclusion list: its label, and the index its button removes. *)
Record exclusion_row := { r_label : string; r_idx : nat }.
(** A row of the active relays: its label, and the fingerprint its buttons block. *)
Record active_row := { a_label : string; a_fp : string }.

Section Rows.
Context `{U : UnicodeTables}.
Definition update_exclusion (l : list string) (id : nat) : exclusion_row :=
  {| r_label := formatExcludeEntry (default EmptyString (l !! id)); r_idx := id |}.
Definition no_relay : RelayInfo := bare EmptyString EmptyString EmptyString.
Definition row_fp (fp : string) : string := if decide (fp = EmptyString) then fp else dollar fp.
Definition update_active (l : list RelayInfo) (id : nat) : active_row :=
  let ri := default no_relay (l !! id) in {| a_label := relay_display ri; a_fp := row_fp (Fingerprint ri) |}.
End Rows.

(** The circuits, the security events and the log lines: a row out of range
    keeps its text. *)
Definition circuit_row (circuits : list circuitEntry) (id : nat) (old : string) : string :=
  match circuits !! id with Some ce => circuit_label ce | None => old end.
Definition event_row (time_of_day : Z -> string) (events : list SecurityEvent) (id : nat) (old : string) : string :=
  match events !! id with Some ev => event_line time_of_day ev | None => old end.
Definition log_row (filtered : list string) (id : nat) (old : string) : string :=
  match filtered !! id with Some line => line | None => old end.

(** ** The relays tab *)

Record RelaysTab := {
  app : world; views : which -> gset nat; lists : which -> rows exclusion_row;
  activeRelays : list RelayInfo; active_view : gset nat; active : rows active_row
}.
#[global] Instance which_eq_dec : EqDecision which.
Proof. solve_decision. Defined.
Definition at_which {A} (k : which) (a : A) (f : which -> A) : which -> A := fun k' => if decide (k' = k) then a else f k'.

Section Tab.
Context `{env : Env} `{U : UnicodeTables} `{conn : Conn}.

Definition entries_of (k : which) (w : world) : list string := entries k (Relays (a_cfg w)).
Definition relaysTab (w : world) : RelaysTab :=
  {| app := w; views := fun _ => ∅; lists := fun _ => no_rows; activeRelays := []; active_view := ∅; active := no_rows |}.
Definition set_app (w : world) (t : RelaysTab) : RelaysTab :=
  {| app := w; views := views t; lists := lists t; activeRelays := activeRelays t; active_view := active_view t; active := active t |}.
Definition set_rows (k : which) (r : rows exclusion_row) (t : RelaysTab) : RelaysTab :=
  {| app := app t; views := views t; lists := at_which k r (lists t); activeRelays := activeRelays t; active_view := active_view t; active := active t |}.
Definition refresh_list (k : which) (t : RelaysTab) : RelaysTab :=
  set_rows k (Refresh (length (entries_of k (app t))) (update_exclusion (entries_of k (app t))) (views t k)) t.
Definition layout_list (k : which) (view again : gset nat) (t : RelaysTab) : RelaysTab :=
  let t' := {| app := app t; views := at_which k view (views t); lists := lists t; activeRelays := activeRelays t;
               active_view := active_view t; active := active t |} in
  set_rows k (Layout (length (entries_of k (app t))) (update_exclusion (entries_of k (app t))) view again (lists t k)) t'.
Definition layout_active (view again : gset nat) (t : RelaysTab) : RelaysTab :=
  {| app := app t; views := views t; lists := lists t; activeRelays := activeRelays t; active_view := view;
     active := Layout (length (activeRelays t)) (update_active (activeRelays t)) view again (active t) |}.

(** The buttons of the tab.  An entry that is not valid ends the handler of
    "Add" before its refresh, an empty country that of its buttons. *)
Definition add_pressed (k : which) (text : string) (t : RelaysTab) : RelaysTab :=
  match validateGUIRelayEntry (normalizeRelayEntry text) with
  | Err _ => t
  | Ok _ => refresh_list k (set_app (add_text k text (app t)) t)
  end.
Definition country_pressed (k : which) (selected : string) (t : RelaysTab) : RelaysTab :=
  if decide (extractCC selected = EmptyString) then t else refresh_list k (set_app (add_country k selected (app t)) t).
(** "Remove" of a row in view. *)
Definition remove_pressed (k : which) (row : nat) (t : RelaysTab) : RelaysTab :=
  match lists t k row with
  | Some r => refresh_list k (set_app (remove_entry k (r_idx r) (app t)) t)
  | None => t
  end.
(** "Block" and "Block Exit" of a row in view: the list is refreshed before the
    reload, which does not change it. *)
Definition block_pressed (k : which) (row : nat) (t : RelaysTab) : RelaysTab :=
  match active t row with
  | Some r =>
      if decide (a_fp r = EmptyString) then t
      else
        let t' := refresh_list k (set_app (add_entry k (a_fp r) (info ("blocked relay " +:+ a_fp r +:+ " (" +:+ list_name k +:+ ")")) (app t)) t) in
        set_app (hotReloadRelays (app t')) t'
  | None => t
  end.
Definition fetch_pressed (control : option client) (running : bool) (t : RelaysTab) : option RelaysTab :=
  match fetch_relays control running (activeRelays t) with
  | Ret (l, _, NoDialog) =>
      Some {| app := app t; views := views t; lists := lists t; activeRelays := l; active_view := active_view t;
              active := Refresh (length l) (update_active l) (active_view t) |}
  | Ret (_, _, _) => Some t
  | _ => None
  end.

Inductive tab_op :=
  | PressAdd (k : which) (text : string) | PressCountry (k : which) (selected : string)
  | PressRemove (k : which) (row : nat) | PressBlock (k : which) (row : nat)
  | PressFetch (control : option client) (running : bool) | Strict (b : bool)
  | LayoutList (k : which) (view again : gset nat) | LayoutActive (view again : gset nat)
  | FromCircuits (ri : RelayInfo) | FromGlobe (fp : string) (* the circuits tab *)
  | FromFile (c : Config).                                  (* the configuration watcher *)
Definition exec (o : tab_op) (t : RelaysTab) : option RelaysTab :=
  match o with
  | PressAdd k text => Some (add_pressed k text t)
  | PressCountry k s => Some (country_pressed k s t)
  | PressRemove k i => Some (remove_pressed k i t)
  | PressBlock k i => Some (block_pressed k i t)
  | PressFetch c r => fetch_pressed c r t
  | Strict b => Some (set_app (check_strict b (app t)) t)
  | LayoutList k v a => Some (layout_list k v a t)
  | LayoutActive v a => Some (layout_active v a t)
  | FromCircuits ri => Some (set_app (block_circuit ri (app t)) t)
  | FromGlobe fp => Some (set_app (block_globe fp (app t)) t)
  | FromFile c => Some (set_app (file_reload c (app t)) t)
  end.
Fixpoint run (os : list tab_op) (t : RelaysTab) : option RelaysTab :=
  match os with [] => Some t | o :: os' => match exec o t with Some t' => run os' t' | None => None end end.
End Tab.

(** ** Facts *)

Section Facts.
Context `{env : Env} `{U : UnicodeTables} `{conn : Conn}.

Lemma entries_add (k k' : which) (e : string) (then_ : world -> world) (w : world) :
  (forall v, a_cfg (then_ v) = a_cfg v) ->
  entries_of k' (add_entry k e then_ w) =
  (if decide (k' = k) then if containsEntry (entries_of k w) e then entries_of k w else entries_of k w ++ [e] else entries_of k' w).
Proof.
  intros Ht. unfold add_entry, entries_of. destruct (containsEntry _ _) eqn:E.
  - case_decide as Hk; [by subst|done].
  - rewrite Ht, a_cfg_edit_relays, entries_set. by destruct k, k'.
Qed.
Lemma entries_remove (k k' : which) (i : nat) (w : world) :
  entries_of k' (remove_entry k i w) =
  (if decide (k' = k) then if (i <? length (entries_of k w))%nat then take i (entries_of k w) ++ drop (S i) (entries_of k w) else entries_of k w
   else entries_of k' w).
Proof.
  unfold remove_entry. fold (entries_of k w). destruct (i <? _)%nat eqn:E.
  - unfold entries_of at 1. rewrite a_cfg_edit_relays, entries_set. by destruct k, k'.
  - case_decide as Hk; [by subst|done].
Qed.
Lemma entries_reload_if (k : which) (msg : string) (w : world) : entries_of k (reload_if_running msg w) = entries_of k w.
Proof. unfold entries_of. by rewrite a_cfg_reload_if. Qed.
Lemma a_cfg_file_reload (c : Config) (w : world) : a_cfg (file_reload c w) = a_cfg w.
Proof.
  unfold file_reload. cbv zeta. pose proof (ReloadConfig_eng c w.2) as H.
  generalize dependent (HasChanges (Diff (Cfg (eng w.2)) c)). intros b H.
  destruct (ReloadConfig c w.2) as [[[]|e] s']; destruct H as [He _]; cbn [is_ok andb] in He.
  - destruct b; [done|]. unfold a_cfg. cbn [fst snd]. by rewrite He.
  - unfold a_cfg. cbn [fst snd]. by rewrite He.
Qed.

Record tab_inv (t : RelaysTab) : Prop := {
  inv_lists : forall k, synced (length (entries_of k (app t))) (update_exclusion (entries_of k (app t))) (lists t k);
  inv_active : synced (length (activeRelays t)) (update_active (activeRelays t)) (active t)
}.
Lemma relaysTab_inv (w : world) : tab_inv (relaysTab w).
Proof. by split. Qed.

(** Entries that are only appended leave the rows right. *)
Lemma synced_app (l l' : list string) (r : rows exclusion_row) :
  synced (length l) (update_exclusion l) r -> synced (length (l ++ l')) (update_exclusion (l ++ l')) r.
Proof.
  intros H. eapply synced_grow; [exact H|rewrite length_app; lia|].
  intros i Hi. unfold update_exclusion. by rewrite lookup_app_l.
Qed.
Lemma grow_inv (w : world) (t : RelaysTab) : tab_inv t -> (forall k, exists l, entries_of k w = entries_of k (app t) ++ l) -> tab_inv (set_app w t).
Proof. intros [H1 H2] Hg. split; [|done]. intros k. cbn [app set_app lists]. destruct (Hg k) as [l ->]. by apply synced_app. Qed.
Lemma same_inv (w : world) (t : RelaysTab) : tab_inv t -> (forall k, entries_of k w = entries_of k (app t)) -> tab_inv (set_app w t).
Proof. intros H Hs. apply grow_inv; [done|]. intros k. exists []. by rewrite app_nil_r. Qed.
(** A change of one list, which is then refreshed. *)
Lemma refresh_inv (k : which) (w : world) (t : RelaysTab) : tab_inv t ->
  (forall k', k' <> k -> entries_of k' w = entries_of k' (app t)) -> tab_inv (refresh_list k (set_app w t)).
Proof.
  intros [H1 H2] Hs. split; [|done]. intros k'. cbn [refresh_list set_rows set_app app lists views]. unfold at_which.
  case_decide as E; [subst; apply Refresh_synced|]. rewrite Hs by done. apply H1.
Qed.
Lemma add_grows (k : which) (e : string) (then_ : world -> world) (w : world) : (forall v, a_cfg (then_ v) = a_cfg v) ->
  forall k', exists l, entries_of k' (add_entry k e then_ w) = entries_of k' w ++ l.
Proof.
  intros Ht k'. rewrite entries_add by done. case_decide as Hk; [subst|by exists []; rewrite app_nil_r].
  destruct (containsEntry _ _); [by exists []; rewrite app_nil_r|by eexists].
Qed.
Lemma others_add (k k' : which) (e : string) (then_ : world -> world) (w : world) : (forall v, a_cfg (then_ v) = a_cfg v) -> k' <> k ->
  entries_of k' (add_entry k e then_ w) = entries_of k' w.
Proof. intros Ht Hk. rewrite entries_add by done. by rewrite decide_False. Qed.

Lemma exec_inv (o : tab_op) (t t' : RelaysTab) : tab_inv t -> exec o t = Some t' -> tab_inv t'.
Proof.
  intros H. destruct o as [k text|k s|k i|k i|c r|b|k v a|v a|ri|fp|c]; cbn [exec].
  - intros [= <-]. unfold add_pressed, add_text. destruct (validateGUIRelayEntry _); [|done].
    apply refresh_inv; [done|]. intros k' Hk. by apply others_add.
  - intros [= <-]. unfold country_pressed, add_country. destruct (decide (extractCC s = EmptyString)); [done|].
    apply refresh_inv; [done|]. intros k' Hk. by apply others_add.
  - intros [= <-]. unfold remove_pressed. destruct (lists t k i); [|done]. apply refresh_inv; [done|].
    intros k' Hk. rewrite entries_remove. by rewrite decide_False.
  - intros [= <-]. unfold block_pressed. destruct (active t i) as [r|]; [|done]. case_decide; [done|].
    apply same_inv; [|intros k'; apply entries_reload_if].
    apply refresh_inv; [done|]. intros k' Hk. by apply others_add.
  - unfold fetch_pressed. destruct (fetch_relays _ _ _) as [[[l b] d]| |]; [|done..].
    destruct d; intros [= <-]; try exact H.
    destruct H as [H1 _]. split; [exact H1|apply Refresh_synced].
  - intros [= <-]. apply same_inv; [done|]. intros k. unfold check_strict, entries_of. rewrite a_cfg_edit_relays. by destruct k.
  - intros [= <-]. destruct H as [H1 H2]. split; [|done]. intros k'. cbn [layout_list set_rows app lists]. unfold at_which.
    case_decide as E; [subst; by apply Layout_synced|apply H1].
  - intros [= <-]. destruct H as [H1 H2]. split; [exact H1|]. by apply Layout_synced.
  - intros [= <-]. apply grow_inv; [done|]. apply add_grows. intros w. by rewrite a_cfg_reload_if.
  - intros [= <-]. apply grow_inv; [done|]. apply add_grows. intros w. by rewrite a_cfg_reload_if.
  - intros [= <-]. apply same_inv; [done|]. intros k. unfold entries_of. by rewrite a_cfg_file_reload.
Qed.
Lemma run_inv (os : list tab_op) (t t' : RelaysTab) : tab_inv t -> run os t = Some t' -> tab_inv t'.
Proof.
  revert t. induction os as [|o os IH]; intros t H Hr; [by injection Hr as <-|]. cbn in Hr.
  destruct (exec o t) as [t1|] eqn:E; [|done]. eapply IH; [by eapply exec_inv|done].
Qed.
Lemma row_remove (k : which) (i : nat) (r : exclusion_row) (t : RelaysTab) : tab_inv t -> lists t k i = Some r ->
  exists e, entries_of k (app t) !! i = Some e /\ r_label r = formatExcludeEntry e /\
    forall k', entries_of k' (app (remove_pressed k i t)) =
      (if decide (k' = k) then take i (entries_of k (app t)) ++ drop (S i) (entries_of k (app t)) else entries_of k' (app t)).
Proof.
  intros [H _] E. destruct (H k i r E) as [Hi ->]. destruct (lookup_lt_is_Some_2 _ _ Hi) as [e He]. exists e.
  unfold update_exclusion, remove_pressed. rewrite E, He. cbn [r_label r_idx default]. split_and!; [done|done|].
  intros k'. cbn [refresh_list set_rows set_app app update_exclusion r_idx]. rewrite entries_remove.
  apply Nat.ltb_lt in Hi. by rewrite Hi.
Qed.
Lemma row_block (k : which) (i : nat) (r : active_row) (t : RelaysTab) : tab_inv t -> active t i = Some r ->
  exists ri, activeRelays t !! i = Some ri /\ a_label r = relay_display ri /\
    app (block_pressed k i t) = block_active k (Fingerprint ri) (app t).
Proof.
  intros [_ H] E. destruct (H i r E) as [Hi ->]. destruct (lookup_lt_is_Some_2 _ _ Hi) as [ri Hri]. exists ri.
  unfold update_active, block_pressed, block_active. rewrite E, Hri. cbn [a_label a_fp default]. split_and!; [done|done|].
  unfold update_active. rewrite Hri. cbn [a_fp default id]. unfold row_fp, id. by case_decide.
Qed.
End Facts.

(** ** Properties *)

(** A button acts on what its row shows.  Whatever was added, removed, blocked
    and fetched in the tab, whatever the circuits tab and the configuration
    watcher did meanwhile, and whichever rows the toolkit has updated: the
    "Remove" of a row takes exactly the entry whose label the row shows out of
    its list and leaves the other list alone, and the "Block" of a row blocks
    the relay the row describes. *)
Theorem rows_act_on_what_they_show (env : Env) (U : UnicodeTables) (conn : Conn) (w : world) (os : list tab_op) (t : RelaysTab) :
  run os (relaysTab w) = Some t ->
  (forall k i r, lists t k i = Some r -> exists e, entries_of k (app t) !! i = Some e /\ r_label r = formatExcludeEntry e /\
    forall k', entries_of k' (app (remove_pressed k i t)) =
      (if decide (k' = k) then take i (entries_of k (app t)) ++ drop (S i) (entries_of k (app t)) else entries_of k' (app t))) /\
  (forall k i r, active t i = Some r -> exists ri, activeRelays t !! i = Some ri /\ a_label r = relay_display ri /\
    app (block_pressed k i t) = block_active k (Fingerprint ri) (app t)).
Proof.
  intros H. apply (run_inv os (relaysTab w) t (relaysTab_inv w)) in H as Hi. split.
  - intros k i r. by apply row_remove.
  - intros k i r. by apply row_block.
Qed.
Lemma rows_act_on_what_they_show_witness :
  let t := @run calm_env ascii_tables sent_always
             [LayoutList nodes {[0%nat; 1%nat]} ∅; PressAdd nodes "{us}"; PressAdd nodes "{de}"; LayoutList nodes {[0%nat; 1%nat]} ∅]
             (relaysTab ({| own := None; log := [] |}, running)) in
  match t with
  | Some t => option_map r_label (lists t nodes 1%nat) = Some (formatExcludeEntry (U := ascii_tables) "{DE}")
              /\ entries_of nodes (app (@remove_pressed ascii_tables nodes 1 t)) = ["{US}"]
  | None => False
  end.
Proof.
  intros t.
  assert (Hr : option_map (fun t => (entries_of nodes (app t), option_map r_label (lists t nodes 1%nat))) t
               = Some (["{US}"; "{DE}"], Some (formatExcludeEntry (U := ascii_tables) "{DE}"))) by by vm_compute.
  destruct t as [t'|] eqn:E; [|done]. cbn [option_map] in Hr.
  assert (He : entries_of nodes (app t') = ["{US}"; "{DE}"]) by congruence.
  assert (Hl : option_map r_label (lists t' nodes 1%nat) = Some (formatExcludeEntry (U := ascii_tables) "{DE}")) by congruence.
  clear Hr. split; [exact Hl|].
  destruct (rows_act_on_what_they_show calm_env ascii_tables sent_always _ _ t' E) as [H _].
  destruct (lists t' nodes 1%nat) as [r|] eqn:Er; [|done].
  destruct (H nodes 1%nat r Er) as (e & _ & _ & Hn). rewrite (Hn nodes), decide_True, He by done. reflexivity.
Defined.
