(* ===== verification/CircuitsPanel.v ===== *)
(** * The circuits tab whole: [gui/circuits_tab.go]

    [Circuits] has what one handler does; here they follow one another in any
    order, with polls of the automatic refresh in between: the list with its
    rows, the selection (a position), the globe with its taps, the buttons, and
    the questions the buttons open, which stay open while the list changes
    below them. *)

From Stdlib Require Import SpecFloat.
From S2P Require Import Retry Lifecycle LifecycleTheorems Prelude GoStrings StringFacts GoFloats Coastlines Globe GeoIP Control Relays Circuits Rows.
Local Open Scope Z_scope.

(** ** The tab *)

(** An open question: which relay of a circuit to block, or whether to block
    the one that was tapped. *)
Inductive question := WhichRelay (relays : list RelayInfo) | ThisRelay (fingerprint : string).
Record Panel := { a_world : world; tab : Tab; shown_rows : gset nat; labels : rows string; questions : list question }.

Definition label_of (circuits : list circuitEntry) (id : nat) : string := circuit_row circuits id "placeholder circuit".
Definition circuitsPanel (w : world) (width height : Z) : Panel := {|
  a_world := w;
  tab := {| circuits := []; selectedIdx := -1; relayCache := ∅; countLabel := "Circuits: 0";
            globe := {| rotation := rotation (NewGlobeWidget width height); tilt := tilt (NewGlobeWidget width height);
                        Globe.nodes := []; paths := []; size_w := width; size_h := height; shown := None; OnNodeTapped := true |} |};
  shown_rows := ∅; labels := no_rows; questions := [] |}.
Definition set_tab (t : Tab) (p : Panel) : Panel :=
  {| a_world := a_world p; tab := t; shown_rows := shown_rows p; labels := labels p; questions := questions p |}.
Definition set_world (w : world) (p : Panel) : Panel :=
  {| a_world := w; tab := tab p; shown_rows := shown_rows p; labels := labels p; questions := questions p |}.
Definition refresh_labels (p : Panel) : Panel :=
  {| a_world := a_world p; tab := tab p; shown_rows := shown_rows p;
     labels := Refresh (length (circuits (tab p))) (label_of (circuits (tab p))) (shown_rows p); questions := questions p |}.
Definition layout_labels (view again : gset nat) (p : Panel) : Panel :=
  {| a_world := a_world p; tab := tab p; shown_rows := view;
     labels := Layout (length (circuits (tab p))) (label_of (circuits (tab p))) view again (labels p); questions := questions p |}.
Definition ask (q : question) (p : Panel) : Panel :=
  {| a_world := a_world p; tab := tab p; shown_rows := shown_rows p; labels := labels p; questions := questions p ++ [q] |}.
Definition answered (n : nat) (p : Panel) : Panel :=
  {| a_world := a_world p; tab := tab p; shown_rows := shown_rows p; labels := labels p;
     questions := take n (questions p) ++ drop (S n) (questions p) |}.

Section Panel.
Variables Sin Cos Acos : spec_float -> spec_float.
Variable Atan2 : spec_float -> spec_float -> spec_float.
Context `{conn : Conn} `{U : UnicodeTables} `{env : Env}.

(** A poll refreshes the list when it had an answer. *)
Definition polled (control : option client) (running : bool) (msg : option string) (t : Tab) (p : Panel) : Panel :=
  match control, running, msg with Some _, true, None => refresh_labels (set_tab t p) | _, _, _ => set_tab t p end.
Definition poll (control : option client) (running : bool) (p : Panel) : outcome Panel :=
  r ← pollCircuits Sin Cos Acos Atan2 control running (tab p);
  let '(t, _, msg) := r in mret (polled control running msg t p).
(** "Close Circuit": the poll at its end is that of a closed circuit. *)
Definition close_pressed (control : option client) (running : bool) (p : Panel) : outcome Panel :=
  r ← close_circuit Sin Cos Acos Atan2 control running (tab p);
  let '(t, _, d, said) := r in
  match d, said with NoDialog, [_] => mret (polled control running None t p) | _, _ => mret (set_tab t p) end.
(** "Block Relay" opens the question with the relays of the selected circuit. *)
Definition block_pressed (p : Panel) : Panel :=
  match selected (tab p) with
  | Some ce => match ce_resolved ce with [] => p | l => ask (WhichRelay l) p end
  | None => p
  end.
Definition tapped (x y : spec_float) (p : Panel) : Panel :=
  match Tapped Sin Cos x y (globe (tab p)) with Some fp => ask (ThisRelay fp) p | None => p end.
(** "Block" of a question: [choice] is the position selected in its menu. *)
Definition confirm (n : nat) (choice : option nat) (p : Panel) : Panel :=
  match questions p !! n with
  | Some (WhichRelay l) =>
      match choice with
      | Some j => match l !! j with Some ri => set_world (block_circuit ri (a_world p)) (answered n p) | None => answered n p end
      | None => answered n p
      end
  | Some (ThisRelay fp) => set_world (block_globe fp (a_world p)) (answered n p)
  | None => p
  end.
Definition moved (m : GlobeWidget -> outcome GlobeWidget) (p : Panel) : outcome Panel :=
  g ← m (globe (tab p)); mret (set_tab (set_globe g (tab p)) p).

Inductive panel_op :=
  | Poll (control : option client) (running : bool)      (* "Refresh", the automatic refresh, a transition to Running *)
  | Select (id : nat) | LayoutCircuits (view again : gset nat)
  | PressClose (control : option client) (running : bool) | PressBlock | TapGlobe (x y : spec_float)
  | Confirm (n : nat) (choice : option nat) | Cancel (n : nat)
  | DragGlobe (dx dy : spec_float) | KeyGlobe (k : key)
  | Elsewhere (w : world).                               (* the other tabs, the engine, the watcher *)
Definition exec (o : panel_op) (p : Panel) : outcome Panel :=
  match o with
  | Poll c r => poll c r p
  | Select id => t ← OnSelected Sin Cos Acos Atan2 (Z.of_nat id) (tab p); mret (set_tab t p)
  | LayoutCircuits v a => mret (layout_labels v a p)
  | PressClose c r => close_pressed c r p
  | PressBlock => mret (block_pressed p)
  | TapGlobe x y => mret (tapped x y p)
  | Confirm n j => mret (confirm n j p)
  | Cancel n => mret (answered n p)
  | DragGlobe dx dy => moved (Dragged Sin Cos Acos Atan2 dx dy) p
  | KeyGlobe k => moved (TypedKey Sin Cos Acos Atan2 k) p
  | Elsewhere w => mret (set_world w p)
  end.
Fixpoint run (os : list panel_op) (p : Panel) : outcome Panel :=
  match os with [] => mret p | o :: os' => p' ← exec o p; run os' p' end.

(** ** Facts *)

(** Drawing changes no data of the globe. *)
Lemma renderFrame_data (g g' : GlobeWidget) : renderFrame Sin Cos Acos Atan2 g = Ret g' ->
  Globe.nodes g' = Globe.nodes g /\ paths g' = paths g.
Proof.
  unfold renderFrame. destruct (_ || _); [by intros [= <-]|]. destruct (_ <=? _); [done|]. cbv zeta.
  destruct (draw_lines _ _ _) as [i1| |]; [|done..]. cbn. destruct (draw_paths _ _ _ _ _ _ _) as [i2| |]; [|done..]. by intros [= <-].
Qed.
Lemma Dragged_data (dx dy : spec_float) (g g' : GlobeWidget) : Dragged Sin Cos Acos Atan2 dx dy g = Ret g' ->
  Globe.nodes g' = Globe.nodes g /\ paths g' = paths g.
Proof. apply (renderFrame_data (set_view _ _ g)). Qed.
Lemma TypedKey_data (k : key) (g g' : GlobeWidget) : TypedKey Sin Cos Acos Atan2 k g = Ret g' ->
  Globe.nodes g' = Globe.nodes g /\ paths g' = paths g.
Proof.
  destruct k; cbn [TypedKey]; intros H; try exact (renderFrame_data (set_view _ _ g) _ H); [exact (renderFrame_data g _ H)..|by injection H as <-].
Qed.

(** The globe shows the circuits and the selection. *)
Definition globe_ok (t : Tab) : Prop := (Globe.nodes (globe t), paths (globe t)) = globe_loop 0 (selectedIdx t) ∅ (circuits t).
Lemma updateGlobe_ok (t t' : Tab) : updateGlobe Sin Cos Acos Atan2 t = Ret t' ->
  globe_ok t' /\ circuits t' = circuits t /\ selectedIdx t' = selectedIdx t /\ countLabel t' = countLabel t.
Proof.
  unfold updateGlobe. destruct (globe_loop _ _ _ _) as [ns ps] eqn:E. destruct (SetData _ _ _ _ _ _ _) as [g| |] eqn:Eg; [|done..].
  intros [= <-]. apply renderFrame_data in Eg as [H1 H2]. unfold globe_ok. cbn [set_globe globe selectedIdx circuits]. by rewrite E, H1, H2.
Qed.
Definition count_of (l : list circuitEntry) : string := "Circuits: " +:+ itoa (Z.of_nat (length l)).
(** What a poll does: nothing without an answer, else everything follows the
    circuits of the answer; the selected position stays. *)
Definition tab_ok (t : Tab) : Prop := globe_ok t /\ countLabel t = count_of (circuits t).
Lemma pollCircuits_ok (control control' : option client) (running : bool) (msg : option string) (t t' : Tab) :
  tab_ok t -> pollCircuits Sin Cos Acos Atan2 control running t = Ret (t', control', msg) ->
  tab_ok t' /\ selectedIdx t' = selectedIdx t /\
  match control, running, msg with Some _, true, None => True | _, _, _ => t' = t end.
Proof.
  intros Ht. unfold pollCircuits. destruct control as [c|]; [|by intros [= <- _ <-]].
  destruct running; [|by intros [= <- _ <-]].
  destruct (GetCircuits c) as [[[circs|]|e] c1]; [|done|by intros [= <- _ <-]].
  destruct (poll_loop circs (relayCache t) c1) as [[l m] c2].
  destruct (updateGlobe _ _ _ _ _) as [t1| |] eqn:E; [|done..]. intros [= <- _ <-].
  apply updateGlobe_ok in E as (H1 & H2 & H3 & H4). unfold tab_ok. by rewrite H2, H3, H4.
Qed.

Record panel_ok (p : Panel) : Prop := {
  ok_tab : tab_ok (tab p);
  ok_rows : synced (length (circuits (tab p))) (label_of (circuits (tab p))) (labels p)
}.
Lemma circuitsPanel_ok (w : world) (width height : Z) : panel_ok (circuitsPanel w width height).
Proof. by split. Qed.
Lemma polled_ok (control : option client) (running : bool) (msg : option string) (t : Tab) (p : Panel) : panel_ok p -> tab_ok t ->
  match control, running, msg with Some _, true, None => True | _, _, _ => t = tab p end -> panel_ok (polled control running msg t p).
Proof.
  intros [H1 H2] Ht H. unfold polled. destruct control, running, msg; try (subst t; by split). split; [done|]. apply Refresh_synced.
Qed.
Lemma poll_keeps (control : option client) (running : bool) (p p' : Panel) : panel_ok p -> poll control running p = Ret p' -> panel_ok p'.
Proof.
  intros H. unfold poll. destruct (pollCircuits _ _ _ _ _ _ _) as [[[t c] msg]| |] eqn:E; [|done..]. intros [= <-].
  apply pollCircuits_ok in E as (H1 & _ & H2); [|by apply H]. by apply polled_ok.
Qed.
Lemma close_ok (control : option client) (running : bool) (p p' : Panel) : panel_ok p -> close_pressed control running p = Ret p' -> panel_ok p'.
Proof.
  intros H. unfold close_pressed, close_circuit. destruct (selected (tab p)) as [ce|]; [|by intros [= <-]; destruct H; split].
  case_decide; [by intros [= <-]; destruct H; split|]. destruct control as [c|]; [|by intros [= <-]; destruct H; split].
  destruct (CloseCircuit _ c) as [[u|e] c1]; [|by intros [= <-]; destruct H; split].
  destruct (pollCircuits _ _ _ _ _ _ _) as [[[t c'] msg]| |] eqn:E; [|done..].
  apply pollCircuits_ok in E as (H1 & _ & H2); [|by apply H]. destruct msg as [m|]; intros [= <-].
  - assert (t = tab p) as -> by by destruct running. destruct H; by split.
  - by apply (polled_ok (Some c) running None).
Qed.
Lemma moved_ok (m : GlobeWidget -> outcome GlobeWidget) (p p' : Panel) :
  (forall g g', m g = Ret g' -> Globe.nodes g' = Globe.nodes g /\ paths g' = paths g) -> panel_ok p -> moved m p = Ret p' -> panel_ok p'.
Proof.
  intros Hm [[H1 H2] H3]. unfold moved. destruct (m (globe (tab p))) as [g| |] eqn:E; [|done..]. intros [= <-].
  apply Hm in E as [E1 E2]. split; [split; [|done]|exact H3]. unfold globe_ok in *. cbn. by rewrite E1, E2.
Qed.
Lemma exec_ok (o : panel_op) (p p' : Panel) : panel_ok p -> exec o p = Ret p' -> panel_ok p'.
Proof.
  intros H. destruct o as [c r|id|v a|c r| |x y|n j|n|dx dy|k|w]; cbn [exec].
  - by apply poll_keeps.
  - unfold OnSelected. destruct (updateGlobe _ _ _ _ _) as [t| |] eqn:E; [|done..]. intros [= <-].
    apply updateGlobe_ok in E as (H1 & H2 & _ & H4). destruct H as [[_ H] Hr].
    split; [split; [done|]|]; cbn [tab set_tab labels]; rewrite H2; [by rewrite H4|done].
  - intros [= <-]. destruct H as [H Hr]. split; [exact H|by apply Layout_synced].
  - by apply close_ok.
  - intros [= <-]. unfold block_pressed. destruct (selected _) as [ce|]; [|done]. destruct (ce_resolved ce); [done|]. destruct H; by split.
  - intros [= <-]. unfold tapped. destruct (Tapped _ _ _ _ _); [|done]. destruct H; by split.
  - intros [= <-]. unfold confirm. destruct (questions p !! n) as [[l|fp]|]; [|by destruct H; split|done].
    destruct j as [j|]; [destruct (l !! j)|]; destruct H; by split.
  - intros [= <-]. destruct H; by split.
  - apply moved_ok; [|done]. apply Dragged_data.
  - apply moved_ok; [|done]. apply TypedKey_data.
  - intros [= <-]. destruct H; by split.
Qed.
Lemma run_ok (os : list panel_op) (p p' : Panel) : panel_ok p -> run os p = Ret p' -> panel_ok p'.
Proof.
  revert p. induction os as [|o os IH]; intros p H Hr; [by injection Hr as <-|]. cbn [run] in Hr.
  destruct (exec o p) as [p1| |] eqn:E; [|done..]. eapply IH; [by eapply exec_ok|done].
Qed.

(** *** What the buttons act on *)

(** "Close Circuit" closes the selected circuit and, if Tor agreed, polls. *)
Lemma close_selected (c : client) (running : bool) (p : Panel) (ce : circuitEntry) :
  selected (tab p) = Some ce -> ID (ce_info ce) <> EmptyString ->
  close_pressed (Some c) running p =
  match CloseCircuit (ID (ce_info ce)) c with (Err _, _) => Ret p | (Ok _, c1) => poll (Some c1) running p end.
Proof.
  intros Hs Hi. unfold close_pressed, close_circuit, poll. rewrite Hs, decide_False by done.
  destruct (CloseCircuit _ c) as [[u|e] c1]; [|by destruct p].
  destruct (pollCircuits _ _ _ _ _ _ _) as [[[t c'] msg]| |] eqn:E; [|done..]. cbn.
  assert (is_Some c') as [c2 ->].
  { unfold pollCircuits in E. destruct running; [|injection E as _ <- _; by eexists].
    destruct (GetCircuits c1) as [[[circs|]|e] c3]; [|done|injection E as _ <- _; by eexists].
    destruct (poll_loop circs _ c3) as [[l m] c4]. destruct (updateGlobe _ _ _ _ _); [|done..]. injection E as _ <- _. by eexists. }
  by destruct msg, running.
Qed.

(** A question is asked by one of the buttons, in the state it is pressed in. *)
Definition asked (q : question) (p : Panel) : Prop :=
  match q with
  | WhichRelay l => exists ce, selected (tab p) = Some ce /\ l = ce_resolved ce
  | ThisRelay fp => exists x y, Tapped Sin Cos x y (globe (tab p)) = Some fp
  end.
Lemma answered_in (n : nat) (q : question) (p : Panel) : q ∈ questions (answered n p) -> q ∈ questions p.
Proof. cbn. intros H. eapply elem_of_sublist; [exact H|apply without_sublist]. Qed.
Lemma polled_questions (control : option client) (running : bool) (msg : option string) (t : Tab) (p : Panel) :
  questions (polled control running msg t p) = questions p.
Proof. by destruct control, running, msg. Qed.
Lemma exec_asks (o : panel_op) (p p' : Panel) (q : question) : exec o p = Ret p' -> q ∈ questions p' -> q ∈ questions p \/ asked q p.
Proof.
  destruct o as [c r|id|v a|c r| |x y|n j|n|dx dy|k|w]; cbn [exec].
  - unfold poll. destruct (pollCircuits _ _ _ _ _ _ _) as [[[t c'] msg]| |]; [|done..]. intros [= <-]. rewrite polled_questions. by left.
  - destruct (OnSelected _ _ _ _ _ _) as [t| |]; [|done..]. intros [= <-]. by left.
  - intros [= <-]. by left.
  - unfold close_pressed. destruct (close_circuit _ _ _ _ _ _ _) as [[[[t c'] d] said]| |]; [|done..]. cbn.
    intros H Hq. left. revert Hq. destruct d; [destruct said as [|? []]|..]; injection H as <-; by rewrite ?polled_questions.
  - intros [= <-]. unfold block_pressed. destruct (selected (tab p)) as [ce|] eqn:E; [|by left].
    destruct (ce_resolved ce) as [|ri l] eqn:El; [by left|]. cbn. intros [Hq| ->%list_elem_of_singleton]%elem_of_app; [by left|right].
    by exists ce.
  - intros [= <-]. unfold tapped. destruct (Tapped _ _ _ _ _) as [fp|] eqn:E; [|by left]. cbn.
    intros [Hq| ->%list_elem_of_singleton]%elem_of_app; [by left|right]. by exists x, y.
  - intros [= <-] Hq. left. unfold confirm in Hq. destruct (questions p !! n) as [[l|fp]|]; [|by apply (answered_in n)|done].
    destruct j as [j|]; [destruct (l !! j)|]; by apply (answered_in n).
  - intros [= <-] Hq. left. by apply (answered_in n).
  - unfold moved. destruct (Dragged _ _ _ _ _ _ _); [|done..]. intros [= <-]. by left.
  - unfold moved. destruct (TypedKey _ _ _ _ _ _); [|done..]. intros [= <-]. by left.
  - intros [= <-]. by left.
Qed.
Lemma circuits_run_app (os os' : list panel_op) (p : Panel) : run (os ++ os') p = p' ← run os p; run os' p'.
Proof. revert p. induction os as [|o os IH]; intros p; [done|]. cbn [List.app run]. destruct (exec o p); [apply IH|done..]. Qed.
Lemma run_asks (os : list panel_op) (p p' : Panel) (q : question) : run os p = Ret p' -> q ∈ questions p' ->
  q ∈ questions p \/ exists os1 os2 p1, os = os1 ++ os2 /\ run os1 p = Ret p1 /\ asked q p1.
Proof.
  revert p'. induction os as [|o os IH] using rev_ind; intros p' H Hq; [left; by injection H as ->|].
  rewrite circuits_run_app in H. destruct (run os p) as [p1| |] eqn:E; [|done..]. cbn in H. destruct (exec o p1) as [p2| |] eqn:E2; [|done..].
  injection H as ->. destruct (exec_asks o p1 p' q E2 Hq) as [Hq1|Ha].
  - destruct (IH p1 eq_refl Hq1) as [|(os1 & os2 & p3 & -> & H1 & H2)]; [by left|right]. exists os1, (os2 ++ [o]), p3. by rewrite app_assoc.
  - right. by exists os, [o], p1.
Qed.
End Panel.

(** ** Properties *)

(** C38. The circuits tab shows one state of the circuits and its buttons act on
    what it shows.  In whatever order the tab is polled, scrolled, selected in,
    dragged, tapped, and its buttons and questions answered, with polls that
    fail in between: every row describes the circuit at its position, the count
    is that of the list, the globe has the paths of these circuits and marks
    only that of the circuit whose row is selected.  "Close Circuit" sends the
    command for the circuit of the selected row and polls if Tor agreed, "Block
    Relay" asks which relay of that circuit to block, a tap asks about a relay of
    a listed circuit; and the answer to a question, however much later, blocks
    the relay that was chosen among those asked about. *)
Theorem circuits_tab_in_step (Sin Cos Acos : spec_float -> spec_float) (Atan2 : spec_float -> spec_float -> spec_float)
    (conn : Conn) (U : UnicodeTables) (env : Env) (w : world) (width height : Z) (os : list panel_op) (p : Panel) :
  let p0 := circuitsPanel w width height in
  run Sin Cos Acos Atan2 os p0 = Ret p ->
  let l := circuits (tab p) in
  countLabel (tab p) = "Circuits: " +:+ itoa (Z.of_nat (length l)) /\
  (forall i s, labels p i = Some s -> exists ce, l !! i = Some ce /\ s = circuit_label ce /\
    (selectedIdx (tab p) = Z.of_nat i ->
      (forall c running, ID (ce_info ce) <> EmptyString ->
        close_pressed Sin Cos Acos Atan2 (Some c) running p =
        match CloseCircuit (ID (ce_info ce)) c with (Err _, _) => Ret p | (Ok _, c1) => poll Sin Cos Acos Atan2 (Some c1) running p end) /\
      questions (block_pressed p) = questions p ++ match ce_resolved ce with [] => [] | rs => [WhichRelay rs] end)) /\
  (forall q, q ∈ paths (globe (tab p)) -> exists j ce, l !! j = Some ce /\ CircuitID q = ID (ce_info ce) /\
    Nodes q = map globe_node (ce_resolved ce) /\ (Selected q = true <-> selectedIdx (tab p) = Z.of_nat j)) /\
  (forall x y fp, Tapped Sin Cos x y (globe (tab p)) = Some fp ->
    fp ∈ shown_relays l /\ questions (tapped Sin Cos x y p) = questions p ++ [ThisRelay fp]) /\
  (forall n q, questions p !! n = Some q ->
    (exists os1 os2 p1, os = os1 ++ os2 /\ run Sin Cos Acos Atan2 os1 p0 = Ret p1 /\ asked Sin Cos q p1) /\
    match q with
    | WhichRelay rs => forall j ri, rs !! j = Some ri -> a_world (confirm n (Some j) p) = block_circuit ri (a_world p)
    | ThisRelay fp => forall choice, a_world (confirm n choice p) = block_globe fp (a_world p)
    end).
Proof.
  intros p0 H l. destruct (run_ok Sin Cos Acos Atan2 os _ p (circuitsPanel_ok w width height) H) as [[Hg Hc] Hr].
  pose proof (globe_loop_spec l 0 (selectedIdx (tab p)) ∅) as Hl. unfold globe_ok in Hg. fold l in Hg, Hr. rewrite <-Hg in Hl.
  destruct Hl as (_ & Hn & Hp). split_and!; [exact Hc|..].
  - intros i s E. destruct (Hr i s E) as [Hi ->]. destruct (lookup_lt_is_Some_2 _ _ Hi) as [ce Hce]. exists ce.
    unfold label_of, circuit_row. rewrite Hce. split_and!; [done..|]. intros Hs.
    assert (selected (tab p) = Some ce) as Hsel.
    { unfold selected. rewrite Hs. fold l. replace (Z.of_nat i <? 0) with false by lia. by rewrite Nat2Z.id. }
    split; [intros c running Hid; by apply close_selected|].
    unfold block_pressed. rewrite Hsel. destruct (ce_resolved ce); [by rewrite app_nil_r|done].
  - intros q Hq. destruct (Hp q Hq) as (j & ce & Hj & Hid & Hno & Hs). exists j, ce. split_and!; [done..|].
    rewrite Hs, Nat.add_0_l. by split.
  - intros x y fp E. unfold tapped. rewrite E. split; [|done]. revert E. unfold Tapped. destruct (negb _); [done|]. destruct (_ || _); [done|].
    destruct (List.find _ _) as [n|] eqn:E; [|done]. intros [= <-]. apply List.find_some in E as [E _].
    apply (Hn (Globe.Fingerprint n)). apply list_elem_of_fmap. exists n. split; [done|]. by apply list_elem_of_In.
  - intros n q E. split.
    + destruct (run_asks Sin Cos Acos Atan2 os p0 p q H) as [[]%elem_of_nil|]; [by eapply list_elem_of_lookup_2|done].
    + unfold confirm. rewrite E. destruct q as [rs|fp]; [|done]. intros j ri ->. done.
Qed.

(** A client of a Tor that has this one circuit. *)
Definition one_circuit (line : string) : client :=
  {| written := EmptyString; arrivals := map GotLine ["250-circuit-status=" +:+ line; "250 OK"] |}.
Definition calm_panel (os : list panel_op) : outcome Panel :=
  run (conn := sent_always) (U := ascii_tables) (env := calm_env) id id id (fun _ x => x) os
    (circuitsPanel ({| own := None; log := [] |}, running) 5 5).
Definition seven_then_nine : list panel_op :=
  [LayoutCircuits {[0%nat]} ∅; Poll (Some (one_circuit "7 BUILT $AA~a PURPOSE=GENERAL")) true; Select 0;
   Poll (Some (one_circuit "9 BUILT $BB~b PURPOSE=GENERAL")) true].
Definition panel_after (os : list panel_op) : Panel :=
  match calm_panel os with Ret p => p | _ => circuitsPanel ({| own := None; log := [] |}, running) 5 5 end.
Lemma circuits_tab_in_step_witness :
  let p := panel_after seven_then_nine in
  countLabel (tab p) = "Circuits: 1" /\ labels p 0%nat = Some "#9 BUILT b (GENERAL)" /\
  exists ce, circuits (tab p) !! 0%nat = Some ce /\ "#9 BUILT b (GENERAL)" = circuit_label ce /\
    questions (block_pressed p) = questions p ++ match ce_resolved ce with [] => [] | rs => [WhichRelay rs] end.
Proof.
  intros p. assert (E : labels p 0%nat = Some "#9 BUILT b (GENERAL)") by by vm_compute.
  destruct (circuits_tab_in_step id id id (fun _ x => x) sent_always ascii_tables calm_env ({| own := None; log := [] |}, running) 5 5
    seven_then_nine p ltac:(by vm_compute)) as (H1 & H2 & _).
  split; [rewrite H1; by vm_compute|]. split; [exact E|].
  destruct (H2 0%nat _ E) as (ce & Hl & Hs & Hb). exists ce. split; [exact Hl|]. split; [exact Hs|].
  exact (proj2 (Hb ltac:(by vm_compute))).
Defined.

(** The selection is a position: circuit 7 was selected, a poll finds 9 in its
    place, and "Close Circuit" closes 9. *)
Example close_takes_other :
  labels (panel_after (take 3 seven_then_nine)) 0%nat = Some "#7 BUILT a (GENERAL)" /\
  selectedIdx (tab (panel_after (take 3 seven_then_nine))) = 0 /\
  match close_circuit (conn := sent_always) (U := ascii_tables) id id id (fun _ x => x)
    (Some {| written := EmptyString; arrivals := [GotLine "250 OK"] |}) false (tab (panel_after seven_then_nine)) with
  | Ret (_, Some c, _, said) => written c = "CLOSECIRCUIT 9" +:+ CRLF /\ said = ["closed circuit #9"]
  | _ => False
  end.
Proof. by vm_compute. Qed.
