(* ===== verification/BrowserPanel.v ===== *)
(** * The browser tab over the browser engine: [gui/browser_tab.go], [lifecycle/browser.go]

    The steps of [Browser], the announcement each transition makes to the
    tab's observer after it has written the state, the events of the security
    monitor, and the tab that is given both: what its light, its labels and its
    alerts say about the machine.  Writing a state and telling the tab are two
    steps, between which the other goroutine, the monitor and the buttons can
    go; a call of one of the tab's two callbacks is one step.  [Browser] has
    one run of the engine at a time, so a run that the button started begins
    here when the last one has returned; [idle_with_a_run] shows that the code
    does not wait for that. *)

From S2P Require Import Prelude GoStrings Config Retry Secwatch Panels.
From S2P Require Browser.
Local Open Scope Z_scope.

(** ** What is announced *)

(** The two goroutines that call [transition]. *)
Inductive goroutine := RunG | HandlerG.
Definition mover (a : Browser.step) : option goroutine :=
  match a with
  | Browser.SetTor _ | Browser.Cancel | Browser.PExit _ _ | Browser.PMark _ | Browser.PSend _ => None
  | Browser.HRead | Browser.HEvent | Browser.HCheck | Browser.HStopRecv | Browser.HStopTimeout | Browser.HCancel
  | Browser.HWake | Browser.HLaunch _ | Browser.HObserve | Browser.HReport => Some HandlerG
  | _ => Some RunG
  end.
(** The call of [transition] in a step, if it makes one. *)
Definition announced (a : Browser.step) (s : Browser.sys) : option Browser.BrowserState :=
  match a with
  | Browser.RBegin => Some (if Browser.tor s then Browser.Starting else Browser.WaitingForTor)
  | Browser.RTor => Some Browser.Starting
  | Browser.RLaunch ok => match Browser.vm_Start ok s with Some _ => None | None => Some Browser.Idle end
  | Browser.RReport | Browser.HReport => Some Browser.Running
  | Browser.RShut => Some Browser.Stopping
  | Browser.RCheck => if Browser.running s then None else Some Browser.Idle
  | Browser.RStopRecv | Browser.RStopTimeout => Some Browser.Idle
  | Browser.HEvent => Some Browser.Compromised
  | Browser.HWake => if Browser.tor s then Some Browser.Starting else None
  | Browser.HLaunch ok => match Browser.vm_Start ok s with Some _ => None | None => Some Browser.Idle end
  | _ => None
  end.

(** ** The tab and the engine *)

(** [run_tells] and [handler_tells]: the transition, from and to, of which a
    goroutine is about to call the tab's observer. *)
Record Panel := {
  engine : Browser.sys;
  launches : nat;                 (* runs the button has started that have not begun *)
  run_tells : option (Browser.BrowserState * Browser.BrowserState);
  handler_tells : option (Browser.BrowserState * Browser.BrowserState);
  tab : BrowserTab;
  alerts : list message
}.
Definition browserPanel : Panel :=
  {| engine := Browser.NewBrowserEngine; launches := 0; run_tells := None; handler_tells := None; tab := browserTab; alerts := [] |}.
Definition set_engine (s : Browser.sys) (p : Panel) : Panel :=
  {| engine := s; launches := launches p; run_tells := run_tells p; handler_tells := handler_tells p; tab := tab p; alerts := alerts p |}.
Definition set_launches (n : nat) (p : Panel) : Panel :=
  {| engine := engine p; launches := n; run_tells := run_tells p; handler_tells := handler_tells p; tab := tab p; alerts := alerts p |}.
Definition set_tells (g : goroutine) (x : option (Browser.BrowserState * Browser.BrowserState)) (p : Panel) : Panel :=
  {| engine := engine p; launches := launches p; run_tells := match g with RunG => x | HandlerG => run_tells p end;
     handler_tells := match g with RunG => handler_tells p | HandlerG => x end; tab := tab p; alerts := alerts p |}.
Definition set_tab (t : BrowserTab) (al : list message) (p : Panel) : Panel :=
  {| engine := engine p; launches := launches p; run_tells := run_tells p; handler_tells := handler_tells p; tab := t; alerts := alerts p ++ al |}.
Definition tells (g : goroutine) (p : Panel) : option (Browser.BrowserState * Browser.BrowserState) :=
  match g with RunG => run_tells p | HandlerG => handler_tells p end.

Inductive panel_op :=
  | Engine (a : Browser.step)
  | Tell (g : goroutine)              (* a goroutine calls the tab's observer of the state *)
  | Security (ev : SecurityEvent)     (* an event is given to the tab's observer *)
  | PressLaunch (tor : State) | PressStop.

Section Panel.
Variable time_of_day : Z -> string.
Context (AutoRemediate : bool) (ctxErr : Browser.exit).

(** A goroutine goes on when its call of the observer has returned. *)
Definition engine_step (a : Browser.step) (p : Panel) : option Panel :=
  match mover a ≫= fun g => tells g p, Browser.exec AutoRemediate ctxErr a (engine p) with
  | None, Some s =>
      Some match mover a, announced a (engine p) with
           | Some g, Some to => set_tells g (Some (Browser.state (engine p), to)) (set_engine s p)
           | _, _ => set_engine s p
           end
  | _, _ => None
  end.
(** [stopBrowser]: the cancel function of the last run. *)
Definition stopBrowser (p : Panel) : option Panel := engine_step Browser.Cancel p.
Definition exec (o : panel_op) (p : Panel) : option Panel :=
  match o with
  | Engine Browser.RBegin => match launches p with S n => engine_step Browser.RBegin (set_launches n p) | O => None end
  | Engine a => engine_step a p
  | Tell g =>
      match tells g p with
      | Some (_, to) => Some (set_tab (browser_state_changed to (tab p)) [] (set_tells g None p))
      | None => None
      end
  | Security ev => let '(t, alert) := security_event time_of_day ev (tab p) in Some (set_tab t (option_list alert) p)
  | PressLaunch tor =>
      match launchBrowser (Some (Browser.state (engine p))) tor with
      | LaunchStart => Some (set_launches (S (launches p)) p)
      | LaunchIgnored => Some p
      | LaunchError m => Some (set_tab (tab p) [m] p)
      end
  | PressStop => stopBrowser p
  end.
Fixpoint run (os : list panel_op) (p : Panel) : option Panel :=
  match os with [] => Some p | o :: os' => match exec o p with Some p' => run os' p' | None => None end end.

(** ** What the labels say *)

(** The last event of a type. *)
Definition last_of (ty : string) (evs : list SecurityEvent) : option SecurityEvent :=
  last (List.filter (fun ev => bool_decide (Type_ ev = ty)) evs).
Definition says {A} (evs : list SecurityEvent) (ty : string) (quiet : A) (told : SecurityEvent -> A) : A :=
  match last_of ty evs with Some ev => told ev | None => quiet end.
(** The labels of the monitors when a machine has run since before [evs]. *)
Record monitors (evs : list SecurityEvent) (t : BrowserTab) : Prop := {
  mon_canary : canaryLabel t = says evs "canary_violation" "Canaries: OK" (fun _ => "Canaries: VIOLATION DETECTED");
  mon_honey : honeyLabel t = says evs "honey_token_access" "Honey Tokens: Untouched" (fun ev => "Honey Tokens: ACCESSED - " +:+ Detail ev);
  mon_seccomp : seccompLabel t = says evs "seccomp_kill" "Seccomp: Active" (fun ev => "Seccomp: Violation PID " +:+ itoa (PID ev) +:+ " killed");
  mon_integrity : integrityLabel t = says evs "file_tamper" "File Integrity: OK" (fun ev => "File Integrity: TAMPERED - " +:+ Detail ev)
}.
Definition event_of (o : panel_op) : option SecurityEvent := match o with Security ev => Some ev | _ => None end.
Definition events (os : list panel_op) : list SecurityEvent := omap event_of os.

Lemma last_of_snoc (ty : string) (evs : list SecurityEvent) (ev : SecurityEvent) :
  last_of ty (evs ++ [ev]) = if decide (Type_ ev = ty) then Some ev else last_of ty evs.
Proof.
  unfold last_of. rewrite List.filter_app. cbn. case_decide.
  - rewrite bool_decide_eq_true_2 by done. by rewrite last_snoc.
  - rewrite bool_decide_eq_false_2 by done. by rewrite app_nil_r.
Qed.
Lemma security_event_monitors (evs : list SecurityEvent) (ev : SecurityEvent) (t : BrowserTab) :
  monitors evs t -> monitors (evs ++ [ev]) (security_event time_of_day ev t).1.
Proof.
  intros [H1 H2 H3 H4]. split; unfold says; rewrite last_of_snoc; unfold security_event; cbn [fst];
    repeat case_decide; try congruence; by cbn.
Qed.
Lemma security_event_state (ev : SecurityEvent) (t : BrowserTab) :
  b_light (security_event time_of_day ev t).1 = b_light t /\ b_state (security_event time_of_day ev t).1 = b_state t.
Proof. unfold security_event. cbn [fst]. by repeat case_decide. Qed.

(** The light and the label of the state follow the announcements. *)
Definition tab_of_state (x : Browser.BrowserState) (t : BrowserTab) : Prop :=
  b_light t = SetState (browserStateToLifecycle x) NewStatusLight /\ b_state t = browser_state_name x.
Lemma changed_state (to : Browser.BrowserState) (t : BrowserTab) : tab_of_state to (browser_state_changed to t).
Proof. by destruct to. Qed.
Lemma changed_events (to : Browser.BrowserState) (t : BrowserTab) : b_events (browser_state_changed to t) = b_events t.
Proof. by destruct to. Qed.
Lemma vm_Start_state (ok : bool) (s s' : Browser.sys) : Browser.vm_Start ok s = Some s' -> Browser.state s' = Browser.state s.
Proof. unfold Browser.vm_Start. destruct (Browser.running s), ok; try done. by intros [= <-]. Qed.
Lemma receive_state (ch : nat) (s : Browser.sys) (r : Browser.exit * Browser.sys) :
  Browser.receive ch s = Some r -> Browser.state r.2 = Browser.state s.
Proof. unfold Browser.receive. destruct (Browser.chans s !! ch); [|done]. by intros [= <-]. Qed.
(** What a step announces is the state it leaves. *)
Lemma announced_state (a : Browser.step) (s s' : Browser.sys) : Browser.exec AutoRemediate ctxErr a s = Some s' ->
  Browser.state s' = default (Browser.state s) (announced a s) /\ (announced a s <> None -> mover a <> None).
Proof.
  intros H. split; [|by destruct a]. revert H.
  destruct a; cbn [Browser.exec announced]; intros H;
    repeat (let E := fresh "E" in match type of H with context [match ?x with _ => _ end] => destruct x eqn:E end; try discriminate H);
    injection H as <-; cbn; try done; first [by eapply vm_Start_state | by eapply (receive_state _ _ (_, _))].
Qed.

(** What an operation does, by kind. *)
Lemma panel_exec_cases (o : panel_op) (p p' : Panel) : exec o p = Some p' ->
  match o with
  | Tell g => exists from to, tells g p = Some (from, to) /\ p' = set_tab (browser_state_changed to (tab p)) [] (set_tells g None p)
  | Security ev => p' = set_tab (security_event time_of_day ev (tab p)).1 (option_list (security_event time_of_day ev (tab p)).2) p
  | _ => tab p' = tab p /\ (exists al, alerts p' = alerts p ++ al) /\
      (engine p' = engine p /\ run_tells p' = run_tells p /\ handler_tells p' = handler_tells p \/
       run_tells p' = run_tells p /\ handler_tells p' = handler_tells p /\ Browser.state (engine p') = Browser.state (engine p) \/
       exists g to, tells g p = None /\ Browser.state (engine p') = to /\
         run_tells p' = run_tells (set_tells g (Some (Browser.state (engine p), to)) p) /\
         handler_tells p' = handler_tells (set_tells g (Some (Browser.state (engine p), to)) p))
  end.
Proof.
  assert (forall a q q', engine_step a q = Some q' -> tab q' = tab q /\ (exists al, alerts q' = alerts q ++ al) /\
    (engine q' = engine q /\ run_tells q' = run_tells q /\ handler_tells q' = handler_tells q \/
     run_tells q' = run_tells q /\ handler_tells q' = handler_tells q /\ Browser.state (engine q') = Browser.state (engine q) \/
     exists g to, tells g q = None /\ Browser.state (engine q') = to /\
         run_tells q' = run_tells (set_tells g (Some (Browser.state (engine q), to)) q) /\
         handler_tells q' = handler_tells (set_tells g (Some (Browser.state (engine q), to)) q))) as Hstep.
  { intros a q q'. unfold engine_step. destruct (mover a ≫= _) eqn:Hm; [done|].
    destruct (Browser.exec _ _ a _) as [s|] eqn:E; [|done]. apply announced_state in E as [E En]. intros [= <-].
    destruct (announced a (engine q)) as [to|]; destruct (mover a) as [g|]; cbn in Hm.
    2: by destruct (En ltac:(done) eq_refl).
    1: (split; [done|split; [by exists []; rewrite app_nil_r|]]; right; right; exists g, to; by destruct g).
    all: (split; [done|split; [by exists []; rewrite app_nil_r|right; left; done]]). }
  destruct o as [a|g|ev|x|]; cbn [exec].
  - intros H. assert (engine_step a p = Some p' \/ exists n, engine_step a (set_launches n p) = Some p') as [H1|[n H1]]
      by (destruct a; try (by left); destruct (launches p) as [|n]; [done|right; by exists n]); by apply Hstep in H1.
  - destruct (tells g p) as [[from to]|]; [|done]. intros [= <-]. by exists from, to.
  - destruct (security_event time_of_day ev (tab p)) as [t al]. by intros [= <-].
  - destruct (launchBrowser _ x) as [m| |]; intros [= <-]; cbn; (split; [done|]); (split; [|by left]);
      first [by exists [m]|exists []; by rewrite app_nil_r].
  - apply Hstep.
Qed.

Definition alert_of (ev : SecurityEvent) : message :=
  ShowInformation "Security Alert" ("Browser VM security event: " +:+ Type_ ev +:+ String LF (Detail ev)).
(** The log and the alerts after the events [h]. *)
Record panel_inv (h : list SecurityEvent) (p : Panel) : Prop := {
  pi_events : b_events (tab p) = last_n tab_event_cap h;
  pi_alerts : forall ev, ev ∈ h -> IsCritical ev = true -> alert_of ev ∈ alerts p
}.
Lemma panel_exec_inv (h : list SecurityEvent) (o : panel_op) (p p' : Panel) :
  panel_inv h p -> exec o p = Some p' -> panel_inv (h ++ events [o]) p'.
Proof.
  intros [H2 H3] H. apply panel_exec_cases in H.
  assert (tab p' = tab p /\ (exists al, alerts p' = alerts p ++ al) -> panel_inv h p') as Hsame.
  { intros [Ht [al Ha]]. split; [by rewrite Ht|]. intros e He Hc. rewrite Ha. apply elem_of_app. left. by apply H3. }
  destruct o as [a|g|ev|x|]; cbn [events omap list_omap event_of]; rewrite ?app_nil_r; try (by apply Hsame; destruct H as (? & ? & _)).
  - destruct H as (from & to & _ & ->). split; cbn; [by rewrite changed_events|by rewrite app_nil_r].
  - subst p'. pose proof (tab_events_from time_of_day [ev] h (tab p) H2) as S3. cbn [foldl] in S3. split; [exact S3|].
    intros e He Hc. cbn. apply elem_of_app. apply elem_of_app in He as [He| ->%list_elem_of_singleton]; [left; by apply H3|right].
    unfold security_event. rewrite Hc. by apply list_elem_of_singleton.
Qed.
Lemma panel_run_inv (h : list SecurityEvent) (os : list panel_op) (p p' : Panel) :
  panel_inv h p -> run os p = Some p' -> panel_inv (h ++ events os) p'.
Proof.
  revert h p. induction os as [|o os IH]; intros h p H Hr; [injection Hr as <-; by rewrite app_nil_r|].
  cbn [run] in Hr. destruct (exec o p) as [p1|] eqn:E; [|done].
  specialize (IH _ _ (panel_exec_inv h o p p1 H E) Hr). unfold events in *. rewrite <-app_assoc in IH.
  change (o :: os) with ([o] ++ os). by rewrite omap_app.
Qed.

(** The announcements on their way, and runs along which there never are two. *)
Definition outstanding (p : Panel) : list (Browser.BrowserState * Browser.BrowserState) :=
  option_list (run_tells p) ++ option_list (handler_tells p).
Fixpoint one_at_a_time (os : list panel_op) (p : Panel) : bool :=
  Nat.leb (length (outstanding p)) 1 &&
  match os with [] => true | o :: os' => match exec o p with Some p' => one_at_a_time os' p' | None => true end end.
(** What the tab shows of the state. *)
Definition in_step (p : Panel) : Prop :=
  match outstanding p with
  | (from, to) :: _ => Browser.state (engine p) = to /\ tab_of_state from (tab p)
  | [] => tab_of_state (Browser.state (engine p)) (tab p)
  end.
Lemma exec_in_step (o : panel_op) (p p' : Panel) :
  (length (outstanding p) <= 1)%nat -> (length (outstanding p') <= 1)%nat -> in_step p -> exec o p = Some p' -> in_step p'.
Proof.
  unfold in_step. intros Hl Hl' H E. apply panel_exec_cases in E.
  assert (tab p' = tab p /\ (engine p' = engine p /\ run_tells p' = run_tells p /\ handler_tells p' = handler_tells p \/
       run_tells p' = run_tells p /\ handler_tells p' = handler_tells p /\ Browser.state (engine p') = Browser.state (engine p) \/
       exists g to, tells g p = None /\ Browser.state (engine p') = to /\
         run_tells p' = run_tells (set_tells g (Some (Browser.state (engine p), to)) p) /\
         handler_tells p' = handler_tells (set_tells g (Some (Browser.state (engine p), to)) p)) -> in_step p') as Hcase.
  { unfold in_step. intros [Et Es]. rewrite Et. unfold outstanding in *.
    destruct Es as [(E1 & E2 & E3)|[(E2 & E3 & E1)|(g & to & E1 & E2 & E3 & E4)]].
    - by rewrite E1, E2, E3.
    - by rewrite E1, E2, E3.
    - rewrite E3, E4 in *. destruct g; cbn [set_tells run_tells handler_tells tells option_list app length] in *; rewrite E1 in H; cbn in *.
      + destruct (handler_tells p); [cbn in Hl'; lia|]. by split.
      + destruct (run_tells p); [cbn in Hl'; lia|]. by split. }
  destruct o as [a|g|ev|x|]; try (by apply Hcase; destruct E as (? & _ & ?)).
  - destruct E as (from & to & Eg & ->). unfold outstanding in *.
    destruct g; cbn [set_tab set_tells tells run_tells handler_tells engine tab option_list app] in *; rewrite Eg in *; cbn in *.
    + destruct (handler_tells p); [cbn in Hl; lia|]. cbn. destruct H as [<- _]. apply changed_state.
    + destruct (run_tells p); [cbn in Hl; lia|]. cbn in *. destruct H as [<- _]. apply changed_state.
  - subst p'. destruct (security_event_state ev (tab p)) as [S1 S2]. unfold outstanding, tab_of_state in *.
    cbn [set_tab run_tells handler_tells engine tab]. by rewrite S1, S2.
Qed.
Lemma run_in_step (os : list panel_op) (p p' : Panel) :
  in_step p -> one_at_a_time os p = true -> run os p = Some p' -> in_step p'.
Proof.
  revert p. induction os as [|o os IH]; intros p H Hl Hr; [by injection Hr as <-|]. cbn in Hl, Hr.
  apply andb_true_iff in Hl as [Hl Hl']. destruct (exec o p) as [p1|] eqn:E; [|done]. eapply IH; [|exact Hl'|exact Hr].
  eapply exec_in_step; [by apply Nat.leb_le| |exact H|exact E].
  destruct os; cbn in Hl'; apply andb_true_iff in Hl' as [Hl' _]; by apply Nat.leb_le.
Qed.

(** As long as the tab is told nothing the labels only follow the events. *)
Definition untold (o : panel_op) : bool := match o with Tell _ => false | _ => true end.
Lemma untold_monitors (h : list SecurityEvent) (os : list panel_op) (p p' : Panel) :
  monitors h (tab p) -> forallb untold os = true -> run os p = Some p' -> monitors (h ++ events os) (tab p').
Proof.
  revert h p. induction os as [|o os IH]; intros h p H Hq Hr; [injection Hr as <-; by rewrite app_nil_r|].
  cbn [run forallb] in Hr, Hq. apply andb_true_iff in Hq as [Ho Hq]. destruct (exec o p) as [p1|] eqn:E; [|done].
  assert (monitors (h ++ events [o]) (tab p1)) as Hm.
  { apply panel_exec_cases in E. destruct o as [a|g|ev|x|]; cbn [events omap list_omap event_of]; rewrite ?app_nil_r; try done;
      try (by destruct E as (-> & _)). subst p1. by apply security_event_monitors. }
  specialize (IH _ _ Hm Hq Hr). unfold events in *. rewrite <-app_assoc in IH.
  change (o :: os) with ([o] ++ os). by rewrite omap_app.
Qed.
Lemma panel_run_app (os1 os2 : list panel_op) (p p1 : Panel) : run os1 p = Some p1 -> run (os1 ++ os2) p = run os2 p1.
Proof. revert p. induction os1 as [|o os IH]; intros p H; [by injection H as ->|]. cbn in *. destruct (exec o p); [by apply IH|done]. Qed.
End Panel.

(** ** Properties *)

(** C34. What the browser tab says.  In every interleaving of the goroutines of the
    browser engine, their calls of the tab's observer, the events of the
    monitor and the two buttons: the log has the last two hundred events, and
    every critical event raised an alert.  If there never were two calls of the
    observer outstanding at once, the light and the label show the engine's
    state, or the state it left as long as the call that tells the new one is
    on its way.  And from the moment the tab is told that a machine runs (after
    the first launch as well as a restart) until it is told of the next
    transition, the four monitors say OK exactly as long as no event of their
    kind came since that moment, and report the last one otherwise. *)
Theorem browser_tab_truth (time_of_day : Z -> string) (AutoRemediate : bool) (ctxErr : Browser.exit)
    (os : list panel_op) (p : Panel) :
  run time_of_day AutoRemediate ctxErr os browserPanel = Some p ->
  (one_at_a_time time_of_day AutoRemediate ctxErr os browserPanel = true ->
   match outstanding p with
   | (from, to) :: _ => Browser.state (engine p) = to /\ tab_of_state from (tab p)
   | [] => tab_of_state (Browser.state (engine p)) (tab p)
   end) /\
  b_events (tab p) = last_n tab_event_cap (events os) /\
  (forall ev, ev ∈ events os -> IsCritical ev = true -> alert_of ev ∈ alerts p) /\
  (forall os1 os2 p1 g from, os = os1 ++ Tell g :: os2 -> run time_of_day AutoRemediate ctxErr os1 browserPanel = Some p1 ->
   tells g p1 = Some (from, Browser.Running) -> forallb untold os2 = true -> monitors (events os2) (tab p)).
Proof.
  intros H.
  assert (H0 : panel_inv [] browserPanel) by (split; [done|by intros ev ?%elem_of_nil]).
  destruct (panel_run_inv _ _ _ [] os _ _ H0 H) as [S3 S4]. split_and!; [|exact S3|exact S4|].
  - intros Hl. eapply run_in_step; [|exact Hl|exact H]. by split.
  - intros os1 os2 p1 g from -> H1 Hg Hq. rewrite (panel_run_app _ _ _ _ _ _ _ H1) in H. cbn [run exec] in H. rewrite Hg in H.
    by eapply (untold_monitors time_of_day AutoRemediate ctxErr []) in H; [exact H|by split|exact Hq].
Qed.
(** A machine is launched; a token is read and a canary trips. *)
Definition ev_of (ty sev detail : string) : SecurityEvent :=
  {| Type_ := ty; Severity := sev; Detail := detail; PID := 7; Remediation := EmptyString; Timestamp := 0 |}.
Definition tripped : list panel_op :=
  [Security (ev_of "honey_token_access" "warning" "ssh key"); Engine Browser.HRead; Security (ev_of "canary_violation" "critical" "stack")].
Definition launching : list panel_op :=
  [Engine (Browser.SetTor true); PressLaunch StateRunning; Engine Browser.RBegin; Tell RunG; Engine (Browser.RLaunch true);
   Engine Browser.RObserve].
Definition noon : Z -> string := fun _ => "12:00:00".
Definition after (os : list panel_op) : Panel := default browserPanel (run noon true None os browserPanel).
Lemma browser_tab_truth_witness :
  let p := after (launching ++ Engine Browser.RReport :: Tell RunG :: tripped) in
  b_state (tab p) = "Running" /\ canaryLabel (tab p) = "Canaries: VIOLATION DETECTED" /\
  honeyLabel (tab p) = "Honey Tokens: ACCESSED - ssh key" /\ seccompLabel (tab p) = "Seccomp: Active" /\
  alert_of (ev_of "canary_violation" "critical" "stack") ∈ alerts p.
Proof.
  intros p.
  destruct (browser_tab_truth noon true None (launching ++ Engine Browser.RReport :: Tell RunG :: tripped) p) as (S & _ & A & M); [by vm_compute|].
  destruct (M (launching ++ [Engine Browser.RReport]) tripped (after (launching ++ [Engine Browser.RReport])) RunG Browser.Starting)
    as [M1 M2 M3 _]; [by vm_compute..|].
  specialize (S ltac:(by vm_compute)). assert (outstanding p = []) as E by by vm_compute. rewrite E in S. destruct S as [_ S].
  rewrite S, M1, M2, M3. split_and!; [by vm_compute..|].
  apply A; [|done]. right. left.
Defined.

(** When the restart after a compromise fails the tab shows Idle and "Launch
    Browser" starts a run, although the first one has not returned: it still
    waits for the exit of its machine. *)
Definition running_machine : list panel_op := launching ++ [Engine Browser.RReport; Tell RunG; Engine Browser.REnter].
Definition failed_restart : list panel_op :=
  running_machine ++ [Engine Browser.HRead; Engine Browser.HEvent; Tell HandlerG] ++
  map Engine [Browser.HCheck; Browser.PExit 1 None; Browser.PMark 1; Browser.PSend 1; Browser.HStopRecv; Browser.HWake] ++
  [Tell HandlerG; Engine (Browser.HLaunch false); Tell HandlerG].
Example idle_with_a_run :
  run noon true None failed_restart browserPanel = Some (after failed_restart) /\
  b_state (tab (after failed_restart)) = "Idle" /\ Browser.rpc (engine (after failed_restart)) = Browser.RWait 1 /\
  launchBrowser (Some (Browser.state (engine (after failed_restart)))) StateRunning = LaunchStart.
Proof. by vm_compute. Qed.

(** Two calls of the observer at once can arrive in the other order: a run is
    stopped while a critical event that was already read is handled, the engine
    stays [Compromised], the tab shows Idle, and "Launch Browser" does nothing. *)
Definition stopped_compromised : list panel_op :=
  running_machine ++ [Engine Browser.HRead; PressStop; Engine Browser.RCancelWait; Engine Browser.RShut; Tell RunG;
                      Engine Browser.RCheck; Engine Browser.RStopTimeout; Engine Browser.HEvent; Tell HandlerG; Tell RunG].
Example calls_cross :
  let p := after stopped_compromised in
  run noon true None stopped_compromised browserPanel = Some p /\ outstanding p = [] /\
  Browser.state (engine p) = Browser.Compromised /\ b_state (tab p) = "Idle" /\
  launchBrowser (Some (Browser.state (engine p))) StateRunning = LaunchIgnored.
Proof. by vm_compute. Qed.

(** The monitor starts before the tab is told that the machine runs: a
    violation that it reports in between is wiped from the label. *)
Definition early_event : list panel_op :=
  launching ++ [Security (ev_of "canary_violation" "critical" "stack"); Engine Browser.RReport; Tell RunG].
Example early_event_wiped :
  run noon true None early_event browserPanel = Some (after early_event) /\
  canaryLabel (tab (after early_event)) = "Canaries: OK" /\ length (b_events (tab (after early_event))) = 1%nat.
Proof. by vm_compute. Qed.
