(* ===== verification/Service.v ===== *)
(** * Packages [launchd], [systemd] and [winsvc], and the service tabs of [gui]

    Installing, controlling and querying the system service on the three
    platforms, the notification and journal datagrams, and what the service
    tabs enable.  What a function does to the machine is the trace of its calls;
    the machine answers each one, given what was done before. *)

From S2P Require Import Prelude GoStrings StringFacts Config Torrc.
Local Open Scope Z_scope.

(** ** The machine *)

Inductive call :=
  | Exec (name : string) (args : list string)      (* [Run] or [CombinedOutput] *)
  | Output (name : string) (args : list string)    (* standard output alone *)
  | ReadFile (path : string)
  | WriteFile (path data : string)
  | CreateTemp (pattern : string)                  (* the answer is the name *)
  | WriteTemp (path data : string)
  | CloseTemp (path : string)
  | Remove (path : string)
  | Stat (path : string)
  | Executable                                     (* [os.Executable] *)
  | DialUnixgram (addr : string)
  | WriteConn (data : string)
  | CloseConn
  | ScmConnect | ScmDisconnect
  | ScmOpen (name : string)
  | ScmCreate (name exe : string) (args : list string)
  | ScmDelete | ScmClose
  | EventlogInstall (name : string) | EventlogRemove (name : string)
  | EventlogInfo (msg : string).
Class Machine := machine : list call -> call -> string * option error.

Definition sys (A : Type) : Type := list call -> result A * list call.
#[export] Instance sys_ret : MRet sys := fun A a tr => (Ok a, tr).
#[export] Instance sys_bind : MBind sys := fun A B f m tr =>
  match m tr with (Ok a, tr') => f a tr' | (Err e, tr') => (Err e, tr') end.
Definition sys_fail {A} (e : error) : sys A := fun tr => (Err e, tr).
Definition sys_wrap {A} (prefix : string) (m : sys A) : sys A := fun tr => let '(r, tr') := m tr in (wrap prefix r, tr').
(** [_ = m], and code that looks at the error itself. *)
Definition attempt {A} (m : sys A) : sys (result A) := fun tr => let '(r, tr') := m tr in (Ok r, tr').
Definition discard {A} (m : sys A) : sys unit := fun tr => (Ok tt, (m tr).2).
(** [defer m]. *)
Definition deferred {A} (cleanup : sys unit) (m : sys A) : sys A := fun tr =>
  let '(r, tr') := m tr in (r, (cleanup tr').2).

Section Calls.
Context `{mach : Machine}.
Definition call_out (c : call) : sys (string * option error) := fun tr => (Ok (machine tr c), tr ++ [c]).
Definition call_str (c : call) : sys string := fun tr =>
  (match machine tr c with (out, None) => Ok out | (_, Some e) => Err e end, tr ++ [c]).
Definition call_ (c : call) : sys unit := fun tr =>
  (match machine tr c with (_, None) => Ok tt | (_, Some e) => Err e end, tr ++ [c]).
End Calls.

(** ** [fmt.Sscanf(s, "%d", &n)]

    A sign and the digits after it; [None] leaves the variable alone. *)

Fixpoint take_digits (s : string) : string :=
  match s with String c t => if is_digit c then String c (take_digits t) else EmptyString | EmptyString => EmptyString end.
Definition scan_int (s : string) : option Z :=
  let tok :=
    match s with
    | String c t => if Ascii.eqb c "-" || Ascii.eqb c "+" then String c (take_digits t) else take_digits s
    | EmptyString => EmptyString
    end in
  match parse_int tok with inr n => Some n | inl _ => None end.

(** ** launchd *)

Module Launchd.

Definition safeValueRe (s : string) : bool :=
  negb (String.eqb s EmptyString) && str_forallb (fun c => is_alnum c || byte_in "/._- " c) s.
Definition serviceLabel : string := "org.torproject.torvm".
Definition plistPath : string := "/Library/LaunchDaemons/org.torproject.torvm.plist".
Definition logDir : string := "/var/log/torvm".
Definition logPath : string := "/var/log/torvm/torvm.log".
Definition binaryPath : string := "/usr/local/bin/torvm".

Record Status := { Installed : bool; Running : bool; RunAtLoad : bool; PID : Z; LastExit : Z; PlistPath : string }.
Definition no_status : Status :=
  {| Installed := false; Running := false; RunAtLoad := false; PID := 0; LastExit := 0; PlistPath := plistPath |}.

Definition escapeAppleScript (s : string) : string :=
  ReplaceByte (ReplaceByte s "\" "\\") (chr 34) (String "\" (str1 (chr 34))).

Definition tab : ascii := chr 9.
Definition line (n : nat) (s : string) : string := concat_str (replicate n (str1 tab)) +:+ s +:+ str1 LF.
Definition q (s : string) : string := dq +:+ s +:+ dq.
Definition generatePlist (runAtLoad : bool) : string := concat_str [
  line 0 ("<?xml version=" +:+ q "1.0" +:+ " encoding=" +:+ q "UTF-8" +:+ "?>");
  line 0 ("<!DOCTYPE plist PUBLIC " +:+ q "-//Apple//DTD PLIST 1.0//EN" +:+ " " +:+ q "http://www.apple.com/DTDs/PropertyList-1.0.dtd" +:+ ">");
  line 0 ("<plist version=" +:+ q "1.0" +:+ ">");
  line 0 "<dict>";
  line 1 "<key>Label</key>";
  line 1 ("<string>" +:+ serviceLabel +:+ "</string>");
  line 1 "<key>ProgramArguments</key>";
  line 1 "<array>";
  line 2 ("<string>" +:+ binaryPath +:+ "</string>");
  line 2 "<string>--headless</string>";
  line 1 "</array>";
  line 1 "<key>RunAtLoad</key>";
  line 1 ("<" +:+ (if runAtLoad then "true" else "false") +:+ "/>");
  line 1 "<key>KeepAlive</key>";
  line 1 "<dict>";
  line 2 "<key>SuccessfulExit</key>";
  line 2 "<false/>";
  line 1 "</dict>";
  line 1 "<key>StandardOutPath</key>";
  line 1 ("<string>" +:+ logPath +:+ "</string>");
  line 1 "<key>StandardErrorPath</key>";
  line 1 ("<string>" +:+ logPath +:+ "</string>");
  line 0 "</dict>";
  line 0 "</plist>"].

Section Commands.
Context `{mach : Machine} `{U : UnicodeTables}.

Definition validateShellValue (name value : string) : result unit :=
  if safeValueRe value then Ok tt else Err (Errorf (name +:+ " contains unsafe characters: " +:+ Quote value)).

(** The output is part of the error text. *)
Definition runPrivileged (command : string) : sys unit :=
  let script := "do shell script " +:+ q (escapeAppleScript command) +:+ " with administrator privileges" in
  r ← call_out (Exec "osascript" ["-e"; script]);
  match r with
  | (_, None) => mret tt
  | (out, Some e) => sys_fail (Errorf ("privileged command failed: " +:+ Error e +:+ ": " +:+ TrimSpace out))
  end.

Definition install_command (tmpPath : string) : string :=
  "mkdir -p '" +:+ logDir +:+ "' && cp '" +:+ tmpPath +:+ "' '" +:+ plistPath +:+ "' && chmod 644 '" +:+ plistPath
  +:+ "' && launchctl load '" +:+ plistPath +:+ "'".
Definition sys_lift {A} (r : result A) : sys A := fun tr => (r, tr).
Definition Install (runAtLoad : bool) : sys unit :=
  tmpPath ← sys_wrap "create temp file" (call_str (CreateTemp "torvm-plist-*.plist"));
  deferred (call_ (Remove tmpPath))
    (w ← attempt (call_ (WriteTemp tmpPath (generatePlist runAtLoad)));
     match w with
     | Err e => discard (call_ (CloseTemp tmpPath)) ;; sys_fail (Errorf ("write temp plist: " +:+ Error e))
     | Ok _ =>
         discard (call_ (CloseTemp tmpPath)) ;;
         sys_lift (each (fun p => validateShellValue p.1 p.2)
                     [("logDir", logDir); ("tmpPath", tmpPath); ("plistPath", plistPath)]) ;;
         runPrivileged (install_command tmpPath)
     end).
Definition Uninstall : sys unit :=
  runPrivileged ("launchctl unload '" +:+ plistPath +:+ "' 2>/dev/null; rm -f '" +:+ plistPath +:+ "'").
Definition Start : sys unit := runPrivileged ("launchctl kickstart -k system/" +:+ serviceLabel).
Definition Stop : sys unit := runPrivileged ("launchctl kill SIGTERM system/" +:+ serviceLabel).
Definition SetRunAtLoad (enabled : bool) : sys unit :=
  runPrivileged ("/usr/libexec/PlistBuddy -c " +:+ q ("Set :RunAtLoad " +:+ (if enabled then "true" else "false"))
    +:+ " '" +:+ plistPath +:+ "'").
Definition ReadLog (lines : Z) : sys string := sys_wrap "read log" (call_str (Output "tail" ["-n"; itoa lines; logPath])).

(** The line of [launchctl list] that names the service. *)
Definition read_line (l : string) (st : Status) : Status :=
  match Fields l with
  | f0 :: f1 :: _ :: _ =>
      let st1 :=
        if decide (f0 = "-") then st
        else let pid := default (PID st) (scan_int f0) in
             {| Installed := Installed st; Running := 0 <? pid; RunAtLoad := RunAtLoad st; PID := pid; LastExit := LastExit st;
                PlistPath := PlistPath st |} in
      {| Installed := Installed st1; Running := Running st1; RunAtLoad := RunAtLoad st1; PID := PID st1;
         LastExit := default (LastExit st1) (scan_int f1); PlistPath := PlistPath st1 |}
  | _ => st
  end.
Definition run_at_load (plist : string) : bool := Contains plist ("<key>RunAtLoad</key>" +:+ String LF (String tab "<true/>")).
Definition QueryStatus : sys Status :=
  data ← attempt (call_str (ReadFile plistPath));
  match data with
  | Err _ => mret no_status
  | Ok d =>
      let st := {| Installed := true; Running := false; RunAtLoad := run_at_load d; PID := 0; LastExit := 0; PlistPath := plistPath |} in
      out ← attempt (call_str (Output "launchctl" ["list"]));
      match out with
      | Err _ => mret st
      | Ok o =>
          match List.find (fun l => Contains l serviceLabel) (Split o LF) with
          | Some l => mret (read_line l st)
          | None => mret st
          end
      end
  end.
End Commands.
End Launchd.

(** ** systemd *)

Module Systemd.

Definition unitName : string := "torvm.service".
Definition unitPath : string := "/etc/systemd/system/" +:+ unitName.
Definition bundledUnit : string := "/usr/local/share/torvm/torvm.service".
Record ServiceStatus := { Installed : bool; Active : bool; Enabled : bool; PID : string; Status : string }.

Section Commands.
Context `{mach : Machine}.

Definition systemctl (args : list string) : sys unit := call_ (Exec "systemctl" args).
(** The output is trimmed and returned with the error. *)
Definition systemctlOutput (args : list string) : sys (string * option error) :=
  r ← call_out (Exec "systemctl" args); mret (TrimSpace r.1, r.2).

Definition Install : sys unit :=
  data ← sys_wrap ("systemd: read unit file " +:+ bundledUnit) (call_str (ReadFile bundledUnit));
  sys_wrap "systemd: write unit file" (call_ (WriteFile unitPath data)) ;;
  sys_wrap "systemd: daemon-reload" (systemctl ["daemon-reload"]) ;;
  sys_wrap "systemd: enable" (systemctl ["enable"; unitName]).
Definition Uninstall : sys unit :=
  discard (systemctl ["stop"; unitName]) ;;
  discard (systemctl ["disable"; unitName]) ;;
  discard (call_ (Remove unitPath)) ;;
  discard (systemctl ["daemon-reload"]).
Definition Start : sys unit := systemctl ["start"; unitName].
Definition Stop : sys unit := systemctl ["stop"; unitName].
Definition Restart : sys unit := systemctl ["restart"; unitName].
Definition Enable : sys unit := systemctl ["enable"; unitName].
Definition Disable : sys unit := systemctl ["disable"; unitName].

(** One line of [systemctl show]. *)
Definition show_line (st : ServiceStatus) (l : string) : ServiceStatus :=
  let st1 :=
    if HasPrefix l "MainPID=" then
      let pid := TrimPrefix l "MainPID=" in
      if decide (pid = "0") then st
      else {| Installed := Installed st; Active := Active st; Enabled := Enabled st; PID := pid; Status := Status st |}
    else st in
  if HasPrefix l "StatusText=" then
    {| Installed := Installed st1; Active := Active st1; Enabled := Enabled st1; PID := PID st1;
       Status := TrimPrefix l "StatusText=" |}
  else st1.
Definition is_nil {A} (r : result A) : bool := match r with Ok _ => true | Err _ => false end.
Definition QueryStatus : sys ServiceStatus :=
  s ← attempt (call_ (Stat unitPath));
  match s with
  | Err _ => mret {| Installed := false; Active := false; Enabled := false; PID := EmptyString; Status := EmptyString |}
  | Ok _ =>
      a ← attempt (systemctl ["is-active"; "--quiet"; unitName]);
      e ← attempt (systemctl ["is-enabled"; "--quiet"; unitName]);
      let st := {| Installed := true; Active := is_nil a; Enabled := is_nil e; PID := EmptyString; Status := EmptyString |} in
      out ← systemctlOutput ["show"; unitName; "--property=MainPID,StatusText"; "--no-pager"];
      match out.2 with
      | Some _ => mret st
      | None => mret (foldl show_line st (Split out.1 LF))
      end
  end.
Definition ReadJournalLogs (n : Z) : sys string :=
  out ← systemctlOutput ["--no-pager"; "-n"; itoa n; "-u"; unitName];
  match out.2 with
  | None => mret out.1
  | Some _ => sys_wrap "systemd: read journal" (call_str (Exec "journalctl" ["--no-pager"; "-n"; itoa n; "-u"; unitName]))
  end.

(** *** Datagrams *)

(** [NOTIFY_SOCKET] with a leading [@] names an abstract socket. *)
Definition socket_name (addr : string) : string :=
  match addr with String c t => if Ascii.eqb c "@" then String (chr 0) t else addr | EmptyString => EmptyString end.
Definition notify (env state : string) : sys unit :=
  if decide (env = EmptyString) then sys_fail (Errorf "systemd: NOTIFY_SOCKET not set")
  else
    sys_wrap "systemd: dial notify socket" (call_ (DialUnixgram (socket_name env))) ;;
    deferred (discard (call_ CloseConn)) (sys_wrap "systemd: write notify socket" (call_ (WriteConn state))).
Definition Ready (env : string) : sys unit := notify env "READY=1".
Definition Stopping (env : string) : sys unit := notify env "STOPPING=1".
Definition Watchdog (env : string) : sys unit := notify env "WATCHDOG=1".
Definition StatusText (env status : string) : sys unit := notify env ("STATUS=" +:+ status).
Definition MainPID (env : string) (pid : Z) : sys unit := notify env ("MAINPID=" +:+ itoa pid).
Definition IsRunningUnderSystemd (env : string) : bool := negb (String.eqb env EmptyString).

Definition NewJournalWriter : sys unit := sys_wrap "systemd: dial journal socket" (call_ (DialUnixgram "/run/systemd/journal/socket")).
(** The datagram [JournalWriter.Write] sends. *)
Definition journal_entry (p : string) : string :=
  "PRIORITY=6" +:+ String LF ("MESSAGE=" +:+ TrimRight p (str1 LF) +:+ str1 LF).
Definition journal_write (p : string) : sys Z :=
  sys_wrap "systemd: write journal" (call_ (WriteConn (journal_entry p))) ;; mret (len p).
End Commands.
End Systemd.

(** ** The Windows service *)

Module Winsvc.

Definition serviceName : string := "TorVM".

(** What [Execute] waits for, in the order it happens. *)
Inductive cmd := Interrogate (current : string) | StopCmd | ShutdownCmd | OtherCmd.
Inductive input := EngineDone (e : option error) | Request (c : cmd) | Timeout30s.
Inductive output := StartPending | Running | StopPending | Current (s : string) | LogError (s : string) | LogInfo (s : string) | CancelRun.

(** The second [select], after a stop request: [None] while it still waits. *)
Fixpoint wait_engine (ins : list input) : option (list output) :=
  match ins with
  | [] => None
  | EngineDone _ :: _ => Some []
  | Timeout30s :: _ => Some [LogError "engine shutdown timed out"]
  | Request _ :: ins' => wait_engine ins'
  end.
Definition stop_outputs (name : string) : list output :=
  [LogInfo ("received service " +:+ name +:+ " request"); StopPending; CancelRun].
(** The loop; [cmd_name] is the text [%s] gives a command. *)
Fixpoint execute_loop (cmd_name : cmd -> string) (ins : list input) : list output * option (bool * Z) :=
  match ins with
  | [] => ([], None)
  | EngineDone (Some e) :: _ => ([LogError ("lifecycle error: " +:+ Error e); StopPending], Some (false, 1))
  | EngineDone None :: _ => ([StopPending], Some (false, 0))
  | Request (Interrogate s) :: ins' => let '(o, r) := execute_loop cmd_name ins' in (Current s :: o, r)
  | Request OtherCmd :: ins' | Timeout30s :: ins' => execute_loop cmd_name ins'
  | Request c :: ins' =>
      match wait_engine ins' with
      | Some o => (stop_outputs (cmd_name c) ++ o, Some (false, 0))
      | None => (stop_outputs (cmd_name c), None)
      end
  end.
Definition Execute (cmd_name : cmd -> string) (ins : list input) : list output * option (bool * Z) :=
  let '(o, r) := execute_loop cmd_name ins in ([StartPending; Running] ++ o, r).

Section Commands.
Context `{mach : Machine}.

Definition InstallService : sys unit :=
  exePath ← sys_wrap "winsvc: get executable path" (call_str Executable);
  sys_wrap "winsvc: connect to service manager" (call_ ScmConnect) ;;
  deferred (discard (call_ ScmDisconnect))
    (o ← attempt (call_ (ScmOpen serviceName));
     match o with
     | Ok _ => discard (call_ ScmClose) ;; sys_fail (Errorf ("winsvc: service " +:+ dq +:+ serviceName +:+ dq +:+ " already exists"))
     | Err _ =>
         sys_wrap "winsvc: create service" (call_ (ScmCreate serviceName exePath ["--service-run"; "--headless"])) ;;
         deferred (discard (call_ ScmClose))
           (l ← attempt (call_ (EventlogInstall serviceName));
            match l with
            | Ok _ => mret tt
            | Err e => discard (call_ ScmDelete) ;; sys_fail (Errorf ("winsvc: install event log source: " +:+ Error e))
            end)
     end).
Definition RemoveService : sys unit :=
  sys_wrap "winsvc: connect to service manager" (call_ ScmConnect) ;;
  deferred (discard (call_ ScmDisconnect))
    (sys_wrap "winsvc: open service" (call_ (ScmOpen serviceName)) ;;
     deferred (discard (call_ ScmClose))
       (sys_wrap "winsvc: delete service" (call_ ScmDelete) ;;
        sys_wrap "winsvc: remove event log source" (call_ (EventlogRemove serviceName)))).
Definition eventlog_write (p : string) : sys Z :=
  sys_wrap "winsvc: write event log" (call_ (EventlogInfo (TrimRight p (str1 LF)))) ;; mret (len p).

(** *** The TAP adapter *)

Record TAPStatus := { TapInstalled : bool; AdapterName : string; DriverPath : string }.
Context `{U : UnicodeTables}.
(** The first line that mentions a TAP, and no other. *)
Definition tap_line (lines : list string) : bool * string :=
  match List.find (fun l => Contains (ToLower l) "tap") lines with
  | Some l => let fs := Fields l in
      if (4 <=? length fs)%nat then (true, default EmptyString (last fs)) else (false, EmptyString)
  | None => (false, EmptyString)
  end.
(** [env] is [os.Getenv]; [join] is [filepath.Join], which cleans its result. *)
Variable env : string -> string.
Variable join : list string -> string.
Definition QueryTAPStatus : sys TAPStatus :=
  out ← attempt (call_str (Output "netsh" ["interface"; "show"; "interface"]));
  match out with
  | Err _ => mret {| TapInstalled := false; AdapterName := EmptyString; DriverPath := EmptyString |}
  | Ok o =>
      let '(found, name) := tap_line (Split o LF) in
      let programFiles := if decide (env "ProgramFiles" = EmptyString) then "C:\Program Files" else env "ProgramFiles" in
      let tapDir := join [programFiles; "TAP-Windows"; "bin"] in
      s ← attempt (call_ (Stat tapDir));
      mret {| TapInstalled := found; AdapterName := name; DriverPath := match s with Ok _ => tapDir | Err _ => EmptyString end |}
  end.
Fixpoint first_existing (candidates : list string) : sys string :=
  match candidates with
  | [] => mret EmptyString
  | p :: cs =>
      if decide (p = EmptyString) then first_existing cs
      else s ← attempt (call_ (Stat p)); match s with Ok _ => mret p | Err _ => first_existing cs end
  end.
Definition findTAPBat (name : string) : sys string := first_existing [
  join [env "ProgramFiles"; "TAP-Windows"; "bin"; name];
  join [env "ProgramFiles(x86)"; "TAP-Windows"; "bin"; name];
  join ["C:\Program Files"; "TAP-Windows"; "bin"; name];
  join ["C:\Program Files (x86)"; "TAP-Windows"; "bin"; name]].
Definition run_bat (name missing failed : string) : sys unit :=
  bat ← findTAPBat name;
  if decide (bat = EmptyString) then sys_fail (Errorf missing)
  else
    r ← call_out (Exec bat []);
    match r with
    | (_, None) => mret tt
    | (out, Some e) => sys_fail (Errorf (failed +:+ ": " +:+ Error e +:+ ": " +:+ TrimSpace out))
    end.
Definition InstallTAPAdapter : sys unit :=
  run_bat "addtap.bat" "winsvc: addtap.bat not found; install TAP-Windows6 driver first" "winsvc: addtap failed".
Definition RemoveTAPAdapter : sys unit :=
  run_bat "deltapall.bat" "winsvc: deltapall.bat not found; TAP-Windows6 driver may not be installed" "winsvc: deltapall failed".
End Commands.
End Winsvc.

(** ** The service tabs *)

(** What [updateUI] leaves enabled, on Linux and macOS. *)
Record Buttons := {
  statusLabel : string; startBtn : bool; stopBtn : bool; restartBtn : bool; uninstallBtn : bool; installBtn : bool;
  bootCheck : bool; bootChecked : bool; viewLogsBtn : bool; serviceMode : bool
}.
(** [svc] is the application's [serviceMode] before. *)
Definition linux_ui (st : Systemd.ServiceStatus) (svc : bool) : Buttons :=
  if negb (Systemd.Installed st) then
    {| statusLabel := "Status: Not Installed"; startBtn := false; stopBtn := false; restartBtn := false; uninstallBtn := false;
       installBtn := true; bootCheck := false; bootChecked := false; viewLogsBtn := false; serviceMode := svc |}
  else if Systemd.Active st then
    let pidInfo := if decide (Systemd.PID st = EmptyString) then EmptyString else " (PID " +:+ Systemd.PID st +:+ ")" in
    {| statusLabel := "Status: Running" +:+ pidInfo; startBtn := false; stopBtn := true; restartBtn := true; uninstallBtn := false;
       installBtn := false; bootCheck := true; bootChecked := Systemd.Enabled st; viewLogsBtn := true; serviceMode := true |}
  else
    {| statusLabel := "Status: Stopped"; startBtn := true; stopBtn := false; restartBtn := false; uninstallBtn := true;
       installBtn := false; bootCheck := true; bootChecked := Systemd.Enabled st; viewLogsBtn := true; serviceMode := true |}.

(** [intToStr] of the macOS tab, on a 64-bit [int]: the digit loop, and [-v]
    which wraps around. *)
Definition wrap64 (z : Z) : Z := (z + 9223372036854775808) mod 18446744073709551616 - 9223372036854775808.
Fixpoint digits_loop (fuel : nat) (v : Z) (s : string) : option string :=
  if 0 <? v then
    match fuel with
    | O => None
    | S f => digits_loop f (v / 10) (String (chr (48 + v mod 10)) s)
    end
  else Some s.
Definition intToStr (n : Z) : option string :=
  if n =? 0 then Some "0"
  else
    let v := if n <? 0 then wrap64 (- n) else n in
    match digits_loop (S (Z.to_nat (Z.log2 v))) v EmptyString with
    | Some s => Some (if n <? 0 then "-" +:+ s else s)
    | None => None
    end.

Definition darwin_ui (st : Launchd.Status) (svc : bool) : option Buttons :=
  if negb (Launchd.Installed st) then
    Some {| statusLabel := "Status: Not Installed"; startBtn := false; stopBtn := false; restartBtn := false; uninstallBtn := false;
       installBtn := true; bootCheck := false; bootChecked := false; viewLogsBtn := false; serviceMode := svc |}
  else if Launchd.Running st then
    pid ← intToStr (Launchd.PID st);
    Some {| statusLabel := "Status: Running (PID " +:+ pid +:+ ")"; startBtn := false; stopBtn := true; restartBtn := false;
       uninstallBtn := false; installBtn := false; bootCheck := true; bootChecked := Launchd.RunAtLoad st; viewLogsBtn := true;
       serviceMode := true |}
  else
    Some {| statusLabel := "Status: Stopped"; startBtn := true; stopBtn := false; restartBtn := false; uninstallBtn := true;
       installBtn := false; bootCheck := true; bootChecked := Launchd.RunAtLoad st; viewLogsBtn := true; serviceMode := true |}.
(** The Windows tab: the TAP label and the two buttons. *)
Definition windows_ui (st : Winsvc.TAPStatus) : string * bool * bool :=
  if Winsvc.TapInstalled st then ("TAP: Installed (" +:+ Winsvc.AdapterName st +:+ ")", false, true)
  else ("TAP: Not Installed", true, false).

(** ** Properties of launchd *)

(** Reading a string literal: a backslash takes the next byte as it is, a quote
    ends the literal; the value and what follows it. *)
Fixpoint read_literal (s : string) : option (string * string) :=
  match s with
  | EmptyString => None
  | String c t =>
      if Ascii.eqb c (chr 34) then Some (EmptyString, t)
      else if Ascii.eqb c "\" then
        match t with
        | EmptyString => None
        | String d u => match read_literal u with Some (v, rest) => Some (String d v, rest) | None => None end
        end
      else match read_literal t with Some (v, rest) => Some (String c v, rest) | None => None end
  end.
Lemma escape_cons (c : ascii) (s : string) :
  Launchd.escapeAppleScript (String c s) =
    (if Ascii.eqb c "\" then "\\" else if Ascii.eqb c (chr 34) then String "\" (str1 (chr 34)) else str1 c)
    +:+ Launchd.escapeAppleScript s.
Proof.
  unfold Launchd.escapeAppleScript. cbn [ReplaceByte]. destruct (Ascii.eqb c "\") eqn:E1.
  - reflexivity.
  - cbn [ReplaceByte]. by destruct (Ascii.eqb c (chr 34)).
Qed.

(** No command can leave the string literal of the AppleScript it is embedded
    in: whatever its bytes, quotes and backslashes included, reading the literal
    gives the command back and stops exactly at the closing quote. *)
Theorem escape_stays_inside (command rest : string) :
  read_literal (Launchd.escapeAppleScript command +:+ dq +:+ rest) = Some (command, rest).
Proof.
  induction command as [|c s IH]; [reflexivity|]. rewrite escape_cons, str_app_assoc.
  destruct (Ascii.eqb c "\") eqn:E1; [apply Ascii.eqb_eq in E1 as ->|destruct (Ascii.eqb c (chr 34)) eqn:E2; [apply Ascii.eqb_eq in E2 as ->|]].
  - change (read_literal (String "\" (String "\" (Launchd.escapeAppleScript s +:+ dq +:+ rest))) = Some (String "\" s, rest)).
    cbn. by rewrite IH.
  - change (read_literal (String "\" (String (chr 34) (Launchd.escapeAppleScript s +:+ dq +:+ rest))) = Some (String (chr 34) s, rest)).
    cbn. by rewrite IH.
  - change (read_literal (String c (Launchd.escapeAppleScript s +:+ dq +:+ rest)) = Some (String c s, rest)).
    cbn [read_literal]. by rewrite E2, E1, IH.
Qed.

(** The installed file and the query agree: of a plist written by [Install] the
    query reads back the flag it was written with. *)
Theorem plist_flag_roundtrip (mach : Machine) (b : bool) (tr : list call) :
  machine tr (ReadFile Launchd.plistPath) = (Launchd.generatePlist b, None) ->
  exists st, (Launchd.QueryStatus tr).1 = Ok st /\ Launchd.Installed st = true /\ Launchd.RunAtLoad st = b.
Proof.
  intros H. unfold Launchd.QueryStatus, attempt, call_str, mbind, sys_bind, mret, sys_ret. rewrite H.
  assert (Launchd.run_at_load (Launchd.generatePlist b) = b) as -> by (destruct b; vm_compute; reflexivity).
  destruct (machine _ (Output "launchctl" ["list"])) as [o [e|]]; [by eexists|].
  destruct (List.find _ _) as [l|]; [|by eexists]. eexists. split; [done|].
  unfold Launchd.read_line. repeat (case_match; try done); by split.
Qed.
Lemma plist_flag_roundtrip_witness :
  let mach : Machine := fun _ c => match c with
    | ReadFile _ => (Launchd.generatePlist true, None)
    | Output _ _ => ("612" +:+ str1 Launchd.tab +:+ "0" +:+ str1 Launchd.tab +:+ "org.torproject.torvm", None)
    | _ => (EmptyString, None) end in
  exists st, (@Launchd.QueryStatus mach []).1 = Ok st /\ Launchd.Installed st = true /\ Launchd.RunAtLoad st = true.
Proof. intros mach. by apply (plist_flag_roundtrip mach true []). Defined.

(** Installing runs at most one privileged command, the one for a temporary
    file whose name has passed the check, and always removes that file again:
    whatever name the system gives it and whatever fails. *)
Theorem install_checked (mach : Machine) (U : UnicodeTables) (b : bool) :
  let tr := (Launchd.Install b []).2 in
  (forall name args, Exec name args ∈ tr -> exists tmp, Launchd.safeValueRe tmp = true /\ name = "osascript" /\
     args = ["-e"; "do shell script " +:+ Launchd.q (Launchd.escapeAppleScript (Launchd.install_command tmp)) +:+ " with administrator privileges"]) /\
  (forall tmp, (machine [] (CreateTemp "torvm-plist-*.plist")) = (tmp, None) -> last tr = Some (Remove tmp)).
Proof.
  unfold Launchd.Install, sys_wrap, call_str, mbind, sys_bind.
  destruct (machine [] (CreateTemp "torvm-plist-*.plist")) as [tmp [e|]]; cbn [wrap app snd].
  { split; [|done]. intros name args. by rewrite list_elem_of_singleton. }
  unfold deferred, attempt, call_, discard, Launchd.sys_lift, sys_fail.
  assert (forall tr, last (tr ++ [Remove tmp]) = Some (Remove tmp)) as Hl by (intros tr; apply last_snoc).
  destruct (machine [CreateTemp "torvm-plist-*.plist"] (WriteTemp tmp (Launchd.generatePlist b))) as [o [e|]]; cbn [fst snd].
  { split; [|intros t [= <-]; apply Hl]. intros name args H. exfalso. cbn [app] in H. rewrite !elem_of_cons, elem_of_nil in H. naive_solver. }
  destruct (each _ _) as [[]|e] eqn:Ev; cbn [fst snd].
  2: { split; [|intros t [= <-]; apply Hl]. intros name args H. exfalso. cbn [app] in H. rewrite !elem_of_cons, elem_of_nil in H. naive_solver. }
  assert (Launchd.safeValueRe tmp = true) as Hs.
  { cbn in Ev. unfold Launchd.validateShellValue in Ev. destruct (Launchd.safeValueRe tmp); [done|].
    by destruct (Launchd.safeValueRe Launchd.logDir). }
  unfold Launchd.runPrivileged, call_out, mbind, sys_bind.
  destruct (machine _ (Exec "osascript" _)) as [out r]. split.
  - intros name args H. exists tmp. split; [done|].
    assert (Exec name args ∈ [CreateTemp "torvm-plist-*.plist"; WriteTemp tmp (Launchd.generatePlist b); CloseTemp tmp;
      Exec "osascript" ["-e"; "do shell script " +:+ Launchd.q (Launchd.escapeAppleScript (Launchd.install_command tmp)) +:+ " with administrator privileges"];
      Remove tmp]) as H' by by destruct r.
    rewrite !elem_of_cons, elem_of_nil in H'. destruct H' as [?|[?|[?|[[= -> ->]|[?|?]]]]]; done.
  - intros t [= <-]. destruct r; apply Hl.
Qed.

(** ** Properties of the Windows service *)

Definition is_stop (i : Winsvc.input) : bool := match i with Winsvc.Request (Winsvc.StopCmd | Winsvc.ShutdownCmd) => true | _ => false end.
Definition reports (o : list Winsvc.output) : list Winsvc.output :=
  List.filter (fun x => match x with Winsvc.StartPending | Winsvc.Running | Winsvc.StopPending => true | _ => false end) o.
Lemma reports_app (a b : list Winsvc.output) : reports (a ++ b) = reports a ++ reports b.
Proof. apply List.filter_app. Qed.
Lemma wait_engine_reports (ins : list Winsvc.input) (o : list Winsvc.output) :
  Winsvc.wait_engine ins = Some o -> reports o = [] /\ Winsvc.CancelRun ∉ o.
Proof.
  induction ins as [|[e|c|] ins IH]; cbn; [done| | |].
  - intros [= <-]. split; [done|]. apply not_elem_of_nil.
  - exact IH.
  - intros [= <-]. split; [done|]. by intros ?%list_elem_of_singleton.
Qed.
Lemma execute_loop_spec (cmd_name : Winsvc.cmd -> string) (ins : list Winsvc.input) :
  let '(o, r) := Winsvc.execute_loop cmd_name ins in
  (forall x, r = Some x -> reports o = [Winsvc.StopPending] /\ x.1 = false /\
     (x.2 = 1 <-> Winsvc.CancelRun ∉ o /\ exists s, Winsvc.LogError s ∈ o)) /\
  (r = None -> reports o = (if existsb is_stop ins then [Winsvc.StopPending] else [])) /\
  (Winsvc.CancelRun ∈ o -> existsb is_stop ins = true).
Proof.
  assert (forall name o, Winsvc.CancelRun ∈ Winsvc.stop_outputs name ++ o) as Hstop
    by (intros; unfold Winsvc.stop_outputs; rewrite elem_of_app, !elem_of_cons; left; right; right; left; reflexivity).
  induction ins as [|i ins IH]; cbn [Winsvc.execute_loop].
  { split_and!; [done|done|]. by intros ?%not_elem_of_nil. }
  assert (forall c, is_stop (Winsvc.Request c) = true ->
    let '(o, r) := match Winsvc.wait_engine ins with
      | Some o => (Winsvc.stop_outputs (cmd_name c) ++ o, Some (false, 0))
      | None => (Winsvc.stop_outputs (cmd_name c), None) end in
    (forall x, r = Some x -> reports o = [Winsvc.StopPending] /\ x.1 = false /\
      (x.2 = 1 <-> Winsvc.CancelRun ∉ o /\ exists s, Winsvc.LogError s ∈ o)) /\
    (r = None -> reports o = (if existsb is_stop (Winsvc.Request c :: ins) then [Winsvc.StopPending] else [])) /\
    (Winsvc.CancelRun ∈ o -> existsb is_stop (Winsvc.Request c :: ins) = true)) as Hs.
  { intros c Hc. cbn [existsb]. rewrite Hc. destruct (Winsvc.wait_engine ins) as [o|] eqn:E.
    - apply wait_engine_reports in E as [Hr Hn]. split_and!; [|done|done]. intros x [= <-]. split_and!; [|done|].
      + rewrite reports_app, Hr. done.
      + split; [done|]. intros [H _]. by destruct (H (Hstop _ _)).
    - by split_and!. }
  destruct i as [[e|]|[s| | |]|]; [| | |by apply Hs|by apply Hs| |].
  - split_and!; [|done|].
    + intros x [= <-]. split_and!; [done|done|]. split; [|done]. intros _. split.
      * rewrite !elem_of_cons, elem_of_nil. naive_solver.
      * eexists. by left.
    + rewrite !elem_of_cons, elem_of_nil. naive_solver.
  - split_and!; [|done|].
    + intros x [= <-]. split_and!; [done|done|]. split; [done|]. intros [_ [s Hs']]. rewrite !elem_of_cons, elem_of_nil in Hs'. naive_solver.
    + rewrite !elem_of_cons, elem_of_nil. naive_solver.
  - cbn [existsb is_stop orb]. destruct (Winsvc.execute_loop cmd_name ins) as [o r]. destruct IH as (H1 & H2 & H3).
    split_and!; [|done|rewrite elem_of_cons; naive_solver].
    intros x Hx. destruct (H1 x Hx) as (A & B & C). split_and!; [done|done|]. rewrite C. setoid_rewrite elem_of_cons. naive_solver.
  - exact IH.
  - exact IH.
Qed.

(** The service reports its states to the manager in the order it must: start
    pending, running, then stop pending exactly when it is stopped or its
    engine ended, and once.  The engine is cancelled only on a request; the
    exit code is one exactly when the engine failed of itself. *)
Theorem execute_protocol (cmd_name : Winsvc.cmd -> string) (ins : list Winsvc.input) :
  let '(o, r) := Winsvc.Execute cmd_name ins in
  reports o = [Winsvc.StartPending; Winsvc.Running] ++
    (if bool_decide (r <> None) || existsb is_stop ins then [Winsvc.StopPending] else []) /\
  (Winsvc.CancelRun ∈ o -> existsb is_stop ins = true) /\
  forall svc code, r = Some (svc, code) -> svc = false /\
    (code = 1 <-> Winsvc.CancelRun ∉ o /\ exists s, Winsvc.LogError s ∈ o).
Proof.
  unfold Winsvc.Execute. pose proof (execute_loop_spec cmd_name ins) as H.
  destruct (Winsvc.execute_loop cmd_name ins) as [o r]. destruct H as (H1 & H2 & H3). rewrite reports_app. split_and!.
  - destruct r as [x|].
    + rewrite bool_decide_eq_true_2 by done. by destruct (H1 x eq_refl) as (-> & _).
    + rewrite bool_decide_eq_false_2 by tauto. by rewrite H2.
  - rewrite !elem_of_app, !elem_of_cons, elem_of_nil. naive_solver.
  - intros svc code Hr. destruct (H1 _ Hr) as (_ & A & B). split; [done|]. rewrite B. setoid_rewrite elem_of_app.
    setoid_rewrite elem_of_cons. setoid_rewrite elem_of_cons. setoid_rewrite elem_of_nil. naive_solver.
Qed.

(** ** Properties of the tabs and of the journal *)

Lemma digits_loop_utoa (fuel : nat) (v : Z) (acc : string) :
  0 < v -> v < 2 ^ Z.of_nat fuel -> digits_loop fuel v acc = Some (utoa_go fuel v acc).
Proof.
  revert v acc. induction fuel as [|fuel IH]; intros v acc Hv H.
  { change (2 ^ Z.of_nat 0) with 1 in H. lia. }
  cbn [digits_loop utoa_go]. replace (0 <? v) with true by lia. destruct (v <? 10) eqn:E.
  - apply Z.ltb_lt in E. rewrite (Z.div_small v 10), (Z.mod_small v 10) by lia. by destruct fuel.
  - apply Z.ltb_ge in E. rewrite Nat2Z.inj_succ, Z.pow_succ_r in H by lia.
    pose proof (Z.div_mod v 10). pose proof (Z.mod_pos_bound v 10). apply IH; lia.
Qed.
Lemma log2_fuel (v : Z) : 0 < v -> v < 2 ^ Z.of_nat (S (Z.to_nat (Z.log2 v))).
Proof.
  intros Hv. rewrite Nat2Z.inj_succ, Z2Nat.id by apply Z.log2_nonneg. by apply Z.log2_spec.
Qed.

(** The hand-written conversion of the macOS tab terminates on every 64-bit
    integer and is [strconv.Itoa] on all of them but the least, of which it
    shows the sign alone. *)
Theorem intToStr_itoa (n : Z) :
  MinInt64 <= n <= MaxInt64 ->
  intToStr n = Some (if decide (n = MinInt64) then "-" else itoa n).
Proof.
  unfold MinInt64, MaxInt64. intros Hn. case_decide as Hm; [subst n; vm_compute; reflexivity|].
  unfold intToStr. destruct (n =? 0) eqn:E0; [apply Z.eqb_eq in E0; subst n; reflexivity|].
  apply Z.eqb_neq in E0. unfold itoa.
  assert (forall v, 0 < v -> digits_loop (S (Z.to_nat (Z.log2 v))) v EmptyString = Some (utoa v)) as Hd
    by (intros v Hv; apply digits_loop_utoa; [done|by apply log2_fuel]).
  destruct (n <? 0) eqn:E.
  - apply Z.ltb_lt in E. assert (wrap64 (- n) = - n) as -> by (unfold wrap64; rewrite Z.mod_small; lia).
    rewrite Hd by lia. reflexivity.
  - apply Z.ltb_ge in E. rewrite Hd by lia. reflexivity.
Qed.
Lemma intToStr_itoa_witness : MinInt64 <= -42 <= MaxInt64 /\ intToStr (-42) = Some "-42".
Proof. split; [unfold MinInt64, MaxInt64; lia|]. apply (intToStr_itoa (-42)). unfold MinInt64, MaxInt64. lia. Defined.

(** A journal datagram read line by line, as the receiver does: the priority,
    then the message; but a message of several lines is not quoted, and every
    further line of it is a field of its own. *)
Theorem journal_lines (p : string) :
  exists l ls, Split (TrimRight p (str1 LF)) LF = l :: ls /\
    Split (Systemd.journal_entry p) LF = ["PRIORITY=6"; "MESSAGE=" +:+ l] ++ ls ++ [EmptyString].
Proof.
  unfold Systemd.journal_entry. set (m := TrimRight p (str1 LF)).
  pose proof (Split_no_byte m LF) as Hno. pose proof (Join_Split m LF) as Hj.
  destruct (Split m LF) as [|l ls] eqn:Es; [by apply Split_nonempty in Es|]. exists l, ls. split; [done|].
  rewrite Split_app by reflexivity.
  assert ("MESSAGE=" +:+ m = Join (("MESSAGE=" +:+ l) :: ls) (str1 LF)) as He.
  { rewrite <-Hj. destruct ls as [|l2 ls]; [done|].
    change (Join (l :: l2 :: ls) (str1 LF)) with (l +:+ str1 LF +:+ Join (l2 :: ls) (str1 LF)).
    change (Join (("MESSAGE=" +:+ l) :: l2 :: ls) (str1 LF)) with (("MESSAGE=" +:+ l) +:+ str1 LF +:+ Join (l2 :: ls) (str1 LF)).
    by rewrite str_app_assoc. }
  rewrite <-str_app_assoc, He. cbn [app]. f_equal. rewrite Split_Join_end; [done|done|].
  apply Forall_cons in Hno as [Hl Hls]. constructor; [|done].
  unfold no_byte in *. rewrite forallb_app_str, Hl. reflexivity.
Qed.

(** A button of the service tabs is enabled exactly when its action makes
    sense: install only when not installed, start and uninstall only when
    installed and stopped, stop and restart only when running. *)
Theorem linux_buttons (st : Systemd.ServiceStatus) (svc : bool) :
  let b := linux_ui st svc in
  installBtn b = negb (Systemd.Installed st) /\
  startBtn b = Systemd.Installed st && negb (Systemd.Active st) /\ uninstallBtn b = startBtn b /\
  stopBtn b = Systemd.Installed st && Systemd.Active st /\ restartBtn b = stopBtn b /\
  bootCheck b = Systemd.Installed st /\ bootChecked b = (Systemd.Installed st && Systemd.Enabled st) /\
  serviceMode b = svc || Systemd.Installed st.
Proof.
  unfold linux_ui. destruct (Systemd.Installed st), (Systemd.Active st); cbn; split_and!; try done; by rewrite ?orb_true_r, ?orb_false_r.
Qed.
