(* ===== verification/ServiceTab.v ===== *)
(** * Package [gui]: the application, its start button and the service tabs

    [app.go] ([Run], [startVM], [stopVM]), the polling of [status_tab.go],
    [doQuit], and [service_tab.go], [service_tab_linux.go] and
    [service_tab_windows.go]: what every button does to the machine, to the
    engine's runs and to [a.serviceMode], which the tabs and the start button
    share.  On every platform but macOS the package [launchd] is its stub,
    [launchd_stub.go]. *)

From S2P Require Import Prelude GoStrings Config Retry Panels Service.
Local Open Scope Z_scope.

(** [check_notifies old new]: [Check.SetChecked] of the widget library calls
    [OnChanged]. *)
Class Widgets := check_notifies : bool -> bool -> bool.

(** ** The application *)

(** [FailedDialog] offers to retry, which is a press of Start, and to show the logs. *)
Inductive dialog := Message (m : message) | Logs (text : string) | FailedDialog.
Record App := {
  runs : Runs;                 (* the engine's runs; [service runs] is [a.serviceMode] *)
  status : StatusTab;
  status_polling : bool;       (* the goroutine of the status tab *)
  widgets : Buttons;           (* of the service tab *)
  tap : string * bool * bool;
  ticking : bool;              (* [a.serviceTicker] *)
  dialogs : list dialog;
  error_log : list string
}.
Definition set_runs (r : Runs) (a : App) : App :=
  {| runs := r; status := status a; status_polling := status_polling a; widgets := widgets a; tap := tap a;
     ticking := ticking a; dialogs := dialogs a; error_log := error_log a |}.
Definition set_status (s : StatusTab) (a : App) : App :=
  {| runs := runs a; status := s; status_polling := status_polling a; widgets := widgets a; tap := tap a;
     ticking := ticking a; dialogs := dialogs a; error_log := error_log a |}.
Definition set_polling (b : bool) (a : App) : App :=
  {| runs := runs a; status := status a; status_polling := b; widgets := widgets a; tap := tap a;
     ticking := ticking a; dialogs := dialogs a; error_log := error_log a |}.
Definition set_widgets (b : Buttons) (a : App) : App :=
  {| runs := runs a; status := status a; status_polling := status_polling a; widgets := b; tap := tap a;
     ticking := ticking a; dialogs := dialogs a; error_log := error_log a |}.
Definition set_tap (t : string * bool * bool) (a : App) : App :=
  {| runs := runs a; status := status a; status_polling := status_polling a; widgets := widgets a; tap := t;
     ticking := ticking a; dialogs := dialogs a; error_log := error_log a |}.
Definition set_ticking (b : bool) (a : App) : App :=
  {| runs := runs a; status := status a; status_polling := status_polling a; widgets := widgets a; tap := tap a;
     ticking := b; dialogs := dialogs a; error_log := error_log a |}.
Definition show (d : dialog) (a : App) : App :=
  {| runs := runs a; status := status a; status_polling := status_polling a; widgets := widgets a; tap := tap a;
     ticking := ticking a; dialogs := dialogs a ++ [d]; error_log := error_log a |}.
Definition log_error (s : string) (a : App) : App :=
  {| runs := runs a; status := status a; status_polling := status_polling a; widgets := widgets a; tap := tap a;
     ticking := ticking a; dialogs := dialogs a; error_log := error_log a ++ [s] |}.
(** [a.serviceMode = b]. *)
Definition set_mode (b : bool) (a : App) : App :=
  set_runs {| service := b; cancel := cancel (runs a); alive := alive (runs a); cancelled := cancelled (runs a);
              next := next (runs a); service_calls := service_calls (runs a) |} a.
Definition set_checked (on : bool) (b : Buttons) : Buttons := {|
  statusLabel := statusLabel b; startBtn := startBtn b; stopBtn := stopBtn b; restartBtn := restartBtn b;
  uninstallBtn := uninstallBtn b; installBtn := installBtn b; bootCheck := bootCheck b; bootChecked := on;
  viewLogsBtn := viewLogsBtn b; Service.serviceMode := Service.serviceMode b |}.

(** ** Package [launchd] of each platform *)

Definition GOOS (os : goos) : string :=
  match os with linux => "linux" | darwin => "darwin" | windows => "windows" | other_os => "other" end.
Definition errUnsupported (os : goos) : error := Errorf ("launchd: not supported on " +:+ GOOS os).
(** What the stub answers. *)
Definition stub_status : Launchd.Status :=
  {| Launchd.Installed := false; Launchd.Running := false; Launchd.RunAtLoad := false; Launchd.PID := 0;
     Launchd.LastExit := 0; Launchd.PlistPath := EmptyString |}.

(** What a handler does, to the application and to the machine. *)
Definition handler : Type := App -> list call -> App * list call.
Definition skip : handler := fun a tr => (a, tr).
Definition seq (f g : handler) : handler := fun a tr => let '(a', tr') := f a tr in g a' tr'.
Definition upd (f : App -> App) : handler := fun a tr => (f a, tr).
(** The answer of a call, used by what follows. *)
Definition asking {A} (m : sys A) (k : result A -> handler) : handler := fun a tr => let '(r, tr') := m tr in k r a tr'.
(** [if err != nil { dialog.ShowError(err, a.window); return }]. *)
Definition or_error {A} (m : sys A) (k : A -> handler) : handler :=
  asking m (fun r => match r with Ok x => k x | Err e => upd (show (Message (ShowError e))) end).
Definition inform (text : string) : handler := upd (show (Message (ShowInformation "Service" text))).

Section App.
Context `{mach : Machine} `{U : UnicodeTables} `{W : Widgets}.
Variable os : goos.
(** [os.Getenv] and [filepath.Join] of the Windows tab. *)
Variable env : string -> string.
Variable join : list string -> string.

Definition launchd_Start : sys unit := match os with darwin => Launchd.Start | _ => sys_fail (errUnsupported os) end.
Definition launchd_Stop : sys unit := match os with darwin => Launchd.Stop | _ => sys_fail (errUnsupported os) end.
Definition launchd_QueryStatus : sys Launchd.Status := match os with darwin => Launchd.QueryStatus | _ => mret stub_status end.

(** ** The start button *)

Definition service_command (what : string) (m : sys unit) : handler :=
  asking m (fun r => match r with
                    | Ok _ => skip
                    | Err e => upd (fun a => show (Message (ShowError e)) (log_error ("service " +:+ what +:+ ": " +:+ Error e) a))
                    end).
Definition start_pressed : handler := fun a tr =>
  let a' := set_runs (startVM (runs a)) a in
  if service (runs a) then service_command "start" launchd_Start a' tr else (a', tr).
Definition stop_pressed : handler := fun a tr =>
  let a' := set_runs (stopVM (runs a)) a in
  if service (runs a) then service_command "stop" launchd_Stop a' tr else (a', tr).
Definition quit : handler := upd (fun a => set_ticking false (set_runs (doQuit (runs a)) a)).

(** ** The status tab *)

(** The observer [Run] registers with the engine. *)
Definition engine_state (to : State) : handler := upd (fun a =>
  let a' := set_status (updateStatus to (status a)) a in
  if decide (to = StateFailed) then show FailedDialog a' else a').

(** [pollServiceStatus]: the labels of [Panels], on the answer of [launchd]. *)
Definition poll_status : handler := asking launchd_QueryStatus (fun r a tr =>
  match r with
  | Ok st =>
      let s := pollServiceStatus (Launchd.Running st) (Launchd.Installed st) (status a) in
      let a' := set_status s a in
      (if Launchd.Running st || Launchd.Installed st then a' else set_mode false a', tr)
  | Err _ => (a, tr)
  end).
(** A tick of the goroutine: it ends outside service mode. *)
Definition status_tick : handler := fun a tr =>
  if service (runs a) then poll_status a tr else (set_polling false a, tr).
Definition open_status : handler := fun a tr =>
  let a' := set_status (new_status (service (runs a))) a in
  if service (runs a) then poll_status (set_polling true a') tr else (a', tr).

(** ** The service tab *)

Definition darwin_install : handler := or_error (Launchd.Install false) (fun _ => inform "Service installed successfully.").
Definition linux_install : handler := or_error Systemd.Install (fun _ => inform "TorVM service installed successfully.").
Definition windows_install : handler := or_error Winsvc.InstallService (fun _ => inform "TorVM service installed successfully.").
Definition install : handler :=
  match os with darwin => darwin_install | linux => linux_install | windows => windows_install | other_os => skip end.

Definition uninstalled (text : string) : handler := seq (upd (set_mode false)) (inform text).
Definition darwin_uninstall : handler := or_error Launchd.Uninstall (fun _ => uninstalled "Service uninstalled.").
(** [ok] is the answer to the confirmation Linux asks for. *)
Definition linux_uninstall (ok : bool) : handler :=
  if ok then or_error Systemd.Uninstall (fun _ => uninstalled "TorVM service uninstalled.") else skip.
Definition windows_uninstall : handler := or_error Winsvc.RemoveService (fun _ => uninstalled "TorVM service uninstalled.").
Definition uninstall (ok : bool) : handler :=
  match os with darwin => darwin_uninstall | linux => linux_uninstall ok | windows => windows_uninstall | other_os => skip end.

Definition darwin_start : handler := or_error Launchd.Start (fun _ => skip).
Definition linux_start : handler := or_error Systemd.Start (fun _ => skip).
Definition start_service : handler := match os with darwin => darwin_start | linux => linux_start | _ => skip end.
Definition darwin_stop : handler := or_error Launchd.Stop (fun _ => skip).
Definition linux_stop : handler := or_error Systemd.Stop (fun _ => skip).
Definition stop_service : handler := match os with darwin => darwin_stop | linux => linux_stop | _ => skip end.
Definition linux_restart : handler := or_error Systemd.Restart (fun _ => skip).
Definition restart_service : handler := match os with linux => linux_restart | _ => skip end.

(** [OnChanged] of "Start on Boot". *)
Definition darwin_boot (on : bool) : handler := or_error (Launchd.SetRunAtLoad on) (fun _ => skip).
Definition linux_boot (on : bool) : handler := or_error (if on then Systemd.Enable else Systemd.Disable) (fun _ => skip).
Definition boot_changed (on : bool) : handler := match os with darwin => darwin_boot on | linux => linux_boot on | _ => skip end.

Definition show_log (text : string) : handler :=
  upd (show (Logs (if decide (text = EmptyString) then "(no log output)" else text))).
Definition darwin_logs : handler := or_error (Launchd.ReadLog 100) show_log.
Definition linux_logs : handler := or_error (Systemd.ReadJournalLogs 100) show_log.
Definition view_logs : handler := match os with darwin => darwin_logs | linux => linux_logs | _ => skip end.

Definition inform_tap (text : string) : handler := upd (show (Message (ShowInformation "TAP Adapter" text))).
Definition install_tap : handler :=
  or_error (Winsvc.InstallTAPAdapter env join) (fun _ => inform_tap "TAP adapter installed successfully.").
Definition remove_tap (ok : bool) : handler :=
  if ok then or_error (Winsvc.RemoveTAPAdapter env join) (fun _ => inform_tap "TAP adapters removed.") else skip.

(** [bootCheck.SetChecked(on)]. *)
Definition SetChecked (on : bool) : handler := fun a tr =>
  let old := bootChecked (widgets a) in
  seq (upd (fun a => set_widgets (set_checked on (widgets a)) a))
      (if check_notifies old on then boot_changed on else skip) a tr.
(** The widgets as [updateUI] leaves them, the box set on the way. *)
Definition refresh (b : Buttons) : handler :=
  seq (SetChecked (bootChecked b)) (upd (fun a => set_mode (Service.serviceMode b) (set_widgets b a))).
Definition linux_updateUI : handler := asking Systemd.QueryStatus (fun r a tr =>
  match r with Ok st => refresh (linux_ui st (service (runs a))) a tr | Err _ => (a, tr) end).
Definition darwin_updateUI : handler := asking Launchd.QueryStatus (fun r a tr =>
  match r with
  | Ok st => match darwin_ui st (service (runs a)) with Some b => refresh b a tr | None => (a, tr) end
  | Err _ => (a, tr)
  end).
Definition windows_updateUI : handler := asking (Winsvc.QueryTAPStatus env join) (fun r a tr =>
  match r with Ok st => (set_tap (windows_ui st) a, tr) | Err _ => (a, tr) end).
Definition updateUI : handler :=
  match os with darwin => darwin_updateUI | linux => linux_updateUI | windows => windows_updateUI | other_os => skip end.
Definition has_service_tab : bool := match os with other_os => false | _ => true end.
Definition serviceTab : handler := if has_service_tab then seq updateUI (upd (set_ticking true)) else skip.

(** ** [Run] *)

(** The names of the tabs; [browser]: it is enabled and has an engine. *)
Definition tab_names (browser : bool) : list string :=
  ["Status"; "Bridges"; "Proxy"; "Relays"; "Circuits"; "Settings"; "Logs"]
  ++ (if browser then ["Browser"] else []) ++ (if has_service_tab then ["Service"] else []).
(** "View Logs" of the failure dialog: the tab it selects. *)
Definition view_logs_index (browser : bool) : option nat := fst <$> list_find (fun n => n = "Logs") (tab_names browser).

(** Buttons are enabled when they are made. *)
Definition new_buttons : Buttons := {|
  statusLabel := match os with windows => "Status: Ready" | _ => "Checking..." end; startBtn := true; stopBtn := true;
  restartBtn := true; uninstallBtn := true; installBtn := true; bootCheck := true; bootChecked := false;
  viewLogsBtn := true; Service.serviceMode := false |}.
Definition New : App := {|
  runs := new_runs false; status := new_status false; status_polling := false; widgets := new_buttons;
  tap := ("TAP: Checking...", true, true); ticking := false; dialogs := []; error_log := [] |}.
Definition Run : handler :=
  seq (asking launchd_QueryStatus (fun r => upd (set_mode (match r with Ok st => Launchd.Installed st | Err _ => false end))))
    (seq open_status serviceTab).

(** ** What happens to it *)

Inductive action :=
  | StartPressed | StopPressed | QuitPressed | RunEnded (i : nat) | EngineState (to : State) | StatusTick | ServiceTick
  | InstallPressed | UninstallPressed (ok : bool) | StartService | StopService | RestartService | BootTicked (on : bool)
  | LogsPressed | InstallTAP | RemoveTAP (ok : bool).
Definition on_linux_or_mac : bool := match os with linux | darwin => true | _ => false end.
Definition on_windows : bool := match os with windows => true | _ => false end.
(** A disabled button does nothing, a widget that is not there neither. *)
Definition available (x : action) (a : App) : bool :=
  match x with
  | StartPressed | StopPressed | QuitPressed | EngineState _ => true
  | RunEnded i => bool_decide (i ∈ alive (runs a))
  | StatusTick => status_polling a
  | ServiceTick => ticking a
  | InstallPressed => has_service_tab && installBtn (widgets a)
  | UninstallPressed _ => has_service_tab && uninstallBtn (widgets a)
  | StartService => on_linux_or_mac && startBtn (widgets a)
  | StopService => on_linux_or_mac && stopBtn (widgets a)
  | RestartService => match os with linux => restartBtn (widgets a) | _ => false end
  | BootTicked _ => on_linux_or_mac && bootCheck (widgets a)
  | LogsPressed => on_linux_or_mac && viewLogsBtn (widgets a)
  | InstallTAP => on_windows && (tap a).1.2
  | RemoveTAP _ => on_windows && (tap a).2
  end.
Definition act (x : action) : handler :=
  match x with
  | StartPressed => start_pressed
  | StopPressed => stop_pressed
  | QuitPressed => quit
  | RunEnded i => upd (fun a => set_runs (run_ended i (runs a)) a)
  | EngineState to => engine_state to
  | StatusTick => status_tick
  | ServiceTick => updateUI
  | InstallPressed => install
  | UninstallPressed ok => uninstall ok
  | StartService => start_service
  | StopService => stop_service
  | RestartService => restart_service
  | BootTicked on => SetChecked on
  | LogsPressed => view_logs
  | InstallTAP => install_tap
  | RemoveTAP ok => remove_tap ok
  end.
Definition exec (x : action) : handler := fun a tr => if available x a then act x a tr else (a, tr).
Definition exec_all (l : list action) : handler := foldr (fun x k => seq (exec x) k) skip l.
End App.

(** The status tab opens as [Panels] has it, on what [launchd] answers. *)
Lemma open_status_tab `{mach : Machine} (os : goos) (a : App) (tr : list call) (st : Launchd.Status) :
  (launchd_QueryStatus os tr).1 = Ok st ->
  status (open_status os a tr).1 = statusTab (service (runs a)) (Launchd.Running st) (Launchd.Installed st).
Proof.
  intros H. unfold open_status, statusTab. destruct (service (runs a)); [|done]. unfold poll_status, asking.
  destruct (launchd_QueryStatus os tr) as [r tr']. cbn in H. subst r. by destruct (_ || _).
Qed.

(** ** Handlers that leave the runs alone *)

Definition keeps (f : handler) : Prop := forall a tr, let a' := (f a tr).1 in
  runs a' = runs a /\ error_log a' = error_log a /\ status_polling a' = status_polling a.
Lemma keeps_skip : keeps skip.
Proof. done. Qed.
Lemma keeps_upd (f : App -> App) : (forall a, runs (f a) = runs a /\ error_log (f a) = error_log a /\ status_polling (f a) = status_polling a) -> keeps (upd f).
Proof. intros H a tr. apply H. Qed.
Lemma keeps_seq (f g : handler) : keeps f -> keeps g -> keeps (seq f g).
Proof.
  intros Hf Hg a tr. unfold seq. specialize (Hf a tr). destruct (f a tr) as [a' tr']. cbn in Hf.
  destruct (Hg a' tr') as (-> & -> & ->). exact Hf.
Qed.
Lemma keeps_asking {A} (m : sys A) (k : result A -> handler) : (forall r, keeps (k r)) -> keeps (asking m k).
Proof. intros H a tr. unfold asking. destruct (m tr) as [r tr']. apply H. Qed.
Lemma keeps_or_error {A} (m : sys A) (k : A -> handler) : (forall x, keeps (k x)) -> keeps (or_error m k).
Proof. intros H. apply keeps_asking. intros [x|e]; [apply H|by apply keeps_upd]. Qed.
Lemma keeps_if (b : bool) (f g : handler) : keeps f -> keeps g -> keeps (if b then f else g).
Proof. by destruct b. Qed.
Create HintDb keeps.
#[export] Hint Resolve keeps_skip keeps_seq keeps_asking keeps_or_error keeps_if : keeps.
#[export] Hint Extern 1 (keeps (upd _)) => (by apply keeps_upd) : keeps.
#[export] Hint Extern 1 (keeps (inform _)) => (by apply keeps_upd) : keeps.
#[export] Hint Extern 1 (keeps (inform_tap _)) => (by apply keeps_upd) : keeps.
#[export] Hint Extern 1 (keeps (show_log _)) => (by apply keeps_upd) : keeps.

Section Facts.
Context (mach : Machine) (U : UnicodeTables) (W : Widgets) (os : goos) (env : string -> string) (join : list string -> string).

Lemma keeps_commands (on : bool) :
  keeps (install os) /\ keeps (start_service os) /\ keeps (stop_service os) /\ keeps (restart_service os) /\
  keeps (boot_changed os on) /\ keeps (view_logs os) /\ keeps (install_tap env join) /\ keeps (remove_tap env join on).
Proof.
  unfold install, start_service, stop_service, restart_service, boot_changed, view_logs, install_tap, remove_tap.
  destruct os; split_and!; try apply keeps_skip; try (apply keeps_or_error; auto with keeps).
  all: apply keeps_if; [apply keeps_or_error; auto with keeps|apply keeps_skip].
Qed.
Lemma keeps_engine_state (to : State) : keeps (engine_state to).
Proof. apply keeps_upd. intros a. by case_decide. Qed.
Lemma keeps_SetChecked (on : bool) : keeps (SetChecked os on).
Proof.
  intros a tr. unfold SetChecked. apply keeps_seq; [auto with keeps|].
  apply keeps_if; [apply keeps_commands|apply keeps_skip].
Qed.

(** [refresh] changes the service mode of the runs, and nothing else of them. *)
Lemma refresh_runs (b : Buttons) (a : App) (tr : list call) :
  let a' := (refresh os b a tr).1 in
  runs a' = runs (set_mode (Service.serviceMode b) a) /\ error_log a' = error_log a /\
  status_polling a' = status_polling a /\ widgets a' = b.
Proof.
  unfold refresh, seq. pose proof (keeps_SetChecked (bootChecked b) a tr) as H.
  destruct (SetChecked os (bootChecked b) a tr) as [a1 tr1]. cbn in H |- *. destruct H as (-> & -> & ->). done.
Qed.

(** The questions [systemctl] and the file system are asked. *)
Definition is_query (c : call) : Prop :=
  match c with
  | Stat _ => True
  | Exec "systemctl" (a :: _) => a = "is-active" \/ a = "is-enabled" \/ a = "show"
  | _ => False
  end.
Lemma query_calls (tr : list call) :
  exists st qs, Systemd.QueryStatus tr = (Ok st, tr ++ qs) /\ Forall is_query qs /\
    (Systemd.Installed st = true <-> (machine tr (Stat Systemd.unitPath)).2 = None).
Proof.
  unfold Systemd.QueryStatus, attempt, call_, mbind, sys_bind, mret, sys_ret.
  destruct (machine tr (Stat Systemd.unitPath)) as [o [e|]]; cbn [snd].
  { eexists _, _. split_and!; [reflexivity|by repeat constructor|done]. }
  assert (forall st l, Systemd.Installed (foldl Systemd.show_line st l) = Systemd.Installed st) as Hi.
  { intros st l. revert st. induction l as [|x l IH]; intros st; [done|]. cbn [foldl]. rewrite IH.
    unfold Systemd.show_line. by repeat (case_match; try done). }
  unfold Systemd.systemctl, Systemd.systemctlOutput, call_, call_out, mbind, sys_bind, mret, sys_ret.
  cbn [snd]. rewrite <-!app_assoc. cbn [app].
  destruct (machine _ (Exec "systemctl" ["show"; _; _; _])) as [out [e|]]; cbn [snd fst].
  - eexists _, _. split_and!; [reflexivity| |done]. repeat constructor; cbn; tauto.
  - eexists _, _. split_and!; [reflexivity|repeat constructor; cbn; tauto|]. by rewrite Hi.
Qed.
End Facts.

Section Linux.
Context (mach : Machine) (U : UnicodeTables) (W : Widgets) (env : string -> string) (join : list string -> string).

(** A poll of the Linux tab. *)
Lemma linux_poll (a : App) (tr : list call) :
  exists st qs, Systemd.QueryStatus tr = (Ok st, tr ++ qs) /\ Forall is_query qs /\
    updateUI linux env join a tr = refresh linux (linux_ui st (service (runs a))) a (tr ++ qs) /\
    (Systemd.Installed st = true <-> (machine tr (Stat Systemd.unitPath)).2 = None).
Proof.
  destruct (query_calls mach tr) as (st & qs & Hq & Hf & Hi). exists st, qs. split_and!; [done|done| |exact Hi].
  unfold updateUI, linux_updateUI, asking. by rewrite Hq.
Qed.
Lemma linux_poll_mode (a : App) (tr : list call) : (machine tr (Stat Systemd.unitPath)).2 = None ->
  let a' := (updateUI linux env join a tr).1 in
  runs a' = runs (set_mode true a) /\ error_log a' = error_log a /\ status_polling a' = status_polling a.
Proof.
  intros H. destruct (linux_poll a tr) as (st & qs & _ & _ & -> & Hi). apply Hi in H.
  destruct (refresh_runs mach U W linux env join (linux_ui st (service (runs a))) a (tr ++ qs)) as (E1 & E2 & E3 & _).
  cbv zeta. rewrite E1, E2, E3.
  assert (Service.serviceMode (linux_ui st (service (runs a))) = true) as ->; [|done].
  unfold linux_ui. rewrite H. by destruct (Systemd.Active st).
Qed.
Lemma SetChecked_calls (on : bool) (a : App) (tr : list call) :
  (SetChecked linux on a tr).2 =
    tr ++ (if check_notifies (bootChecked (widgets a)) on
           then [Exec "systemctl" [if on then "enable" else "disable"; Systemd.unitName]] else []).
Proof.
  unfold SetChecked, seq, upd. destruct (check_notifies _ on); [|by rewrite app_nil_r].
  unfold boot_changed, linux_boot, or_error, asking. destruct on; cbn.
  - by destruct (machine tr _) as [o [e|]].
  - by destruct (machine tr _) as [o [e|]].
Qed.
End Linux.

(** ** Properties *)

(** Service mode as Linux has it once the unit is installed: the tab of the
    status does not poll, and the start button is the stub's. *)
Record locked (r : Runs) (errors : list string) (a : App) : Prop := {
  lo_mode : service (runs a) = true;
  lo_polling : status_polling a = false;
  lo_next : next (runs a) = next r;
  lo_cancelled : cancelled (runs a) = cancelled r;
  lo_alive : alive (runs a) ⊆ alive r;
  lo_errors : error_log a = errors
}.
(** What a press of the status tab's buttons logs. *)
Definition complaint (x : action) : list string :=
  match x with
  | StartPressed => ["service start: launchd: not supported on linux"]
  | StopPressed => ["service stop: launchd: not supported on linux"]
  | _ => []
  end.
(** Neither quits nor uninstalls the service. *)
Definition stays (x : action) : bool := match x with QuitPressed | UninstallPressed true => false | _ => true end.

Section Locked.
Context (mach : Machine) (U : UnicodeTables) (W : Widgets) (env : string -> string) (join : list string -> string).
Hypothesis installed : forall tr, (machine tr (Stat Systemd.unitPath)).2 = None.

Lemma locked_keeps (r : Runs) (e : list string) (f : handler) (a : App) (tr : list call) :
  keeps f -> locked r e a -> locked r e (f a tr).1.
Proof.
  intros H [H1 H2 H3 H4 H5 H6]. destruct (H a tr) as (E1 & E2 & E3). by split; rewrite ?E1, ?E2, ?E3.
Qed.
Lemma locked_exec (r : Runs) (e : list string) (x : action) (a : App) (tr : list call) :
  stays x = true -> locked r e a -> locked r (e ++ complaint x) (exec linux env join x a tr).1.
Proof.
  intros Hx L. unfold exec. destruct (keeps_commands mach U linux env join true) as (K1 & K2 & K3 & K4 & _ & K6 & K7 & _).
  assert (forall f, keeps f -> complaint x = [] -> locked r (e ++ complaint x) (f a tr).1) as Hk
    by (intros f Hf ->; rewrite app_nil_r; by apply locked_keeps).
  destruct (available linux x a) eqn:Ea.
  2: { destruct x; try done; cbn [complaint]; rewrite app_nil_r; exact L. }
  destruct L as [H1 H2 H3 H4 H5 H6].
  destruct x; try done; try (apply Hk; [|done]; auto with keeps; fail).
  - unfold act, start_pressed, startVM. rewrite H1. cbn. split; cbn; try done. by rewrite H6.
  - unfold act, stop_pressed, stopVM. rewrite H1. cbn. split; cbn; try done. by rewrite H6.
  - cbn [complaint]. rewrite app_nil_r. split; cbn; try done. set_solver.
  - apply Hk; [apply keeps_engine_state|done].
  - cbn in Ea. congruence.
  - cbn [complaint act]. rewrite app_nil_r. destruct (linux_poll_mode mach U W env join a tr (installed tr)) as (E1 & E2 & E3).
    by split; rewrite ?E1, ?E2, ?E3.
  - destruct ok; [done|]. apply Hk; [apply keeps_skip|done].
  - apply Hk; [apply (keeps_SetChecked mach U W linux env join)|done].
Qed.
Lemma locked_run (r : Runs) (l : list action) (e : list string) (a : App) (tr : list call) :
  forallb stays l = true -> locked r e a -> locked r (e ++ flat_map complaint l) (exec_all linux env join l a tr).1.
Proof.
  revert e a tr. induction l as [|x l IH]; intros e a tr Hl L; cbn [exec_all foldr flat_map]; [by rewrite app_nil_r|].
  cbn in Hl. apply andb_prop in Hl as [Hx Hl]. rewrite app_assoc. unfold seq.
  pose proof (locked_exec r e x a tr Hx L) as L'. destruct (exec linux env join x a tr) as [a' tr'].
  apply IH; [done|exact L'].
Qed.
End Locked.

(** C37. On Linux the start button goes dead when the service is installed.  From
    then on, whatever is pressed, polled or ended short of uninstalling or
    quitting, the application stays in service mode; no run is started and none
    cancelled, an engine that was running included; and every press of Start or
    Stop logs that launchd is not supported. *)
Theorem installed_unit_locks (mach : Machine) (U : UnicodeTables) (W : Widgets) (env : string -> string)
  (join : list string -> string) (l : list action) (a : App) (tr : list call) :
  (forall tr, (machine tr (Stat Systemd.unitPath)).2 = None) ->
  service (runs a) = true -> status_polling a = false -> forallb stays l = true ->
  let a' := (exec_all linux env join l a tr).1 in
  service (runs a') = true /\ next (runs a') = next (runs a) /\ cancelled (runs a') = cancelled (runs a) /\
  alive (runs a') ⊆ alive (runs a) /\ error_log a' = error_log a ++ flat_map complaint l.
Proof.
  intros Hi Hs Hp Hl a'.
  assert (locked (runs a) (error_log a) a) as L by (split; done).
  apply (locked_run mach U W env join Hi _ l _ a tr Hl) in L as [H1 _ H3 H4 H5 H6]. by split_and!.
Qed.
(** A running unit: everything asked of the machine succeeds. *)
Definition obliging : Machine := fun _ _ => (EmptyString, None).
Definition documented : Widgets := xorb.
Definition one_running : App := set_runs (startVM (new_runs false)) (New linux).
Lemma installed_unit_locks_witness :
  let a := (@updateUI obliging ascii_tables documented linux id concat_str one_running []).1 in
  let a' := (@exec_all obliging ascii_tables documented linux id concat_str [StopPressed; StartPressed; ServiceTick] a []).1 in
  alive (runs a) = {[0%nat]} /\ cancelled (runs a') = ∅ /\
  error_log a' = ["service stop: launchd: not supported on linux"; "service start: launchd: not supported on linux"].
Proof.
  intros a a'. split; [reflexivity|].
  destruct (installed_unit_locks obliging ascii_tables documented id concat_str [StopPressed; StartPressed; ServiceTick] a []
    (fun _ => eq_refl) eq_refl eq_refl eq_refl) as (_ & _ & E1 & _ & E2).
  split; [exact E1|exact E2].
Defined.

(** A poll of the Linux tab shows the boot flag systemd reports, and asks
    systemd only what it needs; but where the box did not agree, setting it is
    taken for a tick: the poll itself enables or disables the unit. *)
Theorem poll_writes_back (mach : Machine) (U : UnicodeTables) (W : Widgets) (env : string -> string)
  (join : list string -> string) (a : App) (tr : list call) :
  (forall old new, check_notifies old new = xorb old new) ->
  exists st qs, Systemd.QueryStatus tr = (Ok st, tr ++ qs) /\ Forall is_query qs /\
    let on := Systemd.Installed st && Systemd.Enabled st in
    let '(a', tr') := updateUI linux env join a tr in
    bootChecked (widgets a') = on /\
    tr' = tr ++ qs ++ (if xorb (bootChecked (widgets a)) on
                       then [Exec "systemctl" [if on then "enable" else "disable"; Systemd.unitName]] else []).
Proof.
  intros HW. destruct (linux_poll mach U W env join a tr) as (st & qs & Hq & Hf & Hu & _).
  exists st, qs. split_and!; [done|done|]. rewrite Hu. set (b := linux_ui st (service (runs a))).
  assert (bootChecked b = Systemd.Installed st && Systemd.Enabled st) as Hb
    by (unfold b, linux_ui; destruct (Systemd.Installed st), (Systemd.Active st); done).
  destruct (refresh_runs mach U W linux env join b a (tr ++ qs)) as (_ & _ & _ & Hw).
  pose proof (SetChecked_calls mach W (bootChecked b) a (tr ++ qs)) as Hc. rewrite HW, Hb in Hc.
  cbv zeta. revert Hw. unfold refresh, seq. rewrite Hb. destruct (SetChecked linux _ a (tr ++ qs)) as [a1 tr1].
  cbn in Hc |- *. intros Hw. split; [by rewrite <-Hb|]. by rewrite Hc, app_assoc.
Qed.
Lemma poll_writes_back_witness :
  exists st qs, @Systemd.QueryStatus obliging [] = (Ok st, qs) /\ Forall is_query qs /\
    (@updateUI obliging ascii_tables documented linux id concat_str (New linux) []).2 =
      qs ++ [Exec "systemctl" ["enable"; "torvm.service"]].
Proof.
  destruct (poll_writes_back obliging ascii_tables documented id concat_str (New linux) [] (fun _ _ => eq_refl))
    as (st & qs & Hq & Hf & H).
  exists st, qs. split_and!; [exact Hq|exact Hf|].
  assert (Systemd.Installed st && Systemd.Enabled st = true) as Hon by (injection Hq as <- <-; reflexivity).
  rewrite Hon in H. destruct (@updateUI obliging ascii_tables documented linux id concat_str (New linux) []) as [a' tr'].
  apply H.
Defined.

(** ** The other platforms *)

Section Direct.
Context (mach : Machine) (U : UnicodeTables) (W : Widgets) (os : goos) (env : string -> string) (join : list string -> string).
Hypothesis neither : on_linux_or_mac os = false.
Definition direct (a : App) : Prop := service (runs a) = false /\ status_polling a = false.
Lemma direct_keeps (f : handler) (a : App) (tr : list call) : keeps f -> direct a -> direct (f a tr).1.
Proof. intros H [H1 H2]. destruct (H a tr) as (E1 & _ & E3). by split; rewrite ?E1, ?E3. Qed.
Lemma direct_updateUI (a : App) (tr : list call) : direct a -> direct (updateUI os env join a tr).1.
Proof.
  apply direct_keeps. unfold updateUI. destruct os; try done.
  apply keeps_asking. by intros [st|e] a' tr'.
Qed.
Lemma direct_exec (x : action) (a : App) (tr : list call) : direct a -> direct (exec os env join x a tr).1.
Proof.
  intros D. unfold exec. destruct (available os x a) eqn:Ea; [|exact D].
  pose proof (keeps_commands mach U os env join true) as (K1 & K2 & K3 & K4 & _ & K6 & K7 & _).
  pose proof D as [H1 H2].
  destruct x; cbn [act]; try (apply direct_keeps; [assumption|exact D]).
  - cbn. unfold start_pressed, startVM. rewrite H1. by destruct (cancel (runs a)); split.
  - cbn. unfold stop_pressed, stopVM, cancel_run. rewrite H1. destruct (cancel (runs a)) eqn:E; cbn; by split.
  - cbn. unfold doQuit, cancel_run. by destruct (cancel (runs a)); split.
  - cbn. by split.
  - apply direct_keeps; [apply keeps_engine_state|done].
  - cbn in Ea. congruence.
  - by apply direct_updateUI.
  - cbn [act]. unfold uninstall. destruct os; try done. unfold windows_uninstall, or_error, asking.
    destruct (Winsvc.RemoveService tr) as [[v|e] tr']; cbn; by split.
  - cbn [act]. apply direct_keeps; [apply (keeps_SetChecked mach U W os env join)|done].
  - cbn [act]. apply direct_keeps; [apply (keeps_commands mach U os env join ok)|done].
Qed.
End Direct.

(** Off Linux and macOS the application never enters service mode: whatever is
    pressed and whatever the machine answers, Start and Stop act on the
    application's own engine, also while the installed service runs its own. *)
Theorem never_in_service_mode (mach : Machine) (U : UnicodeTables) (W : Widgets) (os : goos) (env : string -> string)
  (join : list string -> string) (l : list action) (tr : list call) :
  on_linux_or_mac os = false ->
  service (runs (seq (Run os env join) (exec_all os env join l) (New os) tr).1) = false.
Proof.
  intros Ho. enough (direct (seq (Run os env join) (exec_all os env join l) (New os) tr).1) as [H _] by exact H.
  assert (direct (Run os env join (New os) tr).1) as D.
  { destruct os; try done.
    change (direct (serviceTab windows env join (set_status (new_status false) (set_mode false (New windows))) tr).1).
    unfold serviceTab, seq, upd. cbn [has_service_tab].
    pose proof (direct_updateUI mach U W windows env join Ho (set_status (new_status false) (set_mode false (New windows))) tr) as H.
    destruct (updateUI windows env join _ tr) as [a' tr']. by apply H. }
  unfold seq. destruct (Run os env join (New os) tr) as [a tr']. cbn in D. revert a tr' D.
  induction l as [|x l IH]; intros a tr' D; [done|]. cbn [exec_all foldr]. unfold seq at 1.
  pose proof (direct_exec mach U W os env join Ho x a tr' D) as D'. destruct (exec os env join x a tr') as [a1 tr1].
  by apply IH.
Qed.
Lemma never_in_service_mode_witness :
  on_linux_or_mac windows = false /\
  service (runs (seq (@Run obliging ascii_tables documented windows id concat_str)
    (@exec_all obliging ascii_tables documented windows id concat_str [InstallPressed; StartPressed]) (New windows) []).1) = false.
Proof. split; [reflexivity|]. by apply never_in_service_mode. Defined.
