(* ===== verification/Window.v ===== *)
(** * The window and its tabs: [Run] of [gui/app.go], the tab items of [settings_tab.go]

    The size of the window in the preferences, and the title of the settings
    tab, which a goroutine of its own has to find before it can be changed. *)

From Stdlib Require Import SpecFloat.
From S2P Require Import Prelude GoStrings GoFloats Config Retry Relays Panels ServiceTab.
From S2P Require LifecycleTheorems.
Local Open Scope Z_scope.

(** ** The size of the window *)

(** The preferences hold [float64], sizes are [float32]. *)
Definition Preferences : Type := gmap string spec_float.
Definition FloatWithFallback (prefs : Preferences) (key : string) (fallback : spec_float) : spec_float := default fallback (prefs !! key).
Definition SetFloat (key : string) (v : spec_float) (prefs : Preferences) : Preferences := <[key := v]> prefs.
Definition zero64 : spec_float := S754_zero false.
Definition Size : Type := spec_float * spec_float.
Definition default_size : Size := (f32_of_Z 640, f32_of_Z 480).
(** The size after the two [Resize] of [Run]. *)
Definition opened_size (prefs : Preferences) : Size :=
  let w := FloatWithFallback prefs "window.width" zero64 in
  if flt zero64 w then
    let h := FloatWithFallback prefs "window.height" zero64 in
    if flt zero64 h then (float32 w, float32 h) else default_size
  else default_size.
(** The close intercept: the window is hidden, its size kept. *)
Definition close_window (size : Size) (prefs : Preferences) : Preferences :=
  SetFloat "window.height" (float64 size.2) (SetFloat "window.width" (float64 size.1) prefs).

(** *** A [float32] is unchanged by the way through [float64] *)

Lemma iter_pos_nat {A} (f : A -> A) (n : positive) (x : A) : SpecFloat.iter_pos f n x = Nat.iter (Pos.to_nat n) f x.
Proof.
  revert x. induction n as [n IH|n IH|]; intros x; cbn [SpecFloat.iter_pos]; [| |done]; rewrite !IH, <-Nat.iter_add.
  - rewrite <-Nat.iter_succ_r, Pos2Nat.inj_xI. f_equal. cbn. lia.
  - rewrite Pos2Nat.inj_xO. f_equal. cbn. lia.
Qed.
Lemma pos_iter_nat {A} (f : A -> A) (n : positive) (x : A) : Pos.iter f x n = Nat.iter (Pos.to_nat n) f x.
Proof. by rewrite Pos2Nat.inj_iter. Qed.
(** Shifting back what was shifted is exact. *)
Lemma shift_back (n : nat) (m : positive) :
  Nat.iter n shr_1 {| shr_m := Z.pos (Nat.iter n xO m); shr_r := false; shr_s := false |} = {| shr_m := Z.pos m; shr_r := false; shr_s := false |}.
Proof. induction n as [|n IH]; [done|]. rewrite Nat.iter_succ_r. exact IH. Qed.
Lemma digits_shift (n : nat) (m : positive) : Z.pos (digits2_pos (Nat.iter n xO m)) = Z.pos (digits2_pos m) + Z.of_nat n.
Proof.
  induction n as [|n IH]; [cbn; lia|]. change (Nat.iter (S n) xO m) with (xO (Nat.iter n xO m)). cbn [digits2_pos]. lia.
Qed.

Section Exact.
Variables (prec emax : Z).
(** A mantissa whose exponent is the canonical one is not rounded. *)
Lemma round_aux_exact (s : bool) (m : positive) (e : Z) :
  fexp prec emax (Z.pos (digits2_pos m) + e) = e -> e <= emax - prec -> binary_round_aux prec emax s (Z.pos m) e loc_Exact = S754_finite s m e.
Proof.
  intros He Hm. unfold binary_round_aux, shr_fexp. cbn [Zdigits2 shr_record_of_loc]. rewrite He, Z.sub_diag. cbn [shr shr_m loc_of_shr_record round_nearest_even Zdigits2].
  rewrite He, Z.sub_diag. cbn [shr shr_m]. by rewrite (proj2 (Z.leb_le _ _) Hm).
Qed.
(** One shifted to the left is shifted back. *)
Lemma round_aux_shifted (s : bool) (m : positive) (e : Z) (k : positive) :
  fexp prec emax (Z.pos (digits2_pos m) + e) = e -> e <= emax - prec ->
  binary_round_aux prec emax s (Z.pos (Nat.iter (Pos.to_nat k) xO m)) (e - Z.pos k) loc_Exact = S754_finite s m e.
Proof.
  intros He Hm. unfold binary_round_aux. unfold shr_fexp at 1. cbn [Zdigits2 shr_record_of_loc]. rewrite digits_shift, positive_nat_Z.
  replace (Z.pos (digits2_pos m) + Z.pos k + (e - Z.pos k)) with (Z.pos (digits2_pos m) + e) by lia. rewrite He.
  replace (e - (e - Z.pos k)) with (Z.pos k) by lia. cbn [shr]. rewrite iter_pos_nat, shift_back. cbn [shr_m loc_of_shr_record round_nearest_even].
  replace (e - Z.pos k + Z.pos k) with e by lia. unfold shr_fexp. cbn [Zdigits2 shr_record_of_loc]. rewrite He, Z.sub_diag. cbn [shr shr_m].
  by rewrite (proj2 (Z.leb_le _ _) Hm).
Qed.
Lemma normalize_round (s : bool) (m : positive) (e : Z) :
  binary_normalize prec emax (cond_Zopp s (Z.pos m)) e s = binary_round prec emax s m e.
Proof. by destruct s. Qed.
End Exact.

Lemma float32_float64 (x : spec_float) : valid_binary 24 128 x = true -> float32 (float64 x) = x.
Proof.
  destruct x as [s|s| |s m e]; try done. cbn [valid_binary]. unfold bounded, canonical_mantissa. intros [Hc%Z.eqb_eq He%Z.leb_le]%andb_true_iff.
  unfold float64, float32, convert. rewrite normalize_round. unfold binary_round. 
  assert (Hd : 1 <= Z.pos (digits2_pos m) <= 24) by (unfold fexp, emin in Hc; lia).
  assert (Ef : fexp 53 1024 (Z.pos (digits2_pos m) + e) = Z.pos (digits2_pos m) + e - 53) by (unfold fexp, emin in *; lia).
  rewrite Ef. unfold shl_align. destruct (Z.pos (digits2_pos m) + e - 53 - e) as [|k|k] eqn:Ek; [lia|lia|].
  rewrite pos_iter_nat, round_aux_exact; [|rewrite digits_shift, positive_nat_Z; unfold fexp, emin in *; lia|lia].
  rewrite normalize_round. unfold binary_round. rewrite digits_shift, positive_nat_Z.
  replace (Z.pos (digits2_pos m) + Z.pos k + (Z.pos (digits2_pos m) + e - 53)) with (Z.pos (digits2_pos m) + e) by lia.
  rewrite Hc. unfold shl_align. destruct (e - (Z.pos (digits2_pos m) + e - 53)) as [|k'|k'] eqn:Ek'; [lia| |lia].
  assert (k' = k) as -> by lia. replace (Z.pos (digits2_pos m) + e - 53) with (e - Z.pos k) by lia. by apply round_aux_shifted.
Qed.

(** ** The title of the settings tab *)

(** [a.tabs] with the titles of its items, and the position of the item that
    [settingsTabItem] points to. *)
Record Titles := { settings : world * Settings; tabs : option (list string); item : option nat }.
Definition starting (w : world) : Titles := {| settings := (w, settingsTab (a_cfg w)); tabs := None; item := None |}.
Inductive title_op :=
  | MakeTabs (os : goos) (browser : bool)     (* [Run] assigns [a.tabs] *)
  | Look                                      (* the goroutine looks at [a.tabs], and for the item when they are there *)
  | Change (a : setting_action).

Section Titles.
Context `{U : UnicodeTables}.

(** [markDirty] writes the title when the mark changes and the item is known. *)
Definition write_title (old new : Settings) (t : Titles) : option (list string) :=
  if Bool.eqb (dirty old) (dirty new) then tabs t
  else match tabs t, item t with Some l, Some i => Some (<[i := tab_text new]> l) | _, _ => tabs t end.
Definition is_settings (title : string) : Prop := title = "Settings" \/ title = "Settings *".
#[global] Instance is_settings_dec (title : string) : Decision (is_settings title) := _.
(** The loop over the items, once [a.tabs] is there. *)
Definition look (t : Titles) : Titles :=
  match tabs t, item t with
  | Some l, None => {| settings := settings t; tabs := tabs t; item := fst <$> list_find is_settings l |}
  | _, _ => t
  end.
Definition exec (o : title_op) (t : Titles) : Titles :=
  match o with
  | MakeTabs os browser =>
      match tabs t with
      | None => {| settings := settings t; tabs := Some (tab_names os browser); item := item t |}
      | Some _ => t
      end
  | Look => look t
  | Change a =>
      let p := run_setting a (settings t) in
      {| settings := p; tabs := write_title (settings t).2 p.2 t; item := item t |}
  end.
Definition run (os : list title_op) (t : Titles) : Titles := foldl (fun t o => exec o t) t os.

(** Nothing is changed in the tab before the item is found. *)
Fixpoint in_time (os : list title_op) (t : Titles) : bool :=
  match os with
  | [] => true
  | Change _ as o :: os' => match item t with Some _ => in_time os' (exec o t) | None => false end
  | o :: os' => in_time os' (exec o t)
  end.

Definition mark (t : Settings) : string := if dirty t then "Settings *" else "Settings".
Definition first_five : list string := ["Status"; "Bridges"; "Proxy"; "Relays"; "Circuits"].
(** The title is right, at its position, and the others are as they were made. *)
Definition title_ok (t : Titles) : Prop :=
  tab_text (settings t).2 = mark (settings t).2 /\
  match tabs t with
  | Some l => exists os browser post, tab_names os browser = first_five ++ "Settings" :: post /\ l = first_five ++ mark (settings t).2 :: post
  | None => dirty (settings t).2 = false
  end /\
  match item t with Some i => i = 5%nat /\ tabs t <> None | None => dirty (settings t).2 = false end.
Lemma names_title (os : goos) (browser : bool) : exists post,
  tab_names os browser = first_five ++ "Settings" :: post.
Proof. eexists. unfold tab_names. cbn [app]. reflexivity. Qed.
Lemma run_setting_text (a : setting_action) (p : world * Settings) : tab_text p.2 = mark p.2 ->
  tab_text (run_setting a p).2 = mark (run_setting a p).2.
Proof.
  assert (Hm : forall c t, tab_text t = mark t -> tab_text (markDirty c t) = mark (markDirty c t)) by (intros c t H; apply markDirty_ok; exact H).
  intros H. destruct a as [n|n|s|on|save|]; cbn [run_setting]; try by apply Hm.
  unfold socks_changed. destruct (Atoi s) as [n|e]; [|done]. destruct (_ || _); [done|]. by apply Hm.
Qed.
Lemma find_title (pre post : list string) (m : string) : Forall (fun x => ~ is_settings x) pre -> is_settings m ->
  fst <$> list_find is_settings (pre ++ m :: post) = Some (length pre).
Proof.
  intros Hp Hm. assert (E : list_find is_settings (pre ++ m :: post) = Some (length pre, m)); [|by rewrite E].
  apply list_find_Some. split_and!; [by apply list_lookup_middle|done|].
  intros j y Hj Hlt. rewrite lookup_app_l in Hj by done. by apply (Forall_lookup_1 _ _ _ _ Hp Hj).
Qed.
Lemma exec_title (o : title_op) (t : Titles) : title_ok t -> in_time [o] t = true -> title_ok (exec o t).
Proof.
  intros H Hi. pose proof H as (H1 & H2 & H3). destruct o as [os b| |a]; cbn [exec].
  - destruct (tabs t) as [l|] eqn:E; [exact H|]. split_and!; [done| |].
    + cbn [tabs settings]. destruct (names_title os b) as [post E']. exists os, b, post. unfold mark. by rewrite H2.
    + cbn [item tabs settings]. by destruct (item t); [destruct H3|].
  - unfold look. destruct (tabs t) as [l|] eqn:E; [|exact H]. destruct (item t) as [i|] eqn:Ei; [exact H|].
    destruct H2 as (os & b & post & Hn & ->). split_and!; cbn [settings tabs item]; [done|by exists os, b, post|].
    rewrite find_title; [done| |unfold mark, is_settings; destruct (dirty _); [by right|by left]]. repeat constructor; by intros [].
  - cbn [in_time] in Hi. destruct (item t) as [i|] eqn:Ei; [|done]. destruct H3 as [-> H3]. destruct (tabs t) as [l|] eqn:E; [|done].
    destruct H2 as (os & b & post & Hn & ->). pose proof (run_setting_text a (settings t) H1) as Ht.
    split_and!; cbn [settings tabs item].
    + exact Ht.
    + unfold write_title. rewrite ?E, ?Ei. destruct (Bool.eqb _ _) eqn:Eb.
      * exists os, b, post. unfold mark. apply eqb_prop in Eb. by rewrite <-Eb.
      * exists os, b, post. split; [done|]. by rewrite Ht.
    + split; [done|]. unfold write_title. rewrite E, Ei. by destruct (Bool.eqb _ _).
Qed.
Lemma run_title (os : list title_op) (t : Titles) : title_ok t -> in_time os t = true -> title_ok (run os t).
Proof.
  revert t. induction os as [|o os IH]; intros t H Hi; [done|]. cbn [run foldl]. apply IH.
  - apply exec_title; [done|]. destruct o; try done. cbn [in_time] in *. by destruct (item t).
  - destruct o; try done. cbn [in_time] in Hi. by destruct (item t).
Qed.
End Titles.

(** ** Properties *)

(** The window opens as it was closed: sizes that are positive numbers come
    back exactly, and in any other case, as without preferences, the window
    opens with its default size. *)
Theorem window_reopens (prefs : Preferences) (w h : spec_float) :
  valid_binary 24 128 w = true -> valid_binary 24 128 h = true ->
  opened_size (close_window (w, h) prefs) = (if flt zero64 (float64 w) && flt zero64 (float64 h) then (w, h) else default_size).
Proof.
  intros Hw Hh. unfold opened_size, close_window, FloatWithFallback, SetFloat, Preferences. cbn [fst snd].
  rewrite lookup_insert_ne, !lookup_insert_eq by done. cbn [default from_option id]; unfold id. rewrite !float32_float64 by done.
  destruct (flt zero64 (float64 w)); [|done]. by destruct (flt zero64 (float64 h)).
Qed.
Lemma window_reopens_witness :
  opened_size (close_window (f32_of_Z 800, f32_of_Z 600) ∅) = (f32_of_Z 800, f32_of_Z 600) /\ opened_size ∅ = default_size.
Proof. split; [|reflexivity]. rewrite (window_reopens ∅ (f32_of_Z 800) (f32_of_Z 600)); by vm_compute. Defined.

(** The title of the settings tab says whether there are unsaved changes, and
    the other titles stay as they were made, whatever is done in the tab and
    whenever the goroutine looks, provided it has found the item before the
    first change. *)
Theorem settings_title_marks (U : UnicodeTables) (w : world) (os : list title_op) (l : list string) :
  in_time os (starting w) = true -> tabs (run os (starting w)) = Some l ->
  let s := settings (run os (starting w)) in
  exists o browser post, tab_names o browser = first_five ++ "Settings" :: post /\
    l = first_five ++ (if dirty s.2 then "Settings *" else "Settings") :: post.
Proof.
  intros Hi Hl s. assert (H0 : title_ok (starting w)) by by split_and!.
  destruct (run_title os _ H0 Hi) as (_ & H & _). by rewrite Hl in H.
Qed.
Definition some_world : world := ({| own := None; log := [] |}, LifecycleTheorems.running).
Lemma settings_title_marks_witness :
  let t := run (U := ascii_tables) [Look; MakeTabs linux false; Look; Change (CpuMoved 7)] (starting some_world) in
  exists post, tabs t = Some (first_five ++ "Settings *" :: post).
Proof.
  intros t.
  destruct (settings_title_marks ascii_tables some_world [Look; MakeTabs linux false; Look; Change (CpuMoved 7)]
    (default [] (tabs t)) ltac:(by vm_compute) ltac:(by vm_compute)) as (o & b & post & _ & E).
  assert (Hd : dirty (settings t).2 = true) by by vm_compute. assert (Ht : tabs t = Some (default [] (tabs t))) by by vm_compute.
  exists post. rewrite Ht, E. subst t. by rewrite Hd.
Defined.
(** A change before that is not marked, not even once the item is found. *)
Example early_change_unmarked :
  let t := run (U := ascii_tables) [MakeTabs linux false; Change (CpuMoved 7); Look; Change (MemMoved 512)] (starting some_world) in
  dirty (settings t).2 = true /\ tabs t = Some (tab_names linux false).
Proof. by vm_compute. Qed.
