(* ===== verification/Watcher.v ===== *)
(** * The configuration watcher: package [config], [watcher.go], and its callback in [main.go]

    The loop of [ConfigWatcher] over what happens to it, with the times at which
    it happens.  Timers are idealised: one that runs out at [t] is received at
    [t], where the language only promises that it is not earlier.  Times are in
    nanoseconds. *)

From S2P Require Import Prelude GoStrings StringFacts Config Retry Lifecycle LifecycleTheorems Relays.
Local Open Scope Z_scope.

(** ** The loop *)

Inductive signal :=
  | FsEvent (write create chmod : bool)
  | TimerFired
  | FsError
  | EventsClosed | ErrorsClosed | Done.

Definition debounce : Z := 300 * Millisecond.

(** [timerC]: the time at which the armed timer runs out. *)
Record loop_state := { timerC : option Z; reloads : list Z; stopped : bool }.
Definition loop_init : loop_state := {| timerC := None; reloads := []; stopped := false |}.

Definition relevant (g : signal) : bool := match g with FsEvent w c m => w || c || m | _ => false end.
Definition stop (s : loop_state) : loop_state := {| timerC := timerC s; reloads := reloads s; stopped := true |}.

(** One turn of the [select]; [None] is an input that cannot be received: the
    channel of a timer delivers only when it runs out. *)
Definition turn (t : Z) (g : signal) (s : loop_state) : option loop_state :=
  if stopped s then Some s
  else
    match g with
    | FsEvent _ _ _ =>
        Some (if relevant g then {| timerC := Some (t + debounce); reloads := reloads s; stopped := false |} else s)
    | TimerFired =>
        match timerC s with
        | Some d => if t =? d then Some {| timerC := None; reloads := reloads s ++ [t]; stopped := false |} else None
        | None => None
        end
    | FsError => Some s
    | EventsClosed | ErrorsClosed | Done => Some (stop s)
    end.
Fixpoint loop (ins : list (Z * signal)) (s : loop_state) : option loop_state :=
  match ins with
  | [] => Some s
  | (t, g) :: ins' => match turn t g s with Some s' => loop ins' s' | None => None end
  end.

(** [Close]: closing twice is harmless; the first call closes [done]. *)
Definition Close (closed : bool) (watcher_err : option error) : bool * option error :=
  if closed then (true, None) else (true, watcher_err).

(** ** What a reload does *)

Inductive log_line := LogInfo (s : string) | LogError (s : string).

Section Reload.
Context `{env : Env} `{U : UnicodeTables}.

(** The callback [main] gives the watcher. *)
Definition on_change (newCfg : Config) (s : st) : list log_line * st :=
  let diff := Diff (Cfg (eng s)) newCfg in
  if negb (HasChanges diff) then ([], s)
  else
    let logs := map (fun f => LogInfo ("config watcher: " +:+ f +:+ " changed, restart required")) (RestartRequired diff) in
    if (0 <? length (HotReloadable diff))%nat then
      match ReloadConfig newCfg s with
      | (Err e, s') => (logs ++ [LogError ("config watcher: reload failed: " +:+ Error e)], s')
      | (Ok _, s') => (logs, s')
      end
    else (logs, s).

(** [reload]: a file that does not load is skipped; the outer [None] is the
    panic of a migration. *)
Definition watcher_reload `{IO : ConfigIO} (os : goos) (path : string) (s : st) : option (list log_line * st) :=
  match Load os path with
  | None => None
  | Some (Err _) => Some ([], s)
  | Some (Ok cfg) => Some (on_change cfg s)
  end.
End Reload.

(** ** Facts *)

(** The times never go back. *)
Fixpoint timed (from : Z) (ins : list (Z * signal)) : Prop :=
  match ins with [] => True | (t, _) :: ins' => from <= t /\ timed t ins' end.
(** The relevant events before the loop was stopped. *)
Fixpoint edits (ins : list (Z * signal)) : list Z :=
  match ins with
  | [] => []
  | (t, g) :: ins' =>
      match g with
      | EventsClosed | ErrorsClosed | Done => []
      | _ => (if relevant g then [t] else []) ++ edits ins'
      end
  end.

(** What holds of a running loop at time [now], after the edits [es]. *)
Record loop_ok (now : Z) (es : list Z) (s : loop_state) : Prop := {
  lo_past : Forall (fun e => e <= now) es /\ Forall (fun r => r <= now) (reloads s);
  lo_armed : forall d, timerC s = Some d -> last es = Some (d - debounce) /\ Forall (fun e => e <= d - debounce) es /\
    Forall (fun r => r <= d - debounce) (reloads s);
  lo_idle : timerC s = None -> forall e, e ∈ es -> exists r, r ∈ reloads s /\ e <= r;
  lo_quiet : forall r, r ∈ reloads s -> (exists e, e ∈ es /\ r = e + debounce) /\ forall e, e ∈ es -> e <= r - debounce \/ r <= e;
  lo_apart : forall i r1 r2, reloads s !! i = Some r1 -> reloads s !! S i = Some r2 -> r1 + debounce <= r2
}.

Lemma loop_ok_time (now now' : Z) (es : list Z) (s : loop_state) : loop_ok now es s -> now <= now' -> loop_ok now' es s.
Proof.
  intros [[H1 H1'] H2 H3 H4 H5] Hn. split; try done. split; eapply Forall_impl; [exact H1| |exact H1'|]; cbn; lia.
Qed.

Lemma loop_ok_event (now t : Z) (es : list Z) (s : loop_state) :
  loop_ok now es s -> now <= t ->
  loop_ok t (es ++ [t]) {| timerC := Some (t + debounce); reloads := reloads s; stopped := false |}.
Proof.
  intros H Hn. apply (loop_ok_time _ t) in H; [|done]. destruct H as [[H1 H1'] H2 H3 H4 H5].
  split; cbn [timerC reloads]; [| |done| |done].
  - split; [|done]. apply Forall_app. split; [done|]. by apply Forall_singleton.
  - intros d [= <-]. rewrite last_snoc. replace (t + debounce - debounce) with t by lia. split_and!; [done| |done].
    apply Forall_app. split; [done|]. by apply Forall_singleton.
  - intros r Hr. destruct (H4 r Hr) as [(e & He & ->) Hq]. split.
    + exists e. split; [|done]. apply elem_of_app. by left.
    + intros e' [He'|He']%elem_of_app; [by apply Hq|]. apply list_elem_of_singleton in He' as ->. right.
      rewrite Forall_forall in H1'. by apply H1'.
Qed.
Lemma loop_ok_fire (now t : Z) (es : list Z) (s : loop_state) :
  loop_ok now es s -> now <= t -> timerC s = Some t ->
  loop_ok t es {| timerC := None; reloads := reloads s ++ [t]; stopped := false |}.
Proof.
  intros H Hn Ha. apply (loop_ok_time _ t) in H; [|done]. destruct H as [[H1 H1'] H2 H3 H4 H5].
  destruct (H2 t Ha) as (Hl & He & Hr). rewrite Forall_forall in H1, He, Hr.
  split; cbn [timerC reloads]; [|done| | |].
  - split; [by apply Forall_forall|]. apply Forall_app. split; [done|]. by apply Forall_singleton.
  - intros _ e Hes. exists t. split; [apply elem_of_app; right; by apply list_elem_of_singleton|by apply H1].
  - intros r [Hr'|Hr']%elem_of_app; [by apply H4|]. apply list_elem_of_singleton in Hr' as ->. split.
    + exists (t - debounce). split; [by apply last_Some_elem_of|lia].
    + intros e Hes. left. by apply He.
  - intros i r1 r2 E1 E2. destruct (decide (S i < length (reloads s))%nat) as [Hi|Hi].
    + rewrite lookup_app_l in E1, E2 by lia. by eapply H5.
    + assert (S i = length (reloads s)) as Hi' by (apply lookup_lt_Some in E2; rewrite length_app in E2; cbn in E2; lia).
      rewrite lookup_app_l in E1 by lia. rewrite lookup_app_r, Hi', Nat.sub_diag in E2 by lia. injection E2 as <-.
      apply list_elem_of_lookup_2 in E1. specialize (Hr r1 E1). lia.
Qed.
Lemma loop_ok_turn (now t : Z) (g : signal) (es : list Z) (s s' : loop_state) :
  loop_ok now es s -> now <= t -> stopped s = false -> turn t g s = Some s' -> stopped s' = false ->
  loop_ok t (es ++ if relevant g then [t] else []) s'.
Proof.
  intros H Hn Hs Ht Hs'. unfold turn in Ht. rewrite Hs in Ht.
  destruct g as [w c m| | | | |]; cbn [relevant] in *; try (injection Ht as <-; done).
  - injection Ht as <-. destruct (w || c || m); [by eapply loop_ok_event|]. rewrite app_nil_r. by eapply loop_ok_time.
  - rewrite app_nil_r. destruct (timerC s) as [d|] eqn:Ha; [|done]. destruct (t =? d) eqn:E; [|done].
    apply Z.eqb_eq in E as <-. injection Ht as <-. by eapply loop_ok_fire.
  - injection Ht as <-. rewrite app_nil_r. by eapply loop_ok_time.
Qed.
Lemma loop_stopped (ins : list (Z * signal)) (s s' : loop_state) : stopped s = true -> loop ins s = Some s' -> stopped s' = true.
Proof.
  revert s. induction ins as [|[t g] ins IH]; intros s Hs H; [by injection H as <-|]. cbn [loop] in H. unfold turn in H.
  rewrite Hs in H. by eapply IH.
Qed.
Lemma loop_ok_loop (ins : list (Z * signal)) (now : Z) (es : list Z) (s s' : loop_state) :
  loop_ok now es s -> timed now ins -> stopped s = false -> loop ins s = Some s' -> stopped s' = false ->
  exists now', loop_ok now' (es ++ edits ins) s'.
Proof.
  revert now es s. induction ins as [|[t g] ins IH]; intros now es s H Ht Hs Hl Hs'.
  { injection Hl as <-. exists now. by rewrite app_nil_r. }
  cbn [loop timed] in *. destruct Ht as [Hn Ht]. destruct (turn t g s) as [s1|] eqn:E; [|done].
  destruct (stopped s1) eqn:Hs1; [by rewrite (loop_stopped _ _ _ Hs1 Hl) in Hs'|].
  destruct (IH t _ s1 (loop_ok_turn _ _ _ _ _ _ H Hn Hs E Hs1) Ht Hs1 Hl Hs') as [now' Ho]. exists now'.
  rewrite <-app_assoc in Ho. destruct g; try done; by (unfold turn in E; rewrite Hs in E; injection E as <-).
Qed.
Lemma loop_init_ok (now : Z) : loop_ok now [] loop_init.
Proof.
  split; cbn; try done. all: try by split. all: intros; try (by apply not_elem_of_nil in H); try (by apply not_elem_of_nil in H0).
Qed.

(** ** Properties *)

(** C39. The debouncing: for every course of events, a reload happens exactly one
    interval after some change with no change in between, two reloads are at
    least one interval apart, and no change is lost: while the loop runs, every
    change is followed by a reload or the timer is armed, one interval after
    the last of them. *)
Theorem watcher_debounces (ins : list (Z * signal)) (from : Z) (s : loop_state) :
  timed from ins -> loop ins loop_init = Some s -> stopped s = false ->
  (forall r, r ∈ reloads s -> r - debounce ∈ edits ins /\ forall e, e ∈ edits ins -> e <= r - debounce \/ r <= e) /\
  (forall i r1 r2, reloads s !! i = Some r1 -> reloads s !! S i = Some r2 -> r1 + debounce <= r2) /\
  match timerC s with
  | Some d => last (edits ins) = Some (d - debounce)
  | None => forall e, e ∈ edits ins -> exists r, r ∈ reloads s /\ e <= r
  end.
Proof.
  intros Ht Hl Hs. destruct (loop_ok_loop ins from [] loop_init s (loop_init_ok from) Ht eq_refl Hl Hs) as [now [_ H2 H3 H4 H5]].
  cbn [app] in *. split_and!; [|done|].
  - intros r Hr. destruct (H4 r Hr) as [(e & He & ->) Hq]. split; [|done]. by replace (e + debounce - debounce) with e by lia.
  - destruct (timerC s) as [d|]; [by apply H2|by apply H3].
Qed.
Lemma watcher_debounces_witness :
  let ms n := n * Millisecond in
  let ins := [(ms 0, FsEvent true false false); (ms 100, FsEvent true false false); (ms 100, FsEvent false false false);
              (ms 400, TimerFired); (ms 900, FsEvent false true false)] in
  loop ins loop_init = Some {| timerC := Some (ms 1200); reloads := [ms 400]; stopped := false |} /\
  last (edits ins) = Some (ms 1200 - debounce).
Proof.
  intros ms ins. split; [vm_compute; reflexivity|].
  refine (proj2 (proj2 (watcher_debounces ins 0 {| timerC := Some (ms 1200); reloads := [ms 400]; stopped := false |} _ _ eq_refl))).
  - cbn. split_and!; lia || done.
  - vm_compute. reflexivity.
Defined.

(** ** Capabilities *)

(** [VhostNet] and [IOMMUEnabled] are detected at start and not part of the
    file: their JSON tag leaves them as they are. *)
Definition json_keeps_runtime (IO : ConfigIO) : Prop :=
  forall data c c', json_config data c = Ok c' -> VhostNet c' = VhostNet c /\ IOMMUEnabled c' = IOMMUEnabled c.

Lemma Load_runtime (U : UnicodeTables) (IO : ConfigIO) (os : goos) (path : string) (c : Config) :
  json_keeps_runtime IO -> Load os path = Some (Ok c) -> VhostNet c = false /\ IOMMUEnabled c = false.
Proof.
  intros Hj. unfold Load. assert (load_default os = Ok c -> VhostNet c = false /\ IOMMUEnabled c = false) as Hd.
  { rewrite load_default_valid. intros [= <-]. clear. by destruct os. }
  case_decide; [intros [= Hl]; by apply Hd|]. destruct (check_perm os path); [|done].
  destruct (os_read path) as [d| |e]; [|intros [= Hl]; by apply Hd|done].
  destruct (migrateJSON d) as [d'| |]; [|done|done]. intros [= Hl].
  destruct (json_config d' (DefaultConfig os)) as [c'|] eqn:E; [|done].
  destruct (Hj _ _ _ E) as [H1 H2]. change ((wrap "config validation" (Validate os (set_Version c' ConfigVersion)) ;; Ok (set_Version c' ConfigVersion)) = Ok c) in Hl.
  destruct (Validate os (set_Version c' ConfigVersion)); [|done]. injection Hl as <-.
  cbn [VhostNet IOMMUEnabled set_Version]. rewrite H1, H2. by destruct os.
Qed.

(** A hot reload forgets what was detected: when any hot-reloadable field of the
    file changes, the engine continues with a configuration without vhost-net
    and IOMMU, whatever the host has and the engine had. *)
Theorem reload_forgets_capabilities (env : Env) (U : UnicodeTables) (IO : ConfigIO) (os : goos) (path : string)
  (cfg : Config) (s : st) :
  json_keeps_runtime IO -> Load os path = Some (Ok cfg) ->
  HotReloadable (Diff (Cfg (eng s)) cfg) <> [] -> (ReloadConfig cfg s).1 = Ok tt ->
  exists logs s', watcher_reload os path s = Some (logs, s') /\
    VhostNet (Cfg (eng s')) = false /\ IOMMUEnabled (Cfg (eng s')) = false.
Proof.
  intros Hj Hl Hh Hr. destruct (Load_runtime U IO os path cfg Hj Hl) as [H1 H2].
  unfold watcher_reload. rewrite Hl. unfold on_change. cbv zeta.
  assert ((0 <? length (HotReloadable (Diff (Cfg (eng s)) cfg)))%nat = true) as Hlen.
  { destruct (HotReloadable _); [done|]. reflexivity. }
  assert (HasChanges (Diff (Cfg (eng s)) cfg) = true) as Hc by (unfold HasChanges; by rewrite Hlen).
  rewrite Hc, Hlen. cbn [negb]. pose proof (ReloadConfig_eng cfg s) as He. rewrite Hc in He.
  destruct (ReloadConfig cfg s) as [r s']. cbn [fst] in Hr. subst r. destruct He as [He _]. eexists _, _. split; [reflexivity|].
  rewrite He. split; assumption.
Qed.
Definition blocking_file : ConfigIO := {|
  os_stat := fun _ => StatOk 384; os_read := fun _ => ReadOk "{}"; json_version := fun _ => Some 1;
  json_object := fun _ => None; json_indent := fun _ => None; json_config := fun _ c => Ok (with_blocked "{us}" c) |}.
Lemma reload_forgets_capabilities_witness :
  let s := {| eng := set_Cfg (with_runtime (DefaultConfig linux) true true) (eng running); tr := [] |} in
  exists logs s', @watcher_reload calm_env ascii_tables blocking_file linux "torvm.json" s = Some (logs, s') /\
    VhostNet (Cfg (eng s')) = false /\ IOMMUEnabled (Cfg (eng s')) = false.
Proof.
  intros s. apply (reload_forgets_capabilities calm_env ascii_tables blocking_file linux "torvm.json"
    (set_Version (with_blocked "{us}" (DefaultConfig linux)) ConfigVersion) s).
  - intros data c c' [= <-]. by split.
  - vm_compute. reflexivity.
  - vm_compute. discriminate.
  - vm_compute. reflexivity.
Defined.
