(* ===== verification/Main.v ===== *)
(** * [cmd/torvm/main.go], and packages [platform] and [metrics]

    What the controller does with its flags before it runs, the observers it
    registers on the engine, the health report, and the counters.  Probes of
    the machine are parameters. *)

From S2P Require Import Prelude GoStrings StringFacts Config Retry Lifecycle LifecycleFacts LifecycleTheorems Control Relays.
Local Open Scope Z_scope.

(** ** Package [platform] *)

Definition KVM : string := "kvm".
Definition HVF : string := "hvf".
Definition WHPX : string := "whpx".
Definition TCG : string := "tcg".
Record Info := { AccelType : string; HasVhostNet : bool; IOMMUSupport : bool }.

(** The probes: [/dev/kvm] opens, [/dev/vhost-net] exists, the entries of the
    IOMMU directory; the outputs of [sysctl] and [systeminfo]. *)
Class Probes := {
  kvm_opens : bool; vhost_exists : bool; iommu_groups : result (list string);
  hv_support : result string; systeminfo : result string
}.

Section Platform.
Context `{P : Probes} `{U : UnicodeTables}.
Definition detect_linux : Info := {|
  AccelType := if kvm_opens then KVM else TCG; HasVhostNet := vhost_exists;
  IOMMUSupport := match iommu_groups with Ok (_ :: _) => true | _ => false end |}.
Definition detect_darwin : Info := {|
  AccelType := match hv_support with Ok out => if decide (TrimSpace out = "1") then HVF else TCG | Err _ => TCG end;
  HasVhostNet := false; IOMMUSupport := false |}.
Definition detect_windows : Info := {|
  AccelType := match systeminfo with
               | Ok out => if Contains (ToLower out) "hypervisor has been detected" then WHPX else TCG
               | Err _ => TCG
               end;
  HasVhostNet := false; IOMMUSupport := false |}.
(** No probe fails: every error is the fallback.  The package does not build for
    other systems. *)
Definition Detect (os : goos) : Info :=
  match os with
  | linux => detect_linux | darwin => detect_darwin | windows => detect_windows
  | _ => {| AccelType := TCG; HasVhostNet := false; IOMMUSupport := false |}
  end.
Definition ParseAccel (s : string) : result string :=
  if decide (s = "kvm") then Ok KVM else if decide (s = "hvf") then Ok HVF
  else if decide (s = "whpx") then Ok WHPX else if decide (s = "tcg") then Ok TCG
  else Err (Errorf ("unknown accelerator: " +:+ Quote s)).
End Platform.

(** ** Package [metrics] *)

(** Durations are in nanoseconds; a histogram is what it observed. *)
Record Recorder := {
  StateTransitions : gmap (string * string) Z; StateDuration : list (string * Z); RestartsTotal : Z;
  BootstrapDuration : list Z; BootstrapProgress : Z; FailsafeActive : Z; FailsafeActivations : Z;
  currentState : string; stateEnteredAt : Z; uptime_stopped : bool
}.
Definition NewRecorder (now : Z) : Recorder := {|
  StateTransitions := ∅; StateDuration := []; RestartsTotal := 0; BootstrapDuration := []; BootstrapProgress := 0;
  FailsafeActive := 0; FailsafeActivations := 0; currentState := "Init"; stateEnteredAt := now; uptime_stopped := false |}.
Definition is_restart (from to : string) : bool :=
  String.eqb to "LaunchVM" && (String.eqb from "Shutdown" || String.eqb from "RestoreNetwork" || String.eqb from "Cleanup").
Definition RecordTransition (now : Z) (from to : string) (r : Recorder) : Recorder := {|
  StateTransitions := <[(from, to) := default 0 (StateTransitions r !! (from, to)) + 1]> (StateTransitions r);
  StateDuration := if String.eqb (currentState r) EmptyString then StateDuration r
                   else StateDuration r ++ [(currentState r, now - stateEnteredAt r)];
  RestartsTotal := if is_restart from to then RestartsTotal r + 1 else RestartsTotal r;
  BootstrapDuration := BootstrapDuration r; BootstrapProgress := BootstrapProgress r; FailsafeActive := FailsafeActive r;
  FailsafeActivations := FailsafeActivations r; currentState := to; stateEnteredAt := now; uptime_stopped := uptime_stopped r |}.
Definition RecordBootstrapProgress (pct : Z) (r : Recorder) : Recorder := {|
  StateTransitions := StateTransitions r; StateDuration := StateDuration r; RestartsTotal := RestartsTotal r;
  BootstrapDuration := BootstrapDuration r; BootstrapProgress := pct; FailsafeActive := FailsafeActive r;
  FailsafeActivations := FailsafeActivations r; currentState := currentState r; stateEnteredAt := stateEnteredAt r;
  uptime_stopped := uptime_stopped r |}.
Definition RecordFailsafeActivation (r : Recorder) : Recorder := {|
  StateTransitions := StateTransitions r; StateDuration := StateDuration r; RestartsTotal := RestartsTotal r;
  BootstrapDuration := BootstrapDuration r; BootstrapProgress := BootstrapProgress r; FailsafeActive := FailsafeActive r;
  FailsafeActivations := FailsafeActivations r + 1; currentState := currentState r; stateEnteredAt := stateEnteredAt r;
  uptime_stopped := uptime_stopped r |}.
Definition RecordBootstrapDuration (d : Z) (r : Recorder) : Recorder := {|
  StateTransitions := StateTransitions r; StateDuration := StateDuration r; RestartsTotal := RestartsTotal r;
  BootstrapDuration := BootstrapDuration r ++ [d]; BootstrapProgress := BootstrapProgress r; FailsafeActive := FailsafeActive r;
  FailsafeActivations := FailsafeActivations r; currentState := currentState r; stateEnteredAt := stateEnteredAt r;
  uptime_stopped := uptime_stopped r |}.
Definition SetFailsafeActive (active : bool) (r : Recorder) : Recorder := {|
  StateTransitions := StateTransitions r; StateDuration := StateDuration r; RestartsTotal := RestartsTotal r;
  BootstrapDuration := BootstrapDuration r; BootstrapProgress := BootstrapProgress r; FailsafeActive := if active then 1 else 0;
  FailsafeActivations := FailsafeActivations r; currentState := currentState r; stateEnteredAt := stateEnteredAt r;
  uptime_stopped := uptime_stopped r |}.
(** [Stop]: twice is harmless. *)
Definition Stop (r : Recorder) : Recorder := {|
  StateTransitions := StateTransitions r; StateDuration := StateDuration r; RestartsTotal := RestartsTotal r;
  BootstrapDuration := BootstrapDuration r; BootstrapProgress := BootstrapProgress r; FailsafeActive := FailsafeActive r;
  FailsafeActivations := FailsafeActivations r; currentState := currentState r; stateEnteredAt := stateEnteredAt r;
  uptime_stopped := true |}.

(** The health report. *)
Record HealthStatus := {
  h_State : string; h_Bootstrap : Z; h_Failsafe : bool; h_UptimeSeconds : Z; h_BootstrapPercent : Z; h_VMPID : Z;
  h_LastError : string; h_Version : string
}.
Definition state_name (s : State) : string :=
  match s with
  | StateInit => "Init" | StateCheckPrivileges => "CheckPrivileges" | StateSaveNetwork => "SaveNetwork"
  | StateCreateTAP => "CreateTAP" | StateLaunchVM => "LaunchVM" | StateWaitTAP => "WaitTAP"
  | StateConfigureTAP => "ConfigureTAP" | StateFlushDNS => "FlushDNS" | StateWaitBootstrap => "WaitBootstrap"
  | StateRunning => "Running" | StateShutdown => "Shutdown" | StateRestoreNetwork => "RestoreNetwork"
  | StateCleanup => "Cleanup" | StateFailed => "Failed"
  end.
Definition healthFn (engineRef : option Engine) (uptime_ns : Z) (lastError : string) : HealthStatus :=
  match engineRef with
  | None => {| h_State := "Init"; h_Bootstrap := 0; h_Failsafe := false; h_UptimeSeconds := 0; h_BootstrapPercent := 0;
               h_VMPID := 0; h_LastError := EmptyString; h_Version := "0.1.0" |}
  | Some e =>
      let bootstrap := if decide (state e = StateRunning) then 100 else 0 in
      {| h_State := state_name (state e); h_Bootstrap := bootstrap; h_Failsafe := fs_active e;
         h_UptimeSeconds := Z.quot uptime_ns Second; h_BootstrapPercent := bootstrap; h_VMPID := 0;
         h_LastError := lastError; h_Version := "0.1.0" |}
  end.

(** ** [main] *)

Record Flags := {
  accelFlag : string; verboseFlag : bool; headless : bool; configFile : string; clean : bool; replace : bool;
  serviceInstall : bool; serviceUninstall : bool; serviceRun : bool; metricsAddr : string; logFormat : string; logFile : string;
  timeout : Z; status : bool; version : bool
}.
(** What is left to do once the flags are handled. *)
Inductive plan :=
  | Exit (code : Z) (stdout stderr : list string)
  | RunAsService (cfg : Config)
  | RunHeadless (cfg : Config) (removed : list string) (deadline : option Z) (watch : bool)
  | RunGui (cfg : Config) (removed : list string) (watch browser autostart : bool)
  | PanicInLoad.
Definition with_accel (accel : string) (vhost iommu verbose : bool) (c : Config) : Config := {|
  Version := Version c; TAPName := TAPName c; HostIP := HostIP c; VMIP := VMIP c; SubnetMask := SubnetMask c;
  DNS1 := DNS1 c; DNS2 := DNS2 c; SOCKSPort := SOCKSPort c; ControlPort := ControlPort c; TransPort := TransPort c;
  DNSPort := DNSPort c; VMMemoryMB := VMMemoryMB c; VMCPUs := VMCPUs c; KernelPath := KernelPath c; InitrdPath := InitrdPath c;
  StateDiskPath := StateDiskPath c; QMPSocketPath := QMPSocketPath c; Verbose := verbose; Accel := accel; Headless := Headless c;
  VhostNet := vhost; IOMMUEnabled := iommu; Bridge := Bridge c; Proxy := Proxy c; Service := Service c;
  Retry := Retry c; Entropy := Entropy c; Relays := Relays c; Browser := Browser c; FHE := FHE c;
  Vector := Vector c |}.

Section Main.
Context `{P : Probes} `{U : UnicodeTables} `{IO : ConfigIO} (os : goos).
(** The service functions of the platform, the status query, and whether the
    logger and the metrics server come up. *)
Variables install uninstall : result unit.
Variable query : Config -> Z.
Variables new_logger new_metrics : result unit.

Definition fail (msg : string) (e : error) : plan := Exit 1 [] ["error: " +:+ msg +:+ Error e].
Definition overrides (f : Flags) (c : Config) : result Config :=
  let info := Detect os in
  if decide (accelFlag f = EmptyString)
  then Ok (with_accel (AccelType info) (HasVhostNet info) (IOMMUSupport info) (verboseFlag f) c)
  else accel ← ParseAccel (accelFlag f); Ok (with_accel accel (HasVhostNet info) (IOMMUSupport info) (verboseFlag f) c).
Definition main (f : Flags) : plan :=
  if version f then Exit 0 ["torvm version 0.1.0"] []
  else if serviceInstall f then
    match install with Err e => fail "service install: " e | Ok _ => Exit 0 ["TorVM service installed."] [] end
  else if serviceUninstall f then
    match uninstall with Err e => fail "service uninstall: " e | Ok _ => Exit 0 ["TorVM service uninstalled."] [] end
  else
    match Load os (configFile f) with
    | None => PanicInLoad
    | Some (Err e) => fail "load config: " e
    | Some (Ok cfg0) =>
        if status f then Exit (query cfg0) [] []
        else
          match overrides f cfg0 with
          | Err e => fail EmptyString e
          | Ok cfg =>
              match new_logger with
              | Err e => fail "create logger: " e
              | Ok _ =>
                  if serviceRun f then RunAsService cfg
                  else
                    match (if decide (metricsAddr f = EmptyString) then Ok tt else new_metrics) with
                    | Err e => fail "metrics server: " e
                    | Ok _ =>
                        let removed := if clean f || replace f then [StateDiskPath cfg] else [] in
                        let watch := negb (String.eqb (configFile f) EmptyString) in
                        if headless f then RunHeadless cfg removed (if 0 <? timeout f then Some (timeout f) else None) watch
                        else RunGui cfg removed watch (Browser_Enabled (Browser cfg))
                               (Browser_Enabled (Browser cfg) && Browser_AutoStart (Browser cfg))
                    end
              end
          end
    end.
End Main.

(** *** The systemd observer *)

(** [watchdogs]: goroutines that ping; [closed]: [watchdogStop] is closed,
    which ends them all.  Closing it again panics. *)
Record Notifier := { watchdogs : nat; closed : bool; notified : list string }.
Definition new_notifier : Notifier := {| watchdogs := 0; closed := false; notified := [] |}.
Definition note (l : list string) (n : Notifier) : Notifier :=
  {| watchdogs := watchdogs n; closed := closed n; notified := notified n ++ l |}.
Definition observe (to : State) (n : Notifier) : Prelude.outcome Notifier :=
  match to with
  | StateRunning =>
      mret (note ["READY=1"; "STATUS=running - Tor connected"]
              {| watchdogs := if closed n then watchdogs n else S (watchdogs n); closed := closed n; notified := notified n |})
  | StateShutdown =>
      if closed n then Panic
      else mret (note ["STATUS=shutting down"] {| watchdogs := 0; closed := true; notified := notified n |})
  | StateWaitBootstrap => mret (note ["STATUS=waiting for Tor bootstrap"] n)
  | StateLaunchVM => mret (note ["STATUS=launching VM"] n)
  | StateCreateTAP => mret (note ["STATUS=creating TAP adapter"] n)
  | _ => mret n
  end.
Fixpoint observe_all (l : list (State * State)) (n : Notifier) : Prelude.outcome Notifier :=
  match l with [] => mret n | (_, to) :: l' => n' ← observe to n; observe_all l' n' end.

(** The observer that starts and stops the browser with Tor. *)
Inductive browser_call := BrowserStart | BrowserStop.
Definition autostart_observer (to : State) : list browser_call :=
  if decide (to = StateRunning) then [BrowserStart] else if decide (to = StateShutdown) then [BrowserStop] else [].

(** *** [queryStatus] *)

(** [dial] is the TCP probe; [client] the second connection, authenticated and
    asked. *)
Definition queryStatus (dial : result unit) (client : result BootstrapStatus) (cfg : Config) : Z * list string :=
  let vmAddr := VMIP cfg +:+ ":" +:+ itoa (ControlPort cfg) in
  match dial with
  | Err _ => (1, ["TorVM Status: Stopped"; "  (could not reach " +:+ vmAddr +:+ ")"])
  | Ok _ =>
      (0, ["TorVM Status: Running"; "  SOCKS Port: " +:+ itoa (SOCKSPort cfg)] ++
          match client with
          | Ok s => ["  Bootstrap: " +:+ itoa (Progress s) +:+ "% - " +:+ Summary s]
          | Err _ => []
          end)
  end.

(** ** Properties of the start *)

Definition plan_config (p : plan) : option Config :=
  match p with RunAsService c | RunHeadless c _ _ _ | RunGui c _ _ _ _ => Some c | Exit _ _ _ | PanicInLoad => None end.
Definition accels : list string := [""; "kvm"; "hvf"; "whpx"; "tcg"].

Section MainFacts.
Context `{P : Probes} `{U : UnicodeTables} `{IO : ConfigIO} (os : goos).
Lemma Detect_accel : AccelType (Detect os) ∈ accels.
Proof.
  assert (KVM ∈ accels /\ HVF ∈ accels /\ WHPX ∈ accels /\ TCG ∈ accels) as (? & ? & ? & ?) by (unfold accels; set_solver).
  destruct os; cbn; repeat case_match; done.
Qed.
Lemma ParseAccel_accel (s a : string) : ParseAccel s = Ok a -> a = s /\ a ∈ accels.
Proof. unfold ParseAccel, accels. repeat case_decide; intros [= <-]; subst; (split; [done|set_solver]). Qed.
Lemma with_accel_valid (a : string) (v i b : bool) (c : Config) :
  valid_config os c -> a ∈ accels -> valid_config os (with_accel a v i b c).
Proof. intros [] Ha. by split. Qed.
End MainFacts.

(** Whatever the flags, the file and the machine: when the controller runs at
    all, in any of its three modes, it runs with a valid configuration, the
    acceleration asked for or else detected, the detected capabilities, and the
    verbosity of the flag, that of the file being ignored. *)
Theorem main_config (P : Probes) (U : UnicodeTables) (IO : ConfigIO) (os : goos) (install uninstall : result unit)
  (query : Config -> Z) (new_logger new_metrics : result unit) (f : Flags) (c : Config) :
  plan_config (main os install uninstall query new_logger new_metrics f) = Some c ->
  valid_config os c /\
  Accel c = (if decide (accelFlag f = EmptyString) then AccelType (Detect os) else accelFlag f) /\
  VhostNet c = HasVhostNet (Detect os) /\ IOMMUEnabled c = IOMMUSupport (Detect os) /\ Verbose c = verboseFlag f.
Proof.
  unfold main, fail. intros H.
  destruct (version f); [done|]. destruct (serviceInstall f); [by destruct install|].
  destruct (serviceUninstall f); [by destruct uninstall|].
  destruct (Load os (configFile f)) as [[c0|]|] eqn:El; [|done|done]. destruct (status f); [done|].
  destruct (Load_ok U IO os (configFile f) c0 El) as [V _].
  destruct (overrides os f c0) as [c1|] eqn:Eo; [|done]. destruct new_logger; [|done].
  assert (Some c1 = Some c) as [= ->].
  { destruct (serviceRun f); [done|]. destruct (if decide _ then _ else _); [|done]. by destruct (headless f). }
  clear H. unfold overrides in Eo. cbv zeta in Eo. case_decide as Ha.
  - injection Eo as <-. split; [apply with_accel_valid; [done|apply Detect_accel]|]. by split_and!.
  - destruct (ParseAccel (accelFlag f)) as [acc|] eqn:Ep; [|done]. destruct (ParseAccel_accel _ _ Ep) as [-> Hin].
    injection Eo as <-. split; [by apply with_accel_valid|]. by split_and!.
Qed.
Definition plain_probes : Probes := {|
  kvm_opens := true; vhost_exists := true; iommu_groups := Ok []; hv_support := Ok "1"; systeminfo := Ok EmptyString |}.
Definition tcg_flags : Flags := {|
  accelFlag := "tcg"; verboseFlag := true; headless := true; configFile := "/etc/torvm.json"; clean := false; replace := true;
  serviceInstall := false; serviceUninstall := false; serviceRun := false; metricsAddr := EmptyString; logFormat := EmptyString;
  logFile := EmptyString; timeout := 0; status := false; version := false |}.
Lemma main_config_witness :
  exists c, @main plain_probes ascii_tables (one_file 384 "{}" 1 (Some ∅)) linux (Ok tt) (Ok tt) (fun _ => 0) (Ok tt) (Ok tt) tcg_flags
    = RunHeadless c [StateDiskPath c] None true /\
    valid_config linux c /\ Accel c = "tcg" /\ VhostNet c = true /\ IOMMUEnabled c = false /\ Verbose c = true.
Proof.
  exists (with_accel "tcg" true false true (set_Version (DefaultConfig linux) ConfigVersion)). split; [vm_compute; reflexivity|].
  refine (main_config plain_probes ascii_tables (one_file 384 "{}" 1 (Some ∅)) linux (Ok tt) (Ok tt) (fun _ => 0) (Ok tt) (Ok tt)
    tcg_flags _ _). vm_compute. reflexivity.
Defined.

(** ** Properties of the observers *)

Lemma observe_all_shutdowns (l : list (State * State)) (n : Notifier) :
  let k := length (List.filter (fun p => bool_decide (p.2 = StateShutdown)) l) in
  (if closed n then k = 0%nat else (k <= 1)%nat) <-> observe_all l n <> Panic.
Proof.
  revert n. induction l as [|[a b] l IH]; intros n; cbn [observe_all List.filter].
  { cbn. destruct (closed n); split; (done || lia). }
  cbn [snd]. destruct (decide (b = StateShutdown)) as [->|Hb].
  - rewrite bool_decide_eq_true_2 by done. cbn [observe length]. destruct (closed n) eqn:Hc.
    + split; [lia|done].
    + pose proof (IH (note ["STATUS=shutting down"] {| watchdogs := 0; closed := true; notified := notified n |})) as IH'.
      cbn in *. rewrite <-IH'. lia.
  - rewrite bool_decide_eq_false_2 by done.
    assert (exists n', observe b n = mret n' /\ closed n' = closed n) as (n' & -> & Hc) by (destruct b; (done || by eexists)).
    cbn. rewrite <-IH, Hc. done.
Qed.

(** C40. Under systemd a cancelled run ends in a panic: whatever state the engine is
    in when its context is done, the second iteration enters [Shutdown] again
    and the observer closes a closed channel; in general the observer survives
    exactly the runs that enter [Shutdown] at most once. *)
Theorem cancelled_observer_panics (env : Env) (U : UnicodeTables) (s : st) :
  (forall evs, answer (tr s ++ evs) CtxErr <> None) ->
  exists s' evs, Run 2 s = (OutOfFuel, s') /\ tr s' = tr s ++ evs /\ observe_all (trail evs) new_notifier = Panic.
Proof.
  intros H. destruct (Run_cancelled 2 s H) as (s' & evs & Hr & Ht & _ & Hs). exists s', evs. split_and!; [done..|].
  pose proof (observe_all_shutdowns (trail evs) new_notifier) as Ho. cbv zeta in Ho. fold (shutdowns evs) in Ho. rewrite Hs in Ho.
  cbn in Ho. destruct (observe_all (trail evs) new_notifier); [|done|]; exfalso; assert (2 <= 1)%nat by (by apply Ho); lia.
Qed.
Lemma cancelled_observer_panics_witness :
  exists s' evs, @Run cancelled_env ascii_tables 2 running = (OutOfFuel, s') /\ tr s' = tr running ++ evs /\
    observe_all (trail evs) new_notifier = Panic.
Proof. apply (cancelled_observer_panics cancelled_env ascii_tables running). intros evs. discriminate. Defined.

(** ** Properties of the counters *)

(** A run recorded: the [i]-th transition happens at [clock i]. *)
Fixpoint record_run (clock : nat -> Z) (i : nat) (l : list (State * State)) (r : Recorder) : Recorder :=
  match l with
  | [] => r
  | (a, b) :: l' => record_run clock (S i) l' (RecordTransition (clock i) (state_name a) (state_name b) r)
  end.
Lemma state_name_inj (a b : State) : state_name a = state_name b -> a = b.
Proof. by destruct a, b. Qed.
Definition count_edge (a b : State) (l : list (State * State)) : Z :=
  Z.of_nat (length (List.filter (fun p => bool_decide (p = (a, b))) l)).
Definition total (l : list (string * Z)) : Z := foldr (fun p n => p.2 + n) 0 l.

Lemma total_app (l1 l2 : list (string * Z)) : total (l1 ++ l2) = total l1 + total l2.
Proof. unfold total. induction l1 as [|x l1 IH]; [done|]. cbn. rewrite IH. lia. Qed.

Lemma edge_no_restart (a b : State) : edge a b = true -> is_restart (state_name a) (state_name b) = false.
Proof. by destruct a, b. Qed.
Lemma record_run_spec (clock : nat -> Z) (l : list (State * State)) (i : nat) (s s' : State) (r : Recorder) :
  follow s l = Some s' -> currentState r = state_name s ->
  let r' := record_run clock i l r in
  RestartsTotal r' = RestartsTotal r /\ currentState r' = state_name s' /\
  (forall a b, default 0 (StateTransitions r' !! (state_name a, state_name b)) =
     default 0 (StateTransitions r !! (state_name a, state_name b)) + count_edge a b l) /\
  total (StateDuration r') + stateEnteredAt r = total (StateDuration r) + stateEnteredAt r'.
Proof.
  revert i s r. induction l as [|[a b] l IH]; intros i s r Hf Hc r'.
  { injection Hf as <-. subst r'. cbn. split_and!; [done|done|unfold count_edge; cbn; lia|lia]. }
  cbn [follow] in Hf. destruct (decide (a = s)) as [->|]; [|done]. destruct (edge s b) eqn:He; [|done].
  subst r'. cbn [record_run]. set (r1 := RecordTransition _ _ _ r).
  destruct (IH (S i) b r1 Hf eq_refl) as (H1 & H2 & H3 & H4). split_and!; [|done| |].
  - rewrite H1. subst r1. cbn. by rewrite edge_no_restart.
  - intros x y. rewrite H3. subst r1. cbn [StateTransitions RecordTransition]. unfold count_edge. cbn [List.filter].
    destruct (decide ((s, b) = (x, y))) as [[= -> ->]|Hne].
    + rewrite lookup_insert_eq, bool_decide_eq_true_2 by done. unfold from_option, id. cbn [length]. lia.
    + rewrite bool_decide_eq_false_2 by done. rewrite lookup_insert_ne; [done|].
      intros [= ->%state_name_inj ->%state_name_inj]. done.
  - assert (total (StateDuration r1) + stateEnteredAt r = total (StateDuration r) + stateEnteredAt r1) as H5; [|lia].
    subst r1. cbn [StateDuration RecordTransition stateEnteredAt]. rewrite Hc.
    assert (String.eqb (state_name s) EmptyString = false) as -> by (by destruct s).
    rewrite total_app. cbn. lia.
Qed.

(** The counters of any run, complete or not: every transition is counted under
    its two states, the current state is the engine's, the durations observed
    add up to the time from the start to the last transition, and the counter
    of VM restarts stays zero, since no transition leads back to [LaunchVM]. *)
Theorem metrics_of_run (env : Env) (U : UnicodeTables) (cfg : Config) (fuel : nat) (o : outcome) (s' : st)
  (clock : nat -> Z) (t0 : Z) :
  Run fuel (init cfg) = (o, s') ->
  let l := trail (tr s') in
  let r := record_run clock 0 l (NewRecorder t0) in
  RestartsTotal r = 0 /\ currentState r = state_name (state (eng s')) /\
  (forall a b, default 0 (StateTransitions r !! (state_name a, state_name b)) = count_edge a b l) /\
  total (StateDuration r) = stateEnteredAt r - t0.
Proof.
  intros H l r. pose proof (Run_trail fuel (init cfg) s' o (init_Inv cfg) H) as Hf.
  destruct (record_run_spec clock l 0 _ _ (NewRecorder t0) Hf eq_refl) as (H1 & H2 & H3 & H4).
  split_and!; [done|done| |].
  - intros a b. by rewrite H3.
  - cbn in H4. subst r. lia.
Qed.
Lemma metrics_of_run_witness :
  let l := trail (tr calm_final) in
  let r := record_run (fun i => Z.of_nat i * Second) 0 l (NewRecorder 0) in
  RestartsTotal r = 0 /\ currentState r = "Cleanup" /\
  (forall a b, default 0 (StateTransitions r !! (state_name a, state_name b)) = count_edge a b l) /\
  total (StateDuration r) = stateEnteredAt r - 0.
Proof.
  exact (metrics_of_run calm_env ascii_tables (DefaultConfig linux) 24 _ calm_final (fun i => Z.of_nat i * Second) 0 calm_run).
Defined.
