(* ===== verification/Metrics.v ===== *)
(** * Package [metrics]: the registry, the uptime and the server

    The collectors [NewRecorder] registers, the goroutine that keeps the uptime
    until [Stop], the HTTP server of [server.go], and what a scrape sees of a
    run of the engine.  The recording itself is in [Main]; the registry refuses
    a name twice by a panic, as the library documents. *)

From S2P Require Import Prelude GoStrings Config Retry Lifecycle LifecycleFacts LifecycleTheorems Main.
Local Open Scope Z_scope.

(** ** The collectors *)

(** Bounds of buckets in tenths of a second; [DefBuckets] is the library's. *)
Inductive kind := CounterVec (labels : list string) | Counter | Gauge | Histogram | HistogramVec (buckets : list Z) (labels : list string).
Record desc := { d_name : string; d_help : string; d_kind : kind }.
Definition collector (n h : string) (k : kind) : desc := {| d_name := n; d_help := h; d_kind := k |}.
Definition collectors : list desc := [
  collector "torvm_state_transitions_total" "Total number of lifecycle state transitions." (CounterVec ["from"; "to"]);
  collector "torvm_bootstrap_duration_seconds" "Time taken for Tor to bootstrap." Histogram;
  collector "torvm_failsafe_active" "Whether the failsafe is currently active (1) or not (0)." Gauge;
  collector "torvm_uptime_seconds" "Seconds since the controller started." Gauge;
  collector "torvm_bootstrap_progress" "Tor bootstrap percentage (0-100)." Gauge;
  collector "torvm_state_duration_seconds" "Time spent in each lifecycle state."
    (HistogramVec [1; 5; 10; 50; 100; 300; 600; 1200; 3000] ["state"]);
  collector "torvm_restarts_total" "Total number of VM restarts." Counter;
  collector "torvm_failsafe_activations_total" "Total number of failsafe activations." Counter].

(** [reg.MustRegister]. *)
Definition MustRegister (d : desc) (reg : list desc) : Prelude.outcome (list desc) :=
  if bool_decide (d_name d ∈ map d_name reg) then Panic else Ret (reg ++ [d]).
Fixpoint register_all (ds : list desc) (reg : list desc) : Prelude.outcome (list desc) :=
  match ds with [] => Ret reg | d :: ds' => reg' ← MustRegister d reg; register_all ds' reg' end.

(** ** The uptime *)

(** [reported]: the gauge, in nanoseconds; [counting]: the goroutine runs. *)
Record Uptime := { startTime : Z; reported : Z; stop_closed : bool; counting : bool }.
Definition start_uptime (now : Z) : Uptime := {| startTime := now; reported := 0; stop_closed := false; counting := true |}.
(** A turn of [updateUptime]: a tick at a time, or [stopUptime] is closed. *)
Inductive uptime_input := Tick (now : Z) | StopCalled | Noticed.
Definition updateUptime (i : uptime_input) (u : Uptime) : Uptime :=
  match i with
  | Tick now => if counting u
      then {| startTime := startTime u; reported := now - startTime u; stop_closed := stop_closed u; counting := true |} else u
  | StopCalled => {| startTime := startTime u; reported := reported u; stop_closed := true; counting := counting u |}
  | Noticed => if stop_closed u
      then {| startTime := startTime u; reported := reported u; stop_closed := true; counting := false |} else u
  end.

(** [NewRecorder]: the registry, the recorder of [Main], and the uptime. *)
Definition New (now : Z) (reg : list desc) : Prelude.outcome (list desc * Recorder * Uptime) :=
  reg' ← register_all collectors reg; mret (reg', NewRecorder now, start_uptime now).

(** ** The server *)

Inductive response := Metrics (names : list string) | Health (h : HealthStatus) | NotFound.
Record Server := { listening : string; metrics_registry : list desc; health : unit -> HealthStatus }.
(** [NewServer], given what [net.Listen] returns: the address it took. *)
Definition NewServer (listen : string -> result string) (addr : string) (reg : list desc) (healthFn : unit -> HealthStatus)
  : result Server :=
  a ← listen addr; Ok {| listening := a; metrics_registry := reg; health := healthFn |}.
Definition handle (path : string) (s : Server) : response :=
  if decide (path = "/metrics") then Metrics (map d_name (metrics_registry s))
  else if decide (path = "/healthz") then Health (health s tt)
  else NotFound.
Definition Addr (s : Server) : string := listening s.

(** ** Properties *)

Lemma MustRegister_twice (d : desc) (reg : list desc) : d_name d ∈ map d_name reg -> MustRegister d reg = Panic.
Proof. intros H. unfold MustRegister. by rewrite bool_decide_eq_true_2. Qed.

(** The collectors fit a fresh registry, which then has them all; a second
    recorder on the same registry panics. *)
Theorem register_once (now now' : Z) (reg : list desc) (r : Recorder) (u : Uptime) :
  (exists r0 u0, New now [] = Ret (collectors, r0, u0)) /\
  (New now reg = Ret (reg ++ collectors, r, u) -> New now' (reg ++ collectors) = Panic).
Proof.
  split; [by repeat eexists|]. intros _. unfold New.
  assert ("torvm_state_transitions_total" ∈ map d_name (reg ++ collectors)) as H.
  { rewrite map_app. apply elem_of_app. right. by left. }
  revert H. generalize (reg ++ collectors). intros reg' H. unfold collectors. cbn [register_all].
  by rewrite MustRegister_twice.
Qed.
Lemma register_once_witness : New 1 collectors = Panic.
Proof. exact (proj2 (register_once 0 1 [] (NewRecorder 0) (start_uptime 0)) eq_refl). Defined.

(** What of a recorder no transition touches. *)
Definition untouched (r : Recorder) : Z * Z * Z * list Z :=
  (FailsafeActive r, FailsafeActivations r, BootstrapProgress r, BootstrapDuration r).
Lemma record_run_untouched (clock : nat -> Z) (l : list (State * State)) (i : nat) (r : Recorder) :
  untouched (record_run clock i l r) = untouched r.
Proof. revert i r. induction l as [|[a b] l IH]; intros i r; [done|]. cbn [record_run]. by rewrite IH. Qed.

(** The engine tells the recorder of its transitions and of nothing else: after
    any run, one in which the failsafe was activated included, the metrics say
    that the failsafe is off and was never on, and that nothing bootstrapped. *)
Theorem failsafe_never_recorded (env : Env) (U : UnicodeTables) (cfg : Config) (fuel : nat) (clock : nat -> Z) (t0 : Z) :
  let s' := (Run fuel (init cfg)).2 in
  untouched (record_run clock 0 (trail (tr s')) (NewRecorder t0)) = (0, 0, 0, []).
Proof. apply record_run_untouched. Qed.
(** The VM crashes and the failsafe is activated. *)
Definition crashed : st := (@Run crash_env ascii_tables 10 (init (DefaultConfig linux))).2.
Lemma crash_unrecorded :
  fs_active (eng crashed) = true /\
  FailsafeActive (record_run (fun i => Z.of_nat i) 0 (trail (tr crashed)) (NewRecorder 0)) = 0.
Proof.
  split; [vm_compute; reflexivity|]. generalize crashed. intros s.
  exact (Logic.f_equal (fun x => x.1.1.1) (record_run_untouched (fun i => Z.of_nat i) (trail (tr s)) 0 (NewRecorder 0))).
Qed.

(** The uptime a scrape sees is zero, or that of one of the ticks so far; and
    once the goroutine has noticed [Stop] it stays what it is. *)
Definition uptime_after (t0 : Z) (l : list uptime_input) : Uptime := foldl (fun u i => updateUptime i u) (start_uptime t0) l.
Lemma uptime_start (t0 : Z) (l : list uptime_input) : startTime (uptime_after t0 l) = t0.
Proof.
  induction l as [|i l IH] using rev_ind; [done|]. unfold uptime_after in *. rewrite foldl_app. cbn [foldl].
  destruct i; cbn; try case_match; exact IH.
Qed.
Lemma uptime_stopped_for_good (u : Uptime) (l : list uptime_input) : counting u = false ->
  reported (foldl (fun u i => updateUptime i u) u l) = reported u.
Proof.
  revert u. induction l as [|i l IH]; intros u H; [done|]. cbn [foldl]. rewrite IH; [|by destruct i; cbn; rewrite ?H; [|done|case_match]].
  destruct i; cbn; rewrite ?H; [done|done|by case_match].
Qed.
Theorem uptime_of_a_tick (t0 : Z) (l l' : list uptime_input) :
  (reported (uptime_after t0 l) = 0 \/ exists t, Tick t ∈ l /\ reported (uptime_after t0 l) = t - t0) /\
  (StopCalled ∈ l -> reported (uptime_after t0 (l ++ [Noticed] ++ l')) = reported (uptime_after t0 l)).
Proof.
  split.
  - induction l as [|i l IH] using rev_ind; [by left|]. pose proof (uptime_start t0 l) as Hs. unfold uptime_after in *.
    rewrite foldl_app. cbn [foldl]. setoid_rewrite elem_of_app.
    assert (forall u, reported u = reported (foldl (fun u i => updateUptime i u) (start_uptime t0) l) ->
      reported u = 0 \/ exists t, (Tick t ∈ l \/ Tick t ∈ [i]) /\ reported u = t - t0) as Hsame.
    { intros u ->. destruct IH as [IH|(t & Ht & IH)]; [by left|right; exists t; by split; [left|]]. }
    destruct i as [t| |]; cbn [updateUptime]; [|by apply Hsame|case_match; by apply Hsame].
    case_match; [|by apply Hsame]. right. exists t. split; [right; by left|]. cbn. by rewrite Hs.
  - intros Hst. unfold uptime_after. rewrite foldl_app. cbn [app foldl].
    assert (stop_closed (foldl (fun u i => updateUptime i u) (start_uptime t0) l) = true) as Hc.
    { induction l as [|i l IH] using rev_ind; [by apply not_elem_of_nil in Hst|]. rewrite foldl_app. cbn [foldl].
      apply elem_of_app in Hst as [Hst|Hst%list_elem_of_singleton]; [|by subst i].
      specialize (IH Hst). destruct i; cbn; [case_match; [exact IH|exact IH]|done|by rewrite IH]. }
    cbn [updateUptime]. rewrite Hc. by rewrite uptime_stopped_for_good.
Qed.
