(* ===== verification/Entry.v ===== *)
(** * The process: [main] of [cmd/torvm/main.go] after its flags, and [RunService] of [winsvc]

    What the controller opens, registers and runs in each of its three modes,
    the deferred calls, and how the process ends.  [os.Exit] ends it without
    the deferred calls; a return of [main] makes them, the last one first. *)

From S2P Require Import Prelude GoStrings StringFacts Config Retry Lifecycle Main.
Local Open Scope Z_scope.

(** ** Effects *)

Inductive resource := Recorder | MetricsServer | Context | Journal | EventLog | Watcher.
#[export] Instance resource_eq_dec : EqDecision resource.
Proof. solve_decision. Defined.
Inductive writer := JSONWriter | JournalWriter | EventLogWriter | RingWriter.
Inductive effect :=
  | Acquired (r : resource)      (* it was made, and its release deferred *)
  | Release (r : resource)
  | Refused (r : resource)       (* making it failed *)
  | LogInfo (s : string) | LogError (s : string)
  | AddWriter (w : writer)
  | RemoveFile (path : string)
  | Notify (state : string)      (* to systemd *)
  | HandleSignals
  | NewEngine
  | ObserveForSystemd            (* [Main.observe] is registered *)
  | NewBrowserEngine
  | ObserveForBrowser            (* [Main.autostart_observer] is registered *)
  | RunEngine                    (* [engine.Run], to its end *)
  | RunService                   (* [svc.Run], to its end *)
  | RunWindow.                   (* [app.Run], to its end *)

(** How the process ends: [Hangs] when what it waits for never returns. *)
Inductive ending := Exited (code : Z) | Panicked | Hangs.

Record state := { trace : list effect; defers : list resource }.
Definition proc (A : Type) : Type := state -> (A + ending) * state.
#[export] Instance proc_ret : MRet proc := fun A a s => (inl a, s).
#[export] Instance proc_bind : MBind proc := fun A B f m s =>
  match m s with (inl a, s') => f a s' | (inr e, s') => (inr e, s') end.
Definition perform (e : effect) : proc unit := fun s => (inl tt, {| trace := trace s ++ [e]; defers := defers s |}).
(** Making a resource and deferring its release. *)
Definition acquire (r : resource) : proc unit := fun s => (inl tt, {| trace := trace s ++ [Acquired r]; defers := r :: defers s |}).
Definition finish {A} (e : ending) : proc A := fun s => (inr e, s).
(** A function with deferred calls of its own. *)
Definition func {A} (m : proc A) : proc A := fun s =>
  match m {| trace := trace s; defers := [] |} with
  | (inl a, s') => (inl a, {| trace := trace s' ++ map Release (defers s'); defers := defers s |})
  | (inr e, s') => (inr e, {| trace := trace s'; defers := defers s' ++ defers s |})
  end.
(** [main] as a process. *)
Definition process (m : proc unit) : list effect * ending :=
  match func m {| trace := []; defers := [] |} with
  | (inl _, s) => (trace s, Exited 0)
  | (inr e, s) => (trace s, e)
  end.

(** ** The modes *)

(** What the process depends on: systemd's variable, the outcome of opening
    things, and what [engine.Run] and [svc.Run] return, [None] if they never
    do. *)
Record world := {
  underSystemd : bool; open_journal : option error; open_eventlog : option error; new_watcher : option error;
  engine_Run : option (result unit); svc_Run : option (result unit); metrics_addr : string
}.

Section Modes.
Variables (w : world) (os : goos).

Definition wait {A} (r : option A) : proc A := match r with Some a => mret a | None => finish Hangs end.
Definition when (b : bool) (m : proc unit) : proc unit := if b then m else mret tt.

(** Metrics, and [--clean]. *)
Definition prologue (f : Flags) (removed : list string) : proc unit :=
  acquire Recorder ;;
  when (negb (String.eqb (metricsAddr f) EmptyString))
    (perform (LogInfo ("metrics server listening on " +:+ metrics_addr w)) ;; acquire MetricsServer) ;;
  when (negb (bool_decide (removed = [])))
    (perform (LogInfo ("removing state disk: " +:+ concat_str removed)) ;; perform (RemoveFile (concat_str removed))).
Definition watch_config (watch : bool) : proc unit :=
  when watch
    match new_watcher w with
    | Some e => perform (Refused Watcher) ;; perform (LogError ("config watcher: " +:+ Error e))
    | None => acquire Watcher
    end.
Definition attach_journal : proc unit :=
  match open_journal w with
  | Some e => perform (Refused Journal) ;; perform (LogError ("failed to open journal writer: " +:+ Error e))
  | None => perform (AddWriter JournalWriter) ;; acquire Journal
  end.
(** [timeout_text] is the duration as [%v] prints it. *)
Definition headless_mode (timeout_text : string) (deadline : option Z) (watch : bool) : proc unit :=
  when (bool_decide (deadline <> None)) (perform (LogInfo ("maximum runtime set to " +:+ timeout_text))) ;;
  acquire Context ;;
  when (underSystemd w) (attach_journal ;; perform (Notify "STATUS=starting")) ;;
  perform HandleSignals ;;
  perform NewEngine ;;
  watch_config watch ;;
  when (underSystemd w) (perform ObserveForSystemd) ;;
  perform RunEngine ;;
  r ← wait (engine_Run w);
  match r with
  | Err e => perform (LogError ("lifecycle error: " +:+ Error e)) ;; finish (Exited 1)
  | Ok _ => perform (LogInfo "TorVM controller exiting")
  end.
Definition gui_mode (watch browser autostart : bool) : proc unit :=
  perform (AddWriter RingWriter) ;;
  perform NewEngine ;;
  watch_config watch ;;
  when browser (perform NewBrowserEngine ;; when autostart (perform ObserveForBrowser)) ;;
  perform HandleSignals ;;
  perform RunWindow.
Definition errUnsupported : error := Errorf ("winsvc: not supported on " +:+ match os with
  | linux => "linux" | darwin => "darwin" | windows => "windows" | other_os => "other" end).
(** [RunService]. *)
Definition windows_RunService : proc (result unit) := func (
  match open_eventlog w with
  | Some e => perform (Refused EventLog) ;; perform (LogError ("failed to open event log: " +:+ Error e))
  | None => perform (AddWriter EventLogWriter) ;; acquire EventLog
  end ;;
  perform RunService ;;
  r ← wait (svc_Run w);
  mret (wrap "winsvc: service run failed" r)).
Definition run_service : proc (result unit) :=
  match os with windows => windows_RunService | _ => mret (Err errUnsupported) end.
Definition service_mode : proc unit :=
  r ← run_service;
  match r with
  | Err e => perform (LogError ("windows service error: " +:+ Error e)) ;; finish (Exited 1)
  | Ok _ => mret tt
  end.
Definition start (f : Flags) (cfg : Config) : proc unit :=
  when (String.eqb (logFormat f) "json") (perform (AddWriter JSONWriter)) ;;
  perform (LogInfo ("TorVM controller starting (accel=" +:+ Accel cfg +:+ ")")).
Definition run_plan (f : Flags) (timeout_text : string) (p : plan) : proc unit :=
  match p with
  | Exit code _ _ => finish (Exited code)
  | PanicInLoad => finish Panicked
  | RunAsService cfg => start f cfg ;; service_mode
  | RunHeadless cfg removed deadline watch => start f cfg ;; prologue f removed ;; headless_mode timeout_text deadline watch
  | RunGui cfg removed watch browser autostart => start f cfg ;; prologue f removed ;; gui_mode watch browser autostart
  end.
End Modes.

(** ** What is held *)

(** The resources held after a trace, the last one first; [None] when a release
    was not of the last one. *)
Definition replay_step (st : option (list resource)) (e : effect) : option (list resource) :=
  match st with
  | None => None
  | Some l =>
      match e with
      | Acquired r => Some (r :: l)
      | Release r => match l with r' :: l' => if decide (r = r') then Some l' else None | [] => None end
      | _ => Some l
      end
  end.
Definition replay (t : list effect) (st : list resource) : option (list resource) := foldl replay_step (Some st) t.
Lemma replay_none (t : list effect) : foldl replay_step None t = None.
Proof. by induction t as [|e t IH]. Qed.
Lemma replay_app (t1 t2 : list effect) (st : list resource) :
  replay (t1 ++ t2) st = match replay t1 st with Some st' => replay t2 st' | None => None end.
Proof. unfold replay. rewrite foldl_app. destruct (foldl _ _ t1); [done|apply replay_none]. Qed.
Lemma replay_frame (t : list effect) (st st' k : list resource) : replay t st = Some st' -> replay t (st ++ k) = Some (st' ++ k).
Proof.
  revert st. unfold replay. induction t as [|e t IH]; intros st; cbn [foldl]; [by intros [= ->]|].
  destruct e; cbn [replay_step]; try apply IH.
  destruct st as [|r' st]; cbn [app]; [by rewrite replay_none|]. case_decide; [apply IH|by rewrite replay_none].
Qed.
Lemma replay_releases (st : list resource) : replay (map Release st) st = Some [].
Proof. induction st as [|r st IH]; [done|]. unfold replay in *. cbn [map foldl replay_step]. by rewrite decide_True. Qed.

(** A program keeps its deferred calls in step with what it holds. *)
Definition tidy {A} (m : proc A) : Prop := forall s, exists l,
  trace (m s).2 = trace s ++ l /\ replay l (defers s) = Some (defers (m s).2).
Lemma tidy_ret {A} (a : A) : tidy (mret a).
Proof. intros s. exists []. by rewrite app_nil_r. Qed.
Lemma tidy_finish {A} (e : ending) : tidy (@finish A e).
Proof. intros s. exists []. by rewrite app_nil_r. Qed.
Lemma tidy_bind {A B} (m : proc A) (f : A -> proc B) : tidy m -> (forall a, tidy (f a)) -> tidy (m ≫= f).
Proof.
  intros Hm Hf s. unfold mbind, proc_bind. destruct (Hm s) as (l & Ht & Hr). destruct (m s) as [[a|e] s1]; cbn [snd] in *.
  - destruct (Hf a s1) as (l' & Ht' & Hr'). exists (l ++ l'). rewrite Ht', Ht, app_assoc, replay_app, Hr. by split.
  - by exists l.
Qed.
Definition neutral (e : effect) : Prop := match e with Acquired _ | Release _ => False | _ => True end.
Lemma tidy_perform (e : effect) : neutral e -> tidy (perform e).
Proof. intros He s. exists [e]. split; [done|]. by destruct e. Qed.
Lemma tidy_acquire (r : resource) : tidy (acquire r).
Proof. intros s. by exists [Acquired r]. Qed.
Lemma tidy_func {A} (m : proc A) : tidy m -> tidy (func m).
Proof.
  intros Hm s. unfold func. destruct (Hm {| trace := trace s; defers := [] |}) as (l & Ht & Hr). cbn [trace defers] in *.
  apply (replay_frame _ _ _ (defers s)) in Hr. cbn [app] in Hr.
  destruct (m _) as [[a|e] s1]; cbn [snd trace defers] in *; [|by exists l].
  exists (l ++ map Release (defers s1)). rewrite Ht, app_assoc. split; [done|]. rewrite replay_app, Hr.
  exact (replay_frame _ _ _ (defers s) (replay_releases _)).
Qed.
Lemma tidy_when (b : bool) (m : proc unit) : tidy m -> tidy (when b m).
Proof. intros Hm. destruct b; [done|apply tidy_ret]. Qed.
Lemma tidy_wait {A} (r : option A) : tidy (wait r).
Proof. destruct r; [apply tidy_ret|apply tidy_finish]. Qed.
Ltac tidy_tac := repeat first [apply tidy_bind; [|intros ?] | apply tidy_func | apply tidy_when | apply tidy_wait
  | apply tidy_acquire | apply tidy_ret | apply tidy_finish | (by apply tidy_perform) | case_match].
Lemma run_plan_tidy (w : world) (os : goos) (f : Flags) (tt : string) (p : plan) : tidy (run_plan w os f tt p).
Proof.
  unfold run_plan, start, prologue, headless_mode, gui_mode, watch_config, attach_journal, service_mode, run_service, windows_RunService.
  destruct p; tidy_tac.
Qed.

(** [os.Exit] of these modes never has the code zero. *)
Definition fails_only {A} (m : proc A) : Prop := forall s, match (m s).1 with inr e => e <> Exited 0 | inl _ => True end.
Lemma fails_bind {A B} (m : proc A) (f : A -> proc B) : fails_only m -> (forall a, fails_only (f a)) -> fails_only (m ≫= f).
Proof. intros Hm Hf s. unfold mbind, proc_bind. specialize (Hm s). destruct (m s) as [[a|e] s1]; [apply Hf|done]. Qed.
Lemma fails_func {A} (m : proc A) : fails_only m -> fails_only (func m).
Proof. intros Hm s. unfold func. specialize (Hm {| trace := trace s; defers := [] |}). by destruct (m _) as [[a|e] s1]. Qed.
Lemma fails_when (b : bool) (m : proc unit) : fails_only m -> fails_only (when b m).
Proof. by destruct b. Qed.
Lemma fails_wait {A} (r : option A) : fails_only (wait r).
Proof. by destruct r. Qed.
Lemma fails_step {A} (m : proc A) : (forall s, exists a, (m s).1 = inl a) \/ m = finish (Exited 1) -> fails_only m.
Proof. intros [H| ->] s; [by destruct (H s) as [a ->]|done]. Qed.
Ltac fails_tac := repeat first [apply fails_bind; [|intros ?] | apply fails_func | apply fails_when | apply fails_wait
  | (apply fails_step; left; by eexists) | (apply fails_step; by right) | case_match].
Lemma modes_fail_only (w : world) (os : goos) (f : Flags) (text : string) (p : plan) :
  match p with Exit _ _ _ | PanicInLoad => True | _ => fails_only (run_plan w os f text p) end.
Proof.
  unfold run_plan, start, prologue, headless_mode, gui_mode, watch_config, attach_journal, service_mode, run_service, windows_RunService.
  destruct p; try done; fails_tac.
Qed.

(** Programs that only open things, and programs that return. *)
Definition opens {A} (m : proc A) : Prop := forall s, exists l k,
  trace (m s).2 = trace s ++ l /\ defers (m s).2 = k ++ defers s /\ forall r, Release r ∉ l.
Lemma opens_ret {A} (a : A) : opens (mret a).
Proof. intros s. exists [], []. rewrite app_nil_r. split_and!; [done|done|]. intros r. apply not_elem_of_nil. Qed.
Lemma opens_finish {A} (e : ending) : opens (@finish A e).
Proof. intros s. exists [], []. rewrite app_nil_r. split_and!; [done|done|]. intros r. apply not_elem_of_nil. Qed.
Lemma opens_perform (e : effect) : neutral e -> opens (perform e).
Proof. intros He s. exists [e], []. split_and!; [done|done|]. by intros r <-%list_elem_of_singleton. Qed.
Lemma opens_acquire (r : resource) : opens (acquire r).
Proof. intros s. exists [Acquired r], [r]. split_and!; [done|done|]. by intros r' ?%list_elem_of_singleton. Qed.
Lemma opens_bind {A B} (m : proc A) (f : A -> proc B) : opens m -> (forall a, opens (f a)) -> opens (m ≫= f).
Proof.
  intros Hm Hf s. unfold mbind, proc_bind. destruct (Hm s) as (l & k & Ht & Hd & Hr).
  destruct (m s) as [[a|e] s1]; cbn [snd] in *; [|by exists l, k].
  destruct (Hf a s1) as (l' & k' & Ht' & Hd' & Hr'). exists (l ++ l'), (k' ++ k). rewrite Ht', Ht, Hd', Hd, !app_assoc.
  split_and!; [done|done|]. intros r. rewrite elem_of_app. intros [?|?]; [by eapply Hr|by eapply Hr'].
Qed.
Lemma opens_when (b : bool) (m : proc unit) : opens m -> opens (when b m).
Proof. intros Hm. destruct b; [done|apply opens_ret]. Qed.
Lemma opens_wait {A} (r : option A) : opens (wait r).
Proof. destruct r; [apply opens_ret|apply opens_finish]. Qed.
Ltac opens_tac := repeat first [apply opens_bind; [|intros ?] | apply opens_when | apply opens_wait
  | apply opens_acquire | apply opens_ret | apply opens_finish | (by apply opens_perform) | case_match].

Definition returns {A} (m : proc A) : Prop := forall s, exists a, (m s).1 = inl a.
Lemma after_return {A B} (Q : (B + ending) * state -> Prop) (m : proc A) (f : A -> proc B) :
  returns m -> (forall a s, Q (f a s)) -> forall s, Q ((m ≫= f) s).
Proof. intros Hm Hf s. unfold mbind, proc_bind. destruct (Hm s) as [a Ha]. destruct (m s) as [r s1]. cbn in Ha. subst r. apply Hf. Qed.
Lemma proc_returns_bind {A B} (m : proc A) (f : A -> proc B) : returns m -> (forall a, returns (f a)) -> returns (m ≫= f).
Proof. intros Hm Hf s. by apply (after_return (fun r => exists b, r.1 = inl b) m f). Qed.
Lemma returns_when (b : bool) (m : proc unit) : returns m -> returns (when b m).
Proof. intros Hm. destruct b; [done|]. by eexists. Qed.
Ltac returns_tac := repeat first [apply proc_returns_bind; [|intros ?] | apply returns_when | (intros ?; by eexists) | case_match].
(** What was acquired first is still held. *)
Lemma keeps_held (r : resource) (m : proc unit) : opens m -> forall s, r ∈ defers s -> r ∈ defers (m s).2.
Proof. intros Hm s Hr. destruct (Hm s) as (l & k & _ & -> & _). apply elem_of_app. by right. Qed.

Section Failed.
Context (w : world) (f : Flags) (text : string) (err : error) (Hfail : engine_Run w = Some (Err err)).

Lemma headless_opens (os : goos) (cfg : Config) (removed : list string) (deadline : option Z) (watch : bool) :
  opens (run_plan w os f text (RunHeadless cfg removed deadline watch)).
Proof. unfold run_plan, start, prologue, headless_mode, watch_config, attach_journal. opens_tac. Qed.
Lemma headless_code (deadline : option Z) (watch : bool) (s : state) : (headless_mode w text deadline watch s).1 = inr (Exited 1).
Proof.
  unfold headless_mode, watch_config, attach_journal. revert s.
  repeat (apply (after_return (fun r => r.1 = inr (Exited 1))); [returns_tac|intros _]). intros s. by rewrite Hfail.
Qed.
Lemma acquire_held (r : resource) (m : proc unit) (s : state) : opens m -> r ∈ defers ((acquire r ;; m) s).2.
Proof. intros Hm. apply (keeps_held r m Hm {| trace := trace s ++ [Acquired r]; defers := r :: defers s |}). by left. Qed.
Lemma headless_context (deadline : option Z) (watch : bool) (s : state) : Context ∈ defers (headless_mode w text deadline watch s).2.
Proof.
  unfold headless_mode, watch_config, attach_journal. revert s.
  apply (after_return (fun r => Context ∈ defers r.2)); [returns_tac|]. intros _ s. apply acquire_held. opens_tac.
Qed.
Lemma headless_recorder (os : goos) (cfg : Config) (removed : list string) (deadline : option Z) (watch : bool) (s : state) :
  let r := run_plan w os f text (RunHeadless cfg removed deadline watch) s in
  r.1 = inr (Exited 1) /\ Recorder ∈ defers r.2 /\ Context ∈ defers r.2.
Proof.
  cbn [run_plan]. split_and!; revert s.
  - unfold start, prologue. do 2 (apply (after_return (fun r => r.1 = inr (Exited 1))); [returns_tac|intros _]). apply headless_code.
  - apply (after_return (fun r => Recorder ∈ defers r.2)); [unfold start; returns_tac|]. intros _ s.
    unfold prologue, mbind at 1, proc_bind at 1.
    pose proof (acquire_held Recorder (when (negb (String.eqb (metricsAddr f) EmptyString))
      (perform (LogInfo ("metrics server listening on " +:+ metrics_addr w)) ;; acquire MetricsServer) ;;
      when (negb (bool_decide (removed = [])))
      (perform (LogInfo ("removing state disk: " +:+ concat_str removed)) ;; perform (RemoveFile (concat_str removed)))) s) as H.
    destruct ((acquire Recorder ;; _) s) as [[[]|e] s1]; cbn [snd] in H |- *; [|apply H; opens_tac].
    apply keeps_held; [|apply H; opens_tac]. unfold headless_mode, watch_config, attach_journal. opens_tac.
  - unfold start, prologue. do 2 (apply (after_return (fun r => Context ∈ defers r.2)); [returns_tac|intros _]). apply headless_context.
Qed.
End Failed.

(** ** Properties *)

(** The deferred calls match what was opened, the last one first, and a process
    that ends with the code zero has released everything.  A failed run of the
    engine ends the process with the code one and without a single deferred
    call: the context, the metrics, the journal and the watcher stay open. *)
Theorem process_releases (w : world) (os : goos) (f : Flags) (text : string) (p : plan) :
  let '(t, e) := process (run_plan w os f text p) in
  exists held, replay t [] = Some held /\ (e = Exited 0 -> held = []) /\
    forall cfg removed deadline watch err, p = RunHeadless cfg removed deadline watch -> engine_Run w = Some (Err err) ->
      e = Exited 1 /\ Recorder ∈ held /\ Context ∈ held /\ forall r, Release r ∉ t.
Proof.
  pose proof (run_plan_tidy w os f text p) as Ht. pose proof (modes_fail_only w os f text p) as Hf.
  unfold process, func. cbn [trace defers]. set (s0 := {| trace := []; defers := [] |}).
  destruct (Ht s0) as (l & El & Hr). cbn in El, Hr.
  destruct (run_plan w os f text p s0) as [[[]|e] s] eqn:E; cbn [snd trace defers] in *; cbn beta iota.
  - exists []. rewrite El, replay_app, Hr. split_and!; [apply replay_releases|done|].
    intros cfg removed deadline watch err -> He. destruct (headless_recorder w f text err He os cfg removed deadline watch s0) as [H _].
    by rewrite E in H.
  - exists (defers s). rewrite El. split_and!; [done| |].
    + intros ->. destruct p; try (by specialize (Hf s0); rewrite E in Hf); cbn in E; [by injection E as _ <-|done].
    + intros cfg removed deadline watch err -> He.
      destruct (headless_recorder w f text err He os cfg removed deadline watch s0) as (H1 & H2 & H3). rewrite E in H1, H2, H3. cbn in H1, H2, H3.
      split_and!; [by injection H1|done|done|]. destruct (headless_opens w f text os cfg removed deadline watch s0) as (l' & k & E1 & _ & Hn).
      rewrite E in E1. cbn in E1. intros r. rewrite <-El, E1. apply Hn.
Qed.
(** Under systemd, watching a configuration file: the run ends with an error. *)
Definition failing_world : world := {|
  underSystemd := true; open_journal := None; open_eventlog := None; new_watcher := None;
  engine_Run := Some (Err (Errorf "save network: denied")); svc_Run := None; metrics_addr := "127.0.0.1:9100" |}.
Definition all_flags : Flags := {|
  accelFlag := EmptyString; verboseFlag := false; headless := true; configFile := "/etc/torvm.json"; clean := false; replace := false;
  serviceInstall := false; serviceUninstall := false; serviceRun := false; metricsAddr := ":9100"; logFormat := "text";
  logFile := EmptyString; timeout := 0; status := false; version := false |}.
Lemma process_releases_witness :
  let '(t, e) := process (run_plan failing_world linux all_flags EmptyString (RunHeadless (DefaultConfig linux) [] None true)) in
  e = Exited 1 /\ replay t [] = Some [Watcher; Journal; Context; MetricsServer; Recorder].
Proof.
  pose proof (process_releases failing_world linux all_flags EmptyString (RunHeadless (DefaultConfig linux) [] None true)) as H.
  destruct (process _) as [t e] eqn:E. destruct H as (held & Hr & _ & H).
  destruct (H _ _ _ _ _ eq_refl eq_refl) as (-> & _). split; [reflexivity|]. vm_compute in E. injection E as <-. reflexivity.
Defined.
