(* ===== verification/Program.v ===== *)
(** * The headless program: [main], the engine and the host together

    [Entry] has the process for any result of [engine.Run], [HostRun] the engine
    on the commands of the host.  Here the process runs that engine, and its
    exit status says what became of the host. *)

From S2P Require Import Prelude GoStrings Config Network Retry Lifecycle LifecycleFacts LifecycleTheorems HostRun Main Entry.
Local Open Scope Z_scope.

(** A run of the engine that returned, as the process waits for it. *)
Definition waited (o : outcome) : option (result unit) := match o with Returned r => Some r | OutOfFuel => None end.
Definition with_run (o : outcome) (w : world) : world :=
  {| underSystemd := underSystemd w; open_journal := open_journal w; open_eventlog := open_eventlog w; new_watcher := new_watcher w;
     engine_Run := waited o; svc_Run := svc_Run w; metrics_addr := metrics_addr w |}.
(** [main] in headless mode with the configuration it settled on: the effects
    of the process, how it ends, and the engine's last state. *)
Definition headless_program `{H : Host} `{U : UnicodeTables} (mgr : Manager) (other : Env) (fuel : nat) (w : world) (os : goos)
    (f : Flags) (text : string) (cfg : Config) (removed : list string) (deadline : option Z) (watch : bool) : list Entry.effect * ending * st :=
  let '(o, s) := @Run (host_env mgr other) U fuel (init cfg) in
  (process (run_plan (with_run o w) os f text (RunHeadless cfg removed deadline watch)), s).

(** ** The modes end as the engine's run does *)

Lemma headless_ok (w : world) (os : goos) (f : Flags) (text : string) (cfg : Config) (removed : list string) (deadline : option Z)
    (watch : bool) (s : state) :
  engine_Run w = Some (Ok tt) -> (run_plan w os f text (RunHeadless cfg removed deadline watch) s).1 = inl tt.
Proof.
  intros Hr. cbn [run_plan]. unfold start, prologue, headless_mode, watch_config, attach_journal. revert s.
  do 9 (apply (after_return (fun r => r.1 = inl tt)); [returns_tac|intros _]). intros s. unfold mbind, proc_bind. by rewrite Hr.
Qed.

(** ** Properties *)


(** Linux, every command succeeds, the machine runs and exits by itself. *)
Definition quiet_world : world := {|
  underSystemd := true; open_journal := None; open_eventlog := None; new_watcher := None;
  engine_Run := None; svc_Run := None; metrics_addr := "127.0.0.1:9100" |}.
