(* ===== verification/HnswTheorems.v ===== *)
(** * The nearest-neighbour graph: its theorems *)

From Stdlib Require Import SpecFloat.
From stdpp Require Import sorting.
From S2P Require Import Prelude GoStrings GoFloats Heap Exchange Hnsw HnswFacts.
Local Open Scope nat_scope.

Lemma graph_set_entry (h : HNSWIndex) (lv e : nat) : graph h -> graph (set_entry lv e h).
Proof. intros []. by split. Qed.
Lemma NewHNSWIndex_wf (dim m ef : nat) : wf (NewHNSWIndex dim m ef).
Proof. split; [split|done|done]; try done. Qed.

(** The parameters of an index. *)
Definition params (h : HNSWIndex) : nat * nat * nat * nat * nat := (dimension h, m h, mMax0 h, efConstruct h, efSearch h).
(** What a successful insertion of [v] gives. *)
Record inserted (h : HNSWIndex) (v : list spec_float) (id : nat) (h' : HNSWIndex) : Prop := {
  in_id : id = Len h;
  in_wf : wf h';
  in_Len : Len h' = S (Len h);
  in_vectors : vectors h' = vectors h ++ v;
  in_params : params h' = params h;
  in_complete : complete h -> Len h <= mMax0 h -> Len h <= efConstruct h -> complete h'
}.

(** From the linked graph to the index with its entry point. *)
Lemma inserted_same (h h2 : HNSWIndex) (v : list spec_float) (lv e : nat) : wf h -> entryPoint h = Some e ->
  graph h2 -> same (extended v lv h) h2 ->
  (complete h -> Len h <= mMax0 h -> Len h <= efConstruct h -> complete h2) ->
  inserted h v (Len h) (if maxLevel h <? lv then set_entry lv (Len h) h2 else h2).
Proof.
  intros Hwf He Hg2 Hs Hc. pose proof (same_Len _ _ Hs) as HL. rewrite extended_Len in HL.
  destruct Hs as [[ns Hh2] Hlev].
  assert (Hmax : forall x l, lev h2 x = Some l -> x = Len h /\ l = lv \/ l <= maxLevel h).
  { intros x l. rewrite Hlev, extended_lev. destruct (decide (x = Len h)); [intros [= <-]; auto|].
    intros Hl. right. by eapply wf_max. }
  pose proof (wf_entry _ Hwf) as Hent. rewrite He in Hent.
  assert (Hlt : e < Len h) by (apply lev_lt; by eexists).
  destruct (Nat.ltb_spec (maxLevel h) lv) as [Hlv|Hlv].
  - split; try done; try (by subst h2).
    split; [by apply graph_set_entry|cbn|cbn].
    + change (lev (set_entry lv (Len h) h2) (Len h)) with (lev h2 (Len h)).
      by rewrite Hlev, extended_lev, decide_True.
    + intros x l Hl. change (lev h2 x = Some l) in Hl. apply Hmax in Hl. lia.
  - split; try done; try (by subst h2).
    assert (maxLevel h2 = maxLevel h /\ entryPoint h2 = Some e) as [Hml Hep] by by subst h2.
    split; [done| |].
    + rewrite Hep, Hml, Hlev, extended_lev, decide_False by lia. done.
    + intros x l Hl. rewrite Hml. apply Hmax in Hl. lia.
Qed.

Lemma Insert_ok (h : HNSWIndex) (v : list spec_float) (lv : nat) : wf h -> length v = dimension h ->
  returns (Insert v lv h) (fun r => inserted h v r.1 r.2).
Proof.
  intros Hwf Hv. pose proof (wf_graph _ Hwf) as Hg. unfold Insert. cbv zeta. fold (extended v lv h).
  change (length (nodes h)) with (Len h). pose proof (wf_entry _ Hwf) as Hent.
  destruct (entryPoint h) as [e|] eqn:He.
  - set (top := Nat.min lv (maxLevel h)).
    assert (Hd : returns (descend (extended v lv h) (maxLevel h - lv) v e lv)
      (fun x => at_level (extended v lv h) top x /\ x < Len h)).
    { destruct (decide (lv <= maxLevel h)) as [Hle|Hgt].
      - replace top with lv by lia. apply extended_descend; [done|done|]. exists (maxLevel h). split; [done|lia].
      - replace (maxLevel h - lv) with 0 by lia. cbn. assert (at_level h top e) by (exists (maxLevel h); split; [done|lia]).
        split; [by apply extended_at_level|by eapply at_level_lt]. }
    step_call Hd. intros ep [Hep Hlt].
    step_call (connect_ok (S top) v (Len h) ep lv (extended v lv h) (extended_graph h v lv Hg Hv)).
    + done.
    + by rewrite extended_lev, decide_True.
    + lia.
    + replace (S top - 1) with top by lia. done.
    + lia.
    + by apply extended_fresh.
    + intros h2 (Hg2 & Hs & Hc). cbn. apply (inserted_same h h2 v lv e); try done.
      intros Hco Hm Hef. rewrite extended_Len in Hc. apply Hc; [lia|by apply extended_complete|cbn; lia|cbn; lia].
  - cbn. assert (Hn : Len h = 0) by (unfold Len; by rewrite Hent).
    assert (Hl : forall x l, lev (extended v lv h) x = Some l -> x = Len h /\ l = lv).
    { intros x l. rewrite extended_lev. destruct (decide (x = Len h)); [by intros [= <-]|].
      unfold lev. by rewrite Hent. }
    split; try done.
    + split; [by apply graph_set_entry, extended_graph|cbn|cbn].
      * change (lev (extended v lv h) (Len h) = Some lv). by rewrite extended_lev, decide_True.
      * intros x l Hx. change (lev (extended v lv h) x = Some l) in Hx. apply Hl in Hx. lia.
    + change (Len (extended v lv h) = S (Len h)). apply extended_Len.
    + intros _ _ _ x Hx. change (x < Len (extended v lv h)) in Hx. rewrite extended_Len, Hn in Hx.
      exists []. change (conn (extended v lv h) x 0 = Some [] /\ (forall y, y < Len (extended v lv h) -> y <> x -> y ∈ [])).
      rewrite extended_Len, extended_conn, decide_True by lia. split; [by rewrite decide_True by lia|]. intros y Hy Hne. lia.
Qed.

Lemma inserts_ok (vs : list (list spec_float * nat)) (h : HNSWIndex) : wf h ->
  Forall (fun p => length p.1 = dimension h) vs ->
  returns (inserts vs h) (fun h' => wf h' /\ params h' = params h /\ Len h' = Len h + length vs /\
    vectors h' = vectors h ++ concat (map fst vs) /\
    (complete h -> Len h + length vs <= S (mMax0 h) -> Len h + length vs <= S (efConstruct h) -> complete h')).
Proof.
  revert h. induction vs as [|[v lv] vs IH]; intros h Hwf Hvs; cbn [inserts].
  { cbn. rewrite app_nil_r. split_and!; [done|done|lia|done|done]. }
  apply Forall_cons in Hvs as [Hv Hvs]. cbn [fst] in Hv. step_call (Insert_ok h v lv Hwf Hv).
  intros [id h1] []. cbn [fst snd] in *. unfold params in in_params0. injection in_params0 as Hd Hm Hm0 Hef Hes.
  eapply returns_mono; [apply IH; [done|by rewrite Hd]|]. intros h' (H1 & H2 & H3 & H4 & H5). cbn [map concat length].
  split_and!; [done| |lia| |].
  - rewrite H2. unfold params. by rewrite Hd, Hm, Hm0, Hef, Hes.
  - by rewrite H4, in_vectors0, <- app_assoc.
  - intros Hc HN HE. apply H5; [apply in_complete0; [done|lia|lia]|lia|lia].
Qed.

Lemma complete_new (dim m ef : nat) : complete (NewHNSWIndex dim m ef).
Proof. intros x Hx. unfold Len in Hx. cbn in Hx. lia. Qed.

Lemma hits_ok (h : HNSWIndex) (q : list spec_float) (cs : list nat) : graph h -> length q = dimension h ->
  Forall (fun x => x < Len h) cs ->
  returns (hits h q cs) (fun hs => map ID hs = cs /\ Forall (fun x => cosineSimilarity h q (ID x) = Ret (Score x)) hs).
Proof.
  intros Hg Hq. induction 1 as [|c cs Hc Hcs IH]; cbn [hits]; [by cbn|].
  pose proof (cosine_ok h q Hg Hq c Hc) as Hco. destruct (cosineSimilarity h q c) as [s| |] eqn:Hs; [|done|done].
  cbn [mbind outcome_bind]. step_call IH. intros hs [Hm Hf]. cbn. split; [by rewrite Hm|]. by constructor.
Qed.

(** What a search sees of the index: the hits are the first of a list [l]. *)
Record answer_of (h : HNSWIndex) (q : list spec_float) (k : Z) (hs : list SearchHit) (l : list nat) : Prop := {
  an_take : map ID hs = take (Z.to_nat k) l;
  an_nodup : NoDup l;
  an_nodes : Forall (fun x => x < Len h) l;
  an_some : Len h <> 0 -> l <> [];
  an_scores : Forall (fun x => cosineSimilarity h q (ID x) = Ret (Score x)) hs;
  an_sorted : numeric h q -> StronglySorted (nearer h q) l;
  an_all : complete h -> Len h <= Nat.max (efSearch h) (Z.to_nat k) -> l ≡ₚ seq 0 (Len h)
}.

Lemma NoDup_all (n : nat) (l : list nat) : NoDup l -> (forall x, x ∈ l <-> x < n) -> l ≡ₚ seq 0 n.
Proof.
  intros Hl Hx. apply NoDup_Permutation; [done|apply NoDup_seq|]. intros x. rewrite Hx, elem_of_seq. lia.
Qed.

Lemma SearchKNN_ok (h : HNSWIndex) (q : list spec_float) (k : Z) : wf h -> length q = dimension h -> (0 <= k)%Z ->
  returns (SearchKNN h q k) (fun hs => exists l, answer_of h q k hs l).
Proof.
  intros Hwf Hq Hk. pose proof (wf_graph _ Hwf) as Hg. unfold SearchKNN. pose proof (wf_entry _ Hwf) as Hent.
  destruct (entryPoint h) as [e|].
  2: { cbn. exists []. assert (Len h = 0) as HL by (unfold Len; by rewrite Hent).
    split; try done; [by rewrite take_nil|constructor|by intros _; constructor|by intros _ _; rewrite HL]. }
  assert (Hlt : e < Len h) by (apply lev_lt; by eexists).
  step_call (descend_ok h q Hg Hq (fun x => x < Len h) (maxLevel h) e 0).
  { intros lv x y _ _ Hy. eapply at_level_lt. by eapply nb_level. }
  { exists (maxLevel h). split; [done|lia]. }
  { done. }
  intros ep [_ Hep]. cbv zeta. set (ef := Nat.max (efSearch h) (Z.to_nat k)).
  step_call (searchLayer_ok h q Hg Hq 0 ef ep (Len h) (fun x => x < Len h)).
  { done. } { intros x y _ Hy. eapply at_level_lt. by eapply nb_level. } { done. }
  { intros l Hnd Hl. rewrite <- (length_seq (Len h) 0). apply submseteq_length, NoDup_submseteq; [done|].
    intros x Hx. apply (proj1 (Forall_forall _ _) Hl) in Hx. apply elem_of_seq. lia. }
  intros l [[] Hsort].
  assert (Hcut : returns (if (k <? Z.of_nat (length l))%Z then if (k <? 0)%Z then Panic else Ret (take (Z.to_nat k) l) else Ret l)
    (fun l' => l' = take (Z.to_nat k) l)).
  { destruct (Z.ltb_spec k (Z.of_nat (length l))); [destruct (Z.ltb_spec k 0); [lia|by cbn]|]. cbn.
    by rewrite take_ge by lia. }
  step_call Hcut. intros l' ->. eapply returns_mono; [apply hits_ok; [done|done|by apply Forall_take]|].
  intros hs [Hids Hsc]. exists l. split; try done.
  intros Hc Hef. apply NoDup_all; [done|]. intros x. split; [by apply (proj1 (Forall_forall _ _) fo_P)|].
  intros Hx. destruct (fo_all Hef) as [He Hcl]. destruct (decide (x = ep)) as [->|Hne]; [done|].
  destruct (Hc ep Hep) as (cs & Hcs & Hin). apply (Hcl ep x He). unfold nb. rewrite Hcs. by apply Hin.
Qed.

(** ** Theorems *)

(** C29. The graph is well-formed after any insertions: no call panics or loops
    for ever, whatever levels are drawn; nodes are numbered in order and keep
    their vectors; at every level a node has at most [m] neighbours (twice as
    many at level 0), all different, none itself, all present at that level;
    and the entry point is a node of the top level. *)
Theorem insert_keeps_graph (dim m ef : nat) (vs : list (list spec_float * nat)) :
  Forall (fun p => length p.1 = dim) vs ->
  returns (inserts vs (NewHNSWIndex dim m ef)) (fun h =>
    wf h /\ Len h = length vs /\ vectors h = concat (map fst vs) /\ dimension h = dim /\ efConstruct h = ef).
Proof.
  intros Hvs. eapply returns_mono; [apply (inserts_ok vs (NewHNSWIndex dim m ef)); [apply NewHNSWIndex_wf|done]|].
  intros h (H1 & H2 & H3 & H4 & _). by injection H2 as -> _ _ -> _.
Qed.
Lemma insert_keeps_graph_witness : exists h, inserts five_vectors (NewHNSWIndex 2 4 10) = Ret h /\ wf h /\ Len h = 5.
Proof.
  pose proof (insert_keeps_graph 2 4 10 five_vectors (ltac:(repeat constructor))) as H.
  destruct (inserts five_vectors (NewHNSWIndex 2 4 10)) as [h| |]; [|destruct H|destruct H].
  exists h. split; [reflexivity|]. destruct H as (H1 & H2 & _). split; [exact H1|exact H2].
Defined.

(** A search in a well-formed index never panics or loops: it gives at most
    [k] hits, all different nodes of the index, each with the cosine similarity
    of its vector, at least one when there is one, and closest first as long
    as no distance is NaN. *)
Theorem search_sound (h : HNSWIndex) (q : list spec_float) (k : Z) :
  wf h -> length q = dimension h -> (0 <= k)%Z ->
  returns (SearchKNN h q k) (fun hs =>
    length hs <= Z.to_nat k /\ NoDup (map ID hs) /\ Forall (fun x => ID x < Len h) hs /\
    Forall (fun x => cosineSimilarity h q (ID x) = Ret (Score x)) hs /\
    (Len h <> 0 -> k <> 0%Z -> hs <> []) /\
    (numeric h q -> StronglySorted (nearer h q) (map ID hs))).
Proof.
  intros Hwf Hq Hk. eapply returns_mono; [by apply SearchKNN_ok|]. intros hs [l []]. split_and!.
  - rewrite <- (length_map ID), an_take0, length_take. lia.
  - rewrite an_take0. rewrite <- (take_drop (Z.to_nat k) l) in an_nodup0. by apply NoDup_app in an_nodup0 as (? & _).
  - rewrite <- (Forall_map ID (fun x => x < Len h)), an_take0. by apply Forall_take.
  - done.
  - intros HL Hk0 ->. symmetry in an_take0. destruct l; [by apply an_some0|]. destruct (Z.to_nat k) eqn:?; [lia|done].
  - intros Hn. rewrite an_take0. specialize (an_sorted0 Hn). rewrite <- (take_drop (Z.to_nat k) l) in an_sorted0.
    by apply StronglySorted_app in an_sorted0 as (_ & ? & _).
Qed.

(** The index of the examples. *)
Lemma five_wf : returns (inserts five_vectors (NewHNSWIndex 2 4 10)) (fun h => wf h /\ dimension h = 2 /\ Len h = 5).
Proof.
  eapply returns_mono; [apply (inserts_ok five_vectors (NewHNSWIndex 2 4 10)); [apply NewHNSWIndex_wf|repeat constructor]|].
  intros h (H1 & H2 & H3 & _). by injection H2 as -> _ _ _ _.
Qed.
(** [numeric] as a test. *)
Definition numericb (h : HNSWIndex) (q : list spec_float) : bool :=
  forallb (fun x => negb (is_nan (dist h q x))) (seq 0 (Len h)).
Lemma numericb_ok (h : HNSWIndex) (q : list spec_float) : numericb h q = true -> numeric h q.
Proof.
  intros H x Hx. unfold numericb in H. rewrite forallb_forall in H.
  assert (Hin : In x (seq 0 (Len h))) by (apply in_seq; lia). specialize (H x Hin). by apply negb_true_iff in H.
Qed.
Lemma five_numeric : returns (inserts five_vectors (NewHNSWIndex 2 4 10)) (fun h => numeric h (vec2 2 1)).
Proof.
  assert (H : match inserts five_vectors (NewHNSWIndex 2 4 10) with Ret h => numericb h (vec2 2 1) | _ => false end = true)
    by (vm_compute; reflexivity).
  destruct (inserts five_vectors (NewHNSWIndex 2 4 10)); [by apply numericb_ok|done|done].
Qed.
Lemma search_sound_witness : returns (inserts five_vectors (NewHNSWIndex 2 4 10)) (fun h =>
  wf h /\ returns (SearchKNN h (vec2 2 1) 3) (fun hs => length hs <= 3 /\ NoDup (map ID hs))).
Proof.
  eapply returns_mono; [apply five_wf|]. intros h (Hwf & Hd & _). split; [exact Hwf|].
  eapply returns_mono; [apply (search_sound h (vec2 2 1) 3 Hwf); [rewrite Hd; reflexivity|lia]|].
  intros hs (H1 & H2 & _). split; [exact H1|exact H2].
Defined.

(** C30. A small index is searched exactly: with at most [2 m + 1] vectors, no more
    than the construction beam and one, and no more than the search beam, the
    approximate search is the brute-force one.  Its hits are the first [k] of
    all the nodes in order of distance, whatever levels were drawn. *)
Theorem small_index_exact (dim m ef : nat) (vs : list (list spec_float * nat)) (q : list spec_float) (k : Z) :
  Forall (fun p => length p.1 = dim) vs -> length q = dim -> (0 <= k)%Z ->
  length vs <= S (2 * m) -> length vs <= S ef -> length vs <= Nat.max 50 (Z.to_nat k) ->
  returns (inserts vs (NewHNSWIndex dim m ef)) (fun h =>
    numeric h q ->
    returns (SearchKNN h q k) (fun hs => exists l,
      l ≡ₚ seq 0 (length vs) /\ StronglySorted (nearer h q) l /\ map ID hs = take (Z.to_nat k) l)).
Proof.
  intros Hvs Hq Hk Hm Hef Hb. eapply returns_mono; [apply (inserts_ok vs (NewHNSWIndex dim m ef)); [apply NewHNSWIndex_wf|done]|].
  intros h (H1 & H2 & H3 & _ & H5) Hn. specialize (H5 (complete_new dim m ef)).
  change (Len (NewHNSWIndex dim m ef)) with 0 in *. rewrite Nat.add_0_l in H3, H5. cbn [mMax0 efConstruct NewHNSWIndex] in H5.
  injection H2 as Hd Hm' Hm0 Hec Hes.
  eapply returns_mono; [apply SearchKNN_ok; [done|by rewrite Hd|done]|]. intros hs [l []]. exists l. split_and!.
  - rewrite <- H3. apply an_all0; [apply H5; lia|]. rewrite Hes, H3. cbn. lia.
  - by apply an_sorted0.
  - done.
Qed.
Lemma small_index_exact_witness : returns (inserts five_vectors (NewHNSWIndex 2 4 10)) (fun h =>
  numeric h (vec2 2 1) ->
  returns (SearchKNN h (vec2 2 1) 3) (fun hs => exists l,
    l ≡ₚ seq 0 5 /\ StronglySorted (nearer h (vec2 2 1)) l /\ map ID hs = take 3 l)) /\
  returns (inserts five_vectors (NewHNSWIndex 2 4 10)) (fun h => numeric h (vec2 2 1)).
Proof.
  split; [apply (small_index_exact 2 4 10 five_vectors (vec2 2 1) 3); [repeat constructor|reflexivity|lia|cbn; lia|cbn; lia|cbn; lia]|].
  exact five_numeric.
Defined.
