(* ===== verification/Tfidf.v ===== *)
(** * Package [vectorindex], [embedder_tfidf.go]: the embedder

    Texts become vectors of [float32]: terms are hashed into buckets and
    weighted by their frequencies.  [math.Log] and the order in which Go ranges
    over a map are parameters; a bucket out of range, or a division by a zero
    dimension, is a panic. *)

From Stdlib Require Import SpecFloat.
From S2P Require Import Prelude GoStrings GoFloats Index.
Local Open Scope Z_scope.

(** ** Terms and buckets *)

Section Terms.
Context `{U : UnicodeTables} `{L : LetterTables}.

Definition tokenizeSimple (text : string) : list string :=
  List.filter (fun w => 2 <=? len w) (map ToLower (FieldsFunc text separator_rune)).
End Terms.

(** FNV-1a in 32 bits. *)
Fixpoint fnv (s : string) (h : Z) : Z :=
  match s with
  | EmptyString => h
  | String c s' => fnv s' ((Z.lxor h (byte c) * 16777619) mod 2 ^ 32)
  end.
Definition hashStringToBucket (s : string) (buckets : nat) : outcome nat :=
  let n := Z.of_nat buckets mod 2 ^ 32 in
  if n =? 0 then Panic else Ret (Z.to_nat (fnv s 2166136261 mod n)).

Example fnv_foobar : fnv "foobar" 2166136261 = 0xbf9cf968.
Proof. vm_compute. reflexivity. Qed.
Example fnv_empty : hashStringToBucket "" 100 = Ret 61%nat.
Proof. vm_compute. reflexivity. Qed.

(** ** Normalisation *)

Definition sum_squares (v : list spec_float) : spec_float :=
  foldl (fun sum x => f32_add sum (f32_mul x x)) zero32 v.
Definition normalize (v : list spec_float) : list spec_float :=
  let sum := sum_squares v in
  if feq sum zero32 then v
  else let norm := float32 (f64_sqrt (float64 sum)) in map (fun x => f32_div x norm) v.

(** ** The embedder *)

Record TFIDFEmbedder := { dimension : nat; docFreq : gmap string Z; docCount : Z; trained : bool }.
Definition NewTFIDFEmbedder (dimension : nat) : TFIDFEmbedder :=
  {| dimension := dimension; docFreq := ∅; docCount := 0; trained := false |}.

(** [m[t]++]. *)
Definition bump (m : gmap string Z) (t : string) : gmap string Z := <[t := default 0 (m !! t) + 1]> m.
(** The terms of a document are counted once, in the order they come. *)
Fixpoint count_new (terms : list string) (seen : gset string) (df : gmap string Z) : gmap string Z :=
  match terms with
  | [] => df
  | t :: ts => if decide (t ∈ seen) then count_new ts seen df else count_new ts ({[t]} ∪ seen) (bump df t)
  end.

Section Embed.
Context `{U : UnicodeTables} `{L : LetterTables}.

Definition Train (documents : list string) (e : TFIDFEmbedder) : TFIDFEmbedder := {|
  dimension := dimension e;
  docFreq := foldl (fun df doc => count_new (tokenizeSimple doc) ∅ df) ∅ documents;
  docCount := Z.of_nat (length documents);
  trained := true |}.

(** [math.Log], and the order of a range over a map. *)
Variable Log : spec_float -> spec_float.
Variable range : gmap string Z -> list (string * Z).

Definition one64 : spec_float := f64_of_Z 1.
Definition weight (e : TFIDFEmbedder) (term : string) (count : Z) : spec_float :=
  let tfWeight := float32 (Log (f64_add one64 (f64_of_Z count))) in
  let df := default 0 (docFreq e !! term) in
  let n := if docCount e =? 0 then 1 else docCount e in
  let idfWeight := float32 (Log (f64_add one64 (f64_div (f64_of_Z n) (f64_of_Z (1 + df))))) in
  f32_mul tfWeight idfWeight.
Definition add_term (e : TFIDFEmbedder) (vec : list spec_float) (tc : string * Z) : outcome (list spec_float) :=
  bucket ← hashStringToBucket tc.1 (dimension e);
  old ← at_ vec bucket;
  set_at vec bucket (f32_add old (weight e tc.1 tc.2)).
Fixpoint add_terms (e : TFIDFEmbedder) (vec : list spec_float) (tcs : list (string * Z)) : outcome (list spec_float) :=
  match tcs with [] => Ret vec | tc :: tcs' => vec' ← add_term e vec tc; add_terms e vec' tcs' end.

Definition Embed (e : TFIDFEmbedder) (text : string) : outcome (list spec_float) :=
  let vec := replicate (dimension e) zero32 in
  let terms := tokenizeSimple text in
  match terms with
  | [] => Ret vec
  | _ =>
      let tf := foldl bump ∅ terms in
      vec' ← add_terms e vec (range tf);
      Ret (normalize vec')
  end.
End Embed.

(** ** Facts *)

Lemma fnv_bounds (s : string) (h : Z) : 0 <= h < 2 ^ 32 -> 0 <= fnv s h < 2 ^ 32.
Proof. revert h. induction s as [|c s IH]; intros h Hh; cbn [fnv]; [done|]. apply IH, Z.mod_pos_bound. lia. Qed.

(** A dimension the hash can use. *)
Definition dimension_ok (d : nat) : Prop := 0 < Z.of_nat d < 2 ^ 32.
Definition bucket_of (d : nat) (s : string) : nat := Z.to_nat (fnv s 2166136261 mod Z.of_nat d).

Lemma bucket_ok (d : nat) (s : string) : dimension_ok d ->
  hashStringToBucket s d = Ret (bucket_of d s) /\ (bucket_of d s < d)%nat.
Proof.
  intros Hd. unfold dimension_ok in Hd. unfold hashStringToBucket, bucket_of. rewrite (Z.mod_small (Z.of_nat d)) by lia.
  destruct (Z.eqb_spec (Z.of_nat d) 0); [lia|]. split; [done|].
  pose proof (Z.mod_pos_bound (fnv s 2166136261) (Z.of_nat d)). lia.
Qed.

Lemma bump_lookup (ts : list string) (m : gmap string Z) (t : string) :
  is_Some (foldl bump m ts !! t) <-> t ∈ ts \/ is_Some (m !! t).
Proof.
  revert m. induction ts as [|t0 ts IH]; intros m; cbn [foldl]; [set_solver|].
  rewrite IH. unfold bump. destruct (decide (t0 = t)) as [->|Hne].
  - rewrite lookup_insert_eq. split; [intros _; left; left|intros _; right; by eexists].
  - rewrite lookup_insert_ne by done. set_solver.
Qed.

Lemma count_new_lookup (ts : list string) (seen : gset string) (df : gmap string Z) (t : string) :
  default 0 (count_new ts seen df !! t) =
  default 0 (df !! t) + (if bool_decide (t ∈ ts) && bool_decide (t ∉ seen) then 1 else 0).
Proof.
  revert seen df. induction ts as [|t0 ts IH]; intros seen df; cbn [count_new]; [by rewrite Z.add_0_r|].
  destruct (decide (t0 ∈ seen)) as [Hs|Hs]; rewrite IH; unfold bump.
  - repeat case_bool_decide; cbn; first [lia|exfalso; set_solver].
  - destruct (decide (t0 = t)) as [->|Hne]; [rewrite lookup_insert_eq|rewrite lookup_insert_ne by done]; cbn [default];
      repeat case_bool_decide; cbn; first [lia|exfalso; set_solver].
Qed.

Section Facts.
Context `{U : UnicodeTables} `{L : LetterTables}.
Variable Log : spec_float -> spec_float.

(** One term changes one component. *)
Definition added (e : TFIDFEmbedder) (tc : string * Z) (vec : list spec_float) : list spec_float :=
  alter (fun x => f32_add x (weight Log e tc.1 tc.2)) (bucket_of (dimension e) tc.1) vec.
Lemma add_term_ok (e : TFIDFEmbedder) (vec : list spec_float) (tc : string * Z) :
  dimension_ok (dimension e) -> length vec = dimension e -> add_term Log e vec tc = Ret (added e tc vec).
Proof.
  intros Hd Hl. destruct (bucket_ok (dimension e) tc.1 Hd) as [Hb Hlt]. unfold add_term. rewrite Hb.
  cbn [mbind outcome_bind]. destruct (lookup_lt_is_Some_2 vec (bucket_of (dimension e) tc.1)) as [x Hx]; [by rewrite Hl|].
  unfold at_, set_at, added. rewrite Hx. cbn. rewrite decide_True by (by rewrite Hl). f_equal.
  apply list_eq. intros j. destruct (decide (j = bucket_of (dimension e) tc.1)) as [->|Hne].
  - by rewrite list_lookup_insert_eq, list_lookup_alter_eq, Hx by (by rewrite Hl).
  - by rewrite list_lookup_insert_ne, list_lookup_alter_ne by done.
Qed.

Lemma add_terms_ok (e : TFIDFEmbedder) (tcs : list (string * Z)) (vec : list spec_float) :
  dimension_ok (dimension e) -> length vec = dimension e ->
  add_terms Log e vec tcs = Ret (foldl (fun v tc => added e tc v) vec tcs) /\
  length (foldl (fun v tc => added e tc v) vec tcs) = dimension e.
Proof.
  intros Hd. revert vec. induction tcs as [|tc tcs IH]; intros vec Hl; cbn [add_terms foldl]; [done|].
  rewrite (add_term_ok e vec tc Hd Hl). apply IH. unfold added. by rewrite length_alter.
Qed.

(** Terms with different buckets can be added in any order. *)
Lemma added_perm (e : TFIDFEmbedder) (l l' : list (string * Z)) : l ≡ₚ l' ->
  NoDup (map (fun tc => bucket_of (dimension e) tc.1) l) ->
  forall vec, foldl (fun v tc => added e tc v) vec l = foldl (fun v tc => added e tc v) vec l'.
Proof.
  induction 1 as [|x l l' _ IH|x y l|l1 l2 l3 Hp IH1 _ IH2]; intros Hnd vec; cbn [map foldl] in *.
  - done.
  - apply NoDup_cons in Hnd as [_ Hnd]. by apply IH.
  - apply NoDup_cons in Hnd as [Hx _]. f_equal. unfold added. apply list_alter_alter_ne. set_solver.
  - rewrite IH1 by done. apply IH2. by rewrite <- Hp.
Qed.

Lemma tf_buckets (d : nat) (text : string) (tf : list (string * Z)) :
  tf ≡ₚ map_to_list (foldl bump ∅ (tokenizeSimple text)) ->
  (forall t1 t2, t1 ∈ tokenizeSimple text -> t2 ∈ tokenizeSimple text -> bucket_of d t1 = bucket_of d t2 -> t1 = t2) ->
  NoDup (map (fun tc => bucket_of d tc.1) tf).
Proof.
  intros -> Hinj. rewrite <- (map_map fst (bucket_of d)). apply NoDup_fmap_2_strong; [|apply NoDup_fst_map_to_list].
  assert (Hin : forall t, t ∈ map fst (map_to_list (foldl bump ∅ (tokenizeSimple text))) -> t ∈ tokenizeSimple text).
  { intros t ([k v] & -> & Hk%elem_of_map_to_list)%list_elem_of_fmap.
    assert (Hs : is_Some (foldl bump ∅ (tokenizeSimple text) !! k)) by (by eexists).
    apply bump_lookup in Hs as [?|Hs]; [done|]. rewrite lookup_empty in Hs. by destruct Hs. }
  intros t1 t2 H1 H2. apply Hinj; by apply Hin.
Qed.

Lemma embed_length (e : TFIDFEmbedder) (range : gmap string Z -> list (string * Z)) (text : string) :
  dimension_ok (dimension e) -> exists v, Embed Log range e text = Ret v /\ length v = dimension e.
Proof.
  intros Hd. unfold Embed. destruct (tokenizeSimple text) as [|t ts] eqn:Ht; [eexists; split; [done|apply length_replicate]|].
  rewrite <- Ht. destruct (add_terms_ok e (range (foldl bump ∅ (tokenizeSimple text))) (replicate (dimension e) zero32) Hd)
    as [-> Hl]; [apply length_replicate|].
  cbn. eexists; split; [done|]. unfold normalize. case_match; [done|]. by rewrite length_map.
Qed.
End Facts.

(** ** Theorems *)

(** Training counts documents: a term's entry is the number of documents with
    that term, however often it occurs in each. *)
Theorem Train_counts (U : UnicodeTables) (L : LetterTables) (e : TFIDFEmbedder) (docs : list string) (t : string) :
  default 0 (docFreq (Train docs e) !! t) =
  Z.of_nat (length (List.filter (fun doc => bool_decide (t ∈ tokenizeSimple doc)) docs)) /\
  docCount (Train docs e) = Z.of_nat (length docs).
Proof.
  split; [|done]. cbn [Train docFreq].
  enough (H : forall df, default 0 (foldl (fun df doc => count_new (tokenizeSimple doc) ∅ df) df docs !! t) =
    default 0 (df !! t) + Z.of_nat (length (List.filter (fun doc => bool_decide (t ∈ tokenizeSimple doc)) docs))) by apply H.
  induction docs as [|doc docs IH]; intros df; cbn [foldl List.filter]; [cbn; lia|]. rewrite IH, count_new_lookup.
  repeat case_bool_decide; cbn [andb length]; first [lia|exfalso; set_solver].
Qed.

(** Embedding is total: for any dimension from 1 to 2^32 - 1, any logarithm
    and any order of the map, no bucket is out of range and the vector has the
    dimension of the embedder. *)
Theorem Embed_dimension (U : UnicodeTables) (L : LetterTables) (Log : spec_float -> spec_float)
    (range : gmap string Z -> list (string * Z)) (e : TFIDFEmbedder) (text : string) :
  dimension_ok (dimension e) -> returns (Embed Log range e text) (fun v => length v = dimension e).
Proof.
  intros Hd. by destruct (embed_length Log e range text Hd) as (v & -> & Hl).
Qed.

(** The vector of a text whose terms fall into different buckets does not
    depend on the order in which Go ranges over the map of its terms. *)
Theorem Embed_deterministic (U : UnicodeTables) (L : LetterTables) (Log : spec_float -> spec_float)
    (range1 range2 : gmap string Z -> list (string * Z)) (e : TFIDFEmbedder) (text : string) :
  dimension_ok (dimension e) ->
  (forall m, range1 m ≡ₚ map_to_list m) -> (forall m, range2 m ≡ₚ map_to_list m) ->
  (forall t1 t2, t1 ∈ tokenizeSimple text -> t2 ∈ tokenizeSimple text ->
     bucket_of (dimension e) t1 = bucket_of (dimension e) t2 -> t1 = t2) ->
  Embed Log range1 e text = Embed Log range2 e text.
Proof.
  intros Hd H1 H2 Hinj. unfold Embed. destruct (tokenizeSimple text) as [|t ts] eqn:Ht; [done|]. rewrite <- Ht.
  set (tf := foldl bump ∅ (tokenizeSimple text)).
  destruct (add_terms_ok Log e (range1 tf) (replicate (dimension e) zero32) Hd) as [-> _]; [apply length_replicate|].
  destruct (add_terms_ok Log e (range2 tf) (replicate (dimension e) zero32) Hd) as [-> _]; [apply length_replicate|].
  do 2 f_equal. apply added_perm; [by rewrite H1, H2|]. apply (tf_buckets (dimension e) text); [done|by rewrite Ht].
Qed.

(** The examples take the identity for the logarithm. *)
Definition colours : TFIDFEmbedder :=
  @Train ascii_tables ascii_letters ["red green"; "Green, green blue"] (NewTFIDFEmbedder 100).
Definition forwards (m : gmap string Z) : list (string * Z) := map_to_list m.
Definition backwards (m : gmap string Z) : list (string * Z) := rev (map_to_list m).
Lemma Embed_dimension_witness : dimension_ok 100 /\
  returns (@Embed ascii_tables ascii_letters id forwards colours "a red hat") (fun v => length v = 100%nat).
Proof. split; [split; reflexivity|]. apply (Embed_dimension ascii_tables ascii_letters id forwards colours). split; reflexivity. Defined.
Lemma Embed_deterministic_witness :
  @Embed ascii_tables ascii_letters id forwards colours "red hat" =
  @Embed ascii_tables ascii_letters id backwards colours "red hat".
Proof.
  apply (Embed_deterministic ascii_tables ascii_letters id forwards backwards colours "red hat").
  - split; reflexivity.
  - intros m. reflexivity.
  - intros m. symmetry. apply Permutation_rev.
  - assert (Ht : @tokenizeSimple ascii_tables ascii_letters "red hat" = ["red"; "hat"]) by reflexivity.
    rewrite Ht. intros t1 t2 H1 H2.
    apply list_elem_of_In in H1 as [<-|[<-|[]]], H2 as [<-|[<-|[]]];
      try reflexivity; intros Hb; vm_compute in Hb; discriminate Hb.
Defined.
