(* ===== verification/VectorIndex.v ===== *)
(** * Package [vectorindex], [vectorindex.go]: documents over the graph

    The embedder is an interface, discharged by the TF-IDF embedder of
    [Tfidf]; the level drawn for a new node is an argument, and so is the order
    in which [GetEmbedding] ranges over the documents. *)

From Stdlib Require Import SpecFloat.
From stdpp Require Import sorting.
From S2P Require Import Prelude GoStrings GoFloats Exchange Tfidf Hnsw HnswFacts HnswTheorems.
Local Open Scope nat_scope.

(** [Embedder]; it promises vectors of its dimension. *)
Class Embedder := { Embed : string -> outcome (result (list spec_float)); Dimension : nat }.
Class EmbedderLaws (E : Embedder) : Prop :=
  Embed_length : forall text, returns (Embed text) (fun r => forall v, r = Ok v -> length v = Dimension).

Record DocRef := { DocID : Z; Path : string; Title : string }.
Record VectorIndex := { hnsw : HNSWIndex; docs : gmap nat DocRef; ready : bool }.
(** A hit whose identifier is a document's. *)
Record DocHit := { HitID : Z; HitScore : spec_float }.

Section Operations.
Context `{E : Embedder}.

Definition NewVectorIndex (m efConstruct : nat) : VectorIndex :=
  {| hnsw := NewHNSWIndex Dimension m efConstruct; docs := ∅; ready := false |}.

Definition AddDocument (ref : DocRef) (content : string) (lv : nat) (vi : VectorIndex) : outcome (result unit * VectorIndex) :=
  r ← Embed content;
  match r with
  | Err e => Ret (Err e, vi)
  | Ok vec =>
      '(hnswID, h) ← Insert vec lv (hnsw vi);
      Ret (Ok tt, {| hnsw := h; docs := <[hnswID := ref]> (docs vi); ready := true |})
  end.

Definition doc_hit (vi : VectorIndex) (hit : SearchHit) : DocHit :=
  {| HitID := match docs vi !! ID hit with Some ref => DocID ref | None => Z.of_nat (ID hit) end; HitScore := Score hit |}.
Definition Search (vi : VectorIndex) (query : string) (k : Z) : outcome (result (list DocHit)) :=
  if negb (ready vi) || (Len (hnsw vi) =? 0) then Ret (Ok [])
  else
    r ← Embed query;
    match r with
    | Err e => Ret (Err e)
    | Ok queryVec => hs ← SearchKNN (hnsw vi) queryVec k; Ret (Ok (map (doc_hit vi) hs))
    end.

Definition DocLen (vi : VectorIndex) : nat := size (docs vi).
Definition IsReady (vi : VectorIndex) : bool := ready vi.

(** The documents in the order of the range; [nil] is [None]. *)
Definition embedding_at (vi : VectorIndex) (hnswID : nat) : option (list spec_float) :=
  let dim := dimension (hnsw vi) in
  let offset := hnswID * dim in
  if length (vectors (hnsw vi)) <? offset + dim then None
  else Some (take dim (drop offset (vectors (hnsw vi)))).
Fixpoint find_embedding (vi : VectorIndex) (refs : list (nat * DocRef)) (docID : Z) : option (list spec_float) :=
  match refs with
  | [] => None
  | (hnswID, ref) :: refs' =>
      if (DocID ref =? docID)%Z then embedding_at vi hnswID else find_embedding vi refs' docID
  end.
Definition GetEmbedding (range : gmap nat DocRef -> list (nat * DocRef)) (vi : VectorIndex) (docID : Z)
  : option (list spec_float) := find_embedding vi (range (docs vi)) docID.

(** A document as it is added: its reference, its text and the level drawn. *)
Record added_doc := { a_ref : DocRef; a_text : string; a_level : nat }.
Fixpoint AddDocuments (ds : list added_doc) (vi : VectorIndex) : outcome VectorIndex :=
  match ds with
  | [] => Ret vi
  | d :: ds' => r ← AddDocument (a_ref d) (a_text d) (a_level d) vi; AddDocuments ds' r.2
  end.
End Operations.

(** The TF-IDF embedder never fails. *)
Definition tfidf_embedder `{U : UnicodeTables} `{L : LetterTables} (Log : spec_float -> spec_float)
    (range : gmap string Z -> list (string * Z)) (e : TFIDFEmbedder) : Embedder :=
  {| Embed := fun text => v ← Tfidf.Embed Log range e text; Ret (Ok v); Dimension := Tfidf.dimension e |}.
Lemma tfidf_laws `{U : UnicodeTables} `{L : LetterTables} (Log : spec_float -> spec_float)
    (range : gmap string Z -> list (string * Z)) (e : TFIDFEmbedder) :
  dimension_ok (Tfidf.dimension e) -> EmbedderLaws (tfidf_embedder Log range e).
Proof.
  intros Hd text. destruct (embed_length Log e range text Hd) as (v & Hv & Hl). cbn. rewrite Hv. cbn. by intros ? [= <-].
Qed.

(** ** The invariant *)

(** The similarity of two vectors, as the graph computes it. *)
Definition similarity (dim : nat) (q v : list spec_float) : outcome spec_float :=
  s ← sums dim q v (zero32, zero32, zero32);
  let denom := float32 (f64_sqrt (float64 (f32_mul s.1.2 s.2))) in
  Ret (if feq denom zero32 then zero32 else f32_div s.1.1 denom).

Lemma concat_slice (dim i : nat) (vs : list (list spec_float)) (v : list spec_float) :
  Forall (fun v => length v = dim) vs -> vs !! i = Some v -> take dim (drop (i * dim) (concat vs)) = v /\ i * dim + dim <= length (concat vs).
Proof.
  intros Hvs. revert i. induction Hvs as [|v0 vs Hv0 Hvs IH]; intros i Hi; [done|]. cbn [concat]. destruct i as [|i]; cbn in Hi.
  - injection Hi as ->. rewrite length_app, <- Hv0. cbn. rewrite drop_0, take_app_length. split; [done|lia].
  - destruct (IH i Hi) as [H1 H2]. cbn [Nat.mul]. rewrite length_app, Hv0. split; [|lia].
    rewrite <- H1, <- drop_drop, drop_app_length' by done. done.
Qed.

Section Facts.
Context `{E : Embedder} `{!EmbedderLaws E}.

Lemma Embed_cases (text : string) :
  (exists e, Embed text = Ret (Err e)) \/ (exists v, Embed text = Ret (Ok v) /\ length v = Dimension).
Proof.
  pose proof (Embed_length text) as H. destruct (Embed text) as [[v|e]| |]; [right|left|done|done]; eexists; [|done].
  split; [done|]. by apply H.
Qed.

(** The documents that were embedded, with their vectors. *)
Record holds (vi : VectorIndex) (ds : list (added_doc * list spec_float)) : Prop := {
  ho_wf : wf (hnsw vi);
  ho_dim : dimension (hnsw vi) = Dimension;
  ho_len : Len (hnsw vi) = length ds;
  ho_embed : Forall (fun p => Embed (a_text p.1) = Ret (Ok p.2) /\ length p.2 = Dimension) ds;
  ho_vectors : vectors (hnsw vi) = concat (map snd ds);
  ho_docs : forall i, docs vi !! i = (fun p => a_ref p.1) <$> ds !! i;
  ho_ready : ready vi = negb (length ds =? 0);
  ho_complete : length ds <= S (mMax0 (hnsw vi)) -> length ds <= S (efConstruct (hnsw vi)) -> complete (hnsw vi)
}.

Lemma new_holds (m ef : nat) : holds (NewVectorIndex m ef) [].
Proof. split; first [apply NewHNSWIndex_wf|intros _ _; apply complete_new|done]. Qed.

Lemma add_holds (vi : VectorIndex) (ds : list (added_doc * list spec_float)) (d : added_doc) : holds vi ds ->
  returns (AddDocument (a_ref d) (a_text d) (a_level d) vi) (fun r =>
    match r.1 with
    | Ok _ => exists v, holds r.2 (ds ++ [(d, v)]) /\ params (hnsw r.2) = params (hnsw vi)
    | Err e => Embed (a_text d) = Ret (Err e) /\ r.2 = vi
    end).
Proof.
  intros []. unfold AddDocument. destruct (Embed_cases (a_text d)) as [[e ->]|(v & Hv & Hl)]; [done|].
  rewrite Hv. cbn [mbind outcome_bind].
  step_call (Insert_ok (hnsw vi) v (a_level d) ho_wf0); [by rewrite Hl|].
  intros [id h'] []. cbn in *. subst id. pose proof in_params as Hp. injection in_params as Hd Hm Hm0 Hef Hes. exists v. split; [|done]. split; cbn.
  - done.
  - by rewrite Hd.
  - rewrite length_app. cbn. lia.
  - apply Forall_app. split; [done|]. by repeat constructor.
  - by rewrite in_vectors, ho_vectors0, map_app, concat_app; cbn; rewrite app_nil_r.
  - intros i. rewrite ho_len0. destruct (decide (i = length ds)) as [->|Hne].
    + rewrite lookup_insert_eq, list_lookup_middle by done. done.
    + rewrite lookup_insert_ne by done. rewrite ho_docs0. destruct (decide (i < length ds)).
      * by rewrite lookup_app_l.
      * rewrite !lookup_ge_None_2; [done|rewrite length_app; cbn; lia|lia].
  - rewrite length_app. cbn. by rewrite Nat.add_1_r.
  - rewrite length_app, Hm0, Hef. cbn. intros H1 H2. apply in_complete; [apply ho_complete0; lia|lia|lia].
Qed.

Lemma holds_last (vi : VectorIndex) (ps : list (added_doc * list spec_float)) (d : added_doc) (v : list spec_float) :
  holds vi (ps ++ [(d, v)]) -> Embed (a_text d) = Ret (Ok v).
Proof. intros H. pose proof (ho_embed _ _ H) as (_ & Hl)%Forall_app. by apply Forall_cons in Hl as [[? _] _]. Qed.

(** The documents whose text can be embedded, with their vectors. *)
Definition embedded (d : added_doc) : option (added_doc * list spec_float) :=
  match Embed (a_text d) with Ret (Ok v) => Some (d, v) | _ => None end.

Lemma AddDocuments_holds (ds : list added_doc) (vi : VectorIndex) (ps : list (added_doc * list spec_float)) : holds vi ps ->
  returns (AddDocuments ds vi) (fun vi' => holds vi' (ps ++ omap embedded ds) /\
    params (hnsw vi') = params (hnsw vi)).
Proof.
  revert vi ps. induction ds as [|d ds IH]; intros vi ps H; cbn [AddDocuments]; [cbn; by rewrite app_nil_r|].
  step_call (add_holds vi ps d H). intros [[[]|e] vi1] Hr; cbn [fst snd] in *.
  - destruct Hr as (v & Hr & Hp). pose proof (holds_last _ _ _ _ Hr) as Hv.
    eapply returns_mono; [by apply (IH vi1 (ps ++ [(d, v)]))|]. intros vi' [H1 H2]. split; [|by rewrite H2].
    cbn [omap list_omap]. unfold embedded at 1. rewrite Hv. by rewrite <- app_assoc in H1.
  - destruct Hr as [Hr ->]. eapply returns_mono; [by apply (IH vi ps)|]. intros vi' [H1 H2]. split; [|done].
    cbn [omap list_omap]. unfold embedded at 1. by rewrite Hr.
Qed.

(** The distance of two vectors. *)
Definition doc_dist (q v : list spec_float) : spec_float :=
  match similarity Dimension q v with Ret s => f32_sub one32 s | _ => S754_nan end.

Section Query.
Context (vi : VectorIndex) (ps : list (added_doc * list spec_float)) (Hh : holds vi ps).
Context (q : list spec_float).

Lemma cosine_similarity (i : nat) (p : added_doc * list spec_float) : ps !! i = Some p ->
  cosineSimilarity (hnsw vi) q i = similarity Dimension q p.2.
Proof.
  intros Hi. destruct Hh. unfold cosineSimilarity, slice. rewrite ho_dim0, ho_vectors0.
  destruct (concat_slice Dimension i (map snd ps) p.2) as [H1 H2].
  { apply Forall_map. eapply Forall_impl; [done|]. cbn. by intros x [_ ?]. }
  { by rewrite list_lookup_fmap, Hi. }
  destruct (Nat.leb_spec (i * Dimension + Dimension) (length (concat (map snd ps)))) as [_|?]; [|lia]. cbn.
  replace (i * Dimension + Dimension - i * Dimension) with Dimension by lia. by rewrite H1.
Qed.
Lemma dist_doc (i : nat) (p : added_doc * list spec_float) : ps !! i = Some p -> dist (hnsw vi) q i = doc_dist q p.2.
Proof.
  intros Hi. unfold dist, distance, doc_dist. rewrite (cosine_similarity i p Hi). by destruct (similarity _ _ _).
Qed.
End Query.

(** A hit names document [i] with its similarity to the query. *)
Definition hit_of (ps : list (added_doc * list spec_float)) (q : list spec_float) (hit : DocHit) (i : nat) : Prop :=
  exists d v, ps !! i = Some (d, v) /\ HitID hit = DocID (a_ref d) /\ similarity Dimension q v = Ret (HitScore hit).

Lemma doc_hits (vi : VectorIndex) (ps : list (added_doc * list spec_float)) (q : list spec_float) (hs : list SearchHit) :
  holds vi ps -> Forall (fun x => ID x < length ps) hs ->
  Forall (fun x => cosineSimilarity (hnsw vi) q (ID x) = Ret (Score x)) hs ->
  Forall2 (hit_of ps q) (map (doc_hit vi) hs) (map ID hs).
Proof.
  intros Hh H1 H2. apply Forall2_fmap_l, Forall2_fmap_r, Forall_Forall2_diag. apply Forall_forall. intros x Hx.
  pose proof (proj1 (Forall_forall _ _) H1 x Hx) as Hlt. pose proof (proj1 (Forall_forall _ _) H2 x Hx) as Hs. cbn in *.
  destruct (lookup_lt_is_Some_2 ps (ID x) Hlt) as [[d v] Hp]. exists d, v. split; [done|]. split.
  - unfold doc_hit. cbn. by rewrite (ho_docs _ _ Hh), Hp.
  - cbn. rewrite <- Hs. symmetry. exact (cosine_similarity vi ps Hh q (ID x) (d, v) Hp).
Qed.

(** What a search answers from the documents [ps]: the hits of [idxs], which
    for a small collection are the first of all documents by distance. *)
Record answers (vi : VectorIndex) (ps : list (added_doc * list spec_float)) (q : list spec_float) (k : Z)
    (hits : list DocHit) (idxs : list nat) : Prop := {
  as_hits : Forall2 (hit_of ps q) hits idxs;
  as_nodup : NoDup idxs;
  as_bound : length idxs <= Z.to_nat k;
  as_some : ps <> [] -> k <> 0%Z -> idxs <> [];
  as_exact : length ps <= S (mMax0 (hnsw vi)) -> length ps <= S (efConstruct (hnsw vi)) ->
    length ps <= Nat.max (efSearch (hnsw vi)) (Z.to_nat k) ->
    Forall (fun p => is_nan (doc_dist q p.2) = false) ps ->
    exists l, l ≡ₚ seq 0 (length ps) /\ idxs = take (Z.to_nat k) l /\
      StronglySorted (fun i j => forall pi pj, ps !! i = Some pi -> ps !! j = Some pj ->
        flt (doc_dist q pj.2) (doc_dist q pi.2) = false) l
}.

Lemma SearchKNN_answers (vi : VectorIndex) (ps : list (added_doc * list spec_float)) (q : list spec_float) (k : Z) :
  holds vi ps -> length q = Dimension -> (0 <= k)%Z ->
  returns (SearchKNN (hnsw vi) q k) (fun hs => answers vi ps q k (map (doc_hit vi) hs) (map ID hs)).
Proof.
  intros Hh Hq Hk. pose proof Hh as []. eapply returns_mono; [apply SearchKNN_ok; [done|by rewrite ho_dim0|done]|].
  intros hs [l []]. rewrite ho_len0 in *.
  assert (Hids : Forall (fun x => ID x < length ps) hs).
  { rewrite <- (Forall_map ID (fun x => x < length ps)), an_take. by apply Forall_take. }
  split.
  - by apply doc_hits.
  - rewrite an_take. rewrite <- (take_drop (Z.to_nat k) l) in an_nodup. by apply NoDup_app in an_nodup as (? & _).
  - rewrite an_take, length_take. lia.
  - intros Hps Hk0. rewrite an_take. assert (l <> []) by (apply an_some; by destruct ps).
    destruct l; [done|]. by destruct (Z.to_nat k) eqn:?; [lia|].
  - intros H1 H2 H3 H4. exists l. split_and!; [apply an_all; [by apply ho_complete0|done]|done|].
    assert (Hn : numeric (hnsw vi) q).
    { intros x Hx. rewrite ho_len0 in Hx. destruct (lookup_lt_is_Some_2 ps x Hx) as [p Hp].
      rewrite (dist_doc vi ps Hh q x p Hp). by apply (proj1 (Forall_lookup _ _) H4 x). }
    specialize (an_sorted Hn). revert an_sorted. apply StronglySorted_impl. unfold nearer. intros i j Hij pi pj Hi Hj.
    by rewrite <- (dist_doc vi ps Hh q i pi Hi), <- (dist_doc vi ps Hh q j pj Hj).
Qed.

Lemma Search_answers (vi : VectorIndex) (ps : list (added_doc * list spec_float)) (query : string) (k : Z) :
  holds vi ps -> (0 <= k)%Z ->
  returns (Search vi query k) (fun r => match r with
    | Ok hits => ps = [] /\ hits = [] \/
        exists q idxs, ps <> [] /\ Embed query = Ret (Ok q) /\ length q = Dimension /\ answers vi ps q k hits idxs
    | Err e => Embed query = Ret (Err e)
    end).
Proof.
  intros Hh Hk. pose proof Hh as []. unfold Search. rewrite ho_ready0, ho_len0. destruct ps as [|p ps'] eqn:Hps; [by left|].
  rewrite <- Hps in *. replace (length ps =? 0) with false by (by subst ps). cbn [negb orb].
  destruct (Embed_cases query) as [[e He]|(q & Hq & Hl)]; [by rewrite He|]. rewrite Hq. cbn [mbind outcome_bind].
  step_call (SearchKNN_answers vi ps q k Hh Hl Hk). intros hs Ha. cbn. right. exists q, (map ID hs).
  split_and!; [by subst ps|done|done|done].
Qed.

Lemma find_embedding_ok (vi : VectorIndex) (refs : list (nat * DocRef)) (docID : Z) (v : list spec_float) :
  Forall (fun r => DocID r.2 = docID -> embedding_at vi r.1 = Some v) refs -> Exists (fun r => DocID r.2 = docID) refs ->
  find_embedding vi refs docID = Some v.
Proof.
  induction 1 as [|[i ref] refs H _ IH]; intros Hex; [by apply Exists_nil in Hex|]. cbn [find_embedding].
  destruct (Z.eqb_spec (DocID ref) docID) as [Heq|Hne]; [by apply H|].
  apply Exists_cons in Hex as [?|?]; [done|by apply IH].
Qed.
Lemma find_embedding_none (vi : VectorIndex) (refs : list (nat * DocRef)) (docID : Z) :
  Forall (fun r => DocID r.2 <> docID) refs -> find_embedding vi refs docID = None.
Proof.
  induction 1 as [|[i ref] refs H _ IH]; [done|]. cbn [find_embedding]. by destruct (Z.eqb_spec (DocID ref) docID).
Qed.
Lemma embedding_at_ok (vi : VectorIndex) (ps : list (added_doc * list spec_float)) (i : nat) (p : added_doc * list spec_float) :
  holds vi ps -> ps !! i = Some p -> embedding_at vi i = Some p.2.
Proof.
  intros [] Hi. unfold embedding_at. rewrite ho_dim0, ho_vectors0.
  destruct (concat_slice Dimension i (map snd ps) p.2) as [H1 H2].
  { apply Forall_map. eapply Forall_impl; [done|]. cbn. by intros x [_ ?]. }
  { by rewrite list_lookup_fmap, Hi. }
  destruct (Nat.ltb_spec (length (concat (map snd ps))) (i * Dimension + Dimension)); [lia|]. by rewrite H1.
Qed.
Lemma embedded_same (ds : list added_doc) (docID : Z) (d : added_doc) (v : list spec_float) (p : added_doc * list spec_float) :
  NoDup (map (fun d => DocID (a_ref d)) ds) -> d ∈ ds -> DocID (a_ref d) = docID -> Embed (a_text d) = Ret (Ok v) ->
  p ∈ omap embedded ds -> DocID (a_ref p.1) = docID -> p.2 = v.
Proof.
  intros Hnd Hd Hid Hv Hp Hpid. apply list_elem_of_omap in Hp as (d' & Hd' & Hp). unfold embedded in Hp.
  repeat case_match; try done. injection Hp as <-. cbn in *. assert (d' = d) as ->; [|congruence].
  apply list_elem_of_lookup in Hd as [i Hi], Hd' as [j Hj].
  assert (i = j) as ->; [|congruence].
  eapply (NoDup_lookup _ _ _ docID Hnd); rewrite list_lookup_fmap; [rewrite Hi|rewrite Hj]; cbn; congruence.
Qed.
Lemma range_refs (vi : VectorIndex) (ps : list (added_doc * list spec_float)) (refs : list (nat * DocRef)) (i : nat) (ref : DocRef) :
  holds vi ps -> refs ≡ₚ map_to_list (docs vi) ->
  (i, ref) ∈ refs <-> exists p, ps !! i = Some p /\ ref = a_ref p.1.
Proof.
  intros Hh ->. rewrite elem_of_map_to_list, (ho_docs _ _ Hh). destruct (ps !! i) as [p|]; cbn.
  - split; [intros [= <-]; by eexists|by intros (? & [= <-] & ->)].
  - split; [done|by intros (? & ? & _)].
Qed.
End Facts.

(** ** Theorems *)

(** C31. Searching the documents: whatever embedder is used, adding documents never
    panics, and a search gives at most [k] hits for different documents, each
    under the document's own identifier with the similarity of its embedding
    to that of the query, and at least one if any document was embedded.  In a
    small collection the hits are the first [k] of all documents by distance. *)
Theorem document_search (E : Embedder) (HE : EmbedderLaws E) (m ef : nat) (ds : list added_doc) (query : string) (k : Z) :
  (0 <= k)%Z ->
  returns (AddDocuments ds (NewVectorIndex m ef)) (fun vi =>
    mMax0 (hnsw vi) = 2 * m /\ efConstruct (hnsw vi) = ef /\ efSearch (hnsw vi) = 50 /\
    returns (Search vi query k) (fun r => match r with
      | Ok hits => omap embedded ds = [] /\ hits = [] \/
          exists q idxs, omap embedded ds <> [] /\ Embed query = Ret (Ok q) /\ length q = Dimension /\
            answers vi (omap embedded ds) q k hits idxs
      | Err e => Embed query = Ret (Err e)
      end)).
Proof.
  intros Hk. eapply returns_mono; [apply (AddDocuments_holds ds (NewVectorIndex m ef) []); apply new_holds|].
  intros vi [Hh Hp]. injection Hp as Hd Hm Hm0 Hef Hes. split_and!; [done|done|done|]. by apply Search_answers.
Qed.

(** The embedding of a document can be read back: it is the vector its text
    embeds to, and an unknown document has none, in whatever order the map of
    documents is ranged over. *)
Theorem embedding_roundtrip (E : Embedder) (HE : EmbedderLaws E) (range : gmap nat DocRef -> list (nat * DocRef))
    (m ef : nat) (ds : list added_doc) (docID : Z) :
  (forall mp, range mp ≡ₚ map_to_list mp) -> NoDup (map (fun d => DocID (a_ref d)) ds) ->
  returns (AddDocuments ds (NewVectorIndex m ef)) (fun vi =>
    (forall d v, d ∈ ds -> DocID (a_ref d) = docID -> Embed (a_text d) = Ret (Ok v) -> GetEmbedding range vi docID = Some v) /\
    ((forall d, d ∈ ds -> DocID (a_ref d) <> docID) -> GetEmbedding range vi docID = None)).
Proof.
  intros Hr Hnd. eapply returns_mono; [apply (AddDocuments_holds ds (NewVectorIndex m ef) []); apply new_holds|].
  intros vi [Hh _]. cbn [app] in Hh. pose proof (Hr (docs vi)) as Href. split.
  - intros d v Hd Hid Hv.
    assert (Hp : (d, v) ∈ omap embedded ds) by (apply list_elem_of_omap; exists d; split; [done|]; unfold embedded; by rewrite Hv).
    apply list_elem_of_lookup in Hp as [i Hi].
    apply find_embedding_ok.
    + apply Forall_forall. intros [j ref] Hj Hj'. apply (range_refs vi _ _ j ref Hh Href) in Hj as (p & Hp & ->). cbn in *.
      rewrite (embedding_at_ok vi _ j p Hh Hp). f_equal. apply (embedded_same ds docID d v p); try done.
      by eapply list_elem_of_lookup_2.
    + apply Exists_exists. exists (i, a_ref d). split; [|done]. apply (range_refs vi _ _ i _ Hh Href). by exists (d, v).
  - intros Hno. apply find_embedding_none. apply Forall_forall. intros [i ref] Hi.
    apply (range_refs vi _ _ i ref Hh Href) in Hi as (p & Hp & ->). apply list_elem_of_lookup_2 in Hp.
    apply list_elem_of_omap in Hp as (d & Hd & Hp). unfold embedded in Hp. repeat case_match; try done. injection Hp as <-.
    by apply Hno.
Qed.

(** The examples use the TF-IDF embedder of [Tfidf]'s examples. *)
Definition colour_embedder : Embedder := @tfidf_embedder ascii_tables ascii_letters id forwards colours.
Lemma colour_laws : EmbedderLaws colour_embedder.
Proof. apply tfidf_laws. split; reflexivity. Qed.
Lemma colour_total (text : string) : exists v, @Embed colour_embedder text = Ret (Ok v).
Proof.
  destruct (@embed_length ascii_tables ascii_letters id colours forwards text) as (v & Hv & _); [split; reflexivity|].
  exists v. cbn. rewrite Hv. reflexivity.
Qed.
Definition colour_docs : list added_doc := [
  {| a_ref := {| DocID := 7; Path := "/a"; Title := "a" |}; a_text := "red red hat"; a_level := 0 |};
  {| a_ref := {| DocID := 9; Path := "/b"; Title := "b" |}; a_text := "green coat"; a_level := 1 |}].
Lemma document_search_witness : (0 <= 1)%Z /\
  returns (@AddDocuments colour_embedder colour_docs (@NewVectorIndex colour_embedder 4 10)) (fun vi =>
    returns (@Search colour_embedder vi "coat" 1) (fun r => exists hits, r = Ok hits)).
Proof.
  split; [lia|]. eapply returns_mono; [apply (document_search colour_embedder colour_laws 4 10 colour_docs "coat" 1); lia|].
  intros vi (_ & _ & _ & H). eapply returns_mono; [exact H|]. intros [hits|e] Hr; [by exists hits|].
  exfalso. destruct (colour_total "coat") as [v Hv]. rewrite Hv in Hr. discriminate Hr.
Defined.
Example search_coat :
  (vi ← @AddDocuments colour_embedder colour_docs (@NewVectorIndex colour_embedder 4 10);
   r ← @Search colour_embedder vi "coat" 1; Ret (match r with Ok hits => map HitID hits | Err _ => [] end)) = Ret [9%Z].
Proof. vm_compute. reflexivity. Qed.
Lemma embedding_roundtrip_witness : NoDup (map (fun d => DocID (a_ref d)) colour_docs) /\
  returns (@AddDocuments colour_embedder colour_docs (@NewVectorIndex colour_embedder 4 10)) (fun vi =>
    GetEmbedding map_to_list vi 8 = None).
Proof.
  assert (Hnd : NoDup (map (fun d => DocID (a_ref d)) colour_docs)) by (cbn; repeat constructor; set_solver).
  split; [exact Hnd|].
  eapply returns_mono; [apply (embedding_roundtrip colour_embedder colour_laws map_to_list 4 10 colour_docs 8)|].
  - intros mp. reflexivity.
  - exact Hnd.
  - intros vi [_ H]. apply H. intros d Hd. apply list_elem_of_In in Hd as [<-|[<-|[]]]; discriminate.
Defined.
