(* ===== verification/Composite.v ===== *)
(** * Package [index], [composite.go]: hybrid search

    The keyword index of [Index] and the vector index of [VectorIndex] under
    one set of document numbers.  What ranging over the map of fused scores and
    [sort.Slice] give together is a parameter: some ordering of the scores. *)

From Stdlib Require Import SpecFloat.
From stdpp Require Import sorting.
From S2P Require Import Prelude GoStrings GoFloats Exchange Tfidf VectorIndex Index.
Local Open Scope Z_scope.

Definition ModeKeyword : string := "keyword".
Definition ModeVector : string := "vector".
Definition ModeHybrid : string := "hybrid".

Record SearchResult := {
  S_DocID : Z; S_Path : string; S_Title : string; S_Score : spec_float; S_Mode : string;
  S_FileType : string; S_Size : Z; S_CreatedAt : Z; S_ModifiedAt : Z; S_WordCount : Z
}.
Record CompositeIndex := { Keyword : InvertedIndex; Vector : option VectorIndex }.
Definition NewCompositeIndex (vi : option VectorIndex) : CompositeIndex := {| Keyword := NewInvertedIndex; Vector := vi |}.

(** [k*2] in 64 bits. *)
Definition twice (k : Z) : Z := (2 * k + 2 ^ 63) mod 2 ^ 64 - 2 ^ 63.
(** The loops that stop at the [k]th element when [k] is positive, and the final cut. *)
Definition upto {A} (k : Z) (l : list A) : list A := if 0 <? k then take (Z.to_nat k) l else l.

Definition keyword_result (doc : DocMeta) : SearchResult := {|
  S_DocID := ID doc; S_Path := Path doc; S_Title := Title doc; S_Score := one32; S_Mode := ModeKeyword;
  S_FileType := FileType doc; S_Size := Size doc; S_CreatedAt := Unix (CreatedAt doc);
  S_ModifiedAt := Unix (ModifiedAt doc); S_WordCount := WordCount doc |}.
Definition vector_result (kw : InvertedIndex) (hit : DocHit) : SearchResult :=
  let id := HitID hit mod 2 ^ 32 in
  match GetDoc kw id with
  | Some doc => {| S_DocID := id; S_Path := Path doc; S_Title := Title doc; S_Score := HitScore hit; S_Mode := ModeVector;
      S_FileType := FileType doc; S_Size := Size doc; S_CreatedAt := Unix (CreatedAt doc);
      S_ModifiedAt := Unix (ModifiedAt doc); S_WordCount := WordCount doc |}
  | None => {| S_DocID := id; S_Path := EmptyString; S_Title := EmptyString; S_Score := HitScore hit; S_Mode := ModeVector;
      S_FileType := EmptyString; S_Size := 0; S_CreatedAt := 0; S_ModifiedAt := 0; S_WordCount := 0 |}
  end.
Definition hybrid_result (paths titles : gmap Z string) (p : Z * spec_float) : SearchResult := {|
  S_DocID := p.1; S_Path := default EmptyString (paths !! p.1); S_Title := default EmptyString (titles !! p.1);
  S_Score := p.2; S_Mode := ModeHybrid;
  S_FileType := EmptyString; S_Size := 0; S_CreatedAt := 0; S_ModifiedAt := 0; S_WordCount := 0 |}.

(** ** Rank fusion *)

(** [1.0 / float32(rrfK+rank)]. *)
Definition rank_score (rank : nat) : spec_float := f32_div one32 (f32_of_Z (60 + Z.of_nat rank)).
(** [scores[id] += s]. *)
Definition add_score (scores : gmap Z spec_float) (id : Z) (s : spec_float) : gmap Z spec_float :=
  <[id := f32_add (default zero32 (scores !! id)) s]> scores.
Fixpoint add_scores (rank : nat) (rs : list SearchResult) (scores : gmap Z spec_float) : gmap Z spec_float :=
  match rs with
  | [] => scores
  | r :: rs' => add_scores (S rank) rs' (add_score scores (S_DocID r) (rank_score rank))
  end.
(** The keyword loop sets path and title; the vector loop only when there is none. *)
Definition set_path (m : gmap Z string * gmap Z string) (r : SearchResult) : gmap Z string * gmap Z string :=
  (<[S_DocID r := S_Path r]> m.1, <[S_DocID r := S_Title r]> m.2).
Definition add_path (m : gmap Z string * gmap Z string) (r : SearchResult) : gmap Z string * gmap Z string :=
  match m.1 !! S_DocID r with Some _ => m | None => set_path m r end.

(** The map of scores ranged over and sorted. *)
Class Ranking := ranked : gmap Z spec_float -> list (Z * spec_float).
Class RankingLaws (R : Ranking) : Prop := {
  ranked_perm (m : gmap Z spec_float) : ranked m ≡ₚ map_to_list m;
  ranked_sorted (m : gmap Z spec_float) : Forall (fun p => is_nan p.2 = false) (map_to_list m) ->
    StronglySorted (fun a b => flt a.2 b.2 = false) (ranked m)
}.
(** One ranking: the exchange sort of the map's entries. *)
Definition exchange_ranking : Ranking := fun m => exchange_sort (fun a b => flt b.2 a.2) (map_to_list m).
Lemma exchange_ranking_laws : RankingLaws exchange_ranking.
Proof.
  split; intros m; unfold ranked, exchange_ranking; [apply exchange_sort_perm|]. intros Hm.
  apply (exchange_sort_sorted (fun a b : Z * spec_float => flt b.2 a.2) (fun p => is_nan p.2 = false)); [| |done].
  - intros a b _ _. apply flt_asym.
  - intros a b c _ Hb _. unfold not_after. intros H1 H2. exact (flt_not_trans _ _ _ Hb H2 H1).
Qed.

(** ** Operations *)

Section Operations.
Context `{U : UnicodeTables} `{L : LetterTables} `{N : Normalizer} `{D : FoldTables} `{E : Embedder} `{R : Ranking}.

(** The error of the vector index is dropped. *)
Definition AddDocument (d : source) (lv : nat) (ci : CompositeIndex) : outcome (Z * CompositeIndex) :=
  let r := Index.AddDocument d (Keyword ci) in
  match Vector ci with
  | None => Ret (r.1, {| Keyword := r.2; Vector := None |})
  | Some vi =>
      let ref := {| DocID := r.1; VectorIndex.Path := s_path d; VectorIndex.Title := Base (s_path d) |} in
      v ← VectorIndex.AddDocument ref (s_content d) lv vi;
      Ret (r.1, {| Keyword := r.2; Vector := Some v.2 |})
  end.

Definition keywordSearch (ci : CompositeIndex) (query : string) (k : Z) : list SearchResult :=
  map keyword_result (upto k (LocalQuery (Keyword ci) query)).
Definition vectorSearch (ci : CompositeIndex) (query : string) (k : Z) : outcome (list SearchResult) :=
  match Vector ci with
  | None => Ret []
  | Some vi =>
      r ← VectorIndex.Search vi query k;
      Ret (match r with Ok hits => map (vector_result (Keyword ci)) hits | Err _ => [] end)
  end.
Definition fuse (k : Z) (kw vec : list SearchResult) : list SearchResult :=
  let scores := add_scores 0 vec (add_scores 0 kw ∅) in
  let m := foldl add_path (foldl set_path (∅, ∅) kw) vec in
  map (hybrid_result m.1 m.2) (upto k (ranked scores)).
Definition hybridSearch (ci : CompositeIndex) (query : string) (k : Z) : outcome (list SearchResult) :=
  let kwResults := keywordSearch ci query (twice k) in
  vecResults ← vectorSearch ci query (twice k);
  Ret (fuse k kwResults vecResults).

Definition keep (kw : InvertedIndex) (filter : option MetadataFilter) (r : SearchResult) : bool :=
  match GetDoc kw (S_DocID r) with Some doc => Matches filter doc | None => false end.
Definition Search (ci : CompositeIndex) (query mode : string) (k : Z) (filter : option MetadataFilter)
  : outcome (list SearchResult) :=
  results ← (if decide (mode = ModeVector) then vectorSearch ci query (twice k)
             else if decide (mode = ModeHybrid) then hybridSearch ci query (twice k)
             else Ret (keywordSearch ci query (twice k)));
  let results := if IsEmpty filter then results else List.filter (keep (Keyword ci) filter) results in
  Ret (upto k results).

(** Documents added one after another, each with the level drawn for it. *)
Fixpoint AddDocuments (ds : list (source * nat)) (ci : CompositeIndex) : outcome CompositeIndex :=
  match ds with [] => Ret ci | d :: ds' => r ← AddDocument d.1 d.2 ci; AddDocuments ds' r.2 end.
End Operations.

(** ** Fusion *)

Lemma rank_score_nonneg (n : nat) : nonneg (rank_score n) = true.
Proof. apply div_nonneg, normalize_nonneg. lia. Qed.

(** The place of a document in a list of results. *)
Fixpoint rank_of (id : Z) (rs : list SearchResult) : option nat :=
  match rs with [] => None | r :: rs' => if decide (S_DocID r = id) then Some 0%nat else S <$> rank_of id rs' end.
Lemma rank_of_some (id : Z) (rs : list SearchResult) : is_Some (rank_of id rs) <-> id ∈ map S_DocID rs.
Proof.
  induction rs as [|r rs IH]; cbn [rank_of map]; [split; [by intros []|by intros ?%not_elem_of_nil]|].
  rewrite elem_of_cons, <- IH. case_decide as Hd; [split; [by left|by eexists]|]. rewrite fmap_is_Some. naive_solver.
Qed.
(** What the loop adds for a document. *)
Definition plus_rank (old : option spec_float) (place : option nat) : option spec_float :=
  match place with Some n => Some (f32_add (default zero32 old) (rank_score n)) | None => old end.
(** The fused score: both lists contribute, the keyword list first. *)
Definition fused (kw vec : list SearchResult) (id : Z) : option spec_float :=
  plus_rank (plus_rank None (rank_of id kw)) (rank_of id vec).

Lemma add_scores_lookup (n : nat) (rs : list SearchResult) (m : gmap Z spec_float) (id : Z) :
  NoDup (map S_DocID rs) -> add_scores n rs m !! id = plus_rank (m !! id) (Nat.add n <$> rank_of id rs).
Proof.
  revert n m. induction rs as [|r rs IH]; intros n m Hnd; cbn [add_scores rank_of map] in *; [done|].
  apply NoDup_cons in Hnd as [Hr Hnd]. rewrite IH by done. unfold add_score. case_decide as Hd.
  - subst id. rewrite lookup_insert_eq. rewrite <- rank_of_some in Hr. destruct (rank_of (S_DocID r) rs) as [j|].
    { destruct Hr. by eexists. }
    cbn. by rewrite Nat.add_0_r.
  - rewrite lookup_insert_ne by done. destruct (rank_of id rs) as [j|]; cbn; [|done]. by rewrite Nat.add_succ_r.
Qed.
Lemma scores_lookup (kw vec : list SearchResult) (id : Z) : NoDup (map S_DocID kw) -> NoDup (map S_DocID vec) ->
  add_scores 0 vec (add_scores 0 kw ∅) !! id = fused kw vec id.
Proof.
  intros H1 H2. rewrite !add_scores_lookup, lookup_empty by done. unfold fused.
  by destruct (rank_of id kw), (rank_of id vec).
Qed.
Lemma fused_some (kw vec : list SearchResult) (id : Z) :
  is_Some (fused kw vec id) <-> id ∈ map S_DocID kw \/ id ∈ map S_DocID vec.
Proof.
  rewrite <- !rank_of_some. unfold fused. destruct (rank_of id kw), (rank_of id vec); cbn;
    rewrite ?is_Some_alt; cbn; tauto.
Qed.
Lemma fused_nonneg (kw vec : list SearchResult) (id : Z) (s : spec_float) : fused kw vec id = Some s -> nonneg s = true.
Proof.
  assert (Hp : forall o place, (forall s, o = Some s -> nonneg s = true) -> forall s, plus_rank o place = Some s -> nonneg s = true).
  { intros o [n|] Ho s' Hs; [|by apply Ho]. injection Hs as <-. apply add_nonneg; [|apply rank_score_nonneg].
    destruct o; cbn; [by apply Ho|done]. }
  apply Hp, Hp. done.
Qed.

(** Paths and titles stay with their documents. *)
Section Paths.
Context (T : Z -> string -> string -> Prop).
Definition named (r : SearchResult) : Prop := T (S_DocID r) (S_Path r) (S_Title r).
Record names (seen : list Z) (m : gmap Z string * gmap Z string) : Prop := {
  na_same : forall id, is_Some (m.1 !! id) -> exists p t, m.1 !! id = Some p /\ m.2 !! id = Some t /\ T id p t;
  na_seen : forall id, id ∈ seen -> is_Some (m.1 !! id)
}.
Lemma set_path_names (seen : list Z) (m : gmap Z string * gmap Z string) (r : SearchResult) :
  named r -> names seen m -> names (S_DocID r :: seen) (set_path m r).
Proof.
  intros Hr []. split; intros id; cbn.
  - destruct (decide (S_DocID r = id)) as [<-|Hne].
    + rewrite !lookup_insert_eq. intros _. by exists (S_Path r), (S_Title r).
    + rewrite !lookup_insert_ne by done. apply na_same0.
  - destruct (decide (S_DocID r = id)) as [<-|Hne]; [by rewrite lookup_insert_eq|].
    rewrite lookup_insert_ne, elem_of_cons by done. intros [->|?]; [done|by apply na_seen0].
Qed.
Lemma add_path_names (seen : list Z) (m : gmap Z string * gmap Z string) (r : SearchResult) :
  named r -> names seen m -> names (S_DocID r :: seen) (add_path m r).
Proof.
  intros Hr Hm. unfold add_path. destruct (m.1 !! S_DocID r) as [p|] eqn:Hp; [|by apply set_path_names].
  destruct Hm. split; [done|]. intros id. rewrite elem_of_cons. intros [->|?]; [by rewrite Hp|by apply na_seen0].
Qed.
Lemma fold_names (f : gmap Z string * gmap Z string -> SearchResult -> gmap Z string * gmap Z string)
    (rs : list SearchResult) (seen : list Z) (m : gmap Z string * gmap Z string) :
  (forall seen m r, named r -> names seen m -> names (S_DocID r :: seen) (f m r)) ->
  Forall named rs -> names seen m -> names (reverse (map S_DocID rs) ++ seen) (foldl f m rs).
Proof.
  intros Hf Hrs. revert seen m. induction Hrs as [|r rs Hr _ IH]; intros seen m Hm; cbn [map foldl]; [done|].
  rewrite reverse_cons, <- app_assoc. by apply IH, Hf.
Qed.
Lemma path_names (kw vec : list SearchResult) (id : Z) : Forall named kw -> Forall named vec ->
  id ∈ map S_DocID kw \/ id ∈ map S_DocID vec ->
  let m := foldl add_path (foldl set_path (∅, ∅) kw) vec in
  T id (default EmptyString (m.1 !! id)) (default EmptyString (m.2 !! id)).
Proof.
  intros Hkw Hvec Hid m. subst m. assert (H0 : names [] (∅, ∅)) by (split; [by intros ? []|by intros ? ?%not_elem_of_nil]).
  pose proof (fold_names set_path kw [] _ set_path_names Hkw H0) as H1.
  pose proof (fold_names add_path vec _ _ add_path_names Hvec H1) as [Hs Hin].
  destruct (Hs id) as (p & t & -> & -> & HT); [|done].
  apply Hin. rewrite !elem_of_app, !elem_of_reverse. tauto.
Qed.
End Paths.

Lemma upto_map {A B} (f : A -> B) (k : Z) (l : list A) : map f (upto k l) = upto k (map f l).
Proof. unfold upto. case_match; [|done]. symmetry. apply firstn_map. Qed.
Lemma upto_prefix {A} (k : Z) (l : list A) : upto k l `prefix_of` l.
Proof. unfold upto. case_match; [apply prefix_take|done]. Qed.
Lemma upto_length {A} (k : Z) (l : list A) : 0 < k -> Z.of_nat (length (upto k l)) <= k.
Proof. intros Hk. unfold upto. replace (0 <? k) with true by lia. rewrite length_take. lia. Qed.

(** What rank fusion gives: the first of a list of all documents of either
    list, once each, with their fused scores, highest first. *)
Record fusion (T : Z -> string -> string -> Prop) (kw vec l : list SearchResult) : Prop := {
  fu_nodup : NoDup (map S_DocID l);
  fu_all : forall id, id ∈ map S_DocID l <-> id ∈ map S_DocID kw \/ id ∈ map S_DocID vec;
  fu_score : Forall (fun r => fused kw vec (S_DocID r) = Some (S_Score r)) l;
  fu_named : Forall (named T) l;
  fu_sorted : StronglySorted (fun a b => flt (S_Score a) (S_Score b) = false) l
}.
Lemma fuse_ok (R : Ranking) (HR : RankingLaws R) (T : Z -> string -> string -> Prop) (k : Z) (kw vec : list SearchResult) :
  NoDup (map S_DocID kw) -> NoDup (map S_DocID vec) -> Forall (named T) kw -> Forall (named T) vec ->
  exists l, fuse k kw vec = upto k l /\ fusion T kw vec l.
Proof.
  intros H1 H2 H3 H4. unfold fuse. set (m := foldl add_path _ vec). set (sc := add_scores 0 vec _).
  exists (map (hybrid_result m.1 m.2) (ranked sc)). rewrite upto_map. split; [done|].
  assert (Hids : map S_DocID (map (hybrid_result m.1 m.2) (ranked sc)) = map fst (ranked sc)) by by rewrite map_map.
  assert (Hsc : forall p, p ∈ ranked sc <-> fused kw vec p.1 = Some p.2).
  { intros [id s]. rewrite (ranked_perm sc), elem_of_map_to_list. unfold sc. by rewrite scores_lookup. }
  assert (Hin : forall id, id ∈ map fst (ranked sc) <-> id ∈ map S_DocID kw \/ id ∈ map S_DocID vec).
  { intros id. rewrite <- fused_some, list_elem_of_fmap. split.
    - intros ([id' s] & -> & Hp%Hsc). by eexists.
    - intros [s Hs]. exists (id, s). split; [done|]. by apply Hsc. }
  split.
  - rewrite Hids. change (NoDup (fst <$> ranked sc)). rewrite (ranked_perm sc). apply NoDup_fst_map_to_list.
  - intros id. by rewrite Hids.
  - apply Forall_map, Forall_forall. intros p Hp. cbn. by apply Hsc.
  - apply Forall_map, Forall_forall. intros p Hp. unfold named. cbn. apply path_names; [done|done|]. apply Hin.
    by apply list_elem_of_fmap_2.
  - apply (StronglySorted_fmap (hybrid_result m.1 m.2) (fun a b => flt a.2 b.2 = false)); [done|]. apply ranked_sorted. apply Forall_forall. intros [id s] Hp%elem_of_map_to_list.
    unfold sc in Hp. rewrite scores_lookup in Hp by done. by eapply nonneg_not_nan, fused_nonneg.
Qed.

(** ** Built indexes *)

Section Built.
Context `{U : UnicodeTables} `{L : LetterTables} `{N : Normalizer} `{D : FoldTables} `{E : Embedder} `{HE : !EmbedderLaws E}.

(** The documents as the vector index gets them, numbered from 0. *)
Definition vector_doc (i : nat) (d : source * nat) : added_doc := {|
  a_ref := {| DocID := Z.of_nat i; VectorIndex.Path := s_path d.1; VectorIndex.Title := Base (s_path d.1) |};
  a_text := s_content d.1; a_level := d.2 |}.
Record built (ds : list (source * nat)) (ci : CompositeIndex) : Prop := {
  bu_keyword : Keyword ci = indexed (map fst ds);
  bu_vector : forall vi, Vector ci = Some vi -> holds vi (omap embedded (imap vector_doc ds))
}.

Lemma add_built (ds : list (source * nat)) (d : source * nat) (ci : CompositeIndex) :
  Z.of_nat (length ds) < 2 ^ 32 -> built ds ci ->
  returns (AddDocument d.1 d.2 ci) (fun r => r.1 = Z.of_nat (length ds) /\ built (ds ++ [d]) r.2).
Proof.
  intros Hlen [Hkw Hvec]. unfold AddDocument. rewrite Hkw.
  destruct (indexed_spec (map fst ds)) as (_ & _ & Hn); [rewrite length_map; lia|].
  rewrite length_map, Z.mod_small in Hn by lia.
  assert (Hk : (Index.AddDocument d.1 (indexed (map fst ds))).2 = indexed (map fst (ds ++ [d]))).
  { unfold indexed. by rewrite map_app, foldl_app. }
  assert (Hid : (Index.AddDocument d.1 (indexed (map fst ds))).1 = Z.of_nat (length ds)) by done.
  destruct (Vector ci) as [vi|]; cbn [mret outcome_ret].
  - specialize (Hvec vi eq_refl). rewrite Hid.
    step_call (add_holds vi _ (vector_doc (length ds) d) Hvec). intros [r vi'] Hr. cbn in *.
    split; [done|]. split; [exact Hk|]. cbn. intros vi2 [= <-]. rewrite imap_app, omap_app. cbn [imap omap list_omap].
    rewrite Nat.add_0_r. unfold embedded at 2. cbn [a_text vector_doc]. destruct r as [[]|e].
    + destruct Hr as (v & Hr & _). pose proof (holds_last _ _ _ _ Hr) as Hv. cbn in Hv. by rewrite Hv.
    + destruct Hr as [Hr ->]. by rewrite Hr, app_nil_r.
  - cbn. split; [exact Hid|]. split; [exact Hk|done].
Qed.
Lemma AddDocuments_built (ds0 ds : list (source * nat)) (ci : CompositeIndex) :
  Z.of_nat (length ds0 + length ds) <= 2 ^ 32 -> built ds0 ci ->
  returns (AddDocuments ds ci) (built (ds0 ++ ds)).
Proof.
  revert ds0 ci. induction ds as [|d ds IH]; intros ds0 ci Hlen Hb; cbn [AddDocuments length] in *; [by rewrite app_nil_r|].
  step_call (add_built ds0 d ci); [lia|done|]. intros [id ci'] [_ Hb']. cbn in *.
  replace (ds0 ++ d :: ds) with ((ds0 ++ [d]) ++ ds) by by rewrite <- app_assoc.
  apply IH; [rewrite length_app; cbn; lia|done].
Qed.
Lemma new_built (m ef : nat) (b : bool) :
  built [] (NewCompositeIndex (if b then Some (NewVectorIndex m ef) else None)).
Proof. split; [done|]. intros vi Hvi. destruct b; [|done]. injection Hvi as <-. apply new_holds. Qed.

(** The name a document number stands for. *)
Definition doc_named (ds : list (source * nat)) (id : Z) (path title : string) : Prop :=
  exists i d, ds !! i = Some d /\ id = Z.of_nat i /\ path = s_path d.1 /\ title = Base (s_path d.1).

Lemma GetDoc_named (ds : list (source * nat)) (i : nat) (d : source * nat) : Z.of_nat (length ds) <= 2 ^ 32 ->
  ds !! i = Some d -> GetDoc (indexed (map fst ds)) (Z.of_nat i) = Some (doc_meta (Z.of_nat i) d.1).
Proof.
  intros Hlen Hd. destruct (indexed_spec (map fst ds)) as (_ & H & _); [by rewrite length_map|].
  apply H. by rewrite list_lookup_fmap, Hd.
Qed.

(** *** Keyword results *)

Lemma hits_nodup (n h : Z) (ds : list source) : NoDup (hits n h ds).
Proof.
  revert n. induction ds as [|d ds IH]; intros n; cbn [hits]; [constructor|]. destruct (has_hash h d); [|done].
  constructor; [|done]. intros Hin. pose proof (hits_bounds (n + 1) h ds) as Hb. rewrite Forall_forall in Hb. apply Hb in Hin. lia.
Qed.
Lemma keyword_ids (ds : list (source * nat)) (query : string) : Z.of_nat (length ds) <= 2 ^ 32 ->
  map ID (LocalQuery (indexed (map fst ds)) query) = hits 0 (HashTerm query) (map fst ds) /\
  Forall (fun doc => exists i d, ds !! i = Some d /\ doc = doc_meta (Z.of_nat i) d.1) (LocalQuery (indexed (map fst ds)) query).
Proof.
  intros Hlen. destruct (indexed_spec (map fst ds)) as (Hq & _ & _); [by rewrite length_map|].
  unfold LocalQuery, Query. rewrite Hq. assert (Hl : forall l, (forall id, id ∈ l -> id ∈ hits 0 (HashTerm query) (map fst ds)) ->
    map ID (omap (GetDoc (indexed (map fst ds))) l) = l /\
    Forall (fun doc => exists i d, ds !! i = Some d /\ doc = doc_meta (Z.of_nat i) d.1) (omap (GetDoc (indexed (map fst ds))) l));
    [|by apply Hl].
  induction l as [|id l IH]; intros Hin; [by split|]. cbn [omap list_omap].
  pose proof (Hin id ltac:(by left)) as (i & d & -> & Hi & _)%hits_spec.
  rewrite list_lookup_fmap in Hi. destruct (ds !! i) as [d'|] eqn:Hd'; [|done]. injection Hi as <-. rewrite Z.add_0_l in *.
  rewrite (GetDoc_named ds i d' Hlen Hd'). destruct IH as [H1 H2]; [intros id' Hid'; apply Hin; by right|].
  cbn [map]. rewrite H1. split; [done|]. constructor; [by exists i, d'|done].
Qed.
Lemma keyword_ok (ds : list (source * nat)) (ci : CompositeIndex) (query : string) (k : Z) :
  Z.of_nat (length ds) <= 2 ^ 32 -> built ds ci ->
  map S_DocID (keywordSearch ci query k) = upto k (hits 0 (HashTerm query) (map fst ds)) /\
  NoDup (map S_DocID (keywordSearch ci query k)) /\ Forall (named (doc_named ds)) (keywordSearch ci query k).
Proof.
  intros Hlen [Hkw _]. unfold keywordSearch. rewrite Hkw. destruct (keyword_ids ds query Hlen) as [Hids Hnames].
  assert (Hm : map S_DocID (map keyword_result (upto k (LocalQuery (indexed (map fst ds)) query))) =
    upto k (hits 0 (HashTerm query) (map fst ds))).
  { rewrite map_map, upto_map. f_equal. exact Hids. }
  rewrite Hm. split_and!; [done| |].
  - destruct (upto_prefix k (hits 0 (HashTerm query) (map fst ds))) as [t Ht].
    pose proof (hits_nodup 0 (HashTerm query) (map fst ds)) as Hnd. rewrite Ht in Hnd. by apply NoDup_app in Hnd as (? & _).
  - apply Forall_map. destruct (upto_prefix k (LocalQuery (indexed (map fst ds)) query)) as [t Ht]. rewrite Ht in Hnames.
    apply Forall_app in Hnames as [Hn _]. eapply Forall_impl; [exact Hn|]. intros doc (i & d & Hd & ->). by exists i, d.
Qed.

(** *** Vector results *)

Lemma embedded_ids (l : list added_doc) :
  map (fun p => DocID (a_ref p.1)) (omap embedded l) `sublist_of` map (fun d => DocID (a_ref d)) l.
Proof.
  induction l as [|d l IH]; [done|]. cbn [omap list_omap map]. destruct (embedded d) as [[d' v]|] eqn:Hd; [|by apply sublist_cons].
  unfold embedded in Hd. repeat case_match; try done. injection Hd as -> ->. cbn [map fst]. by apply sublist_skip.
Qed.
Lemma vector_ids (ds : list (source * nat)) (n : nat) :
  map (fun d => DocID (a_ref d)) (imap (fun i => vector_doc (n + i)) ds) = map Z.of_nat (seq n (length ds)).
Proof.
  revert n. induction ds as [|d ds IH]; intros n; cbn; [done|]. rewrite Nat.add_0_r. f_equal.
  rewrite <- IH. f_equal. apply imap_ext. intros i x _. cbn. by rewrite Nat.add_succ_r.
Qed.
Lemma vector_ids_nodup (ds : list (source * nat)) : NoDup (map (fun p => DocID (a_ref p.1)) (omap embedded (imap vector_doc ds))).
Proof.
  eapply sublist_NoDup; [|apply embedded_ids].
  replace (map (fun d => DocID (a_ref d)) (imap vector_doc ds)) with (map Z.of_nat (seq 0 (length ds))) by (symmetry; apply (vector_ids ds 0)).
  apply NoDup_fmap; [|apply NoDup_seq]. intros x y. lia.
Qed.

Lemma vector_doc_named (ds : list (source * nat)) (i : nat) (d : added_doc) (v : list spec_float) :
  omap embedded (imap vector_doc ds) !! i = Some (d, v) ->
  exists j s, ds !! j = Some s /\ DocID (a_ref d) = Z.of_nat j.
Proof.
  intros Hi%list_elem_of_lookup_2. apply list_elem_of_omap in Hi as (d' & Hd & He).
  unfold embedded in He. repeat case_match; try done. injection He as -> _.
  apply list_elem_of_lookup in Hd as [j Hj]. rewrite list_lookup_imap in Hj. destruct (ds !! j) as [s|] eqn:Hs; [|done].
  injection Hj as <-. by exists j, s.
Qed.
Lemma NoDup_omap_lookup {A B} (f : A -> B) (l : list A) (idxs : list nat) : NoDup (map f l) -> NoDup idxs ->
  NoDup (omap (fun i => l !! i ≫= fun x => Some (f x)) idxs).
Proof.
  intros Hl. induction 1 as [|i idxs Hi _ IH]; cbn [omap list_omap]; [constructor|].
  destruct (l !! i) as [x|] eqn:Hx; cbn; [|done]. constructor; [|done]. intros (j & Hj & He)%list_elem_of_omap.
  destruct (l !! j) as [y|] eqn:Hy; [|done]. injection He as He. apply Hi. assert (i = j) as ->; [|done].
  eapply (NoDup_lookup _ _ _ (f x) Hl); rewrite list_lookup_fmap; [rewrite Hx|rewrite Hy]; cbn; congruence.
Qed.
Lemma vector_ok (ds : list (source * nat)) (ci : CompositeIndex) (query : string) (k : Z) :
  Z.of_nat (length ds) <= 2 ^ 32 -> built ds ci -> 0 <= k ->
  returns (vectorSearch ci query k) (fun rs => NoDup (map S_DocID rs) /\ Forall (named (doc_named ds)) rs).
Proof.
  intros Hlen [Hkw Hvec] Hk. unfold vectorSearch. destruct (Vector ci) as [vi|]; [|by split; constructor].
  specialize (Hvec vi eq_refl). step_call (Search_answers vi _ query k Hvec Hk). intros [hits|e] H; [|by split; constructor].
  destruct H as [[_ ->]|(q & idxs & _ & _ & _ & [])]; [by split; constructor|]. set (ps := omap embedded (imap vector_doc ds)) in *.
  rewrite Hkw. cbn [mret outcome_ret returns].
  assert (Hr : Forall2 (fun hit i => exists d v, ps !! i = Some (d, v) /\
      S_DocID (vector_result (indexed (map fst ds)) hit) = DocID (a_ref d) /\
      named (doc_named ds) (vector_result (indexed (map fst ds)) hit)) hits idxs).
  { eapply Forall2_impl; [exact as_hits|]. intros hit i (d & v & Hp & Hid & _). exists d, v. split; [done|].
    destruct (vector_doc_named ds i d v Hp) as (j & s & Hs & Hj). pose proof (lookup_lt_Some _ _ _ Hs) as Hlt.
    unfold named, vector_result. rewrite Hid, Hj, Z.mod_small, (GetDoc_named ds j s Hlen Hs) by lia.
    split; [done|]. by exists j, s. }
  split.
  - rewrite map_map. assert (Hm : map (fun hit => S_DocID (vector_result (indexed (map fst ds)) hit)) hits =
      omap (fun i => ps !! i ≫= fun p => Some (DocID (a_ref p.1))) idxs).
    { clear as_hits as_nodup as_bound as_some as_exact. induction Hr as [|hit i hits idxs (d & v & Hp & Hid & _) _ IH]; [done|].
      cbn [map omap list_omap]. rewrite Hid, IH, Hp. done. }
    rewrite Hm. apply NoDup_omap_lookup; [|done]. apply vector_ids_nodup.
  - apply Forall_map. apply Forall_forall. intros hit Hhit. apply list_elem_of_lookup in Hhit as [n Hn].
    destruct (Forall2_lookup_l _ _ _ _ _ Hr Hn) as (i & _ & d & v & _ & _ & H). done.
Qed.
End Built.

(** ** Theorems *)

Lemma twice_small (k : Z) : 0 <= k < 2 ^ 62 -> twice k = 2 * k.
Proof. intros Hk. unfold twice. rewrite Z.mod_small; lia. Qed.

Section Searches.
Context `{U : UnicodeTables} `{L : LetterTables} `{N : Normalizer} `{D : FoldTables} `{E : Embedder} `{HE : !EmbedderLaws E}
  `{R : Ranking} `{HR : !RankingLaws R}.
Context (ds : list (source * nat)) (ci : CompositeIndex) (query : string).
Context (Hlen : Z.of_nat (length ds) <= 2 ^ 32) (Hb : built ds ci).

Lemma hybrid_ok (k : Z) : 0 <= k < 2 ^ 62 ->
  returns (hybridSearch ci query k) (fun rs => exists vec l, vectorSearch ci query (2 * k) = Ret vec /\
    rs = upto k l /\ fusion (doc_named ds) (keywordSearch ci query (2 * k)) vec l).
Proof.
  intros Hk. unfold hybridSearch. rewrite twice_small by lia.
  destruct (keyword_ok ds ci query (2 * k) Hlen Hb) as (_ & H1 & H2).
  destruct (returns_inv _ _ (vector_ok ds ci query (2 * k) Hlen Hb ltac:(lia))) as (vec & Hvec & H3 & H4). rewrite Hvec. cbn.
  destruct (fuse_ok R HR (doc_named ds) k _ vec H1 H3 H2 H4) as (l & Hl & Hf). by exists vec, l.
Qed.

Lemma search_any (mode : string) (k : Z) : 0 <= k < 2 ^ 61 ->
  returns (if decide (mode = ModeVector) then vectorSearch ci query (twice k)
           else if decide (mode = ModeHybrid) then hybridSearch ci query (twice k)
           else Ret (keywordSearch ci query (twice k)))
    (fun rs => NoDup (map S_DocID rs) /\ Forall (named (doc_named ds)) rs).
Proof.
  intros Hk. rewrite twice_small by lia. repeat case_decide.
  - apply (vector_ok ds); [done|done|lia].
  - eapply returns_mono; [apply hybrid_ok; lia|]. intros rs (vec & l & _ & -> & []).
    destruct (upto_prefix (2 * k) l) as [t Ht]. split.
    + rewrite Ht, map_app in fu_nodup0. by apply NoDup_app in fu_nodup0 as (? & _).
    + rewrite Ht in fu_named0. by apply Forall_app in fu_named0 as [? _].
  - destruct (keyword_ok ds ci query (2 * k) Hlen Hb) as (_ & H1 & H2). by split.
Qed.

(** A result names a document that passes the filter. *)
Definition answer (filter : option MetadataFilter) (r : SearchResult) : Prop :=
  exists i d, ds !! i = Some d /\ S_DocID r = Z.of_nat i /\ S_Path r = s_path d.1 /\ S_Title r = Base (s_path d.1) /\
    Matches filter (doc_meta (Z.of_nat i) d.1) = true.

Lemma keep_answers (filter : option MetadataFilter) (rs : list SearchResult) :
  NoDup (map S_DocID rs) -> Forall (named (doc_named ds)) rs ->
  let rs' := if IsEmpty filter then rs else List.filter (keep (Keyword ci) filter) rs in
  NoDup (map S_DocID rs') /\ Forall (answer (if IsEmpty filter then None else filter)) rs'.
Proof.
  intros Hnd Hn. destruct (IsEmpty filter); cbn zeta.
  { split; [done|]. eapply Forall_impl; [exact Hn|]. intros r (i & d & Hd & Hid & Hp & Ht). by exists i, d. }
  induction Hn as [|r rs (i & d & Hd & Hid & Hp & Ht) _ IH]; cbn [map List.filter] in *; [by split|].
  apply NoDup_cons in Hnd as [Hr Hnd]. destruct (IH Hnd) as [IH1 IH2].
  assert (Hk : keep (Keyword ci) filter r = Matches filter (doc_meta (Z.of_nat i) d.1)).
  { unfold keep. rewrite (bu_keyword _ _ Hb), Hid, (GetDoc_named ds i d Hlen Hd). done. }
  destruct (keep (Keyword ci) filter r) eqn:Hkeep; [|by split]. cbn [map]. split.
  - constructor; [|done]. intros (r' & Hr' & Hin)%list_elem_of_fmap. apply Hr. rewrite Hr'.
    apply list_elem_of_fmap_2. apply list_elem_of_In, filter_In in Hin as [Hin _]. by apply list_elem_of_In.
  - constructor; [|done]. by exists i, d.
Qed.
End Searches.

(** Whatever the mode and the embedder, adding documents and searching never
    panics for a positive [k]: there are at most [k] results, for different
    documents, each with the path and title of the document of its number, and
    each passing the filter when there is one. *)
Theorem composite_search (U : UnicodeTables) (L : LetterTables) (N : Normalizer) (D : FoldTables) (E : Embedder)
    (HE : EmbedderLaws E) (R : Ranking) (HR : RankingLaws R) (m ef : nat) (vector : bool) (ds : list (source * nat))
    (query mode : string) (k : Z) (filter : option MetadataFilter) :
  Z.of_nat (length ds) <= 2 ^ 32 -> 0 < k < 2 ^ 61 ->
  returns (AddDocuments ds (NewCompositeIndex (if vector then Some (NewVectorIndex m ef) else None))) (fun ci =>
    returns (Search ci query mode k filter) (fun rs =>
      Z.of_nat (length rs) <= k /\ NoDup (map S_DocID rs) /\
      Forall (answer ds (if IsEmpty filter then None else filter)) rs)).
Proof.
  intros Hlen Hk. eapply returns_mono; [apply (AddDocuments_built [] ds); [done|apply new_built]|].
  intros ci Hb. cbn [app] in Hb. unfold Search. step_call (search_any ds ci query Hlen Hb mode k); [lia|].
  intros rs [H1 H2]. destruct (keep_answers ds ci Hlen Hb filter rs H1 H2) as [H3 H4]. cbn zeta in *.
  set (rs' := if IsEmpty filter then rs else _) in *. cbn. destruct (upto_prefix k rs') as [t Ht]. split_and!.
  - apply upto_length. lia.
  - rewrite Ht, map_app in H3. by apply NoDup_app in H3 as (? & _).
  - rewrite Ht in H4. by apply Forall_app in H4 as [? _].
Qed.

(** Hybrid search is rank fusion: its results are the first [k] of a list that
    holds every document found by the keyword or the vector search exactly
    once, each with the sum of [1/(60+rank)] over the lists it is in, highest
    first. *)
Theorem hybrid_fusion (U : UnicodeTables) (L : LetterTables) (N : Normalizer) (D : FoldTables) (E : Embedder)
    (HE : EmbedderLaws E) (R : Ranking) (HR : RankingLaws R) (m ef : nat) (vector : bool) (ds : list (source * nat))
    (query : string) (k : Z) :
  Z.of_nat (length ds) <= 2 ^ 32 -> 0 <= k < 2 ^ 62 ->
  returns (AddDocuments ds (NewCompositeIndex (if vector then Some (NewVectorIndex m ef) else None))) (fun ci =>
    returns (hybridSearch ci query k) (fun rs => exists vec l, vectorSearch ci query (2 * k) = Ret vec /\
      rs = upto k l /\ fusion (doc_named ds) (keywordSearch ci query (2 * k)) vec l)).
Proof.
  intros Hlen Hk. eapply returns_mono; [apply (AddDocuments_built [] ds); [done|apply new_built]|].
  intros ci Hb. by apply hybrid_ok.
Qed.

(** The examples: three documents, the TF-IDF embedder of [VectorIndex]'s. *)
Definition three_docs : list (source * nat) := map (fun p => ({| s_path := p.1; s_content := p.2; s_stat := None; s_now := 0 |}, 0%nat))
  [("/d/a.txt", "red hat"); ("/d/b.md", "green coat"); ("/d/c.txt", "green hat")].
Definition only_text : MetadataFilter := {| FileTypes := ["TEXT"]; MinSize := 0; MaxSize := 0; CreatedAfter := 0;
  CreatedBefore := 0; ModifiedAfter := 0; ModifiedBefore := 0; F_Tags := [] |}.
Definition plain (s : string) : string := s.
#[local] Existing Instance ascii_tables.
#[local] Existing Instance ascii_letters.
#[local] Existing Instance ascii_folding.
#[local] Existing Instance colour_embedder.
#[local] Existing Instance exchange_ranking.
#[local] Instance plain_normalizer : Normalizer := plain.
Definition three_search (mode : string) (k : Z) (filter : option MetadataFilter) : outcome (list (Z * string)) :=
  ci ← AddDocuments three_docs (NewCompositeIndex (Some (NewVectorIndex 4 10)));
  rs ← Search ci "green" mode k filter;
  Ret (map (fun r => (S_DocID r, S_Path r)) rs).
Example three_keyword : three_search "keyword" 5 None = Ret [(1, "/d/b.md"); (2, "/d/c.txt")].
Proof. vm_compute. reflexivity. Qed.
Example three_filtered : three_search "hybrid" 5 (Some only_text) = Ret [(2, "/d/c.txt"); (0, "/d/a.txt")].
Proof. vm_compute. reflexivity. Qed.
Example three_negative : three_search "vector" (-1) None = Panic.
Proof. vm_compute. reflexivity. Qed.

Lemma composite_search_witness : Z.of_nat (length three_docs) <= 2 ^ 32 /\
  returns (AddDocuments three_docs (NewCompositeIndex (Some (NewVectorIndex 4 10)))) (fun ci =>
    returns (Search ci "green" "vector" 2 (Some only_text)) (fun rs => Z.of_nat (length rs) <= 2)).
Proof.
  split; [vm_compute; discriminate|].
  eapply returns_mono; [apply (composite_search ascii_tables ascii_letters plain ascii_folding colour_embedder colour_laws
    exchange_ranking exchange_ranking_laws 4 10 true three_docs "green" "vector" 2 (Some only_text)); [vm_compute; discriminate|lia]|].
  intros ci H. eapply returns_mono; [exact H|]. intros rs (Hk & _). exact Hk.
Defined.
Lemma hybrid_fusion_witness :
  returns (AddDocuments three_docs (NewCompositeIndex (Some (NewVectorIndex 4 10)))) (fun ci =>
    returns (hybridSearch ci "green" 2) (fun rs => exists vec l, vectorSearch ci "green" 4 = Ret vec /\
      rs = upto 2 l /\ NoDup (map S_DocID l))).
Proof.
  eapply returns_mono; [apply (hybrid_fusion ascii_tables ascii_letters plain ascii_folding colour_embedder colour_laws
    exchange_ranking exchange_ranking_laws 4 10 true three_docs "green" 2); [vm_compute; discriminate|lia]|].
  intros ci H. eapply returns_mono; [exact H|]. intros rs (vec & l & Hv & Hl & []). exists vec, l.
  split; [exact Hv|]. split; [exact Hl|exact fu_nodup0].
Defined.
