(* ===== verification/EncryptedVector.v ===== *)
(** * Encrypted vectors: [fhe/vector_encrypt.go], [fhe/vector_compare.go] and [index/encrypted_vector.go]

    Vectors are quantised to integers modulo 65537, encrypted slot by slot,
    multiplied homomorphically and decrypted to a dot product.  The product of
    two ciphertexts is an interface with the law its documentation gives;
    converting a float outside uint64 is left to the implementation, as Go
    does. *)

From Stdlib Require Import SpecFloat.
From stdpp Require Import sorting.
From S2P Require Import Prelude GoStrings GoFloats Exchange VectorIndex Index EncryptedIndex Keys Composite.
Local Open Scope Z_scope.

(** The homomorphic product, and its law for a key pair with its evaluation key. *)
Class VectorLib `{B : BGV} `{K : !KeyLib} :=
  MulRelinNew : params -> option eval_key -> ciphertext -> ciphertext -> result ciphertext.
Class VectorLaws `{B : BGV} `{K : !KeyLib} `{V : !VectorLib} (ks : VectorKeys) : Prop := {
  mul_fresh : forall x y a b c, fresh (base ks) x a -> fresh (base ks) y b ->
    MulRelinNew (Params (base ks)) (EvaluationKey ks) a b = Ok c ->
    Decode (Params (base ks)) (DecryptNew (Params (base ks)) (SecretKey (base ks)) c)
      = Ok (zip_with (fun u v => (u * v) mod DefaultPlaintextModulus) x y);
  mul_needs_key : forall a b, is_ok (MulRelinNew (Params (base ks)) None a b) = false
}.

(** ** Quantisation *)

(** [math.Round]: to the nearest integer, halves away from zero. *)
Definition Round (x : spec_float) : spec_float :=
  match x with
  | S754_finite s m e =>
      if 0 <=? e then x else binary_normalize 53 1024 (cond_Zopp s ((Z.pos m + 2 ^ (- e - 1)) / 2 ^ (- e))) 0 s
  | _ => x
  end.
(** The integer part. *)
Definition f64_int (x : spec_float) : option Z :=
  match x with
  | S754_finite s m e => Some (cond_Zopp s (if 0 <=? e then Z.pos m * 2 ^ e else Z.pos m / 2 ^ (- e)))
  | S754_zero _ => Some 0
  | _ => None
  end.
Definition zero64 : spec_float := S754_zero false.
Definition DefaultScale : spec_float := f64_of_Z 100.
Definition halfT : Z := DefaultPlaintextModulus / 2.

Section Quantize.
Variable out_of_range : spec_float -> Z.
Definition to_uint64 (x : spec_float) : Z :=
  match f64_int x with
  | Some z => if (0 <=? z) && (z <? 2 ^ 64) then z else out_of_range x
  | None => out_of_range x
  end.
Definition slot_of (scaled : spec_float) : Z :=
  let scaled := if flt scaled zero64 then f64_add scaled (f64_of_Z DefaultPlaintextModulus) else scaled in
  to_uint64 scaled mod DefaultPlaintextModulus.
Definition QuantizeVector (vec : list spec_float) (scale : spec_float) : list Z :=
  map (fun v => slot_of (Round (f64_mul (float64 v) scale))) vec.
End Quantize.

Definition dequantize (scale : spec_float) (v : Z) : spec_float :=
  if halfT <? v then SFopp (float32 (f64_div (f64_of_Z (DefaultPlaintextModulus - v)) scale))
  else float32 (f64_div (f64_of_Z v) scale).
Definition DequantizeVector (vals : list Z) (scale : spec_float) (dim : nat) : list spec_float :=
  map (dequantize scale) (take dim vals) ++ replicate (dim - length vals) zero32.

Section Vectors.
Context `{B : BGV}.
Definition EncryptVector (vec : list Z) (p : params) (pk : public_key) : result ciphertext := EncryptTermPage vec p pk.
Fixpoint EncryptVectorBatch (vecs : list (list Z)) (p : params) (pk : public_key) : result (list ciphertext) :=
  match vecs with
  | [] => Ok []
  | vec :: vecs' => ct ← EncryptVector vec p pk; rest ← EncryptVectorBatch vecs' p pk; Ok (ct :: rest)
  end.
Definition DecryptVector (ct : ciphertext) (p : params) (sk : secret_key) (scale : spec_float) (dim : nat) : result (list spec_float) :=
  vals ← DecryptSlots ct p sk; Ok (DequantizeVector vals scale dim).
End Vectors.

(** ** Products *)

(** A slot as a signed number. *)
Definition centered (v : Z) : Z := if halfT <? v then - (DefaultPlaintextModulus - v) else v.
Definition slot_sum (slots : list Z) : Z := foldl (fun sum v => sum + centered v) 0 slots.
Definition dot_score (sum : Z) (scale : spec_float) : spec_float := float32 (f64_div (f64_of_Z sum) (f64_mul scale scale)).

Section Products.
Context `{B : BGV} `{K : !KeyLib} `{V : !VectorLib}.
Definition EvaluateElementWiseProduct (encA encB : ciphertext) (p : params) (evk : option eval_key) : result ciphertext :=
  wrap "homomorphic multiplication" (MulRelinNew p evk encA encB).
Definition DecryptDotProduct (res : ciphertext) (p : params) (sk : secret_key) (scale : spec_float) (dim : nat) : result spec_float :=
  slots ← DecryptSlots res p sk; Ok (dot_score (slot_sum (take dim slots)) scale).
End Products.

(** ** The replica *)

Record EncryptedVectorReplica `{B : BGV} `{K : !KeyLib} := {
  V_Params : params; V_PublicKey : public_key; EvalKey : option eval_key;
  DocVectors : list ciphertext; DocInfos : list ReplicaDocInfo;
  V_DocCount : nat; V_Dimension : nat; Scale : spec_float; V_Checksum : list Z; V_CreatedAt : Z
}.

Section Replica.
Context `{B : BGV} `{K : !KeyLib} `{V : !VectorLib} `{U : UnicodeTables} `{D : FoldTables} `{E : Embedder}.

(** The loop over document numbers: ciphertexts, infos and the bytes hashed. *)
Fixpoint replica_loop (embedding : Z -> option (list spec_float)) (quantize : list spec_float -> list Z)
    (idx : InvertedIndex) (keys : VectorKeys) (ids : list Z) : result (list ciphertext * list ReplicaDocInfo * list Z) :=
  match ids with
  | [] => Ok ([], [], [])
  | docID :: ids' =>
      match Documents idx !! docID with
      | None => replica_loop embedding quantize idx keys ids'
      | Some doc =>
          match embedding docID with
          | None => replica_loop embedding quantize idx keys ids'
          | Some vec =>
              ct ← EncryptVector (quantize vec) (Params (base keys)) (PublicKey (base keys));
              let ctBytes := match MarshalBinary ct with Ok b => b | Err _ => [] end in
              rest ← replica_loop embedding quantize idx keys ids';
              Ok (ct :: rest.1.1, DocMetaToReplicaInfo doc :: rest.1.2, ctBytes ++ rest.2)
          end
      end
  end.
Definition BuildEncryptedVectorReplica (out_of_range : spec_float -> Z) (range : gmap nat DocRef -> list (nat * DocRef))
    (vi : VectorIndex) (idx : InvertedIndex) (keys : VectorKeys) (scale0 : spec_float) (now : Z) : result EncryptedVectorReplica :=
  let scale := if feq scale0 zero64 then DefaultScale else scale0 in
  r ← replica_loop (GetEmbedding range vi) (fun vec => QuantizeVector out_of_range vec scale) idx keys
        (map Z.of_nat (seq 0 (DocCount idx)));
  Ok {| V_Params := Params (base keys); V_PublicKey := PublicKey (base keys); EvalKey := EvaluationKey keys;
        DocVectors := r.1.1; DocInfos := r.1.2; V_DocCount := length r.1.1; V_Dimension := Dimension;
        Scale := scale; V_Checksum := Sha256.sha256 r.2; V_CreatedAt := now |}.

(** The loop over the ciphertexts from position [i]; an error skips the document. *)
Fixpoint match_loop (replica : EncryptedVectorReplica) (encryptedQuery : ciphertext) (filter : option MetadataFilter)
    (keys : VectorKeys) (i : nat) (cts : list ciphertext) : list (nat * spec_float) :=
  match cts with
  | [] => []
  | ct :: cts' =>
      let rest := match_loop replica encryptedQuery filter keys (S i) cts' in
      let skipped := match DocInfos replica !! i with Some info => negb (MatchesReplicaInfo filter info) | None => false end in
      if skipped then rest
      else
        match EvaluateElementWiseProduct encryptedQuery ct (V_Params replica) (EvalKey replica) with
        | Err _ => rest
        | Ok product =>
            match DecryptDotProduct product (Params (base keys)) (SecretKey (base keys)) (Scale replica) (V_Dimension replica) with
            | Err _ => rest
            | Ok score => (i, score) :: rest
            end
        end
  end.
Definition replica_result (infos : list ReplicaDocInfo) (m : nat * spec_float) : SearchResult :=
  let id := Z.of_nat m.1 mod 2 ^ 32 in
  match infos !! m.1 with
  | Some info => {| S_DocID := id; S_Path := EmptyString; S_Title := EmptyString; S_Score := m.2; S_Mode := ModeVector;
      S_FileType := R_FileType info; S_Size := R_Size info; S_CreatedAt := R_CreatedAt info;
      S_ModifiedAt := R_ModifiedAt info; S_WordCount := R_WordCount info |}
  | None => {| S_DocID := id; S_Path := EmptyString; S_Title := EmptyString; S_Score := m.2; S_Mode := ModeVector;
      S_FileType := EmptyString; S_Size := 0; S_CreatedAt := 0; S_ModifiedAt := 0; S_WordCount := 0 |}
  end.
Definition SearchReplica (replica : EncryptedVectorReplica) (encryptedQuery : ciphertext) (filter : option MetadataFilter)
    (keys : VectorKeys) (k : Z) : list SearchResult :=
  let matches := exchange_sort (fun a b => flt b.2 a.2) (match_loop replica encryptedQuery filter keys 0 (DocVectors replica)) in
  map (replica_result (DocInfos replica)) (upto k matches).
End Replica.

(** ** Exactness *)

(** The component [v] rounds to the integer [z] under the scale. *)
Definition rounds_to (scale v : spec_float) (z : Z) : Prop :=
  Round (f64_mul (float64 v) scale) = f64_of_Z z \/ z = 0 /\ Round (f64_mul (float64 v) scale) = S754_zero true.
#[local] Instance spec_float_eq_dec : EqDecision spec_float.
Proof. solve_decision. Defined.
#[local] Instance rounds_to_dec (scale v : spec_float) (z : Z) : Decision (rounds_to scale v z).
Proof. unfold rounds_to. apply _. Defined.
(** Products of numbers up to 181 stay within half the modulus. *)
Definition small (z : Z) : Prop := -181 <= z <= 181.
Definition small_range : list Z := map (fun n => Z.of_nat n - 181) (seq 0 363).
Lemma small_in (z : Z) : small z -> z ∈ small_range.
Proof.
  intros Hz. unfold small in Hz. apply list_elem_of_fmap. exists (Z.to_nat (z + 181)). split; [lia|]. apply elem_of_seq. lia.
Qed.
(** A statement about every small integer, by evaluation. *)
Lemma small_case (p : Z -> bool) : forallb p small_range = true -> forall z, small z -> p z = true.
Proof. intros H z Hz. rewrite forallb_forall in H. apply H, list_elem_of_In, small_in, Hz. Qed.

Lemma slot_of_small (oor : spec_float -> Z) (z : Z) : small z -> slot_of oor (f64_of_Z z) = z mod DefaultPlaintextModulus.
Proof.
  assert (H : forall z, small z -> (let scaled := if flt (f64_of_Z z) zero64 then f64_add (f64_of_Z z) (f64_of_Z DefaultPlaintextModulus) else f64_of_Z z in
    match f64_int scaled with Some n => (0 <=? n) && (n <? 2 ^ 64) && (n mod DefaultPlaintextModulus =? z mod DefaultPlaintextModulus) | None => false end) = true)
    by (apply small_case; vm_compute; reflexivity).
  intros Hz. specialize (H z Hz). cbv zeta in H. unfold slot_of, to_uint64. cbv zeta. destruct (f64_int _) as [n|]; [|done].
  apply andb_prop in H as [Hr Hn]. rewrite Hr. by apply Z.eqb_eq in Hn.
Qed.
Lemma QuantizeVector_small (oor : spec_float -> Z) (scale : spec_float) (vec : list spec_float) (zs : list Z) :
  Forall2 (rounds_to scale) vec zs -> Forall small zs ->
  QuantizeVector oor vec scale = map (fun z => z mod DefaultPlaintextModulus) zs.
Proof.
  induction 1 as [|v z vec zs Hv _ IH]; intros Hs; [done|]. apply Forall_cons in Hs as [Hz Hs].
  cbn [QuantizeVector map]. f_equal; [|by apply IH]. destruct Hv as [->|[-> ->]]; [by apply slot_of_small|].
  rewrite <- (slot_of_small oor 0) by (unfold small; lia). reflexivity.
Qed.

Lemma centered_mod (p : Z) : - halfT <= p <= halfT -> centered (p mod DefaultPlaintextModulus) = p.
Proof.
  unfold centered, halfT, DefaultPlaintextModulus. change (65537 / 2) with 32768. intros Hp.
  destruct (Z_lt_le_dec p 0).
  - rewrite <- (Z.mod_unique_pos p 65537 (-1) (p + 65537)) by lia. destruct (Z.ltb_spec 32768 (p + 65537)); lia.
  - rewrite Z.mod_small by lia. destruct (Z.ltb_spec 32768 p); lia.
Qed.
Fixpoint dot (x y : list Z) : Z := match x, y with a :: x', b :: y' => a * b + dot x' y' | _, _ => 0 end.
Definition in_half (a b : Z) : Prop := - halfT <= a * b <= halfT.
Lemma small_in_half (x y : list Z) : length x = length y -> Forall small x -> Forall small y -> Forall2 in_half x y.
Proof.
  intros Hl Hx. revert y Hl. induction Hx as [|a x Ha _ IH]; intros [|b y] Hl Hy; try done.
  apply Forall_cons in Hy as [Hb Hy]. constructor; [|apply IH; [by injection Hl|done]].
  unfold small, in_half in *. change halfT with 32768. nia.
Qed.
Lemma slot_sum_acc (l : list Z) (acc : Z) : foldl (fun sum v => sum + centered v) acc l = acc + slot_sum l.
Proof.
  unfold slot_sum. revert acc. induction l as [|v l IH]; intros acc; cbn [foldl]; [lia|]. rewrite IH, (IH (0 + centered v)). lia.
Qed.
Lemma slot_sum_dot (x y : list Z) : Forall2 in_half x y ->
  slot_sum (zip_with (fun u v => (u * v) mod DefaultPlaintextModulus)
    (map (fun z => z mod DefaultPlaintextModulus) x) (map (fun z => z mod DefaultPlaintextModulus) y)) = dot x y.
Proof.
  induction 1 as [|a b x y Hab _ IH]; [done|]. cbn [map zip_with dot]. unfold slot_sum. cbn [foldl]. rewrite slot_sum_acc, IH.
  rewrite <- Z.mul_mod by done. rewrite (centered_mod _ Hab). lia.
Qed.

(** Quantising undoes dequantising, at the default scale. *)
Theorem quantize_dequantize (oor : spec_float -> Z) (zs : list Z) : Forall small zs ->
  let slots := map (fun z => z mod DefaultPlaintextModulus) zs in
  QuantizeVector oor (DequantizeVector slots DefaultScale (length zs)) DefaultScale = slots.
Proof.
  intros Hz slots. subst slots. unfold DequantizeVector. rewrite length_map, Nat.sub_diag, app_nil_r, take_ge by by rewrite length_map.
  rewrite map_map. apply (QuantizeVector_small oor DefaultScale); [|done].
  induction Hz as [|z zs Hz _ IH]; constructor; [|done].
  assert (H : forall z, small z -> bool_decide (rounds_to DefaultScale (dequantize DefaultScale (z mod DefaultPlaintextModulus)) z) = true)
    by (apply small_case; vm_compute; reflexivity).
  exact (proj1 (bool_decide_eq_true _) (H z Hz)).
Qed.

(** ** Dot products *)

Section Products.
Context `{B : BGV} `{K : !KeyLib} `{V : !VectorLib} (ks : VectorKeys) `{HV : !VectorLaws ks}.

Lemma EncryptVector_fresh (zs : list Z) (ct : ciphertext) : (length zs <= par_N (Params (base ks)))%nat ->
  EncryptVector (map (fun z => z mod DefaultPlaintextModulus) zs) (Params (base ks)) (PublicKey (base ks)) = Ok ct ->
  fresh (base ks) (map (fun z => z mod DefaultPlaintextModulus) zs ++ replicate (par_N (Params (base ks)) - length zs) 0) ct.
Proof.
  intros Hl. unfold EncryptVector, EncryptTermPage. cbv zeta. rewrite length_map, take_ge by by rewrite length_map. apply encrypt_fresh.
  - rewrite length_app, length_map, length_replicate. lia.
  - apply Forall_app. split; [|by apply Forall_replicate]. apply Forall_map, Forall_true. intros z. by apply Z.mod_pos_bound.
Qed.
Lemma product_ok (x y : list Z) (ca cb c : ciphertext) (scale : spec_float) :
  length x = length y -> (length x <= par_N (Params (base ks)))%nat -> Forall2 in_half x y ->
  EncryptVector (map (fun z => z mod DefaultPlaintextModulus) x) (Params (base ks)) (PublicKey (base ks)) = Ok ca ->
  EncryptVector (map (fun z => z mod DefaultPlaintextModulus) y) (Params (base ks)) (PublicKey (base ks)) = Ok cb ->
  EvaluateElementWiseProduct ca cb (Params (base ks)) (EvaluationKey ks) = Ok c ->
  DecryptDotProduct c (Params (base ks)) (SecretKey (base ks)) scale (length x) = Ok (dot_score (dot x y) scale).
Proof.
  intros Hl Hn Hh Ha Hb Hc. apply EncryptVector_fresh in Ha; [|done]. apply EncryptVector_fresh in Hb; [|lia].
  unfold EvaluateElementWiseProduct in Hc. apply wrap_ok in Hc. pose proof (mul_fresh _ _ _ _ _ Ha Hb Hc) as Hd.
  unfold DecryptDotProduct, DecryptSlots. rewrite Hd. cbn. do 2 f_equal.
  rewrite zip_with_app by by rewrite !length_map. rewrite take_app_length' by (rewrite length_zip_with, !length_map; lia).
  by apply slot_sum_dot.
Qed.
End Products.

(** C33. The homomorphic dot product is exact: for two vectors whose components
    round to integers between -181 and 181 under the scale, encrypting,
    multiplying, decrypting and summing gives the score of the integer dot
    product of the rounded vectors: no slot wraps around the modulus. *)
Theorem dot_product_exact (B : BGV) (K : KeyLib) (V : VectorLib) (ks : VectorKeys) (HV : VectorLaws ks)
    (oor : spec_float -> Z) (scale : spec_float) (a b : list spec_float) (x y : list Z) (ca cb c : ciphertext) :
  Forall2 (rounds_to scale) a x -> Forall2 (rounds_to scale) b y -> Forall small x -> Forall small y ->
  length a = length b -> (length a <= par_N (Params (base ks)))%nat ->
  EncryptVector (QuantizeVector oor a scale) (Params (base ks)) (PublicKey (base ks)) = Ok ca ->
  EncryptVector (QuantizeVector oor b scale) (Params (base ks)) (PublicKey (base ks)) = Ok cb ->
  EvaluateElementWiseProduct ca cb (Params (base ks)) (EvaluationKey ks) = Ok c ->
  DecryptDotProduct c (Params (base ks)) (SecretKey (base ks)) scale (length a) = Ok (dot_score (dot x y) scale).
Proof.
  intros Ha Hb Hx Hy Hl Hn Hca Hcb Hc. pose proof (Forall2_length _ _ _ Ha) as Hla. pose proof (Forall2_length _ _ _ Hb) as Hlb.
  rewrite (QuantizeVector_small oor scale a x Ha Hx) in Hca. rewrite (QuantizeVector_small oor scale b y Hb Hy) in Hcb.
  rewrite Hla. apply (product_ok ks x y ca cb c scale); try done; [lia|lia|]. apply small_in_half; [lia|done|done].
Qed.

(** ** Searching a replica *)

(** What the replica stands for: metadata and integer vector of each document. *)
Definition entry : Type := ReplicaDocInfo * list Z.
(** The plaintext scores of the entries that pass the filter. *)
Fixpoint plain_scores `{U : UnicodeTables} `{D : FoldTables} (filter : option MetadataFilter) (q : list Z) (scale : spec_float)
    (i : nat) (es : list entry) : list (nat * spec_float) :=
  match es with
  | [] => []
  | e :: es' =>
      if MatchesReplicaInfo filter e.1 then (i, dot_score (dot q e.2) scale) :: plain_scores filter q scale (S i) es'
      else plain_scores filter q scale (S i) es'
  end.

Section Search.
Context `{B : BGV} `{K : !KeyLib} `{V : !VectorLib} `{U : UnicodeTables} `{D : FoldTables} `{E : Embedder}.
Context (ks : VectorKeys) `{HV : !VectorLaws ks}.

(** The replica encrypts the entries under the owner's keys. *)
Record encrypts (replica : EncryptedVectorReplica) (es : list entry) : Prop := {
  en_params : V_Params replica = Params (base ks);
  en_evk : EvalKey replica = EvaluationKey ks;
  en_infos : DocInfos replica = map fst es;
  en_cts : Forall2 (fun e ct => EncryptVector (map (fun z => z mod DefaultPlaintextModulus) e.2) (Params (base ks)) (PublicKey (base ks)) = Ok ct)
    es (DocVectors replica);
  en_small : Forall (fun e => Forall small e.2 /\ length e.2 = V_Dimension replica) es
}.

Lemma match_loop_ok (replica : EncryptedVectorReplica) (es : list entry) (q : list Z) (cq : ciphertext) (filter : option MetadataFilter) :
  encrypts replica es -> Forall small q -> length q = V_Dimension replica -> (V_Dimension replica <= par_N (Params (base ks)))%nat ->
  EncryptVector (map (fun z => z mod DefaultPlaintextModulus) q) (Params (base ks)) (PublicKey (base ks)) = Ok cq ->
  (forall ct, ct ∈ DocVectors replica -> is_ok (MulRelinNew (Params (base ks)) (EvaluationKey ks) cq ct) = true) ->
  match_loop replica cq filter ks 0 (DocVectors replica) = plain_scores filter q (Scale replica) 0 es.
Proof.
  intros Hes Hq Hlq Hn Hcq Hok.
  assert (Hgen : forall cts es0 es1, es = es0 ++ es1 ->
    Forall2 (fun e ct => EncryptVector (map (fun z => z mod DefaultPlaintextModulus) e.2) (Params (base ks)) (PublicKey (base ks)) = Ok ct) es1 cts ->
    (forall ct, ct ∈ cts -> is_ok (MulRelinNew (Params (base ks)) (EvaluationKey ks) cq ct) = true) ->
    match_loop replica cq filter ks (length es0) cts = plain_scores filter q (Scale replica) (length es0) es1).
  2: { destruct Hes. by apply (Hgen _ [] es). }
  clear Hok. destruct Hes. intros cts es0 es1 Hsplit H2. revert es0 Hsplit. induction H2 as [|e ct es1 cts Hct _ IH]; intros es0 -> Hok; [done|].
  cbn [match_loop plain_scores]. rewrite en_infos0, list_lookup_fmap, list_lookup_middle by done. cbn [fmap option_fmap option_map].
  assert (Hrest : match_loop replica cq filter ks (S (length es0)) cts = plain_scores filter q (Scale replica) (S (length es0)) es1).
  { replace (S (length es0)) with (length (es0 ++ [e])) by (rewrite length_app; cbn; lia).
    apply IH; [by rewrite <- app_assoc|]. intros ct' Hin. apply Hok. by right. }
  rewrite Hrest. destruct (MatchesReplicaInfo filter e.1); [|done]. cbn [negb].
  apply Forall_app in en_small0 as [_ [[Hs Hle] _]%Forall_cons]. rewrite en_params0, en_evk0.
  unfold EvaluateElementWiseProduct at 1. specialize (Hok ct (list_elem_of_here _ _)). unfold EvaluateElementWiseProduct.
  destruct (MulRelinNew _ _ cq ct) as [c|] eqn:Hc; [|done]. cbn [wrap].
  rewrite <- Hlq. rewrite (product_ok ks q e.2 cq ct c (Scale replica)); try done; [lia|lia|apply small_in_half; [lia|done|done]|].
  unfold EvaluateElementWiseProduct. by rewrite Hc.
Qed.

Definition score_order (a b : nat * spec_float) : Prop := flt a.2 b.2 = false.
Lemma SearchReplica_ok (replica : EncryptedVectorReplica) (es : list entry) (q : list Z) (cq : ciphertext)
    (filter : option MetadataFilter) (k : Z) :
  encrypts replica es -> Forall small q -> length q = V_Dimension replica -> (V_Dimension replica <= par_N (Params (base ks)))%nat ->
  EncryptVector (map (fun z => z mod DefaultPlaintextModulus) q) (Params (base ks)) (PublicKey (base ks)) = Ok cq ->
  (forall ct, ct ∈ DocVectors replica -> is_ok (MulRelinNew (Params (base ks)) (EvaluationKey ks) cq ct) = true) ->
  exists l, l ≡ₚ plain_scores filter q (Scale replica) 0 es /\
    (Forall (fun p => is_nan p.2 = false) l -> StronglySorted score_order l) /\
    SearchReplica replica cq filter ks k = map (replica_result (map fst es)) (upto k l).
Proof.
  intros Hes Hq Hl Hn Hcq Hok. unfold SearchReplica. cbv zeta.
  rewrite (match_loop_ok replica es q cq filter Hes Hq Hl Hn Hcq Hok), (en_infos _ _ Hes).
  exists (exchange_sort (fun a b => flt b.2 a.2) (plain_scores filter q (Scale replica) 0 es)).
  split; [apply exchange_sort_perm|]. split; [|done]. intros Hnan. rewrite exchange_sort_perm in Hnan.
  apply (exchange_sort_sorted (fun a b : nat * spec_float => flt b.2 a.2) (fun p => is_nan p.2 = false)); [| |done].
  - intros a b _ _. apply flt_asym.
  - intros a b c _ Hb _. unfold not_after. intros H1 H2. exact (flt_not_trans _ _ _ Hb H2 H1).
Qed.

(** The entries of a build: the documents with an embedding, in the order of
    their numbers; [ints] gives the integers of a vector. *)
Definition doc_entries (ints : list spec_float -> list Z) (embedding : Z -> option (list spec_float)) (idx : InvertedIndex)
    (ids : list Z) : list entry :=
  omap (fun id => match Documents idx !! id, embedding id with
                  | Some doc, Some v => Some (DocMetaToReplicaInfo doc, ints v)
                  | _, _ => None
                  end) ids.
Lemma replica_loop_ok (ints : list spec_float -> list Z) (embedding : Z -> option (list spec_float))
    (quantize : list spec_float -> list Z) (idx : InvertedIndex) (ids : list Z) (r : list ciphertext * list ReplicaDocInfo * list Z) :
  (forall id v, id ∈ ids -> embedding id = Some v -> quantize v = map (fun z => z mod DefaultPlaintextModulus) (ints v)) ->
  replica_loop embedding quantize idx ks ids = Ok r ->
  r.1.2 = map fst (doc_entries ints embedding idx ids) /\
  Forall2 (fun e ct => EncryptVector (map (fun z => z mod DefaultPlaintextModulus) e.2) (Params (base ks)) (PublicKey (base ks)) = Ok ct)
    (doc_entries ints embedding idx ids) r.1.1.
Proof.
  revert r. induction ids as [|id ids IH]; intros r Hq Hr; cbn [replica_loop] in Hr; [by injection Hr as <-|].
  assert (Hq' : forall id' v, id' ∈ ids -> embedding id' = Some v -> quantize v = map (fun z => z mod DefaultPlaintextModulus) (ints v))
    by (intros id' v Hid; apply Hq; by right).
  unfold doc_entries. cbn [omap list_omap]. fold (doc_entries ints embedding idx ids).
  destruct (Documents idx !! id) as [doc|]; [|by apply IH].
  destruct (embedding id) as [v|] eqn:He; [|by apply IH].
  rewrite (Hq id v (list_elem_of_here _ _) He) in Hr.
  destruct (EncryptVector _ _ _) as [ct|] eqn:Hct; [|done]. cbn [mbind result_bind] in Hr.
  destruct (replica_loop embedding quantize idx ks ids) as [rest|]; [|done]. injection Hr as <-.
  destruct (IH rest Hq' eq_refl) as [H1 H2]. cbn. rewrite H1. split; [done|]. by constructor.
Qed.
End Search.

(** Encrypted search is plaintext search: over a replica built from any indexes
    whose embeddings round to small integers, and when no product reports an
    error, the results are the first [k] of the documents that pass the filter,
    ranked by the exact integer dot products.  A result carries the position of
    the document among those embedded, not its number. *)
Theorem search_replica (B : BGV) (K : KeyLib) (V : VectorLib) (U : UnicodeTables) (D : FoldTables) (E : Embedder)
    (ks : VectorKeys) (HV : VectorLaws ks) (oor : spec_float -> Z) (range : gmap nat DocRef -> list (nat * DocRef))
    (vi : VectorIndex) (idx : InvertedIndex) (scale0 : spec_float) (now k : Z) (replica : EncryptedVectorReplica)
    (ints : list spec_float -> list Z) (q : list spec_float) (zq : list Z) (cq : ciphertext) (filter : option MetadataFilter) :
  let ids := map Z.of_nat (seq 0 (DocCount idx)) in
  let es := doc_entries ints (GetEmbedding range vi) idx ids in
  BuildEncryptedVectorReplica oor range vi idx ks scale0 now = Ok replica ->
  (forall id v, id ∈ ids -> GetEmbedding range vi id = Some v ->
     Forall2 (rounds_to (Scale replica)) v (ints v) /\ Forall small (ints v) /\ length v = Dimension) ->
  Forall2 (rounds_to (Scale replica)) q zq -> Forall small zq -> length q = Dimension ->
  (Dimension <= par_N (Params (base ks)))%nat ->
  EncryptVector (QuantizeVector oor q (Scale replica)) (Params (base ks)) (PublicKey (base ks)) = Ok cq ->
  (forall ct, ct ∈ DocVectors replica -> is_ok (MulRelinNew (Params (base ks)) (EvaluationKey ks) cq ct) = true) ->
  exists l, l ≡ₚ plain_scores filter zq (Scale replica) 0 es /\
    (Forall (fun p => is_nan p.2 = false) l -> StronglySorted score_order l) /\
    SearchReplica replica cq filter ks k = map (replica_result (map fst es)) (upto k l).
Proof.
  intros ids es Hb Hi Hq Hzq Hl Hn Hcq Hok. unfold BuildEncryptedVectorReplica in Hb. cbv zeta in Hb.
  set (scale := if feq scale0 zero64 then DefaultScale else scale0) in *.
  destruct (replica_loop _ _ idx ks _) as [r|] eqn:Hr; [|done]. injection Hb as Hb.
  assert (HS : Scale replica = scale) by by subst replica. rewrite HS in *.
  assert (Hints : forall id v, id ∈ ids -> GetEmbedding range vi id = Some v ->
    QuantizeVector oor v scale = map (fun z => z mod DefaultPlaintextModulus) (ints v)).
  { intros id v Hid Hv. destruct (Hi id v Hid Hv) as (H1 & H2 & _). by apply QuantizeVector_small. }
  destruct (replica_loop_ok ks ints _ _ idx ids r Hints Hr) as [Hinfos Hcts]. fold es in Hinfos, Hcts.
  rewrite (QuantizeVector_small oor scale q zq Hq Hzq) in Hcq. pose proof (Forall2_length _ _ _ Hq) as Hlq.
  destruct (SearchReplica_ok ks replica es zq cq filter k) as (l & H1 & H2 & H3); try done.
  - split; try by subst replica. subst replica. cbn [V_Dimension]. apply Forall_forall. intros e He.
    unfold es, doc_entries in He. apply list_elem_of_omap in He as (id & Hid & He).
    destruct (Documents idx !! id); [|done]. destruct (GetEmbedding range vi id) as [v|] eqn:Hv; [|done]. injection He as <-.
    destruct (Hi id v Hid Hv) as (Hr2 & Hs & Hlv). cbn. split; [done|]. apply Forall2_length in Hr2. by rewrite <- Hr2.
  - subst replica. cbn. lia.
  - subst replica. cbn. lia.
  - exists l. by rewrite HS in *.
Qed.

(** Keys that were loaded from disk have no evaluation key, and a replica built
    with them answers every search with nothing. *)
Theorem loaded_keys_find_nothing (B : BGV) (K : KeyLib) (V : VectorLib) (U : UnicodeTables) (D : FoldTables) (E : Embedder)
    (C : Cipher) (F : Faults) (dir passphrase : string) (d : gmap string (list Z)) (ks : VectorKeys) (HV : VectorLaws ks)
    (oor : spec_float -> Z) (range : gmap nat DocRef -> list (nat * DocRef)) (vi : VectorIndex) (idx : InvertedIndex)
    (scale : spec_float) (now k : Z) (replica : EncryptedVectorReplica) (cq : ciphertext) (filter : option MetadataFilter) :
  LoadKeys dir passphrase d = Ok ks ->
  BuildEncryptedVectorReplica oor range vi idx ks scale now = Ok replica ->
  SearchReplica replica cq filter ks k = [].
Proof.
  intros Hload Hb.
  pose proof (LoadKeys_evaluation dir passphrase d ks Hload) as Hnone.
  unfold BuildEncryptedVectorReplica in Hb. cbv zeta in Hb. destruct (replica_loop _ _ idx ks _) as [r|]; [|done]. injection Hb as <-.
  unfold SearchReplica. cbn [DocVectors DocInfos]. set (rep := {| V_Params := _ |}).
  enough (H : forall cts i, match_loop rep cq filter ks i cts = []).
  { rewrite H. change (exchange_sort _ []) with (@nil (nat * spec_float)). unfold upto. case_match; [|done]. by rewrite take_nil. }
  induction cts as [|ct cts IH]; intros i; [done|]. cbn [match_loop]. rewrite IH. case_match; [done|].
  unfold EvaluateElementWiseProduct. subst rep. cbn [V_Params EvalKey]. rewrite Hnone.
  pose proof (mul_needs_key cq ct) as Hk. by destruct (MulRelinNew _ None cq ct).
Qed.

(** The examples: the scheme without secrecy, two-dimensional embeddings, and a
    document that cannot be embedded. *)
#[local] Existing Instance ascii_tables.
#[local] Existing Instance ascii_letters.
#[local] Existing Instance ascii_folding.
Definition pair_embedder : Embedder := {|
  Embed := fun text =>
    if decide (text = "unknown") then Ret (Err (Errorf "no embedding"))
    else if HasPrefix text "a" then Ret (Ok [one32; zero32]) else Ret (Ok [zero32; one32]);
  Dimension := 2 |}.
#[local] Existing Instance pair_embedder.
Definition plain_product : @VectorLib plain_scheme plain_keylib := fun _ evk a b =>
  match evk with
  | Some _ => Ok (zip_with (fun u v => (u * v) mod DefaultPlaintextModulus) a b)
  | None => Err (Errorf "relinearization key is missing")
  end.
#[local] Existing Instances plain_scheme plain_keylib plain_product.
Lemma plain_vector_laws (ks : VectorKeys) : VectorLaws ks.
Proof.
  split; [|reflexivity]. intros x y a b c (_ & _ & p1 & [= ->] & [= ->]) (_ & _ & p2 & [= ->] & [= ->]) Hc.
  unfold MulRelinNew, plain_product in Hc. destruct (EvaluationKey ks); [|discriminate]. injection Hc as <-. reflexivity.
Qed.
Definition pair_docs : list (source * nat) := map (fun t => ({| s_path := "/d/" +:+ t +:+ ".txt"; s_content := t; s_stat := None; s_now := 0 |}, 0%nat))
  ["alpha"; "unknown"; "beta"].
Definition pair_normalizer : Normalizer := fun s => s.
#[local] Existing Instance pair_normalizer.
Definition pair_index : outcome CompositeIndex := AddDocuments pair_docs (NewCompositeIndex (Some (NewVectorIndex 4 10))).
Definition pair_parts : VectorIndex * InvertedIndex :=
  match pair_index with Ret {| Keyword := idx; Vector := Some vi |} => (vi, idx) | _ => (NewVectorIndex 4 10, NewInvertedIndex) end.
Definition pair_replica : result EncryptedVectorReplica :=
  BuildEncryptedVectorReplica (fun _ => 0) map_to_list pair_parts.1 pair_parts.2 plain_vector_keys zero64 0.
Definition pair_query : list Z := [0; 100; 0; 0].
(** The best match of the query is "beta", document 2; its result has number 1. *)
Example pair_search : match pair_replica with
  | Ok replica => map (fun r => (S_DocID r, S_Score r)) (SearchReplica replica pair_query None plain_vector_keys 5)
  | Err _ => [] end = [(1, one32); (0, zero32)].
Proof. vm_compute. reflexivity. Qed.
Definition pair_ints (v : list spec_float) : list Z := map (fun x => if flt zero32 x then 100 else 0) v.

Lemma dot_product_exact_witness :
  DecryptDotProduct [10000; 0; 0; 0] tt tt DefaultScale 2 = Ok (dot_score (dot [100; 0] [100; 0]) DefaultScale).
Proof.
  assert (Hr : Forall2 (rounds_to DefaultScale) [one32; zero32] [100; 0])
    by (repeat constructor; apply (bool_decide_unpack _); vm_compute; exact I).
  assert (Hs : Forall small [100; 0]) by (repeat constructor; unfold small; lia).
  apply (dot_product_exact plain_scheme plain_keylib plain_product plain_vector_keys (plain_vector_laws _) (fun _ => 0)
    DefaultScale [one32; zero32] [one32; zero32] [100; 0] [100; 0] [100; 0; 0; 0] [100; 0; 0; 0]);
    first [exact Hr|exact Hs|reflexivity|cbn; lia].
Defined.
Example slots_wrap : map centered (zip_with (fun u v => (u * v) mod DefaultPlaintextModulus) [182] [182]) = [182 * 182 - 65537].
Proof. reflexivity. Qed.
Definition embedding_ok (v : list spec_float) : bool :=
  bool_decide (Forall2 (rounds_to DefaultScale) v (pair_ints v)) && forallb (fun z => (-181 <=? z) && (z <=? 181)) (pair_ints v) &&
  (length v =? 2)%nat.
Lemma pair_embeddings (id : Z) (v : list spec_float) : id ∈ map Z.of_nat (seq 0 (DocCount pair_parts.2)) ->
  GetEmbedding map_to_list pair_parts.1 id = Some v ->
  Forall2 (rounds_to DefaultScale) v (pair_ints v) /\ Forall small (pair_ints v) /\ length v = 2%nat.
Proof.
  assert (H : forallb (fun id => match GetEmbedding map_to_list pair_parts.1 id with Some v => embedding_ok v | None => true end)
    (map Z.of_nat (seq 0 (DocCount pair_parts.2))) = true) by (vm_compute; reflexivity).
  intros Hid Hv. rewrite forallb_forall in H. apply list_elem_of_In in Hid. specialize (H id Hid). rewrite Hv in H.
  unfold embedding_ok in H. apply andb_prop in H as [[H1 H2]%andb_prop H3].
  split; [by apply bool_decide_eq_true in H1|]. split; [|by apply Nat.eqb_eq].
  apply Forall_forall. intros z Hz. rewrite forallb_forall in H2. apply list_elem_of_In in Hz. specialize (H2 z Hz). unfold small. lia.
Qed.
Lemma pair_replica_ok : exists replica, pair_replica = Ok replica /\ Scale replica = DefaultScale.
Proof.
  assert (H : match pair_replica with Ok replica => bool_decide (Scale replica = DefaultScale) | Err _ => false end = true)
    by (vm_compute; reflexivity).
  destruct pair_replica as [replica|]; [|discriminate]. exists replica. split; [done|]. by apply bool_decide_eq_true in H.
Qed.
Lemma search_replica_witness : exists replica l, pair_replica = Ok replica /\
  SearchReplica replica pair_query None plain_vector_keys 5 =
    map (replica_result (map fst (doc_entries pair_ints (GetEmbedding map_to_list pair_parts.1) pair_parts.2
      (map Z.of_nat (seq 0 (DocCount pair_parts.2)))))) (upto 5 l).
Proof.
  destruct pair_replica_ok as (replica & Hb & Hs). exists replica.
  assert (Hq : Forall2 (rounds_to DefaultScale) [zero32; one32] [0; 100])
    by (repeat constructor; apply (bool_decide_unpack _); vm_compute; exact I).
  destruct (search_replica plain_scheme plain_keylib plain_product ascii_tables ascii_folding pair_embedder plain_vector_keys
    (plain_vector_laws _) (fun _ => 0) map_to_list pair_parts.1 pair_parts.2 zero64 0 5 replica pair_ints
    [zero32; one32] [0; 100] pair_query None) as (l & _ & _ & Hl).
  - exact Hb.
  - rewrite Hs. exact pair_embeddings.
  - rewrite Hs. exact Hq.
  - repeat constructor; unfold small; lia.
  - reflexivity.
  - cbn. lia.
  - rewrite Hs. vm_compute. reflexivity.
  - reflexivity.
  - exists l. split; [exact Hb|exact Hl].
Defined.
Lemma quantize_dequantize_witness :
  QuantizeVector (fun _ => 0) (DequantizeVector [100; 65437] DefaultScale 2) DefaultScale = [100; 65437].
Proof. apply (quantize_dequantize (fun _ => 0) [100; -100]). repeat constructor; unfold small; lia. Defined.
Definition reloaded : VectorKeys := {| base := base plain_vector_keys; EvaluationKey := None |}.
Lemma loaded_keys_find_nothing_witness :
  match BuildEncryptedVectorReplica (fun _ => 0) map_to_list pair_parts.1 pair_parts.2 reloaded zero64 0 with
  | Ok replica => SearchReplica replica pair_query None reloaded 5 = []
  | Err _ => False
  end.
Proof.
  assert (Ho : is_ok (BuildEncryptedVectorReplica (fun _ => 0) map_to_list pair_parts.1 pair_parts.2 reloaded zero64 0) = true)
    by (vm_compute; reflexivity).
  destruct (BuildEncryptedVectorReplica _ _ _ _ reloaded _ _) as [replica|] eqn:Hb; [|discriminate].
  exact (loaded_keys_find_nothing plain_scheme plain_keylib plain_product ascii_tables ascii_folding pair_embedder plain_cipher no_faults
    "/k" "secret" saved.2 reloaded (plain_vector_laws _) (fun _ => 0) map_to_list pair_parts.1 pair_parts.2 zero64 0 5 replica
    pair_query None saved_loads Hb).
Defined.
